(* ===== verification/_CoqProject ===== *)
-Q . S2P
Prelude.v
CppString.v
Buffer.v
HttpUtils.v
Header.v
Request.v
Connection.v
Response.v
Cache.v
CacheSpec.v
CacheRace.v
CacheFilling.v
ResourceCache.v
RacingCache.v
HonestCache.v
HttpServer.v
Serving.v
NetAddress.v
Socket.v
Reactor.v
ThreadPool.v
Server.v
WebServer.v
NamedFiles.v
Surviving.v
WebRace.v
Epoll.v
Logger.v
Echo.v
Classes.v
Tests.v
CompilerId.v
CompilerIds.v
