(* ===== verification/Prelude.v ===== *)
(** * Icee: a verification development

    Icee (src/) is a small multi-threaded HTTP server: an acceptor takes TCP
    connections on a listener loop and hands each to one of several reactor loops,
    one per thread of a pool; a reactor polls its connections and runs the user's
    handler when data arrive; the HTTP handler drains the socket, cuts requests off
    the connection's buffer, parses them, and answers from the file system through
    a shared LRU cache.  An asynchronous logger runs beside it.  This development
    models that program, file by file, and proves what makes it correct; where it
    does not do what it means to, that is stated and proved as well.

    ** The files, in dependency order

    - Prelude (this file): bytes, faults, the error and state monads, fixed-width
      integers, automation ([mstep], [mred], [size_lia], [decided], the hint
      databases [icee]), invariants over reachable states.
    - CppString: the [std::string] operations the code uses.
    - Buffer: [Icee::Buffer] (core/buffer.cc).  [FindAndPopTill] frames requests.
    - HttpUtils: http/http_utils.cc: splitting, trimming, tables, file access.
    - Header, Request, Response: http/header.cc, request.cc, response.cc.
    - Connection: core/connection.cc, with the kernel's side of a socket.
    - Cache: core/cache.cc at the level of pointers; CacheSpec: what it promises
      (an abstract LRU list) and the refinement proof; CacheRace: [TryLoad] split
      into memory accesses, for the lookups its shared lock lets run together;
      CacheFilling: whole runs of such lookups and of insertions; ResourceCache: the
      interfaces (classes) the HTTP handler is verified against, the laws of a cache
      used alone and those of one that other threads use in between, with the cache,
      the abstract list and the shared cache as instances; RacingCache: one more
      instance, the cache with interleaved lookups; HonestCache: what such a cache
      still promises when it evicts.
    - HttpServer: [ParseHttpRequest] of http/http_server.cc and its specification
      [serve]; Serving: the handler on a shared cache ([web_reply], the answer as a
      function of the bytes), and every way a call of it can end.
    - NetAddress, Socket: core/net_address.cc, core/socket.cc.
    - Reactor: core/poller.cc, eventLooper.cc, acceptor.cc; the threads of the
      loops as a step relation, and the ownership invariant.
    - ThreadPool: threadSafeQueue.h, threadPool.h, joiner.h as a step relation.
    - Server: icee_server.h, and the arguments of [main] of http_server.cc.
    - WebServer: all of it together: [main], the lambda it installs, the loops with
      the HTTP handler, the clients' sockets and the shared cache, as one step
      relation; NamedFiles: that relation where clients ask for given paths only;
      Surviving: that relation on a cache that may stop the server, against the one
      that may not; WebRace: all of it on the cache with interleaved lookups.
    - Epoll: the Linux side of core/poller.cc.
    - Logger: log/logger.cc as a state machine of its critical sections.
    - Echo: simple_demo/ (the echo server and client), and src/Timer.
    - Classes: core/utils.h and the special members of every class.
    - Tests: the test cases of src/test, run on the model.
    - CompilerId: the programs CMake generated into the tree to identify the C and
      C++ compilers, their preprocessor conditions, their strings and their [main],
      as a function of what they differ in; CompilerIds: the four of them
      (src/build/CMakeFiles/3.22.2/, src/cmake-build-debug/CMakeFiles/3.24.2/).

    Each definition carries the name of the function, method or class it models
    (constructors are [<Class>_ctor], overloads get a suffix); a class is a record
    with the class's members, an enum an inductive type.

    ** How C++ is modelled

    A function that always returns is a Rocq function; one that may throw, assert,
    exit or run into undefined behaviour returns a [result], whose failures are the
    [fault]s below, or runs in the state monad [stM] over the object it mutates.
    [int] and [size_t] are [Z] with their conversions written out ([to_int],
    [to_size_t], ...) wherever the code converts, and checked [int] arithmetic.
    Where pointers and ownership matter (cache, connections) objects live in a heap
    and a stale pointer is a fault.  Uninitialised members are [None].  System calls
    and clocks are inputs: lists of results or arguments chosen by the environment,
    so that theorems hold for every behaviour of the network and the kernel that their
    hypotheses admit.  A file may be missing, unreadable or out of reach; a peer may
    break off in the middle of a [send], or never read again.
    [inet_pton] and [inet_ntop] are parameters (NetAddress).  Code under a lock is
    one atomic step; different threads interleave as sequences of steps, explicit
    schedules (CacheRace), step relations (Reactor, ThreadPool) or event traces
    (Logger).

    Loops whose recursion is not structural take fuel, and each has a lemma that
    the fuel given suffices, so the theorems state that the functions return:
    [Split_loop] and [pop_frames] use one more than the input's length (each round
    consumes at least a byte), [request_loop] one more than the buffer's length
    (each round pops at least the four bytes of the request's end), [evict_loop] one
    more than the number of cached entries (each round removes one).  Loops that
    consume a list of system-call results recurse on that list; a [send] that would be
    refused for ever is one result of it, [SendStuck], and a call that meets it has
    the outcome [NoReturn].

    ** What the theorems show

    - The web server: from [main] on, under every interleaving of deliveries,
      accepts, polls and handlers on all loops, with the cache shared: each client is
      sent answers, in order, to what it sent itself; once its callback has run, what
      waited is answered, up to a request that closes the connection or one for a CGI
      program; no step faults.  The answers are those the file system allows: for GET
      requests the bytes are determined, a HEAD may or may not get a body, a CGI
      request gets nothing and holds up the requests after it.  The environment
      ([may_deliver], [may_run], [may_report]) is one in which peers take what is
      sent, what is asked for is missing or a readable file of 1 to 2^31 - 1 bytes
      ([servable_data]: no directory, no empty file), and [accept], [fcntl] and
      [kevent] succeed ([accept] may find nobody).
    - The race on the cache: lookups under the shared lock run without a fault and
      answer as they would alone, on any number of threads; they lose the order of
      eviction, and a later eviction may fail its assertion or destroy a node that is
      still linked.  Whatever happens to that order, what the cache returns for a path
      are bytes that were stored for it: no client is ever sent what it did not ask
      for, the server may only stop.  Until the first eviction the cache answers as a
      map, and a server whose clients name, in finitely many spellings, files that
      fit the cache together, once per spelling, does not stop.
    - Termination: [ParseHttpRequest] returns, but for the cases the theorem lists: a
      request for something that makes it throw or fail, a peer that breaks off
      (SIGPIPE), and one that never reads again, for which alone it does not end.
    - Parsing: [Split], [Trim], [Format] compute their declarative specifications;
      the request constructor returns on all inputs below 2^31 bytes and accepts
      exactly an explicit grammar; accepted requests are well formed; printed
      requests and headers parse back.  [Join] and the header parser misplace colons.
    - Framing: [FindAndPopTill] is correct on both branches, and framing does not
      depend on segmentation; responses are messages a client can frame, with the
      declared length equal to the body's.
    - Cache: every sequence of operations refines the abstract LRU list, without a
      fault or a leak and within capacity, for data below 2^31 bytes; above, the
      size check fails; two concurrent lookups can corrupt the list so that the
      next eviction fails its assertion.
    - Network: [Recv] drains exactly what arrived, [Send] puts the write buffer on
      the wire in order, trying again without pause while the socket is full, for
      ever if it stays full.
    - Handler: [ParseHttpRequest] implements [serve]; GET answers carry exactly the
      file's bytes, cached or not; the cache stays coherent with the file system;
      segmentation is invisible.  A HEAD for a cached resource gets a body, a
      directory ends the server, data that come with the end of stream are dropped,
      a CGI request is not answered, [..] leaves the served directory.
    - Ownership: in every reachable state each connection belongs to one loop, no
      registered or pending pointer dangles, dispatch never faults, dropped
      connections are fully released; the constructor establishes the invariant.
      The kqueue poller clears the wrong part of its event array.
    - Pool and logger: FIFO and conservation, and that, until they are stopped, tasks
      are started and messages flushed; the shutdown hangs and losses; a log file per
      day, of which each flush keeps only itself.
    - Objects: what the macros of utils.h forbid.
    - The unit tests hold on the model, but for the IPv6 address test.
    - Compiler identification: whatever is predefined, a compiler, a platform, an
      architecture and a standard are named; the version of GCC reads back; [main]
      indexes its strings safely up to 11 arguments (15 in C++); the two releases of
      CMake identify alike every compiler that neither has macros of its own for.
    - Sockets and addresses: ownership of descriptors under moves, the IPv4 round
      trip, the IPv6 overrun, command-line ports modulo 2^16.

    ** Not modelled

    The epoll [AddConnection] of the poller, which is not valid C++ (the kqueue one
    is modelled), debugging output ([printf]), the code of [Cgier] (declared only),
    memory exhaustion, a file system that changes while the server runs, and the
    weak-memory effects of the data races: the race on the
    cache is modelled under interleaving of its accesses (a step of WebServer is a
    whole callback, in which the other threads use the cache; in WebRace their
    lookups interleave with the callback's, access by access).  Two handlers are never
    both in the middle of a callback: they share nothing but the cache, and what the
    other threads do to it between two operations of a handler is already arbitrary
    (ResourceCache).  Of the generated build directories only the compiler
    identification is code.  The framework of the unit tests is vendored code.
    The cache test logs and asserts nothing; it has no model.

    ** What could follow

    A callback as a sequence of steps, one for each operation on the cache, in place
    of the interference between them; a memory model in which the unlocked accesses
    of [TryLoad] are not sequentially consistent. *)

From Stdlib Require Export Ascii ZArith Lia.
From stdpp Require Export base tactics list numbers option sets fin_maps gmap strings.

#[export] Set Warnings "-clear-no-such-hyp".

(** ** Bytes

    Both [std::string] and [std::vector<unsigned char>] are sequences of bytes,
    and the code moves data between the two with [reinterpret_cast]; one type
    models both. *)

Abbreviation bytes := (list ascii).

(** A string literal of the source, as bytes. *)
Definition lit (s : string) : bytes := String.list_ascii_of_string s.

(** ** Faults

    Everything that stops a C++ function from returning normally.  The first
    group is undefined behaviour, the second ends the process or unwinds it
    ([Killed]: by a signal); a call that never comes back is [NoReturn]; and the
    last one only arises in a model whose fuel is too small (each theorem on such a
    function shows that it does not arise). *)

Inductive fault :=
  | NullPointer
  | DanglingPointer
  | OutOfRange
  | Uninitialised
  | SignedOverflow
  | DivisionByZero
  | AssertionFailed
  | Thrown (what : string)
  | Exited
  | Killed
  | NoReturn
  | FuelExhausted.

#[export] Instance fault_eq_dec : EqDecision fault.
Proof. solve_decision. Defined.

Inductive result (A : Type) :=
  | Ok (a : A)
  | Fail (f : fault).
Arguments Ok {_} _.
Arguments Fail {_} _.

#[export] Instance result_eq_dec {A} `{EqDecision A} : EqDecision (result A).
Proof. solve_decision. Defined.

#[export] Instance result_ret : MRet result := λ A, Ok.
#[export] Instance result_bind : MBind result := λ A B k m,
  match m with Ok a => k a | Fail f => Fail f end.
#[export] Instance result_fmap : FMap result := λ A B f m,
  match m with Ok a => Ok (f a) | Fail e => Fail e end.
#[export] Instance result_throw : MThrow fault result := λ A f, Fail f.

(** ** A state monad over [result]: [stM S A] runs on a state [S] *)

Definition stM (S A : Type) : Type := S → result (A * S).

#[export] Instance stM_ret {S} : MRet (stM S) := λ A a s, Ok (a, s).
#[export] Instance stM_bind {S} : MBind (stM S) := λ A B k m s,
  match m s with Ok (a, s') => k a s' | Fail f => Fail f end.
#[export] Instance stM_throw {S} : MThrow fault (stM S) := λ A f s, Fail f.

Definition get {S} : stM S S := λ s, Ok (s, s).
Definition gets {S A} (f : S → A) : stM S A := λ s, Ok (f s, s).
Definition modify {S} (f : S → S) : stM S unit := λ s, Ok (tt, f s).
Definition lift {S A} (r : result A) : stM S A := λ s,
  match r with Ok a => Ok (a, s) | Fail f => Fail f end.
Definition ensure {S} (f : fault) (b : bool) : stM S unit :=
  if b then mret tt else mthrow f.

(** [is_ok r]: the computation returned. *)
Definition is_ok {A} (r : result A) : Prop := ∃ a, r = Ok a.

(** ** Fixed-width integers

    Conversions to a narrower or a differently signed type wrap; arithmetic on
    [int] is undefined when the mathematical result does not fit. *)

Definition wrap_u (w z : Z) : Z := (z `mod` 2 ^ w)%Z.
Definition wrap_s (w z : Z) : Z := ((z + 2 ^ (w - 1)) `mod` 2 ^ w - 2 ^ (w - 1))%Z.

Abbreviation to_uint16 := (wrap_u 16).
Abbreviation to_uint32 := (wrap_u 32).
Abbreviation to_uint64 := (wrap_u 64).
Abbreviation to_size_t := (wrap_u 64).
Abbreviation to_int := (wrap_s 32).

Definition in_int (z : Z) : Prop := (- 2 ^ 31 ≤ z < 2 ^ 31)%Z.
#[export] Instance in_int_dec z : Decision (in_int z).
Proof. unfold in_int. apply _. Defined.

Definition checked_int (z : Z) : result Z :=
  if decide (in_int z) then Ok z else Fail SignedOverflow.
Definition int_add (a b : Z) : result Z := checked_int (a + b).
Definition int_sub (a b : Z) : result Z := checked_int (a - b).

(** Number of elements of a container, as the [size_t] its [size()] returns
    (a container never holds [2^64] elements). *)
Definition size_of {A} (l : list A) : Z := Z.of_nat (length l).

(** ** Automation *)

Create HintDb icee.
Create Rewrite HintDb icee.

Lemma wrap_u_id w z : (0 ≤ z < 2 ^ w)%Z → wrap_u w z = z.
Proof. apply Z.mod_small. Qed.

Lemma wrap_u_range w z : (0 ≤ w)%Z → (0 ≤ wrap_u w z < 2 ^ w)%Z.
Proof. intros. apply Z.mod_pos_bound. lia. Qed.

Lemma wrap_s_id w z : (- 2 ^ (w - 1) ≤ z < 2 ^ (w - 1))%Z → (0 < w)%Z → wrap_s w z = z.
Proof.
  intros Hz Hw. unfold wrap_s.
  assert (2 ^ w = 2 * 2 ^ (w - 1))%Z as Hp by (rewrite <-Z.pow_succ_r by lia; f_equal; lia).
  rewrite Z.mod_small; lia.
Qed.

Lemma wrap_s_range w z :
  (0 < w)%Z → (- 2 ^ (w - 1) ≤ wrap_s w z < 2 ^ (w - 1))%Z.
Proof.
  intros Hw. unfold wrap_s.
  assert (2 ^ w = 2 * 2 ^ (w - 1))%Z as Hp by (rewrite <-Z.pow_succ_r by lia; f_equal; lia).
  pose proof (Z.mod_pos_bound (z + 2 ^ (w - 1)) (2 ^ w)). lia.
Qed.

Lemma to_int_id z : in_int z → to_int z = z.
Proof. intros. apply wrap_s_id; [exact H|lia]. Qed.

Lemma in_int_to_int z : in_int (to_int z).
Proof. apply (wrap_s_range 32 z). lia. Qed.

Lemma checked_int_ok z : in_int z → checked_int z = Ok z.
Proof. intros. unfold checked_int. by rewrite decide_True. Qed.

Lemma size_of_nonneg {A} (l : list A) : (0 ≤ size_of l)%Z.
Proof. unfold size_of. lia. Qed.

Lemma size_of_app {A} (l k : list A) : size_of (l ++ k) = (size_of l + size_of k)%Z.
Proof. unfold size_of. rewrite length_app. lia. Qed.

#[export] Hint Resolve size_of_nonneg in_int_to_int : icee.
#[export] Hint Rewrite @size_of_app : icee.

(** Running a bind whose first part is known to return. *)
Lemma stM_bind_ok {S A B} (m : stM S A) (k : A → stM S B) s a s' :
  m s = Ok (a, s') → (m ≫= k) s = k a s'.
Proof. unfold mbind, stM_bind. by intros ->. Qed.

Lemma stM_bind_fail {S A B} (m : stM S A) (k : A → stM S B) s f :
  m s = Fail f → (m ≫= k) s = Fail f.
Proof. unfold mbind, stM_bind. by intros ->. Qed.

Lemma result_bind_ok {A B} (m : result A) (k : A → result B) a :
  m = Ok a → (m ≫= k) = k a.
Proof. by intros ->. Qed.

Lemma fmap_result_ok {A B} (f : A → B) (m : result A) b :
  f <$> m = Ok b → ∃ a, m = Ok a ∧ b = f a.
Proof. destruct m; [|done]. intros [= <-]. eauto. Qed.

Lemma fmap_result_fail {A B} (f : A → B) (m : result A) e : f <$> m = Fail e → m = Fail e.
Proof. by destruct m; intros [=->]. Qed.

Lemma stM_bind_inv {S A B} (m : stM S A) (k : A → stM S B) s b s'' :
  (m ≫= k) s = Ok (b, s'') → ∃ a s', m s = Ok (a, s') ∧ k a s' = Ok (b, s'').
Proof. unfold mbind, stM_bind. destruct (m s) as [[a s']|] eqn:E; naive_solver. Qed.

Lemma stM_bind_assoc {S A B C} (m : stM S A) (k : A → stM S B) (l : B → stM S C) s :
  ((m ≫= k) ≫= l) s = (m ≫= (λ a, k a ≫= l)) s.
Proof. unfold mbind, stM_bind. by destruct (m s) as [[a s']|]. Qed.

(** [mstep H] runs the first action of the monadic goal with the equation [H]
    that gives its result. *)
Ltac mstep H :=
  first [ rewrite (stM_bind_ok _ _ _ _ _ H) | rewrite (stM_bind_fail _ _ _ _ H)
        | rewrite (result_bind_ok _ _ _ H) ].

(** [mred] reduces the monad operations to the matches they stand for. *)
Ltac mred :=
  cbv beta iota delta
    [mret mbind mthrow result_ret result_bind result_throw stM_ret stM_bind
     stM_throw get gets modify lift ensure fst snd] in *.

(** Linear arithmetic over the sizes of lists. *)
Ltac size_lia :=
  unfold size_of in *; rewrite ?length_app, ?length_take, ?length_drop in *;
  cbn [length] in *; lia.

(** Closed decidable facts, by evaluation. *)
Ltac decided := match goal with |- ?P => refine (@bool_decide_unpack P _ _); vm_compute; exact I end.

(** ** Computations that follow one another

    [follows emb m m']: whenever [m] returns, [m'] returns the same from the state
    [emb] makes of its state, and the states at the end correspond too; where [m]
    does not return nothing is said. *)

Section Follows.
Context {S T : Type} (emb : S → T).

Definition follows {A} (m : stM S A) (m' : stM T A) : Prop :=
  ∀ s a s', m s = Ok (a, s') → m' (emb s) = Ok (a, emb s').

Lemma follows_ret {A} (a : A) : follows (mret a) (mret a).
Proof. by intros s a' s' [= <- <-]. Qed.

Lemma follows_throw {A} (f : fault) (m' : stM T A) : follows (mthrow f) m'.
Proof. by intros s a s' E. Qed.

Lemma follows_lift {A} (r : result A) : follows (lift r) (lift r).
Proof. intros s a s'. unfold lift. destruct r; [|done]. by intros [= <- <-]. Qed.

Lemma follows_gets {A} (f : S → A) (g : T → A) : (∀ s, g (emb s) = f s) → follows (gets f) (gets g).
Proof. intros E s a s' [= <- <-]. unfold gets. by rewrite E. Qed.

Lemma follows_bind {A B} (m : stM S A) m' (k : A → stM S B) k' :
  follows m m' → (∀ a, follows (k a) (k' a)) → follows (m ≫= k) (m' ≫= k').
Proof.
  intros Hm Hk s b s'' (a & s' & H1 & H2)%stM_bind_inv. rewrite (stM_bind_ok _ _ _ _ _ (Hm _ _ _ H1)).
  by apply Hk.
Qed.
End Follows.

#[export] Hint Resolve follows_ret follows_throw follows_lift : icee.

(** ** Reachability over a step relation (reflexive transitive closure) *)

Section Reachability.
Context {State : Type} (step : State → State → Prop).

(** An invariant of the initial states that every step preserves holds in every
    reachable state. *)
Lemma invariant_rtc (Inv : State → Prop) s s' :
  (∀ x y, step x y → Inv x → Inv y) → rtc step s s' → Inv s → Inv s'.
Proof. intros Hstep. induction 1; eauto. Qed.
End Reachability.
