(* ===== verification/CppString.v ===== *)
(** * The operations of [std::string] the code uses

    [find], [substr], [find_first_not_of], [find_last_not_of], [find_last_of],
    [back] and [toupper], over {!bytes}.  Positions are [size_t] values held in
    [Z]; [std::string::npos] is [None].  The lemmas say what [find] finds, and
    how a match behaves when more data is appended, which is what the request
    framing of the server rests on. *)

From S2P Require Import Prelude.

(** Offset of the leftmost occurrence of [d] in [s]. *)
Fixpoint index_of (d s : bytes) : option nat :=
  if decide (d `prefix_of` s) then Some 0
  else match s with
       | [] => None
       | _ :: s' => S <$> index_of d s'
       end.

(** [s.find(d, pos)] *)
Definition find (s d : bytes) (pos : Z) : option Z :=
  if (size_of s <? pos)%Z then None
  else (λ n, pos + Z.of_nat n)%Z <$> index_of d (drop (Z.to_nat pos) s).

(** [s.substr(pos, n)]: throws when [pos] is past the end, clips [n]. *)
Definition substr (s : bytes) (pos n : Z) : result bytes :=
  if (size_of s <? pos)%Z then Fail (Thrown "std::out_of_range")
  else Ok (take (Z.to_nat n) (drop (Z.to_nat pos) s)).

(** Offsets of the first and the last byte that satisfy [p]. *)
Fixpoint first_index (p : ascii → bool) (s : bytes) : option nat :=
  match s with
  | [] => None
  | c :: s' => if p c then Some 0 else S <$> first_index p s'
  end.

Fixpoint last_index (p : ascii → bool) (s : bytes) : option nat :=
  match s with
  | [] => None
  | c :: s' => match last_index p s' with
               | Some n => Some (S n)
               | None => if p c then Some 0 else None
               end
  end.

Definition in_set (delim : bytes) (c : ascii) : bool := bool_decide (c ∈ delim).
Definition find_first_not_of (s delim : bytes) : option nat :=
  first_index (λ c, negb (in_set delim c)) s.
Definition find_last_not_of (s delim : bytes) : option nat :=
  last_index (λ c, negb (in_set delim c)) s.
Definition find_last_of (s delim : bytes) : option nat :=
  last_index (in_set delim) s.

(** [toupper] of the "C" locale. *)
Definition toupper (c : ascii) : ascii :=
  let n := N_of_ascii c in
  if ((97 <=? n) && (n <=? 122))%N then ascii_of_N (n - 32) else c.

(** [std::to_string] of a non-negative value, in decimal. *)
Definition digit (d : nat) : ascii := ascii_of_nat (48 + d).

Fixpoint digits (fuel n : nat) (acc : bytes) : bytes :=
  match fuel with
  | 0 => acc
  | S fuel => let acc := digit (n `mod` 10) :: acc in
              if decide (n < 10) then acc else digits fuel (n `div` 10) acc
  end.

Definition to_string (n : nat) : bytes := digits (S n) n [].

(** The value a decimal numeral denotes. *)
Definition numeral_value (s : bytes) : nat :=
  foldl (λ v c, 10 * v + (nat_of_ascii c - 48)) 0 s.

(** ** [index_of] *)

Lemma index_of_Some d s n :
  index_of d s = Some n →
  s = take n s ++ d ++ drop (n + length d) s ∧ n + length d ≤ length s.
Proof.
  revert n. induction s as [|c s IH]; intros n; simpl.
  - case_decide as Hp; [|done]. intros [= <-].
    apply prefix_nil_inv in Hp as ->. done.
  - case_decide as Hp.
    + intros [= <-]. destruct Hp as [k Hk]. rewrite Hk. simpl.
      rewrite drop_app_length. split; [done|].
      apply (f_equal length) in Hk. rewrite length_app in Hk. simpl in Hk. lia.
    + destruct (index_of d s) as [m|] eqn:E; [|done]. intros [= <-].
      destruct (IH m eq_refl) as [Hs Hl]. simpl. split; [by f_equal|lia].
Qed.

(** [occurs d s]: some occurrence of [d] starts in [s]. *)
Definition occurs (d s : bytes) : Prop := ∃ p, p ++ d `prefix_of` s.

Lemma index_of_least d s n p :
  index_of d s = Some n → p ++ d `prefix_of` s → n ≤ length p.
Proof.
  revert n p. induction s as [|c s IH]; intros n p; simpl.
  - case_decide; [|done]. intros [= <-] _. lia.
  - case_decide as Hd; [intros [= <-]; lia|].
    destruct (index_of d s) as [m|] eqn:E; [|done]. intros [= <-].
    destruct p as [|c' p]; simpl; [done|]. intros Hp%prefix_cons_inv_2.
    apply (IH m p eq_refl) in Hp. lia.
Qed.

Lemma index_of_None d s : index_of d s = None → ¬ occurs d s.
Proof.
  induction s as [|c s IH]; simpl.
  - case_decide as Hd; [done|]. intros _ [p Hp%prefix_nil_inv].
    apply app_nil in Hp as [_ ->]. done.
  - case_decide as Hd; [done|]. destruct (index_of d s) as [m|] eqn:E; [done|].
    intros _ [[|c' p] Hp]; simpl in Hp; [done|].
    apply prefix_cons_inv_2 in Hp. apply IH; [done|]. by exists p.
Qed.

Lemma occurs_index_of d s : occurs d s → ∃ n, index_of d s = Some n.
Proof.
  intros Hp. destruct (index_of d s) eqn:E; [eauto|]. by apply index_of_None in E.
Qed.

(** The leftmost occurrence is what [index_of] returns. *)
Lemma index_of_intro d p k :
  (∀ q, q ++ d `prefix_of` p ++ d ++ k → length p ≤ length q) →
  index_of d (p ++ d ++ k) = Some (length p).
Proof.
  intros Hmin. destruct (occurs_index_of d (p ++ d ++ k)) as [n Hn].
  { exists p. rewrite app_assoc. by apply prefix_app_r. }
  rewrite Hn. f_equal. apply Nat.le_antisymm.
  - eapply index_of_least; [done|]. rewrite app_assoc. by apply prefix_app_r.
  - pose proof (index_of_Some _ _ _ Hn) as [Hs Hl].
    specialize (Hmin (take n (p ++ d ++ k))).
    rewrite length_take in Hmin. etrans; [apply Hmin|lia].
    exists (drop (n + length d) (p ++ d ++ k)). by rewrite <-app_assoc.
Qed.

Lemma prefix_of_app_inv {A} (q s t : list A) :
  q `prefix_of` s ++ t → length q ≤ length s → q `prefix_of` s.
Proof.
  intros Hq Hl. destruct (prefix_weak_total q s (s ++ t)) as [H|H]; [done| |done|].
  - by apply prefix_app_r.
  - apply prefix_length_eq in H as ->; [done|]. lia.
Qed.

(** A match survives appending more data. *)
Lemma index_of_app d s t n : index_of d s = Some n → index_of d (s ++ t) = Some n.
Proof.
  intros H. pose proof (index_of_Some _ _ _ H) as [Hs Hl].
  assert (length (take n s) = n) as Hn by (rewrite length_take; lia).
  rewrite Hs, <-!app_assoc.
  replace (Some n) with (Some (length (take n s))) by (by rewrite Hn).
  apply index_of_intro. intros q Hq.
  destruct (decide (length q < n)); [|lia].
  rewrite Hn. eapply index_of_least; [done|].
  rewrite Hs. eapply (prefix_of_app_inv _ _ t); [by rewrite <-!app_assoc|].
  rewrite <-Hs, length_app. lia.
Qed.

(** When the first byte of the needle does not stand before it, the match is there. *)
Lemma index_of_fresh c d p k :
  c ∉ p → index_of (c :: d) (p ++ (c :: d) ++ k) = Some (length p).
Proof.
  intros Hc. apply index_of_intro. intros q Hq.
  destruct (decide (length q < length p)) as [Hlt|]; [|lia]. exfalso. apply Hc.
  destruct Hq as [r Hr].
  apply (f_equal (lookup (length q))) in Hr.
  rewrite lookup_app_l in Hr by done.
  rewrite <-app_assoc in Hr. cbn [app] in Hr.
  rewrite list_lookup_middle in Hr by done.
  by eapply list_elem_of_lookup_2.
Qed.

Lemma index_of_absent c d s : c ∉ s → index_of (c :: d) s = None.
Proof.
  intros Hc. destruct (index_of (c :: d) s) as [n|] eqn:E; [|done].
  apply index_of_Some in E as [E _]. exfalso. apply Hc. rewrite E. set_solver.
Qed.

(** ** [find] *)

Lemma find_Some s d pos n :
  find s d pos = Some n → (0 ≤ pos)%Z →
  (pos ≤ n)%Z ∧ (n + size_of d ≤ size_of s)%Z ∧
  index_of d (drop (Z.to_nat pos) s) = Some (Z.to_nat (n - pos)).
Proof.
  unfold find, size_of. case_match eqn:E; [done|]. apply Z.ltb_ge in E.
  intros (m & Hm & ->)%fmap_Some Hpos.
  pose proof (index_of_Some _ _ _ Hm) as [_ Hl]. rewrite length_drop in Hl.
  split; [lia|]. split; [lia|]. rewrite Hm. f_equal. lia.
Qed.

(** ** [first_index] and [last_index] *)

Lemma first_index_app p s t :
  first_index p (s ++ t) =
  match first_index p s with
  | Some n => Some n
  | None => (λ n, length s + n) <$> first_index p t
  end.
Proof.
  induction s as [|c s IH]; simpl; [by destruct (first_index p t)|].
  destruct (p c); [done|]. rewrite IH.
  destruct (first_index p s); [done|]. by destruct (first_index p t).
Qed.

Lemma last_index_app p s t :
  last_index p (s ++ t) =
  match last_index p t with
  | Some n => Some (length s + n)
  | None => last_index p s
  end.
Proof.
  induction s as [|c s IH]; simpl; [by destruct (last_index p t)|].
  rewrite IH. by destruct (last_index p t).
Qed.

Lemma first_index_None p s : first_index p s = None ↔ Forall (λ c, p c = false) s.
Proof.
  induction s as [|c s IH]; simpl; [by split; constructor|].
  rewrite Forall_cons, <-IH. destruct (p c), (first_index p s); simpl; intuition congruence.
Qed.

Lemma last_index_None p s : last_index p s = None ↔ Forall (λ c, p c = false) s.
Proof.
  induction s as [|c s IH]; simpl; [by split; constructor|].
  rewrite Forall_cons, <-IH. destruct (p c), (last_index p s); simpl; intuition congruence.
Qed.

Lemma first_index_Some p s n :
  first_index p s = Some n →
  ∃ c, s !! n = Some c ∧ p c = true ∧ Forall (λ c, p c = false) (take n s).
Proof.
  revert n. induction s as [|c s IH]; intros n; simpl; [done|].
  destruct (p c) eqn:Hc; [intros [= <-]; by exists c|].
  destruct (first_index p s) as [m|]; [|done]. intros [= <-].
  destruct (IH m eq_refl) as (c' & ? & ? & ?). exists c'. split_and!; [done..|]. by constructor.
Qed.

Lemma last_index_Some p s n :
  last_index p s = Some n →
  ∃ c, s !! n = Some c ∧ p c = true ∧ Forall (λ c, p c = false) (drop (S n) s).
Proof.
  revert n. induction s as [|c s IH]; intros n; simpl; [done|].
  destruct (last_index p s) as [m|] eqn:E.
  - intros [= <-]. destruct (IH m eq_refl) as (c' & ? & ? & ?). by exists c'.
  - destruct (p c) eqn:Hc; [|done]. intros [= <-]. exists c.
    split_and!; [done..|]. rewrite skipn_O. by apply last_index_None.
Qed.

(** ** [to_string] *)

Lemma digit_code d : d < 10 → nat_of_ascii (digit d) = 48 + d.
Proof. intros. unfold digit. apply nat_ascii_embedding. lia. Qed.

Lemma digits_spec fuel n acc :
  n < fuel →
  ∃ ds, digits fuel n acc = ds ++ acc ∧ numeral_value ds = n ∧
        Forall (λ c, 48 ≤ nat_of_ascii c < 58) ds.
Proof.
  revert n acc. induction fuel as [|fuel IH]; [lia|]. intros n acc Hn. cbn [digits].
  pose proof (Nat.mod_upper_bound n 10 ltac:(lia)) as Hm.
  case_decide as Hlt.
  - exists [digit (n `mod` 10)]. split; [done|].
    rewrite Forall_singleton. unfold numeral_value. cbn [foldl].
    rewrite digit_code, Nat.mod_small by (rewrite ?Nat.mod_small; lia). lia.
  - assert (n `div` 10 < fuel) as Hf.
    { apply Nat.lt_le_trans with n; [apply Nat.div_lt; lia|lia]. }
    destruct (IH (n `div` 10) (digit (n `mod` 10) :: acc) Hf) as (ds & -> & Hv & Hd).
    exists (ds ++ [digit (n `mod` 10)]). rewrite <-app_assoc. split; [done|]. split.
    + unfold numeral_value in *. rewrite foldl_snoc, Hv, digit_code by done.
      pose proof (Nat.div_mod_eq n 10). lia.
    + apply Forall_app. rewrite Forall_singleton, digit_code by done. split; [done|lia].
Qed.

Lemma to_string_value n : numeral_value (to_string n) = n.
Proof. unfold to_string. destruct (digits_spec (S n) n [] ltac:(lia)) as (ds & -> & Hv & _). by rewrite app_nil_r. Qed.

Lemma to_string_digits n : Forall (λ c, 48 ≤ nat_of_ascii c < 58) (to_string n).
Proof. unfold to_string. destruct (digits_spec (S n) n [] ltac:(lia)) as (ds & -> & _ & Hd). by rewrite app_nil_r. Qed.

Lemma to_string_free n c : ¬ (48 ≤ nat_of_ascii c < 58) → c ∉ to_string n.
Proof. intros Hc Hin. apply Hc. exact (proj1 (Forall_forall _ _) (to_string_digits n) c Hin). Qed.
