(* ===== verification/Buffer.v ===== *)
(** * [Icee::Buffer] (src/core/buffer.cc)

    The growable byte buffer behind a connection.  [buf_] is the contents of the
    vector; its spare capacity is not part of the state, since no operation but
    [Capacity] observes it.  Each mutating method takes the buffer and returns
    the new one; [FindAndPopTill] is the one that frames requests.

    The theorems give [FindAndPopTill] its full functional specification and
    show that cutting a stream into frames does not depend on how the network
    segmented it. *)

From S2P Require Import Prelude CppString.

Record Buffer := mkBuffer { buf_ : bytes }.

#[export] Instance Buffer_eq_dec : EqDecision Buffer.
Proof. solve_decision. Defined.

Definition INITIAL_BUFFER_SIZE : Z := 1024.

(** The constructor only reserves capacity. *)
Definition Buffer_ctor (initial_cap : Z) : Buffer := mkBuffer [].

(** [Append(ptr, n)]: [new_char_data] is the array [ptr] points to, of which
    the first [data_size] bytes are read. *)
Definition Append (b : Buffer) (new_char_data : bytes) (data_size : Z) : result Buffer :=
  if (size_of new_char_data <? data_size)%Z then Fail OutOfRange
  else Ok (mkBuffer (buf_ b ++ take (Z.to_nat data_size) new_char_data)).

(** [Append(const std::string &)] *)
Definition Append_string (b : Buffer) (new_str_data : bytes) : result Buffer :=
  Append b new_str_data (size_of new_str_data).

(** [Append(std::vector<unsigned char> &&)] *)
Definition Append_vector (b : Buffer) (other_buffer : bytes) : Buffer :=
  mkBuffer (buf_ b ++ other_buffer).

Definition AppendHead (b : Buffer) (new_char_data : bytes) (data_size : Z) : result Buffer :=
  if (size_of new_char_data <? data_size)%Z then Fail OutOfRange
  else Ok (mkBuffer (take (Z.to_nat data_size) new_char_data ++ buf_ b)).

Definition AppendHead_string (b : Buffer) (new_str_data : bytes) : result Buffer :=
  AppendHead b new_str_data (size_of new_str_data).

Definition ToStringView (b : Buffer) : bytes := buf_ b.
Definition Size (b : Buffer) : Z := size_of (buf_ b).
Definition Data (b : Buffer) : bytes := buf_ b.
Definition Clear (b : Buffer) : Buffer := mkBuffer [].

(** The prefix up to and including the first [target] is cut off and returned. *)
Definition FindAndPopTill (b : Buffer) (target : bytes) : result (option bytes * Buffer) :=
  let content := ToStringView b in
  match find content target 0 with
  | Some pos =>
      res ← substr content 0 (pos + size_of target);
      mret (Some res, mkBuffer (drop (Z.to_nat (pos + size_of target)) (buf_ b)))
  | None => mret (None, b)
  end.

(** The caller's use: cut frames off until no complete one is left.  [fuel]
    bounds the number of calls; [S (length (buf_ b))] always suffices, since a
    frame is not empty. *)
Fixpoint pop_frames (fuel : nat) (b : Buffer) (target : bytes) : result (list bytes * Buffer) :=
  match fuel with
  | 0 => Fail FuelExhausted
  | S fuel =>
      '(r, b') ← FindAndPopTill b target;
      match r with
      | None => mret ([], b')
      | Some frame => '(fs, b'') ← pop_frames fuel b' target; mret (frame :: fs, b'')
      end
  end.

Definition frames (b : Buffer) (target : bytes) : result (list bytes * Buffer) :=
  pop_frames (S (length (buf_ b))) b target.

(** ** Lemmas *)

Lemma Append_string_eq b s : Append_string b s = Ok (mkBuffer (buf_ b ++ s)).
Proof.
  unfold Append_string, Append, size_of. rewrite Z.ltb_irrefl, Nat2Z.id.
  by rewrite take_ge by done.
Qed.

Lemma AppendHead_string_eq b s : AppendHead_string b s = Ok (mkBuffer (s ++ buf_ b)).
Proof.
  unfold AppendHead_string, AppendHead, size_of. rewrite Z.ltb_irrefl, Nat2Z.id.
  by rewrite take_ge by done.
Qed.

Lemma Append_eq b arr n :
  (0 ≤ n ≤ size_of arr)%Z → Append b arr n = Ok (mkBuffer (buf_ b ++ take (Z.to_nat n) arr)).
Proof. unfold Append. intros. by rewrite (proj2 (Z.ltb_ge _ _)) by lia. Qed.

#[export] Hint Rewrite Append_string_eq AppendHead_string_eq : icee.

(** The shape of both branches of [FindAndPopTill], by [index_of]. *)
Lemma FindAndPopTill_eq b t :
  FindAndPopTill b t =
  Ok match index_of t (buf_ b) with
     | Some n => (Some (take n (buf_ b) ++ t), mkBuffer (drop (n + length t) (buf_ b)))
     | None => (None, b)
     end.
Proof.
  unfold FindAndPopTill, find, ToStringView, substr.
  rewrite (proj2 (Z.ltb_ge _ _)) by auto with icee. simpl. rewrite drop_0.
  destruct (index_of t (buf_ b)) as [n|] eqn:E; [|done].
  pose proof (index_of_Some _ _ _ E) as [Hs Hl].
  cbn [fmap option_fmap option_map]. unfold size_of, mret, result_ret.
  replace (Z.to_nat (0 + Z.of_nat n + Z.of_nat (length t))) with (n + length t) by lia.
  do 3 f_equal. rewrite Hs at 1. rewrite app_assoc, take_app_length'; [done|].
  rewrite length_app, length_take. lia.
Qed.

Lemma pop_frames_enough fuel b t :
  t ≠ [] → length (buf_ b) < fuel → is_ok (pop_frames fuel b t).
Proof.
  intros Ht. revert b. induction fuel as [|fuel IH]; intros b Hf; [lia|].
  simpl. rewrite FindAndPopTill_eq. simpl.
  destruct (index_of t (buf_ b)) as [n|] eqn:E; [|by eexists].
  apply index_of_Some in E as [_ E]. destruct t as [|c t]; [done|]. simpl in *.
  destruct (IH (mkBuffer (drop (n + S (length t)) (buf_ b)))) as [[fs b''] ->].
  { simpl. rewrite length_drop. lia. }
  by eexists.
Qed.

(** More fuel does not change the result. *)
Lemma pop_frames_fuel fuel fuel' b t r :
  pop_frames fuel b t = Ok r → fuel ≤ fuel' → pop_frames fuel' b t = Ok r.
Proof.
  revert fuel' b r. induction fuel as [|fuel IH]; intros fuel' b r; [done|].
  destruct fuel' as [|fuel']; [lia|]. simpl. rewrite FindAndPopTill_eq. simpl.
  destruct (index_of t (buf_ b)) as [n|]; [|done].
  intros H Hle. destruct (pop_frames fuel _ t) as [[fs b'']|] eqn:E; [|done].
  by rewrite (IH fuel' _ _ E) by lia.
Qed.

Lemma pop_frames_det fuel1 fuel2 b t r1 r2 :
  pop_frames fuel1 b t = Ok r1 → pop_frames fuel2 b t = Ok r2 → r1 = r2.
Proof.
  intros H1 H2.
  apply (pop_frames_fuel _ (fuel1 + fuel2)) in H1, H2; [congruence|lia..].
Qed.

(** What stays is never longer than what was there. *)
Lemma pop_frames_remainder fuel b t fs b' :
  pop_frames fuel b t = Ok (fs, b') → length (buf_ b') ≤ length (buf_ b).
Proof.
  revert b fs. induction fuel as [|fuel IH]; intros b fs; [done|].
  simpl. rewrite FindAndPopTill_eq. simpl. destruct (index_of t (buf_ b)) as [n|].
  - destruct (pop_frames fuel _ t) as [[gs b'']|] eqn:E; [|done]. mred. intros [= <- <-].
    apply IH in E. cbn [buf_] in E. rewrite length_drop in E. lia.
  - by intros [= <- <-].
Qed.

(** Frames and rest make up the input. *)
Lemma pop_frames_concat fuel b t fs b' :
  pop_frames fuel b t = Ok (fs, b') → buf_ b = concat fs ++ buf_ b'.
Proof.
  revert b fs. induction fuel as [|fuel IH]; intros b fs; [done|].
  simpl. rewrite FindAndPopTill_eq. simpl. destruct (index_of t (buf_ b)) as [n|] eqn:E.
  - destruct (pop_frames fuel _ t) as [[gs b'']|] eqn:Ep; [|done]. mred. intros [= <- <-].
    pose proof (index_of_Some _ _ _ E) as [Hs _]. apply IH in Ep. cbn [buf_ concat] in *.
    by rewrite <-!app_assoc, <-Ep.
  - by intros [= <- <-].
Qed.

(** Frames already complete stay the same when the peer sends more. *)
Lemma pop_frames_app fuel b t fs b' more :
  pop_frames fuel b t = Ok (fs, b') →
  ∀ fs2 b2 fuel2,
    pop_frames fuel2 (mkBuffer (buf_ b' ++ more)) t = Ok (fs2, b2) →
    pop_frames (fuel + fuel2) (mkBuffer (buf_ b ++ more)) t = Ok (fs ++ fs2, b2).
Proof.
  revert b fs b'. induction fuel as [|fuel IH]; intros b fs b'; [done|].
  simpl. rewrite !FindAndPopTill_eq. simpl.
  destruct (index_of t (buf_ b)) as [n|] eqn:E.
  - intros H fs2 b2 fuel2 H2.
    destruct (pop_frames fuel _ t) as [[gs b'']|] eqn:Ep; [|done].
    mred. simplify_eq. rewrite (index_of_app _ _ more _ E). simpl.
    pose proof (index_of_Some _ _ _ E) as [_ Hl].
    rewrite take_app_le, drop_app_le by lia.
    specialize (IH _ _ _ Ep _ _ _ H2). cbn [buf_] in IH. by rewrite IH.
  - intros [= <- <-] fs2 b2 fuel2 H2. simpl.
    destruct fuel2 as [|fuel2]; [done|].
    apply (pop_frames_fuel _ (S (fuel + S fuel2)) _ _ _) in H2; [|lia].
    simpl in H2. by rewrite FindAndPopTill_eq in H2.
Qed.

(** ** Properties *)

(** C16: [FindAndPopTill] splits the buffer without losing or reordering a byte:
    when the target occurs, the returned frame followed by what stays is the old
    contents, the frame ends with the target, and no occurrence of the target
    ends earlier; when it does not occur, nothing is returned and the buffer is
    unchanged. *)
Theorem FindAndPopTill_spec b t :
  match FindAndPopTill b t with
  | Ok (Some frame, b') =>
      buf_ b = frame ++ buf_ b' ∧
      ∃ p, frame = p ++ t ∧ ∀ q, q ++ t `prefix_of` buf_ b → length p ≤ length q
  | Ok (None, b') => b' = b ∧ ¬ occurs t (buf_ b)
  | Fail _ => False
  end.
Proof.
  rewrite FindAndPopTill_eq. destruct (index_of t (buf_ b)) as [n|] eqn:E; simpl.
  - pose proof (index_of_Some _ _ _ E) as [Hs Hl]. split.
    + rewrite <-app_assoc. exact Hs.
    + exists (take n (buf_ b)). split; [done|]. intros q Hq.
      rewrite length_take. pose proof (index_of_least _ _ _ _ E Hq). lia.
  - split; [done|]. by apply index_of_None.
Qed.

(** framing is independent of segmentation: cutting the frames off [s1],
    keeping the remainder, appending [s2] and cutting again yields the frames
    (and the remainder) of [s1 ++ s2], and both runs return. *)
Theorem frames_segmentation t s1 s2 :
  t ≠ [] →
  ∃ fs1 r1 fs2 r2,
    frames (mkBuffer s1) t = Ok (fs1, r1) ∧
    frames (mkBuffer (buf_ r1 ++ s2)) t = Ok (fs2, r2) ∧
    frames (mkBuffer (s1 ++ s2)) t = Ok (fs1 ++ fs2, r2).
Proof.
  intros Ht. unfold frames.
  destruct (pop_frames_enough (S (length s1)) (mkBuffer s1) t) as [[fs1 r1] H1]; [done|simpl; lia|].
  destruct (pop_frames_enough (S (length (buf_ r1 ++ s2))) (mkBuffer (buf_ r1 ++ s2)) t)
    as [[fs2 r2] H2]; [done|simpl; lia|].
  destruct (pop_frames_enough (S (length (s1 ++ s2))) (mkBuffer (s1 ++ s2)) t)
    as [x H3]; [done|simpl; lia|].
  exists fs1, r1, fs2, r2. split_and!; [done..|].
  pose proof (pop_frames_app _ _ _ _ _ s2 H1 _ _ _ H2) as H4.
  rewrite (pop_frames_det _ _ _ _ _ _ H3 H4) in H3. exact H3.
Qed.

Lemma frames_segmentation_witness :
  lit "ab" ≠ [] ∧
  ∃ fs1 r1 fs2 r2,
    frames (mkBuffer (lit "xaba")) (lit "ab") = Ok (fs1, r1) ∧
    frames (mkBuffer (buf_ r1 ++ lit "by")) (lit "ab") = Ok (fs2, r2) ∧
    frames (mkBuffer (lit "xaba" ++ lit "by")) (lit "ab") = Ok (fs1 ++ fs2, r2).
Proof. split; [done|]. apply frames_segmentation. done. Defined.
