(* ===== verification/HttpUtils.v ===== *)
(** * [Icee::Http] utilities (src/include/http/http_utils.h, src/http/http_utils.cc)

    The string helpers of the HTTP layer (splitting, joining, trimming, upper
    case, method / version / extension tables) and its file access.  [Split]
    keeps the integer types of the code: its cursor is an [int] that is compared
    with and passed as [size_t].

    The theorems characterise [Split] as the decomposition of the string into
    delimiter-free pieces, [Trim] as stripping, and [Join] by what it really
    computes. *)

From S2P Require Import Prelude CppString.

(** ** Constants *)

Definition SPACE : bytes := lit " ".
Definition CRLF : bytes := ["013"%char; "010"%char].
Definition DEFAULT_ROUTE : bytes := lit "index.html".
Definition COLON : bytes := lit ":".
Definition Dot : bytes := lit ".".
Definition CGI_BIN : bytes := lit "cgi_bin".
Definition READ_WRITE_PERMISSION : bytes := lit "0600".
Definition CGI_PREFIX : bytes := lit "cgi_temp".

Definition RESPONSE_OK : bytes := lit "200 OK".
Definition RESPONSE_BAD_REQUEST : bytes := lit "400 Bad Request".
Definition RESPONSE_NOT_FOUND : bytes := lit "404 Not Found".
Definition RESPONSE_SERVICE_UNAVAILABLE : bytes := lit "503 Service Unavailable".

Definition MIME_HTML : bytes := lit "text/html".
Definition MIME_CSS : bytes := lit "text/css".
Definition MIME_PNG : bytes := lit "image/png".
Definition MIME_JPG : bytes := lit "image/jpg".
Definition MIME_JPEG : bytes := lit "image/jpeg".
Definition MIME_GIF : bytes := lit "image/gif".
Definition MIME_OCTET : bytes := lit "application/octet-stream".

Definition HEADER_SERVER : bytes := lit "Server".
Definition SERVER_ICEE : bytes := lit "Icee/1.0".
Definition HEADER_CONNECTION : bytes := lit "Connection".
Definition CONNECTION_CLOSE : bytes := lit "Close".
Definition CONNECTION_KEEP_ALIVE : bytes := lit "Keep-Alive".
Definition HEADER_CONTENT_LENGTH : bytes := lit "Content-Length".
Definition HEADER_CONTENT_TYPE : bytes := lit "Content-Type".
Definition HTTP_VERSION : bytes := lit "Http/1.1".

(** ** Enumerations and their string tables *)

Inductive Method := GET | HEAD | METHOD_UNSUPPORTED.
Inductive Version := HTTP_1_1 | VERSION_UNSUPPORTED.
Inductive Extension := HTML | CSS | PNG | JPG | JPEG | GIF | OCTET.

#[export] Instance Method_eq_dec : EqDecision Method.
Proof. solve_decision. Defined.
#[export] Instance Version_eq_dec : EqDecision Version.
Proof. solve_decision. Defined.
#[export] Instance Extension_eq_dec : EqDecision Extension.
Proof. solve_decision. Defined.

Definition Method_String_Map (m : Method) : bytes :=
  match m with
  | GET => lit "GET" | HEAD => lit "HEAD" | METHOD_UNSUPPORTED => lit "UNSUPPORTED"
  end.

Definition Version_String_Map (v : Version) : bytes :=
  match v with
  | HTTP_1_1 => lit "HTTP/1.1" | VERSION_UNSUPPORTED => lit "UNSUPPORTED"
  end.

Definition Extension_String_Map (e : Extension) : bytes :=
  match e with
  | HTML => lit "HTML" | CSS => lit "CSS" | PNG => lit "PNG" | JPG => lit "JPG"
  | JPEG => lit "JPEG" | GIF => lit "GIF" | OCTET => lit "OCTET"
  end.

(** ** [Split] *)

(** The [while] loop: returns the final [begin_index] and the pieces so far.
    [begin_index] is an [int]; it converts to [size_t] in [find], [substr] and
    the subtraction, and the new value [target_index + delim_len] (a [size_t])
    converts back to [int]. *)
Fixpoint Split_loop (fuel : nat) (str delim : bytes) (begin_index : Z) (res : list bytes)
    : result (Z * list bytes) :=
  match fuel with
  | 0 => Fail FuelExhausted
  | S fuel =>
      match find str delim (to_size_t begin_index) with
      | Some target_index =>
          piece ← substr str (to_size_t begin_index) (to_size_t (target_index - begin_index));
          Split_loop fuel str delim (to_int (target_index + size_of delim)) (res ++ [piece])
      | None => mret (begin_index, res)
      end
  end.

(** What follows the loop. *)
Definition Split_tail (str : bytes) (begin_index : Z) (res : list bytes) : result (list bytes) :=
  if decide (to_size_t begin_index ≠ size_of str) then
    piece ← substr str (to_size_t begin_index) (to_size_t (size_of str - begin_index));
    mret (res ++ [piece])
  else mret res.

Definition Split (str delim : bytes) : result (list bytes) :=
  if decide (str = []) then mret []
  else
    '(begin_index, res) ← Split_loop (S (length str)) str delim 0 [];
    Split_tail str begin_index res.

(** ** [Join] *)

Fixpoint Join_loop (n i : nat) (tokens : list bytes) (res : bytes) : bytes :=
  match tokens with
  | [] => res
  | t :: tokens => Join_loop n (S i) tokens ((if decide (i ≠ n - 1) then res ++ lit ":" else res) ++ t)
  end.

Definition Join (tokens : list bytes) (deli : bytes) : result bytes :=
  match tokens with
  | [] => Fail AssertionFailed
  | [t] => mret t
  | _ => mret (Join_loop (length tokens) 0 tokens [])
  end.

(** ** [Trim], [ToUpper], [Format] and the table lookups

    In [Trim] both offsets are positions of the string with [first <= last], so
    the [size_t] difference does not wrap. *)

Definition Trim (str delim : bytes) : result bytes :=
  let first_index := find_first_not_of str delim in
  match find_last_not_of str delim, first_index with
  | None, _ => mret []
  | Some last, Some first =>
      substr str (Z.of_nat first) (Z.of_nat last - Z.of_nat first + 1)
  | Some last, None => Fail (Thrown "std::out_of_range")
  end.

Definition ToUpper (str : bytes) : bytes := toupper <$> str.

Definition Format (str : bytes) : result bytes := t ← Trim str SPACE; mret (ToUpper t).

Definition ToMethod (method_str : bytes) : result Method :=
  method_formatted ← Format method_str;
  mret (if decide (method_formatted = Method_String_Map GET) then GET
        else if decide (method_formatted = Method_String_Map HEAD) then HEAD
        else METHOD_UNSUPPORTED).

Definition ToVersion (version_str : bytes) : result Version :=
  version_formatted ← Format version_str;
  mret (if decide (version_formatted = Version_String_Map HTTP_1_1) then HTTP_1_1
        else VERSION_UNSUPPORTED).

Definition ToExtension (extension_str : bytes) : result Extension :=
  f ← Format extension_str;
  mret (if decide (f = Extension_String_Map HTML) then HTML
        else if decide (f = Extension_String_Map CSS) then CSS
        else if decide (f = Extension_String_Map PNG) then PNG
        else if decide (f = Extension_String_Map JPG) then JPG
        else if decide (f = Extension_String_Map JPEG) then JPEG
        else if decide (f = Extension_String_Map GIF) then GIF
        else OCTET).

Definition ExtensionToMime (extension : Extension) : bytes :=
  match extension with
  | HTML => MIME_HTML | CSS => MIME_CSS | PNG => MIME_PNG | JPG => MIME_JPG
  | JPEG => MIME_JPEG | GIF => MIME_GIF | OCTET => MIME_OCTET
  end.

Definition IsCgiRequest (resource_url : bytes) : bool :=
  match find resource_url CGI_BIN 0 with Some _ => true | None => false end.

(** ** Files

    The file system as [std::filesystem] and [std::ifstream] see it during one
    call: what a path names.  Path resolution is part of the lookup function.  A
    file may exist and not be open to the server ([Unreadable], of some size), and
    the status of a path may not be had at all ([Inaccessible]: the name is too
    long, a directory on the way cannot be searched, links go in a circle). *)

Inductive fs_entry :=
  | RegularFile (contents : bytes)
  | DirectoryEntry (is_empty : bool)
  | Unreadable (size : Z)
  | Inaccessible.

Abbreviation filesystem := (bytes → option fs_entry).

(** What the functions of [std::filesystem] throw. *)
Definition filesystem_error : fault := Thrown "std::filesystem::filesystem_error".

(** [std::filesystem::exists] and [is_directory] throw when there is no telling. *)
Definition IsFileExist (fs : filesystem) (file_path : bytes) : result bool :=
  match fs file_path with
  | Some Inaccessible => Fail filesystem_error
  | Some _ => mret true
  | None => mret false
  end.

Definition IsDirectoryExists (fs : filesystem) (dire_path : bytes) : result bool :=
  match fs dire_path with
  | Some Inaccessible => Fail filesystem_error
  | Some (DirectoryEntry _) => mret true
  | _ => mret false
  end.

(** [std::filesystem::file_size] throws on a directory. *)
Definition FileSize (fs : filesystem) (file_path : bytes) : result Z :=
  exist ← IsFileExist fs file_path;
  if (exist : bool) then
    match fs file_path with
    | Some (RegularFile c) => mret (size_of c)
    | Some (Unreadable size) => mret size
    | _ => Fail filesystem_error
    end
  else Fail AssertionFailed.

(** [std::filesystem::remove] refuses a directory that is not empty. *)
Definition DeleteFile (fs : filesystem) (file_path : bytes) : result (bool * filesystem) :=
  match fs file_path with
  | None => mret (false, fs)
  | Some (DirectoryEntry false) | Some Inaccessible => Fail filesystem_error
  | Some _ => mret (true, λ p, if decide (p = file_path) then None else fs p)
  end.

(** [buffer] grows by the file's size and the contents are read into the new
    part; the stream must have opened.  The address [&buffer[origin_buffer_size]] needs that index to be in
    range, which it is not when the file is empty. *)
Definition LoadFile (fs : filesystem) (file_path buffer : bytes) : result bytes :=
  file_size ← FileSize fs file_path;
  let origin_buffer_size := size_of buffer in
  match fs file_path with
  | Some (RegularFile c) =>
      if decide (origin_buffer_size < origin_buffer_size + file_size)%Z
      then mret (buffer ++ c) else Fail OutOfRange
  | _ => Fail AssertionFailed
  end.

(** ** Lemmas on files *)

Lemma IsFileExist_file fs path c : fs path = Some (RegularFile c) → IsFileExist fs path = Ok true.
Proof. intros Hf. unfold IsFileExist. by rewrite Hf. Qed.

Lemma IsFileExist_missing fs path : fs path = None → IsFileExist fs path = Ok false.
Proof. intros Hf. unfold IsFileExist. by rewrite Hf. Qed.

Lemma FileSize_file fs path c : fs path = Some (RegularFile c) → FileSize fs path = Ok (size_of c).
Proof. intros Hf. unfold FileSize. rewrite (IsFileExist_file _ _ _ Hf). mred. by rewrite Hf. Qed.

(** ** Lemmas on [Split] *)

(** [pieces delim s toks]: reading [s] from the left, [toks] are the parts
    before each leftmost delimiter, then the rest if it is not empty. *)
Inductive pieces (delim : bytes) : bytes → list bytes → Prop :=
  | pieces_last s :
      ¬ occurs delim s → pieces delim s (if decide (s = []) then [] else [s])
  | pieces_cons t rest toks :
      index_of delim (t ++ delim) = Some (length t) →
      pieces delim rest toks →
      pieces delim (t ++ delim ++ rest) (t :: toks).

(** Inputs on which the [int] cursor of [Split] does not wrap. *)
Definition splittable (str delim : bytes) : Prop :=
  (size_of str < 2 ^ 31)%Z ∧ delim ≠ [].

Lemma index_of_piece delim t rest :
  index_of delim (t ++ delim) = Some (length t) →
  index_of delim (t ++ delim ++ rest) = Some (length t).
Proof. intros H%(index_of_app _ _ rest). by rewrite <-app_assoc in H. Qed.

Lemma pieces_exist delim s : delim ≠ [] → ∃ toks, pieces delim s toks.
Proof.
  intros Hd. remember (length s) as n eqn:Hn. revert s Hn.
  induction n as [n IH] using lt_wf_ind. intros s ->.
  destruct (index_of delim s) as [k|] eqn:E.
  - pose proof (index_of_Some _ _ _ E) as [Hs Hl].
    destruct (IH (length (drop (k + length delim) s))) with (s := drop (k + length delim) s)
      as [toks Ht]; [|done|].
    { rewrite length_drop. destruct delim; [done|]. simpl in *. lia. }
    exists (take k s :: toks). rewrite Hs at 1. constructor; [|done].
    assert (length (take k s) = k) as Hk by (rewrite length_take; lia).
    rewrite Hk. rewrite <-(app_nil_r delim) at 2. rewrite <-Hk at 2.
    apply index_of_intro. intros q Hq. rewrite app_nil_r in Hq. rewrite Hk.
    apply (index_of_least _ _ _ _ E). etrans; [exact Hq|].
    exists (drop (k + length delim) s). by rewrite <-app_assoc.
  - eexists. apply pieces_last. by apply index_of_None.
Qed.

Lemma pieces_det delim s toks1 toks2 :
  delim ≠ [] → pieces delim s toks1 → pieces delim s toks2 → toks1 = toks2.
Proof.
  intros Hd H1. revert toks2. induction H1 as [s Hs|t rest toks Ht _ IH]; intros toks2 H2.
  - inversion H2 as [|t rest toks Ht H]; subst; [done|].
    exfalso. apply Hs. exists t. rewrite app_assoc. by apply prefix_app_r.
  - inversion H2 as [s' Hs|t' rest' toks' Ht' H Heq]; subst.
    + exfalso. apply Hs. exists t. rewrite app_assoc. by apply prefix_app_r.
    + assert (length t' = length t) as Hl.
      { apply (index_of_piece _ _ rest') in Ht'. apply (index_of_piece _ _ rest) in Ht.
        rewrite Heq in Ht'. congruence. }
      apply app_inj_1 in Heq as [-> Heq]; [|done]. simplify_list_eq.
      f_equal. by apply IH.
Qed.

Lemma pieces_length delim s toks t :
  pieces delim s toks → t ∈ toks → length t ≤ length s.
Proof.
  induction 1 as [s Hs|t' rest toks Ht _ IH]; intros Hin.
  - case_decide; [by apply elem_of_nil in Hin|].
    apply list_elem_of_singleton in Hin as ->. done.
  - rewrite !length_app. apply elem_of_cons in Hin as [->|Hin]; [lia|].
    specialize (IH Hin). lia.
Qed.

Lemma splittable_piece delim s toks t delim' :
  splittable s delim → pieces delim s toks → t ∈ toks → delim' ≠ [] → splittable t delim'.
Proof.
  intros [Hs _] Hp Ht Hd. split; [|done].
  pose proof (pieces_length _ _ _ _ Hp Ht). size_lia.
Qed.

Lemma drop_size_of {A} (pre s : list A) : drop (Z.to_nat (size_of pre)) (pre ++ s) = s.
Proof. unfold size_of. by rewrite Nat2Z.id, drop_app_length. Qed.

Lemma find_at pos pre s delim :
  pos = size_of pre →
  find (pre ++ s) delim pos = (λ n, pos + Z.of_nat n)%Z <$> index_of delim s.
Proof.
  intros ->. unfold find. rewrite (proj2 (Z.ltb_ge _ _)) by size_lia. by rewrite drop_size_of.
Qed.

Lemma substr_at pos pre t s n :
  pos = size_of pre → n = size_of t → substr (pre ++ t ++ s) pos n = Ok t.
Proof.
  intros -> ->. unfold substr. rewrite (proj2 (Z.ltb_ge _ _)) by size_lia.
  rewrite drop_size_of. unfold size_of. by rewrite Nat2Z.id, take_app_length.
Qed.

Lemma to_size_t_small z : (0 ≤ z < 2 ^ 31)%Z → to_size_t z = z.
Proof. intros. apply wrap_u_id. lia. Qed.

Lemma Split_loop_pieces delim s toks :
  pieces delim s toks → ∀ fuel str pre res,
  splittable str delim → str = pre ++ s → length s < fuel →
  (Split_loop fuel str delim (size_of pre) res ≫= λ '(b, r), Split_tail str b r)
  = Ok (res ++ toks).
Proof.
  induction 1 as [s Hs|t rest toks Ht _ IH]; intros [|fuel] str pre res [Hsz Hd] -> Hf;
    [lia| |lia|]; cbn [Split_loop]; rewrite to_size_t_small by size_lia; rewrite (find_at _ pre) by done.
  - destruct (index_of delim s) as [n|] eqn:E.
    { apply index_of_Some in E as [E _]. exfalso. apply Hs. exists (take n s).
      rewrite E at 2. rewrite app_assoc. by apply prefix_app_r. }
    mred. unfold Split_tail. cbn. rewrite to_size_t_small by size_lia.
    case_decide as Hb.
    + rewrite decide_False by (intros ->; size_lia).
      rewrite to_size_t_small by size_lia.
      rewrite <-(app_nil_r s) at 1. rewrite (substr_at _ pre s) by size_lia. done.
    + rewrite decide_True by (destruct s; [done|size_lia]). by rewrite app_nil_r.
  - rewrite (index_of_piece _ _ _ Ht). cbn [fmap option_fmap option_map].
    rewrite to_size_t_small by size_lia.
    rewrite (substr_at _ pre t) by size_lia. mred.
    replace (to_int _) with (size_of (pre ++ t ++ delim)).
    + rewrite IH; [by rewrite <-app_assoc| |by rewrite <-!app_assoc|].
      * done.
      * destruct delim; [done|]. size_lia.
    + rewrite to_int_id; [size_lia|]. unfold in_int. size_lia.
Qed.

Lemma Split_pieces delim s toks :
  splittable s delim → pieces delim s toks → Split s delim = Ok toks.
Proof.
  intros Hs Hp. unfold Split. case_decide as Hn.
  - subst. inversion Hp as [s' Ho|t rest toks' Ht _ Heq]; [done|].
    apply app_nil in Heq as [-> [-> _]%app_nil]. by destruct Hs.
  - apply (Split_loop_pieces _ _ _ Hp _ s [] []); [done..|lia].
Qed.

(** ** Lemmas on [Trim] *)

Definition all_in (delim s : bytes) : Prop := Forall (λ c, c ∈ delim) s.

(** [m] neither starts nor ends with a byte of [delim]. *)
Definition stripped (delim m : bytes) : Prop :=
  ∀ c, head m = Some c ∨ last m = Some c → c ∉ delim.

Lemma all_in_not delim s :
  all_in delim s ↔ Forall (λ c, negb (in_set delim c) = false) s.
Proof.
  unfold all_in, in_set. apply Forall_iff. intros c.
  by rewrite negb_false_iff, bool_decide_eq_true.
Qed.

Lemma Trim_intro delim l m r :
  all_in delim l → all_in delim r → stripped delim m →
  Trim (l ++ m ++ r) delim = Ok m.
Proof.
  intros Hl%all_in_not Hr%all_in_not Hm. unfold Trim, find_first_not_of, find_last_not_of.
  rewrite first_index_app, !last_index_app.
  rewrite (proj2 (first_index_None _ l) Hl), (proj2 (last_index_None _ r) Hr).
  destruct m as [|c m _] using rev_ind; cbn [last_index].
  { by rewrite (proj2 (last_index_None _ l) Hl). }
  assert (negb (in_set delim c) = true) as Hc.
  { unfold in_set. rewrite negb_true_iff, bool_decide_eq_false. apply Hm. right.
    by rewrite last_snoc. }
  rewrite last_index_app. cbn [last_index]. rewrite Hc.
  assert (∀ k, first_index (λ c, negb (in_set delim c)) ((m ++ [c]) ++ k) = Some 0) as Hf.
  { intros k. destruct m as [|d m]; cbn [app first_index]; [by rewrite Hc|].
    unfold in_set. rewrite bool_decide_eq_false_2; [done|]. apply Hm. by left. }
  rewrite Hf. cbn [fmap option_fmap option_map]. rewrite Nat.add_0_r.
  apply substr_at; size_lia.
Qed.

Lemma Trim_decompose delim s :
  ∃ l m r, s = l ++ m ++ r ∧ all_in delim l ∧ all_in delim r ∧ stripped delim m.
Proof.
  set (p := λ c, negb (in_set delim c)).
  destruct (first_index p s) as [n|] eqn:Ef; [|].
  2:{ exists s, [], []. split_and!; [by rewrite !app_nil_r| |by constructor|].
      - apply all_in_not. by apply first_index_None.
      - intros c [|]; done. }
  destruct (first_index_Some _ _ _ Ef) as (c & Hc & Hpc & Hl).
  exists (take n s). pose proof (take_drop n s) as Hs.
  assert (drop n s = c :: drop (S n) s) as Hd by (by apply drop_S).
  destruct (last_index p (drop n s)) as [k|] eqn:El.
  2:{ apply last_index_None in El. rewrite Hd in El. inversion El. congruence. }
  destruct (last_index_Some _ _ _ El) as (c' & Hc' & Hpc' & Hr).
  exists (take (S k) (drop n s)), (drop (S k) (drop n s)).
  rewrite take_drop. split_and!; [done|by apply all_in_not|by apply all_in_not|].
  unfold p, in_set in Hpc, Hpc'. rewrite negb_true_iff, bool_decide_eq_false in Hpc, Hpc'.
  intros x [Hx|Hx].
  - rewrite Hd in Hx. naive_solver.
  - rewrite last_lookup, length_take in Hx.
    apply lookup_lt_Some in Hc' as Hlt. rewrite Nat.min_l in Hx by lia.
    simpl pred in Hx. rewrite lookup_take_lt in Hx by lia. naive_solver.
Qed.

Lemma Trim_total delim s : ∃ m, Trim s delim = Ok m ∧ stripped delim m.
Proof.
  destruct (Trim_decompose delim s) as (l & m & r & -> & Hl & Hr & Hm).
  exists m. split; [by apply Trim_intro|done].
Qed.

Lemma Format_total s : ∃ t, Format s = Ok t.
Proof. unfold Format. destruct (Trim_total SPACE s) as (m & -> & _). by eexists. Qed.

(** Spaces around a word do not matter to [Format]. *)
Lemma Format_spaces l m r :
  all_in SPACE l → all_in SPACE r → Format (l ++ m ++ r) = Format m.
Proof.
  intros Hl Hr. destruct (Trim_decompose SPACE m) as (l' & m' & r' & -> & Hl' & Hr' & Hm).
  unfold Format. rewrite (Trim_intro _ l' m' r') by done.
  replace (l ++ (l' ++ m' ++ r') ++ r) with ((l ++ l') ++ m' ++ (r' ++ r))
    by (by rewrite <-!app_assoc).
  rewrite (Trim_intro _ (l ++ l') m' (r' ++ r)); [done| | |done]; by apply Forall_app_2.
Qed.

Lemma toupper_idemp c : toupper (toupper c) = toupper c.
Proof. by destruct c as [[] [] [] [] [] [] [] []]. Qed.

(** ** Lemmas on [Join] *)

Lemma Join_loop_eq n i tokens res :
  n = i + length tokens →
  Join_loop n i tokens res =
  match last tokens with
  | None => res
  | Some l => res ++ concat ((λ t, COLON ++ t) <$> removelast tokens) ++ l
  end.
Proof.
  revert i res. induction tokens as [|t tokens IH]; intros i res Hn; [done|].
  cbn [Join_loop]. simpl in Hn. rewrite IH by lia.
  destruct tokens as [|t' tokens].
  - rewrite decide_False by (simpl in Hn; lia). done.
  - rewrite decide_True by (simpl in Hn; lia).
    change (last (t :: t' :: tokens)) with (last (t' :: tokens)).
    change (removelast (t :: t' :: tokens)) with (t :: removelast (t' :: tokens)).
    destruct (last (t' :: tokens)) as [l|] eqn:El; [|by apply last_None in El].
    cbn [fmap list_fmap concat]. by rewrite <-!app_assoc.
Qed.

(** What [pieces] means for the whole string: gluing the pieces back with the
    delimiter gives the string, up to one trailing delimiter. *)
Fixpoint join_with (d : bytes) (toks : list bytes) : bytes :=
  match toks with
  | [] => []
  | [t] => t
  | t :: toks => t ++ d ++ join_with d toks
  end.

Lemma join_with_cons d t toks :
  toks ≠ [] → join_with d (t :: toks) = t ++ d ++ join_with d toks.
Proof. by destruct toks. Qed.

Lemma pieces_glue d s toks :
  pieces d s toks → s = join_with d toks ∨ (s = join_with d toks ++ d ∧ toks ≠ []).
Proof.
  induction 1 as [s Hs|t rest toks Ht _ IH].
  - case_decide; subst; by left.
  - destruct toks as [|t' toks].
    + destruct IH as [->|[_ ?]]; [|done]. right. cbn [join_with]. by rewrite app_nil_r.
    + rewrite join_with_cons by done. destruct IH as [->|[-> _]]; [by left|].
      right. by rewrite <-!app_assoc.
Qed.

(** Pieces that avoid the delimiter's first byte are recovered. *)
Lemma pieces_terminated c d toks :
  Forall (λ t, c ∉ t) toks →
  pieces (c :: d) (concat ((λ t, t ++ c :: d) <$> toks)) toks.
Proof.
  induction 1 as [|t toks Ht _ IH]; cbn [fmap list_fmap concat].
  - pose proof (pieces_last (c :: d) []) as H. rewrite decide_True in H by done.
    apply H. intros [p Hp%prefix_nil_inv]. by destruct p.
  - rewrite <-app_assoc. constructor; [|done].
    pose proof (index_of_fresh c d t [] Ht) as H. by rewrite app_nil_r in H.
Qed.

Lemma pieces_join c d toks :
  toks ≠ [] → Forall (λ t, c ∉ t) toks → last toks ≠ Some [] →
  pieces (c :: d) (join_with (c :: d) toks) toks.
Proof.
  induction toks as [|t toks IH]; [done|]. intros _ [Ht Htoks]%Forall_cons Hl.
  destruct toks as [|t' toks].
  - cbn [join_with]. destruct t as [|a t]; [done|].
    pose proof (pieces_last (c :: d) (a :: t)) as H. rewrite decide_False in H by done.
    apply H. intros [q [r Hr]]. apply Ht. rewrite Hr. set_solver.
  - rewrite join_with_cons by done. constructor; [|by apply IH].
    pose proof (index_of_fresh c d t [] Ht) as H. by rewrite app_nil_r in H.
Qed.

(** ** Properties *)

(** C18: on every string shorter than [2^31] bytes and every non-empty delimiter,
    [Split] returns, and returns exactly the decomposition at the leftmost
    delimiters; gluing its result back gives the string, but for one trailing
    delimiter. *)
Theorem Split_correct str delim :
  splittable str delim →
  ∃ toks, Split str delim = Ok toks ∧
          (∀ toks', pieces delim str toks' ↔ toks' = toks) ∧
          (str = join_with delim toks ∨ str = join_with delim toks ++ delim).
Proof.
  intros [Hs Hd]. destruct (pieces_exist delim str Hd) as [toks Hp].
  exists toks. split; [by apply Split_pieces|]. split.
  - intros toks'. split; [|by intros ->]. intros Hp'. by eapply pieces_det.
  - destruct (pieces_glue _ _ _ Hp) as [?|[? _]]; auto.
Qed.

Lemma Split_correct_witness :
  splittable (lit "a:b:") COLON ∧
  ∃ toks, Split (lit "a:b:") COLON = Ok toks ∧
          (∀ toks', pieces COLON (lit "a:b:") toks' ↔ toks' = toks) ∧
          (lit "a:b:" = join_with COLON toks ∨ lit "a:b:" = join_with COLON toks ++ COLON).
Proof.
  assert (splittable (lit "a:b:") COLON) as H by (split; vm_compute; done).
  split; [exact H|]. exact (Split_correct _ _ H).
Defined.

(** C38: the [int] cursor of [Split] overflows when the first delimiter ends
    between offsets [2^31] and [2^32]: the cursor turns negative, nothing more is
    found, and the final [substr] throws. *)
Theorem Split_cursor_overflow t delim rest :
  index_of delim (t ++ delim) = Some (length t) → delim ≠ [] →
  (2 ^ 31 ≤ size_of t + size_of delim < 2 ^ 32)%Z →
  (size_of (t ++ delim ++ rest) < 2 ^ 63)%Z →
  Split (t ++ delim ++ rest) delim = Fail (Thrown "std::out_of_range").
Proof.
  intros Ht Hd Hb Hsz. unfold Split. rewrite decide_False by (destruct t, delim; done).
  set (str := t ++ delim ++ rest) in *.
  assert (length str ≠ 0) as Hn by (unfold str; rewrite !length_app; size_lia).
  destruct (length str) as [|fuel] eqn:Hlen; [done|].
  assert (to_int (size_of t + size_of delim) = size_of t + size_of delim - 2 ^ 32)%Z as Hint.
  { unfold wrap_s. replace (size_of t + size_of delim + 2 ^ (32 - 1))%Z
      with (size_of t + size_of delim - 2 ^ 31 + 1 * 2 ^ 32)%Z by lia.
    rewrite Z.mod_add by done. rewrite Z.mod_small; lia. }
  assert (to_size_t (size_of t + size_of delim - 2 ^ 32)
          = size_of t + size_of delim - 2 ^ 32 + 2 ^ 64)%Z as Hbig.
  { unfold wrap_u. rewrite <-(Z.mod_add _ 1) by done. rewrite Z.mod_small; lia. }
  cbn [Split_loop]. rewrite (to_size_t_small 0) by lia.
  pose proof (find_at 0 [] str delim eq_refl) as Hfind. cbn [app] in Hfind.
  rewrite Hfind.
  assert (index_of delim str = Some (length t)) as -> by (by apply index_of_piece).
  cbn [fmap option_fmap option_map].
  rewrite (wrap_u_id 64 (0 + Z.of_nat (length t) - 0)) by (unfold str in Hsz; size_lia).
  replace (0 + Z.of_nat (length t) - 0)%Z with (size_of t) by (unfold size_of; lia).
  replace (0 + Z.of_nat (length t) + size_of delim)%Z with (size_of t + size_of delim)%Z
    by (unfold size_of; lia).
  pose proof (substr_at 0 [] t (delim ++ rest) (size_of t) eq_refl eq_refl) as Hsub.
  cbn [app] in Hsub. fold str in Hsub. rewrite Hsub. mred. rewrite Hint.
  cbn [Split_loop]. rewrite Hbig. unfold find.
  rewrite (proj2 (Z.ltb_lt _ _)) by lia. mred.
  unfold Split_tail. rewrite Hbig, decide_True by lia.
  unfold substr. by rewrite (proj2 (Z.ltb_lt _ _)) by lia.
Qed.

Lemma size_of_replicate {A} n (x : A) : size_of (replicate n x) = Z.of_nat n.
Proof. unfold size_of. by rewrite length_replicate. Qed.

Lemma index_of_CRLF_replicate n :
  index_of CRLF (replicate n "a"%char ++ CRLF) = Some (length (replicate n "a"%char)).
Proof.
  pose proof (index_of_fresh "013" ["010"%char] (replicate n "a"%char) []) as H.
  rewrite app_nil_r in H. apply H. by intros [? _]%elem_of_replicate.
Qed.

Lemma Split_cursor_overflow_witness :
  let t := replicate (Z.to_nat (2 ^ 31)) "a"%char in
  (2 ^ 31 ≤ size_of t + size_of CRLF < 2 ^ 32)%Z ∧
  Split (t ++ CRLF ++ []) CRLF = Fail (Thrown "std::out_of_range").
Proof.
  intros t.
  assert (size_of t = 2 ^ 31)%Z as Hsz.
  { unfold t. rewrite size_of_replicate. apply Z2Nat.id. lia. }
  assert (index_of CRLF (t ++ CRLF) = Some (length t)) as Hidx.
  { apply index_of_CRLF_replicate. }
  clearbody t.
  split; [rewrite Hsz; vm_compute; split; [discriminate|reflexivity]|].
  apply (Split_cursor_overflow t CRLF []); [exact Hidx|discriminate|rewrite Hsz; vm_compute; split; [discriminate|reflexivity]|].
  rewrite app_nil_r, size_of_app, Hsz. vm_compute. reflexivity.
Defined.

(** [Trim] removes exactly the delimiter bytes at both ends: the string is the
    result between two runs of delimiter bytes, and the result neither starts nor
    ends with one; a string of delimiter bytes only gives the empty string. *)
Theorem Trim_spec str delim :
  ∃ l m r, Trim str delim = Ok m ∧ str = l ++ m ++ r ∧
           all_in delim l ∧ all_in delim r ∧ stripped delim m ∧
           (all_in delim str → m = []).
Proof.
  destruct (Trim_decompose delim str) as (l & m & r & -> & Hl & Hr & Hm).
  exists l, m, r. split_and!; [by apply Trim_intro|done..|].
  unfold all_in. rewrite !Forall_app. intros (_ & Hall & _). destruct m as [|c m]; [done|].
  exfalso. apply (Hm c); [by left|]. by apply Forall_cons in Hall as [? _].
Qed.

(** with two or more tokens, [Join] ignores the separator it is given and
    writes a [":"] before every token but the last one, instead of between them. *)
Theorem Join_actual tokens deli l :
  2 ≤ length tokens → last tokens = Some l →
  Join tokens deli = Ok (concat ((λ t, COLON ++ t) <$> removelast tokens) ++ l).
Proof.
  intros Hlen Hl. destruct tokens as [|t [|t' tokens]]; [simpl in Hlen; lia..|].
  unfold Join. by rewrite Join_loop_eq, Hl.
Qed.

Lemma Join_actual_witness :
  2 ≤ length [lit "127.0.0.1"; lit "8080"] ∧
  Join [lit "127.0.0.1"; lit "8080"] COLON = Ok (lit ":127.0.0.18080").
Proof.
  split; [vm_compute; lia|].
  exact (Join_actual [lit "127.0.0.1"; lit "8080"] COLON (lit "8080") ltac:(vm_compute; lia) eq_refl).
Defined.

(** [ToMethod] recognises a method exactly when the string is its name, in any
    letter case, between runs of spaces; everything else is unsupported. *)
Theorem ToMethod_spec str m :
  m ≠ METHOD_UNSUPPORTED →
  ToMethod str = Ok m ↔
  ∃ l w r, str = l ++ w ++ r ∧ all_in SPACE l ∧ all_in SPACE r ∧
           ToUpper w = Method_String_Map m.
Proof.
  intros Hm. unfold ToMethod. split.
  - destruct (Trim_decompose SPACE str) as (l & w & r & -> & Hl & Hr & Hw).
    unfold Format. rewrite (Trim_intro _ l w r) by done. mred. intros H.
    exists l, w, r. split_and!; [done..|]. repeat case_decide; naive_solver.
  - intros (l & w & r & -> & Hl & Hr & Hw). rewrite Format_spaces by done.
    assert (Format w = Ok (Method_String_Map m)) as ->; [|by destruct m].
    unfold Format. rewrite <-(app_nil_r w) at 1. rewrite (Trim_intro _ [] w []).
    + mred. by rewrite Hw.
    + by constructor.
    + by constructor.
    + intros c Hc Hin. apply list_elem_of_singleton in Hin as ->.
      destruct m; [| |done]; destruct w as [|c1 [|c2 [|c3 [|c4 [|c5 w]]]]]; try done;
        destruct Hc as [[= ->]|[= ->]]; discriminate Hw.
Qed.

Lemma ToMethod_spec_witness :
  GET ≠ METHOD_UNSUPPORTED ∧
  (ToMethod (lit " gEt ") = Ok GET ↔
   ∃ l w r, lit " gEt " = l ++ w ++ r ∧ all_in SPACE l ∧ all_in SPACE r ∧
            ToUpper w = Method_String_Map GET).
Proof. split; [discriminate|]. apply ToMethod_spec. discriminate. Defined.
