(* ===== verification/Header.v ===== *)
(** * [Icee::Http::Header] (src/include/http/header.h, src/http/header.cc)

    One "key : value" line.  Each C++ constructor is one definition; the ones that
    take rvalues move the strings, the ones that take const references copy them,
    and they differ in the [valid_] flag they leave behind.

    The theorems are the parse/print round trip and what parsing does to a value
    that contains a colon. *)

From S2P Require Import Prelude CppString HttpUtils.

Record Header := mkHeader { key_ : bytes; value_ : bytes; valid_ : bool }.

#[export] Instance Header_eq_dec : EqDecision Header.
Proof. solve_decision. Defined.

(** [Header(const std::string &key, const std::string &value)] *)
Definition Header_copy_kv (key value : bytes) : Header := mkHeader key value false.

(** [Header(std::string &&key, std::string &&value)]: [valid_] keeps its default. *)
Definition Header_move_kv (key value : bytes) : Header := mkHeader key value true.

(** [Header(Header &&other)]: [valid_] keeps its default, whatever [other]'s is. *)
Definition Header_move (other : Header) : Header := mkHeader (key_ other) (value_ other) true.

(** [operator=(Header &&other)] *)
Definition Header_assign_move (this other : Header) : Header :=
  mkHeader (key_ other) (value_ other) (valid_ other).

(** [explicit Header(const std::string &header_line)] *)
Definition Header_line (header_line : bytes) : result Header :=
  tokens ← Split header_line COLON;
  match tokens with
  | key :: (_ :: _) as rest =>
      value ← (match rest with [v] => mret v | _ => Join rest COLON end);
      mret (mkHeader key value true)
  | _ => mret (mkHeader [] [] false)
  end.

Definition IsValid (h : Header) : bool := valid_ h.
Definition GetKey (h : Header) : bytes := key_ h.
Definition GetValue (h : Header) : bytes := value_ h.
Definition SetValue (h : Header) (new_value : bytes) : Header :=
  mkHeader (key_ h) new_value (valid_ h).
Definition Serialize (h : Header) : bytes := key_ h ++ COLON ++ value_ h ++ CRLF.

(** [operator<<]: the header, by value, printed for debugging. *)
Definition stream_out (os : bytes) (header : Header) : bytes :=
  let endl := ["010"%char] in
  os ++ lit "HTTP Header contains:" ++ endl ++ lit "Key: " ++ GetKey header ++ endl ++
  lit "Value: " ++ GetValue header ++ endl ++
  lit "IsValid: " ++ (if IsValid header then lit "True" else lit "False") ++ endl ++
  lit "Serialize to: " ++ Serialize header.

(** ** Lemmas *)

Lemma COLON_cons : COLON = [":"%char].
Proof. reflexivity. Qed.

Lemma Header_line_pieces line toks :
  splittable line COLON → pieces COLON line toks →
  Header_line line =
  Ok match toks with
     | k :: [v] => mkHeader k v true
     | k :: (_ :: _ :: _) as rest =>
         mkHeader k (concat ((λ t, COLON ++ t) <$> removelast rest) ++ default [] (last rest)) true
     | _ => mkHeader [] [] false
     end.
Proof.
  intros Hs Hp. unfold Header_line. rewrite (Split_pieces _ _ _ Hs Hp).
  destruct toks as [|k [|v [|w toks]]]; [done..|]. mred.
  unfold Join. rewrite Join_loop_eq by done.
  change (last (v :: w :: toks)) with (last (w :: toks)).
  destruct (last (w :: toks)) eqn:El; [done|]. by apply last_None in El.
Qed.

Lemma Header_line_total line :
  splittable line COLON → ∃ h, Header_line line = Ok h.
Proof.
  intros Hs. destruct (pieces_exist COLON line) as [toks Hp]; [by destruct Hs|].
  eexists. by eapply Header_line_pieces.
Qed.

(** ** Properties *)

(** C29: parsing the line of a header whose key and value hold no colon (and whose
    value is not empty) gives the header back, valid; and the line is what
    [Serialize] writes before its CRLF. *)
Theorem Header_roundtrip key value :
  ":"%char ∉ key → ":"%char ∉ value → value ≠ [] →
  (size_of (key ++ COLON ++ value) < 2 ^ 31)%Z →
  Header_line (key ++ COLON ++ value) = Ok (Header_move_kv key value) ∧
  Serialize (Header_move_kv key value) = (key ++ COLON ++ value) ++ CRLF.
Proof.
  intros Hk Hv Hne Hsz.
  assert (pieces COLON (key ++ COLON ++ value) [key; value]) as Hp.
  { apply (pieces_join ":" [] [key; value]); [done| |].
    - by repeat constructor.
    - simpl. congruence. }
  rewrite (Header_line_pieces _ _ ltac:(by split) Hp). split; [done|].
  unfold Serialize, Header_move_kv. simpl. by rewrite <-app_assoc.
Qed.

Lemma Header_roundtrip_witness :
  (":"%char ∉ lit "Connection") ∧
  Header_line (lit "Connection" ++ COLON ++ lit " Keep-Alive")
  = Ok (Header_move_kv (lit "Connection") (lit " Keep-Alive")) ∧
  Serialize (Header_move_kv (lit "Connection") (lit " Keep-Alive"))
  = (lit "Connection" ++ COLON ++ lit " Keep-Alive") ++ CRLF.
Proof.
  split; [decided|].
  apply Header_roundtrip; [decided..|done|done].
Defined.

(** a value with one colon in it (an "ip:port") comes out of the parser with
    that colon moved to its front: "Host:a:80" is read as ":a80". *)
Theorem Header_value_colon_moved key v1 v2 :
  ":"%char ∉ key → ":"%char ∉ v1 → ":"%char ∉ v2 → v2 ≠ [] →
  (size_of (key ++ COLON ++ v1 ++ COLON ++ v2) < 2 ^ 31)%Z →
  Header_line (key ++ COLON ++ v1 ++ COLON ++ v2)
  = Ok (mkHeader key (COLON ++ v1 ++ v2) true).
Proof.
  intros Hk H1 H2 Hne Hsz.
  assert (pieces COLON (key ++ COLON ++ v1 ++ COLON ++ v2) [key; v1; v2]) as Hp.
  { apply (pieces_join ":" [] [key; v1; v2]); [done| |].
    - by repeat constructor.
    - simpl. congruence. }
  rewrite (Header_line_pieces _ _ ltac:(by split) Hp).
  simpl. by rewrite app_nil_r.
Qed.

Lemma Header_value_colon_moved_witness :
  (":"%char ∉ lit "Host") ∧
  Header_line (lit "Host" ++ COLON ++ lit "localhost" ++ COLON ++ lit "8080")
  = Ok (mkHeader (lit "Host") (COLON ++ lit "localhost" ++ lit "8080") true).
Proof.
  split; [decided|].
  apply Header_value_colon_moved; [decided..|done|done].
Defined.
