(* ===== verification/Request.v ===== *)
(** * [Icee::Http::Request] (src/include/http/request.h, src/http/request.cc)

    The request parser.  A [Request] object is built by its constructor and only
    read afterwards; [method_] and [version_] have no initialiser in the class, so
    they are [None] (indeterminate) until [ParseRequestLine] assigns them.

    The theorems: the constructor returns on every input below 2^31 bytes; the
    inputs it accepts are exactly those of an explicit grammar; an accepted
    request is well formed; a printed request parses back. *)

From S2P Require Import Prelude CppString HttpUtils Header.

Record Request := mkRequest {
  method_ : option Method;
  version_ : option Version;
  url_ : bytes;
  headers_ : list Header;
  is_valid_ : bool;
  should_close_ : bool;
  invalid_reason_ : bytes
}.

#[export] Instance Request_eq_dec : EqDecision Request.
Proof. solve_decision. Defined.

(** The members after default initialisation. *)
Definition Request_init : Request := mkRequest None None [] [] false true [].

Definition set_method (r : Request) (m : Method) : Request :=
  mkRequest (Some m) (version_ r) (url_ r) (headers_ r) (is_valid_ r) (should_close_ r) (invalid_reason_ r).
Definition set_version (r : Request) (v : Version) : Request :=
  mkRequest (method_ r) (Some v) (url_ r) (headers_ r) (is_valid_ r) (should_close_ r) (invalid_reason_ r).
Definition set_url (r : Request) (u : bytes) : Request :=
  mkRequest (method_ r) (version_ r) u (headers_ r) (is_valid_ r) (should_close_ r) (invalid_reason_ r).
Definition push_header (r : Request) (h : Header) : Request :=
  mkRequest (method_ r) (version_ r) (url_ r) (headers_ r ++ [h]) (is_valid_ r) (should_close_ r) (invalid_reason_ r).
Definition set_valid (r : Request) (b : bool) : Request :=
  mkRequest (method_ r) (version_ r) (url_ r) (headers_ r) b (should_close_ r) (invalid_reason_ r).
Definition set_should_close (r : Request) (b : bool) : Request :=
  mkRequest (method_ r) (version_ r) (url_ r) (headers_ r) (is_valid_ r) b (invalid_reason_ r).
Definition set_invalid_reason (r : Request) (s : bytes) : Request :=
  mkRequest (method_ r) (version_ r) (url_ r) (headers_ r) (is_valid_ r) (should_close_ r) s.

(** [Request(Method, Version, std::string, const std::vector<Header> &)] *)
Definition Request_fields (method : Method) (version : Version) (resource_url : bytes)
    (headers : list Header) : Request :=
  mkRequest (Some method) (Some version) resource_url headers true true [].

(** [tokens[1].empty() || tokens[1].back() == '/' ? ... ] *)
Definition route (u : bytes) : bytes :=
  if decide (u = []) then u ++ DEFAULT_ROUTE
  else if decide (last u = Some "/"%char) then u ++ DEFAULT_ROUTE
  else u.

Definition ParseRequestLine (r : Request) (request_line : bytes) : result (bool * Request) :=
  tokens ← Split request_line SPACE;
  match tokens with
  | [t0; t1; t2] =>
      m ← ToMethod t0;
      let r := set_method r m in
      if decide (m = METHOD_UNSUPPORTED) then
        mret (false, set_invalid_reason r (lit "Invalid Method[unsupported method]"))
      else
        v ← ToVersion t2;
        let r := set_version r v in
        if decide (v = VERSION_UNSUPPORTED) then
          mret (false, set_invalid_reason r (lit "Invalid Version[unsupported version]"))
        else mret (true, set_url r (route t1))
  | _ =>
      mret (false, set_invalid_reason r
                     (lit "The first request is invalid:[" ++ request_line ++ lit "]"))
  end.

Definition CheckConnectionState (r : Request) (header : Header) : result Request :=
  key ← Format (GetKey header);
  connection ← Format HEADER_CONNECTION;
  if decide (key = connection) then
    value ← Format (GetValue header);
    keep_alive ← Format CONNECTION_KEEP_ALIVE;
    if decide (value = keep_alive) then mret (set_should_close r false) else mret r
  else mret r.

(** The loop over the header lines: [false] when it returned early. *)
Fixpoint ParseHeaders (r : Request) (tokens : list bytes) : result (bool * Request) :=
  match tokens with
  | [] => mret (true, r)
  | line :: tokens =>
      header ← Header_line line;
      if Header.IsValid header then
        r ← CheckConnectionState r header;
        ParseHeaders (push_header r (Header_move header)) tokens
      else mret (false, set_invalid_reason r (lit "Fail to parse header line:" ++ line))
  end.

(** [explicit Request(const std::string &request_str)] *)
Definition Request_ctor (request_str : bytes) : result Request :=
  tokens ← Split request_str CRLF;
  let r := Request_init in
  if decide (length tokens < 2 ∨ last tokens ≠ Some []) then
    mret (set_invalid_reason r (lit "Request format wrong."))
  else if decide (last tokens ≠ Some []) then
    mret (set_invalid_reason r (lit "End of request's token should be empty"))
  else
    match removelast tokens with
    | [] => Fail OutOfRange
    | request_line :: header_lines =>
        '(request_parse_success, r) ← ParseRequestLine r request_line;
        if negb request_parse_success then
          mret (set_invalid_reason r (lit "Request line error"))
        else
          '(all_parsed, r) ← ParseHeaders r header_lines;
          if negb all_parsed then mret r else mret (set_valid r true)
    end.

Definition ShouldClose (r : Request) : bool := should_close_ r.
Definition IsValid (r : Request) : bool := is_valid_ r.
Definition GetMethod (r : Request) : option Method := method_ r.
Definition GetVersion (r : Request) : option Version := version_ r.
Definition GetResourceUrl (r : Request) : bytes := url_ r.
Definition GetHeaders (r : Request) : list Header := headers_ r.
Definition GetInvalidReason (r : Request) : bytes := invalid_reason_ r.

(** ** The accepted language *)

(** A header line the parser accepts: at least one colon with something after it. *)
Definition header_ok (line : bytes) : Prop := ∃ toks, pieces COLON line toks ∧ 2 ≤ length toks.

(** A header that asks for the connection to stay open. *)
Definition keep_alive (h : Header) : bool :=
  bool_decide (Format (key_ h) = Ok (lit "CONNECTION")) &&
  bool_decide (Format (value_ h) = Ok (lit "KEEP-ALIVE")).

(** The grammar: a request line of three space-separated tokens with a supported
    method and version, header lines, and an empty line. *)
Record parses (s line : bytes) (hlines : list bytes) (m : Method) (target : bytes) : Prop := {
  parses_lines : pieces CRLF s (line :: hlines ++ [[]]);
  parses_line : ∃ t0 t2, pieces SPACE line [t0; target; t2] ∧
                         ToMethod t0 = Ok m ∧ ToVersion t2 = Ok HTTP_1_1;
  parses_method : m ≠ METHOD_UNSUPPORTED;
  parses_headers : Forall header_ok hlines
}.

Definition well_formed (s : bytes) : Prop := ∃ line hlines m target, parses s line hlines m target.

(** The text of a request. *)
Definition print_request (m : Method) (url : bytes) (hs : list Header) : bytes :=
  (Method_String_Map m ++ SPACE ++ url ++ SPACE ++ Version_String_Map HTTP_1_1) ++ CRLF ++
  concat (Serialize <$> hs) ++ CRLF.

(** ** Lemmas *)

Lemma ToMethod_total s : ∃ m, ToMethod s = Ok m.
Proof. unfold ToMethod. destruct (Format_total s) as [t ->]. by eexists. Qed.

Lemma ToVersion_total s : ∃ v, ToVersion s = Ok v.
Proof. unfold ToVersion. destruct (Format_total s) as [t ->]. by eexists. Qed.

Lemma CheckConnectionState_eq r h :
  CheckConnectionState r h = Ok (set_should_close r (should_close_ r && negb (keep_alive h))).
Proof.
  unfold CheckConnectionState, keep_alive, GetKey, GetValue.
  destruct (Format_total (key_ h)) as [k Hk]. destruct (Format_total (value_ h)) as [v Hv].
  rewrite Hk, Hv. change (Format HEADER_CONNECTION) with (Ok (lit "CONNECTION")).
  change (Format CONNECTION_KEEP_ALIVE) with (Ok (lit "KEEP-ALIVE")). mred.
  destruct (decide (k = lit "CONNECTION")) as [->|Hn].
  - rewrite (bool_decide_eq_true_2 (Ok (lit "CONNECTION") = _)) by done. simpl.
    case_decide as Hd.
    + rewrite bool_decide_eq_true_2 by congruence. by rewrite andb_false_r.
    + rewrite bool_decide_eq_false_2 by congruence. rewrite andb_true_r. by destruct r.
  - rewrite (bool_decide_eq_false_2 (Ok k = _)) by congruence. simpl.
    rewrite andb_true_r. by destruct r.
Qed.

Lemma Header_line_ok line :
  splittable line COLON →
  ∃ h, Header_line line = Ok h ∧ (Header.IsValid h = true ↔ header_ok line).
Proof.
  intros Hs. destruct (pieces_exist COLON line) as [toks Hp]; [by destruct Hs|].
  rewrite (Header_line_pieces _ _ Hs Hp). eexists; split; [done|].
  assert (header_ok line ↔ 2 ≤ length toks) as ->.
  { split; [|by exists toks]. intros (toks' & Hp' & Hl).
    by rewrite (pieces_det COLON line toks toks'). }
  destruct toks as [|k [|v [|w toks]]]; simpl; split; (done || lia).
Qed.

(** The header loop on lines short enough to split: it succeeds exactly on
    acceptable lines, and then appends the parsed headers and updates the
    keep-alive flag. *)
Lemma ParseHeaders_spec r hlines :
  Forall (λ l, splittable l COLON) hlines →
  ∃ b r', ParseHeaders r hlines = Ok (b, r') ∧
    is_valid_ r' = is_valid_ r ∧
    (b = true ↔ Forall header_ok hlines) ∧
    (b = true → ∃ hs, Forall2 (λ l h, Header_line l = Ok h) hlines hs ∧
       Forall (λ h, valid_ h = true) hs ∧
       r' = mkRequest (method_ r) (version_ r) (url_ r) (headers_ r ++ hs) (is_valid_ r)
              (should_close_ r && negb (existsb keep_alive hs)) (invalid_reason_ r)).
Proof.
  intros Hs. revert r. induction Hs as [|l hlines Hl _ IH]; intros r.
  { exists true, r. split_and!; [done..|]. intros _. exists []. split_and!; [by constructor..|].
    simpl. rewrite app_nil_r, andb_true_r. by destruct r. }
  destruct (Header_line_ok l Hl) as (h & Hh & Hok). cbn [ParseHeaders]. rewrite Hh. mred.
  destruct (Header.IsValid h) eqn:Hv.
  - rewrite CheckConnectionState_eq. mred.
    edestruct IH as (b & r' & -> & Hval & Hb & Hr). exists b, r'.
    split_and!; [done|done| |].
    + rewrite Forall_cons, Hb. split; [|by intros [_ ?]]. intros ?. split; [by apply Hok|done].
    + intros Ht. destruct (Hr Ht) as (hs & H2 & Hvs & ->). exists (h :: hs).
      split_and!; [by constructor|by constructor|]. simpl.
      unfold Header.IsValid in Hv. unfold Header_move. rewrite <-app_assoc. simpl.
      f_equal; [|by destruct (should_close_ r), (keep_alive h)].
      destruct h as [k v f]; simpl in *; by subst.
  - exists false, (set_invalid_reason r (lit "Fail to parse header line:" ++ l)).
    split_and!; [done..| |done]. rewrite Forall_cons. split; [done|]. by intros [?%Hok _].
Qed.

Lemma ParseRequestLine_spec r line :
  splittable line SPACE →
  ∃ b r', ParseRequestLine r line = Ok (b, r') ∧ is_valid_ r' = is_valid_ r ∧
    (b = true ↔ ∃ t0 t1 t2 m, pieces SPACE line [t0; t1; t2] ∧ ToMethod t0 = Ok m ∧
                  m ≠ METHOD_UNSUPPORTED ∧ ToVersion t2 = Ok HTTP_1_1) ∧
    (b = true → ∃ t0 t1 t2 m, pieces SPACE line [t0; t1; t2] ∧ ToMethod t0 = Ok m ∧
                  m ≠ METHOD_UNSUPPORTED ∧ ToVersion t2 = Ok HTTP_1_1 ∧
                  r' = set_url (set_version (set_method r m) HTTP_1_1) (route t1)).
Proof.
  intros Hs. destruct (pieces_exist SPACE line) as [toks Hp]; [by destruct Hs|].
  unfold ParseRequestLine. rewrite (Split_pieces _ _ _ Hs Hp). mred.
  assert (∀ toks', pieces SPACE line toks' → toks' = toks) as Hdet.
  { intros toks' Hp'. by apply (pieces_det SPACE line). }
  destruct toks as [|t0 [|t1 [|t2 [|t3 toks]]]];
    try (eexists false, _; split_and!; [done|done| |done]; split; [done|];
         intros (? & ? & ? & ? & Hp' & _); by apply Hdet in Hp').
  destruct (ToMethod_total t0) as [m Hm]. rewrite Hm. mred.
  destruct (ToVersion_total t2) as [v Hv]. rewrite Hv. mred.
  case_decide; [|case_decide].
  1-2: eexists false, _; split_and!; [done|done| |done]; split; [done|];
       intros (? & ? & ? & ? & Hp' & Hm' & ? & Hv'); apply Hdet in Hp'; simplify_eq; congruence.
  destruct v; [|done]. eexists true, _; split_and!; [done|done| |].
  - split; [|done]. intros _. by exists t0, t1, t2, m.
  - intros _. by exists t0, t1, t2, m.
Qed.

(** The three ways through the constructor. *)
Lemma Request_ctor_spec s :
  splittable s CRLF →
  ∃ r, Request_ctor s = Ok r ∧
    (is_valid_ r = true ↔ well_formed s) ∧
    (is_valid_ r = true → ∃ line hlines m target hs,
       parses s line hlines m target ∧
       Forall2 (λ l h, Header_line l = Ok h) hlines hs ∧
       Forall (λ h, valid_ h = true) hs ∧
       r = mkRequest (Some m) (Some HTTP_1_1) (route target) hs true
             (negb (existsb keep_alive hs)) []).
Proof.
  intros Hs. destruct (pieces_exist CRLF s) as [toks Hp]; [by destruct Hs|].
  assert (∀ toks', pieces CRLF s toks' → toks' = toks) as Hdet.
  { intros toks' Hp'. by apply (pieces_det CRLF s). }
  unfold Request_ctor. rewrite (Split_pieces _ _ _ Hs Hp). mred.
  destruct (decide (length toks < 2 ∨ last toks ≠ Some [])) as [Hbad|Hgood].
  { eexists; split; [done|]. split; [|done]. split; [done|].
    intros (line & hlines & m & target & [Hl _ _ _]). apply Hdet in Hl as <-.
    destruct Hbad as [Hbad|Hbad].
    - simpl in Hbad. rewrite length_app in Hbad. simpl in Hbad. lia.
    - rewrite app_comm_cons, last_snoc in Hbad. done. }
  assert (∃ line hlines, toks = line :: hlines ++ [[]]) as (line & hlines & ->).
  { destruct toks as [|line toks]; [simpl in Hgood; lia|].
    destruct (exists_last (l := toks)) as (hlines & l & ->).
    { intros ->. simpl in Hgood. lia. }
    exists line, hlines. rewrite app_comm_cons, last_snoc in Hgood.
    destruct (decide (l = [])) as [->|]; [done|]. exfalso. apply Hgood. right. congruence. }
  rewrite decide_False by (rewrite app_comm_cons, last_snoc; by intros []).
  rewrite app_comm_cons, removelast_last.
  assert (∀ t d, t ∈ line :: hlines → d ≠ [] → splittable t d) as Hsub.
  { intros t d Ht Hd. eapply splittable_piece; [done..| |done].
    rewrite app_comm_cons. apply elem_of_app. by left. }
  destruct (ParseRequestLine_spec Request_init line) as (b & r & Hl & Hv & Hb & Hr).
  { apply Hsub; [set_solver|done]. }
  rewrite Hl. mred. destruct b; simpl.
  2:{ eexists; split; [done|]. simpl. rewrite Hv. split; [|done]. split; [done|].
      intros (line' & hlines' & m & target & [Hp' (t0 & t2 & Hp2 & Hm & Hver) Hm' _]).
      apply Hdet in Hp'. simplify_eq. assert (false = true); [|done].
      apply Hb. by exists t0, target, t2, m. }
  destruct (Hr eq_refl) as (t0 & t1 & t2 & m & Hp2 & Hm & Hm' & Hver & Hreq). clear Hr.
  destruct (ParseHeaders_spec r hlines) as (b & r' & Hh & Hv' & Hbh & Hr').
  { apply Forall_forall. intros l Hin. apply Hsub; [apply elem_of_cons; by right|done]. }
  rewrite Hh. mred. destruct b; simpl.
  - destruct (Hr' eq_refl) as (hs & HF2 & Hvs & ->). eexists; split; [done|].
    assert (parses s line hlines m t1) as Hparse.
    { split; [done|by exists t0, t2|done|by apply Hbh]. }
    split; [split; [|done]; intros _; by exists line, hlines, m, t1|].
    intros _. exists line, hlines, m, t1, hs. rewrite Hreq. by split_and!.
  - eexists; split; [done|]. rewrite Hv', Hv. split; [|done]. split; [done|].
    intros (line' & hlines' & m' & target & [Hp' _ _ Hok]). apply Hdet in Hp'.
    simplify_list_eq. by apply Hbh in Hok.
Qed.

Lemma route_spec u : route u ≠ [] ∧ last (route u) ≠ Some "/"%char.
Proof.
  unfold route. repeat case_decide; subst; [done| |done].
  rewrite last_app. split; [|done]. by destruct u.
Qed.

Lemma existsb_keep_alive_false hs :
  negb (existsb keep_alive hs) = false ↔ ∃ h, h ∈ hs ∧ keep_alive h = true.
Proof.
  rewrite negb_false_iff, existsb_exists. setoid_rewrite list_elem_of_In. done.
Qed.

(** Headers that print and parse back: no colon, no CR, and a non-empty value. *)
Definition plain_header (h : Header) : Prop :=
  valid_ h = true ∧ value_ h ≠ [] ∧
  Forall (λ c, c ≠ ":"%char ∧ c ≠ "013"%char) (key_ h ++ value_ h).

(** Targets that print and parse back. *)
Definition plain_target (u : bytes) : Prop :=
  route u = u ∧ Forall (λ c, c ≠ " "%char ∧ c ≠ "013"%char) u.

Lemma Forall_notin {P : ascii → Prop} c s : Forall P s → ¬ P c → c ∉ s.
Proof. rewrite Forall_forall. intros HP Hc Hin. by apply Hc, HP. Qed.

Lemma plain_header_line h :
  plain_header h → (size_of (key_ h ++ COLON ++ value_ h) < 2 ^ 31)%Z →
  Header_line (key_ h ++ COLON ++ value_ h) = Ok h.
Proof.
  intros (Hv & Hne & [Hk Hval]%Forall_app) Hsz. destruct h as [k v f]; simpl in *.
  assert (pieces COLON (k ++ COLON ++ v) [k; v]) as Hp.
  { apply (pieces_join ":" [] [k; v]); [done| |simpl; congruence].
    repeat constructor; (eapply Forall_notin; [done|by intros [??]]). }
  rewrite (Header_line_pieces _ _ ltac:(by split) Hp). by subst.
Qed.

Lemma print_headers hs :
  concat (Serialize <$> hs) =
  concat ((λ t, t ++ CRLF) <$> ((λ h, key_ h ++ COLON ++ value_ h) <$> hs)).
Proof.
  induction hs as [|h hs IH]; [done|]. rewrite !fmap_cons. cbn [concat]. rewrite IH.
  unfold Serialize. by rewrite <-!app_assoc.
Qed.

Lemma print_request_pieces m url hs :
  plain_target url → Forall plain_header hs →
  pieces CRLF (print_request m url hs)
    ((Method_String_Map m ++ SPACE ++ url ++ SPACE ++ Version_String_Map HTTP_1_1) ::
     ((λ h, key_ h ++ COLON ++ value_ h) <$> hs) ++ [[]]).
Proof.
  intros [_ Hu] Hhs.
  set (line := _ ++ _ ++ _ ++ _ ++ _). set (hlines := _ <$> hs).
  assert (print_request m url hs = concat ((λ t, t ++ CRLF) <$> (line :: hlines ++ [[]]))) as ->.
  { unfold print_request. rewrite fmap_cons, fmap_app. cbn [concat].
    rewrite concat_app, print_headers. unfold line. rewrite <-!app_assoc. done. }
  apply (pieces_terminated "013" ["010"%char]). constructor.
  - unfold line. rewrite !not_elem_of_app. split_and!; [destruct m; decided|decided| |decided..].
    eapply Forall_notin; [done|by intros [??]].
  - apply Forall_app. split; [|by constructor; [decided|constructor]].
    apply Forall_fmap. eapply Forall_impl; [exact Hhs|]. intros h (_ & _ & Hc) Hin.
    simpl in Hin. rewrite elem_of_app, elem_of_cons in Hin.
    apply Forall_app in Hc as [Hk Hv]. rewrite Forall_forall in Hk, Hv.
    destruct Hin as [Hin|[Hin|Hin]]; [by destruct (Hk _ Hin)|done|by destruct (Hv _ Hin)].
Qed.

Lemma request_line_pieces m url :
  m ≠ METHOD_UNSUPPORTED → plain_target url →
  pieces SPACE (Method_String_Map m ++ SPACE ++ url ++ SPACE ++ Version_String_Map HTTP_1_1)
    [Method_String_Map m; url; Version_String_Map HTTP_1_1].
Proof.
  intros Hm [_ Hu].
  apply (pieces_join " " [] [Method_String_Map m; url; Version_String_Map HTTP_1_1]); [done| |done].
  repeat constructor; [destruct m; decided| |decided].
  eapply Forall_notin; [done|by intros [??]].
Qed.

Lemma parses_det s line hlines m target line' hlines' m' target' :
  parses s line hlines m target → parses s line' hlines' m' target' →
  line = line' ∧ hlines = hlines' ∧ m = m' ∧ target = target'.
Proof.
  intros [Hp (t0 & t2 & Hl & Hm & _) _ _] [Hp' (t0' & t2' & Hl' & Hm' & _) _ _].
  pose proof (pieces_det CRLF s _ _ ltac:(done) Hp Hp') as [= <- Heq].
  apply app_inj_2 in Heq as [<- _]; [|done].
  pose proof (pieces_det SPACE line _ _ ltac:(done) Hl Hl') as [= <- <- <-].
  split_and!; congruence.
Qed.

(** ** Properties *)

(** C10: the request constructor returns on every string below 2^31 bytes (the code
    declares it [noexcept]), and it accepts exactly the requests of the grammar
    {!well_formed}: three space-separated tokens with a supported method and
    version, header lines with a colon and something after it, an empty line. *)
Theorem Request_accepts s :
  (size_of s < 2 ^ 31)%Z →
  ∃ r, Request_ctor s = Ok r ∧ (IsValid r = true ↔ well_formed s).
Proof.
  intros Hs. destruct (Request_ctor_spec s) as (r & Hr & Hv & _); [by split|]. by exists r.
Qed.

Lemma Request_accepts_witness :
  (size_of (lit "GET / HTTP/1.1") < 2 ^ 31)%Z ∧
  ∃ r, Request_ctor (lit "GET / HTTP/1.1") = Ok r ∧
       (IsValid r = true ↔ well_formed (lit "GET / HTTP/1.1")).
Proof. split; [done|]. apply Request_accepts. done. Defined.

(** C28: an accepted request is well formed: it has a supported method and version,
    a target that is neither empty nor ends with a slash, valid headers, no error
    message, and the connection is kept open exactly when some header says
    "Connection: Keep-Alive" (in any case, spaces aside). *)
Theorem Request_valid_fields s r :
  (size_of s < 2 ^ 31)%Z → Request_ctor s = Ok r → IsValid r = true →
  (∃ m, GetMethod r = Some m ∧ m ≠ METHOD_UNSUPPORTED) ∧
  GetVersion r = Some HTTP_1_1 ∧
  GetResourceUrl r ≠ [] ∧ last (GetResourceUrl r) ≠ Some "/"%char ∧
  Forall (λ h, valid_ h = true) (GetHeaders r) ∧
  GetInvalidReason r = [] ∧
  (ShouldClose r = false ↔ ∃ h, h ∈ GetHeaders r ∧ keep_alive h = true).
Proof.
  intros Hs Hr Hv. destruct (Request_ctor_spec s) as (r' & Hr' & _ & H); [by split|].
  assert (r' = r) as -> by congruence.
  destruct (H Hv) as (line & hlines & m & target & hs & Hp & _ & Hhs & ->).
  pose proof (route_spec target) as [Hne Hl]. simpl.
  split_and!; try done; [exists m; split; [done|by destruct Hp]|].
  apply existsb_keep_alive_false.
Qed.

Lemma Request_valid_fields_witness :
  let s := print_request GET (lit "/a/") [Header_move_kv HEADER_CONNECTION (lit " keep-alive")] in
  ∃ r, Request_ctor s = Ok r ∧ IsValid r = true ∧ GetResourceUrl r ≠ [] ∧
       (ShouldClose r = false ↔ ∃ h, h ∈ GetHeaders r ∧ keep_alive h = true).
Proof.
  intros s.
  destruct (Request_ctor s) as [r|f] eqn:E; [|vm_compute in E; discriminate E].
  assert (IsValid r = true) as Hv by (vm_compute in E; injection E as <-; reflexivity).
  exists r. split; [reflexivity|]. split; [exact Hv|].
  destruct (Request_valid_fields s r eq_refl E Hv) as (_ & _ & H1 & _ & _ & _ & H2).
  exact (conj H1 H2).
Defined.

(** C13: a printed request parses back to its method, target and headers. *)
Theorem Request_roundtrip m url hs :
  m ≠ METHOD_UNSUPPORTED → plain_target url → Forall plain_header hs →
  (size_of (print_request m url hs) < 2 ^ 31)%Z →
  Request_ctor (print_request m url hs)
  = Ok (mkRequest (Some m) (Some HTTP_1_1) url hs true (negb (existsb keep_alive hs)) []).
Proof.
  intros Hm Hu Hhs Hsz. set (s := print_request m url hs) in *.
  pose proof (print_request_pieces m url hs Hu Hhs) as Hp. fold s in Hp.
  pose proof (request_line_pieces m url Hm Hu) as Hl.
  assert (∀ h, h ∈ hs → splittable (key_ h ++ COLON ++ value_ h) COLON) as Hsub.
  { intros h Hin. eapply (splittable_piece CRLF s); [by split|done| |done].
    apply elem_of_cons. right. apply elem_of_app. left.
    by apply (list_elem_of_fmap_2 (λ h, key_ h ++ COLON ++ value_ h)). }
  assert (∀ h, h ∈ hs → Header_line (key_ h ++ COLON ++ value_ h) = Ok h) as Hlines.
  { intros h Hin. rewrite Forall_forall in Hhs.
    apply plain_header_line; [by apply Hhs|by destruct (Hsub _ Hin)]. }
  assert (parses s (Method_String_Map m ++ SPACE ++ url ++ SPACE ++ Version_String_Map HTTP_1_1)
            ((λ h, key_ h ++ COLON ++ value_ h) <$> hs) m url) as Hparse.
  { split; [done| |done|].
    - exists (Method_String_Map m), (Version_String_Map HTTP_1_1).
      split_and!; [done|by destruct m|done].
    - apply Forall_fmap, Forall_forall. intros h Hin. simpl.
      destruct (Header_line_ok _ (Hsub h Hin)) as (h' & Hh' & Hok).
      apply Hok. rewrite Hlines in Hh' by done. simplify_eq.
      rewrite Forall_forall in Hhs. by destruct (Hhs _ Hin). }
  destruct (Request_ctor_spec s) as (r & -> & Hv & Hr); [by split|]. f_equal.
  destruct Hr as (line & hlines & m' & target & hs' & Hp' & HF2 & _ & ->).
  { apply Hv. by eexists _, _, _, _. }
  destruct (parses_det _ _ _ _ _ _ _ _ _ Hparse Hp') as (<- & <- & <- & <-).
  destruct Hu as [-> _]. enough (hs' = hs) as -> by done.
  clear -HF2 Hlines. revert hs' HF2. induction hs as [|h hs IH]; intros hs' HF2.
  - by inversion HF2.
  - inversion HF2 as [|? h' ? hs'' Hh' HF2']; subst. f_equal.
    + rewrite Hlines in Hh' by set_solver. congruence.
    + apply IH; [|done]. intros. apply Hlines. set_solver.
Qed.

Lemma Request_roundtrip_witness :
  let hs := [Header_move_kv (lit "Host") (lit " a"); Header_move_kv HEADER_CONNECTION CONNECTION_KEEP_ALIVE] in
  plain_target (lit "/x.html") ∧ Forall plain_header hs ∧
  Request_ctor (print_request HEAD (lit "/x.html") hs)
  = Ok (mkRequest (Some HEAD) (Some HTTP_1_1) (lit "/x.html") hs true false []).
Proof.
  intros hs.
  assert (plain_target (lit "/x.html")) as Hu by (unfold plain_target; decided).
  assert (Forall plain_header hs) as Hhs by (unfold plain_header; decided).
  split; [exact Hu|]. split; [exact Hhs|].
  exact (Request_roundtrip HEAD (lit "/x.html") hs ltac:(discriminate) Hu Hhs eq_refl).
Defined.

(** the detailed reasons of [ParseRequestLine] never reach the caller: when the
    framing is right and the request line is rejected, the reported reason is the
    generic one. *)
Theorem Request_line_error_reason s line hlines :
  (size_of s < 2 ^ 31)%Z → pieces CRLF s (line :: hlines ++ [[]]) →
  (∀ t0 t1 t2 m, pieces SPACE line [t0; t1; t2] → ToMethod t0 = Ok m →
     m ≠ METHOD_UNSUPPORTED → ToVersion t2 ≠ Ok HTTP_1_1) →
  ∃ r, Request_ctor s = Ok r ∧ IsValid r = false ∧
       GetInvalidReason r = lit "Request line error".
Proof.
  intros Hs Hp Hbad. unfold Request_ctor.
  assert (splittable s CRLF) as Hsp by (by split).
  rewrite (Split_pieces _ _ _ Hsp Hp). mred.
  rewrite app_comm_cons, last_snoc, length_app. simpl length.
  rewrite decide_False by (intros [|]; [lia|done]). rewrite decide_False by (by intros []).
  rewrite removelast_last.
  destruct (ParseRequestLine_spec Request_init line) as (b & r & Hl & Hv & Hb & _).
  { eapply splittable_piece; [exact Hsp|exact Hp| |done]. set_solver. }
  rewrite Hl. mred. destruct b.
  - destruct (proj1 Hb eq_refl) as (t0 & t1 & t2 & m & H1 & H2 & H3 & H4).
    by destruct (Hbad _ _ _ _ H1 H2 H3).
  - by eexists.
Qed.
