(* ===== verification/Connection.v ===== *)
(** * [Icee::Connection] (src/include/core/connection.h, src/core/connection.cc)

    One connected socket with its two buffers.  The kernel's side is an
    [Endpoint]: what the coming [recv] and [send] calls on the descriptor return.
    These are lists chosen by the environment, so the theorems hold for every
    behaviour of the network: [incoming] is consumed one item per [recv], and once
    it is exhausted the socket would block ([EAGAIN]); [send_plan] is consumed one
    item per [send], and once it is exhausted the kernel takes all it is given.
    [Send] tries again at once when the socket is full, so a peer that stops reading
    for good makes it spin forever: this is an item of the plan, [SendStuck], and a
    fault, [NoReturn]; so is a connection the peer has broken, on which [send] raises
    SIGPIPE, which nothing in the program catches or blocks.

    The theorems: [Recv] drains the socket up to the first condition that ends it,
    [Send] puts the write buffer on the wire in order. *)

From S2P Require Import Prelude CppString Buffer.

Inductive errno := EINTR | EAGAIN | EWOULDBLOCK | EOTHER (code : Z).

#[export] Instance errno_eq_dec : EqDecision errno.
Proof. solve_decision. Defined.

(** What [recv] returns: the bytes read (none at end of stream) or -1 with [errno]. *)
Inductive recv_ret :=
  | RecvBytes (data : bytes)
  | RecvError (e : errno).

(** What [send] returns: the number of bytes taken, or -1 with [errno]; or, of this
    call and all after it, -1 with a transient [errno], for ever; or it does not
    return but raises SIGPIPE. *)
Inductive send_ret :=
  | SendBytes (n : nat)
  | SendError (e : errno)
  | SendStuck
  | SendPipe.

Record Endpoint := mkEndpoint {
  incoming : list recv_ret;
  send_plan : list send_ret;
  wire : bytes;
  errno_ : errno
}.

Definition TEMP_BUF_SIZE : nat := 2048.

(** [Callback] is the type of the handlers ([std::function]) a user sets;
    [call_back_] binds it to this connection. *)
Record Connection (Callback : Type) := mkConnection {
  owner_looper_ : option nat;
  socket_ : Z;
  read_buffer_ : Buffer;
  write_buffer_ : Buffer;
  events_ : Z;
  revents_ : Z;
  call_back_ : option Callback
}.
Arguments mkConnection {_} _ _ _ _ _ _ _.
Arguments owner_looper_ {_} _.
Arguments socket_ {_} _.
Arguments read_buffer_ {_} _.
Arguments write_buffer_ {_} _.
Arguments events_ {_} _.
Arguments revents_ {_} _.
Arguments call_back_ {_} _.

Section Connection.
Context {Callback : Type}.
Implicit Types c : Connection Callback.

(** The constructor takes over the socket, here its descriptor. *)
Definition Connection_ctor (socket : Z) : Connection Callback :=
  mkConnection None socket (Buffer_ctor INITIAL_BUFFER_SIZE) (Buffer_ctor INITIAL_BUFFER_SIZE) 0 0 None.

Definition GetFd c : Z := socket_ c.

Definition GetSocket c : Z := socket_ c.

Definition SetEvents c (events : Z) : Connection Callback :=
  mkConnection (owner_looper_ c) (socket_ c) (read_buffer_ c) (write_buffer_ c) events (revents_ c) (call_back_ c).
Definition GetEvents c : Z := events_ c.
Definition SetRevents c (revents : Z) : Connection Callback :=
  mkConnection (owner_looper_ c) (socket_ c) (read_buffer_ c) (write_buffer_ c) (events_ c) revents (call_back_ c).
Definition GetRevents c : Z := revents_ c.

Definition SetCallback c (callback : Callback) : Connection Callback :=
  mkConnection (owner_looper_ c) (socket_ c) (read_buffer_ c) (write_buffer_ c) (events_ c) (revents_ c) (Some callback).
Definition GetCallback c : option Callback := call_back_ c.

Definition with_read_buffer c (b : Buffer) : Connection Callback :=
  mkConnection (owner_looper_ c) (socket_ c) b (write_buffer_ c) (events_ c) (revents_ c) (call_back_ c).
Definition with_write_buffer c (b : Buffer) : Connection Callback :=
  mkConnection (owner_looper_ c) (socket_ c) (read_buffer_ c) b (events_ c) (revents_ c) (call_back_ c).

Definition GetWriteBufferSize c : Z := Size (write_buffer_ c).
Definition GetReadBufferSize c : Z := Size (read_buffer_ c).

Definition WriteToReadBuffer c (buf : bytes) (size : Z) : result (Connection Callback) :=
  b ← Append (read_buffer_ c) buf size; mret (with_read_buffer c b).
Definition WriteToWriteBuffer c (buf : bytes) (size : Z) : result (Connection Callback) :=
  b ← Append (write_buffer_ c) buf size; mret (with_write_buffer c b).
Definition WriteToReadBuffer_string c (str : bytes) : result (Connection Callback) :=
  b ← Append_string (read_buffer_ c) str; mret (with_read_buffer c b).
Definition WriteToWriteBuffer_string c (str : bytes) : result (Connection Callback) :=
  b ← Append_string (write_buffer_ c) str; mret (with_write_buffer c b).
Definition WriteToWriteBuffer_vector c (other_buf : bytes) : Connection Callback :=
  with_write_buffer c (Append_vector (write_buffer_ c) other_buf).

Definition FindAndPopTill c (target : bytes) : result (option bytes * Connection Callback) :=
  '(r, b) ← Buffer.FindAndPopTill (read_buffer_ c) target; mret (r, with_read_buffer c b).

Definition Read c : bytes := Data (read_buffer_ c).
Definition ReadAsString c : bytes := ToStringView (read_buffer_ c).
Definition WriteAsString c : bytes := ToStringView (write_buffer_ c).

Definition ClearWriteBuffer c : Connection Callback := with_write_buffer c (Clear (write_buffer_ c)).
Definition ClearReadBuffer c : Connection Callback := with_read_buffer c (Clear (read_buffer_ c)).

Definition SetLooper c (looper : nat) : Connection Callback :=
  mkConnection (Some looper) (socket_ c) (read_buffer_ c) (write_buffer_ c) (events_ c) (revents_ c) (call_back_ c).
Definition GetLooper c : option nat := owner_looper_ c.

(** [recv] fills the zeroed stack buffer from its start. *)
Definition recv_buf (data : bytes) : bytes :=
  data ++ replicate (TEMP_BUF_SIZE - length data) zero.

(** The [while (true)] of [Recv], one [recv] per item. *)
Fixpoint Recv_loop (outcomes : list recv_ret) (recv_bytes : Z) c :
    result ((Z * bool) * Connection Callback * list recv_ret) :=
  match outcomes with
  | [] => mret (recv_bytes, false, c, [])
  | RecvBytes data :: rest =>
      let cur_read := size_of data in
      if (0 <? cur_read)%Z then
        c ← WriteToReadBuffer c (recv_buf data) cur_read;
        Recv_loop rest (recv_bytes + cur_read) c
      else mret (recv_bytes, true, c, rest)
  | RecvError EINTR :: rest => Recv_loop rest recv_bytes c
  | RecvError (EAGAIN | EWOULDBLOCK) :: rest => mret (recv_bytes, false, c, rest)
  | RecvError (EOTHER _) :: rest => mret (recv_bytes, true, c, rest)
  end.

(** [errno] after the [recv] calls of [Recv_loop]: a call that fails sets it, a call
    that succeeds leaves it alone.  [Send] may read it. *)
Fixpoint Recv_errno (outcomes : list recv_ret) (e : errno) : errno :=
  match outcomes with
  | [] => EAGAIN
  | RecvBytes [] :: _ => e
  | RecvBytes _ :: rest => Recv_errno rest e
  | RecvError EINTR :: rest => Recv_errno rest EINTR
  | RecvError e' :: _ => e'
  end.

Definition Recv : stM (Connection Callback * Endpoint) (Z * bool) := λ '(c, ep),
  '(r, c, rest) ← Recv_loop (incoming ep) 0 c;
  mret (r, (c, mkEndpoint rest (send_plan ep) (wire ep) (Recv_errno (incoming ep) (errno_ ep)))).

Definition is_transient (e : errno) : bool :=
  match e with EINTR | EAGAIN | EWOULDBLOCK => true | EOTHER _ => false end.

(** The [while (cur_write < left_write)] of [Send], one [send] per item: returns
    what is left of the plan, what the kernel took, and [errno]. *)
Fixpoint Send_loop (plan : list send_ret) (buf : bytes) (cur_write : nat) (out : bytes) (e : errno) :
    result (list send_ret * bytes * errno) :=
  if decide (cur_write < length buf) then
    match plan with
    | [] => mret ([], out ++ drop cur_write buf, e)
    | SendBytes 0 :: plan =>
        if is_transient e then Send_loop plan buf cur_write out e else mret (plan, out, e)
    | SendBytes n :: plan =>
        Send_loop plan buf (cur_write + n) (out ++ take n (drop cur_write buf)) e
    | SendError e' :: plan =>
        if is_transient e' then Send_loop plan buf cur_write out e' else mret (plan, out, e')
    | SendStuck :: _ => Fail NoReturn
    | SendPipe :: _ => Fail Killed
    end
  else mret (plan, out, e).

(** Both ways out of [Send] clear the write buffer. *)
Definition Send : stM (Connection Callback * Endpoint) unit := λ '(c, ep),
  '(plan, out, e) ← Send_loop (send_plan ep) (Data (write_buffer_ c)) 0 (wire ep) (errno_ ep);
  mret (tt, (ClearWriteBuffer c, mkEndpoint (incoming ep) plan out e)).

(** ** What they promise *)

(** The kernel never returns more than it was asked for. *)
Definition recv_ok (r : recv_ret) : Prop :=
  match r with RecvBytes data => length data ≤ TEMP_BUF_SIZE | RecvError _ => True end.

(** Results after which [Recv] calls [recv] again, and the data they carry. *)
Definition goes_on (r : recv_ret) : Prop :=
  match r with RecvBytes data => data ≠ [] | RecvError e => e = EINTR end.
Definition carried (r : recv_ret) : bytes :=
  match r with RecvBytes data => data | RecvError _ => [] end.

(** Results that end [Recv]: [Some exit]. *)
Definition ends (r : recv_ret) : option bool :=
  match r with
  | RecvBytes [] => Some true
  | RecvBytes _ => None
  | RecvError EINTR => None
  | RecvError (EAGAIN | EWOULDBLOCK) => Some false
  | RecvError (EOTHER _) => Some true
  end.

(** [send] results that make progress or may be retried. *)
Definition sends_on (s : send_ret) : Prop :=
  match s with
  | SendBytes n => 0 < n
  | SendError e => is_transient e = true
  | SendStuck | SendPipe => False
  end.

(** How [Send] can fail to return on a plan. *)
Definition send_fails (plan : list send_ret) (f : fault) : Prop :=
  (f = NoReturn ∧ SendStuck ∈ plan) ∨ (f = Killed ∧ SendPipe ∈ plan).

(** ** Lemmas *)

Lemma WriteToReadBuffer_recv c data :
  length data ≤ TEMP_BUF_SIZE →
  WriteToReadBuffer c (recv_buf data) (size_of data)
  = Ok (with_read_buffer c (mkBuffer (buf_ (read_buffer_ c) ++ data))).
Proof.
  intros Hl. unfold WriteToReadBuffer. rewrite Append_eq.
  - mred. unfold size_of. rewrite Nat2Z.id. unfold recv_buf. by rewrite take_app_length.
  - unfold recv_buf. autorewrite with icee. pose proof (size_of_nonneg data). unfold size_of. lia.
Qed.

Lemma Recv_loop_step pre tail n c :
  Forall recv_ok pre → Forall goes_on pre →
  Recv_loop (pre ++ tail) n c
  = Recv_loop tail (n + size_of (concat (carried <$> pre)))
      (with_read_buffer c (mkBuffer (buf_ (read_buffer_ c) ++ concat (carried <$> pre)))).
Proof.
  intros Hok Hgo. revert n c. induction pre as [|r pre IH]; intros n c.
  - cbn. rewrite app_nil_r, Z.add_0_r. by destruct c as [? ? [] ? ? ? ?].
  - apply Forall_cons in Hok as [Hr Hok], Hgo as [Hg Hgo]. specialize (IH Hok Hgo).
    rewrite fmap_cons. cbn [concat app Recv_loop]. destruct r as [data|e]; simpl in Hr, Hg.
    + rewrite (proj2 (Z.ltb_lt _ _)) by (destruct data; [done|size_lia]).
      rewrite WriteToReadBuffer_recv by done. mred. rewrite IH. cbn [carried].
      autorewrite with icee. f_equal; [lia|]. unfold with_read_buffer. cbn. by rewrite <-app_assoc.
    + rewrite Hg. rewrite IH. done.
Qed.

Lemma send_fails_cons s plan f : send_fails plan f → send_fails (s :: plan) f.
Proof. intros [[-> H]|[-> H]]; [left|right]; (split; [done|by apply elem_of_cons; right]). Qed.

(** Every way through the loop. *)
Lemma Send_loop_run plan buf cur out e :
  match Send_loop plan buf cur out e with
  | Ok (plan', out', _) => plan' `suffix_of` plan ∧ ∃ p, out' = out ++ p ∧ p `prefix_of` drop cur buf
  | Fail f => send_fails plan f
  end.
Proof.
  assert (∀ (s : send_ret) (l k : list send_ret), k `suffix_of` l → k `suffix_of` s :: l) as Hcons
    by (intros s l k [m ->]; by exists (s :: m)).
  assert (∃ p, out = out ++ p ∧ p `prefix_of` drop cur buf) as Hnone
    by (exists []; split; [by rewrite app_nil_r|apply prefix_nil]).
  revert cur out e Hnone. induction plan as [|s plan IH]; intros cur out e Hnone; cbn [Send_loop].
  { case_decide; (split; [done|]); [by eexists|done]. }
  case_decide; [|by split].
  destruct s as [[|n]|e'| |].
  - destruct (is_transient e); [|by split; [apply Hcons|]]. specialize (IH cur out e Hnone).
    destruct (Send_loop _ _ _ _ _) as [[[plan' out'] e']|f]; [|by apply send_fails_cons].
    destruct IH as [Hs Hp]. split; [by apply Hcons|done].
  - specialize (IH (cur + S n) (out ++ take (S n) (drop cur buf)) e).
    destruct (Send_loop _ _ _ _ _) as [[[plan' out'] e']|f]; [|apply send_fails_cons, IH].
    + destruct IH as (Hs & p & -> & Hp); [exists []; split; [by rewrite app_nil_r|apply prefix_nil]|].
      split; [by apply Hcons|]. exists (take (S n) (drop cur buf) ++ p). rewrite <-app_assoc. split; [done|].
      rewrite <-(take_drop (S n) (drop cur buf)) at 2. apply prefix_app. by rewrite drop_drop.
    + exists []. split; [by rewrite app_nil_r|apply prefix_nil].
  - destruct (is_transient e'); [|by split; [apply Hcons|]]. specialize (IH cur out e' Hnone).
    destruct (Send_loop _ _ _ _ _) as [[[plan' out'] e'']|f]; [|by apply send_fails_cons].
    destruct IH as [Hs Hp]. split; [by apply Hcons|done].
  - left. split; [done|by left].
  - right. split; [done|by left].
Qed.

Lemma Send_loop_complete plan buf cur out e :
  Forall sends_on plan → ∃ plan' e', Send_loop plan buf cur out e = Ok (plan', out ++ drop cur buf, e').
Proof.
  intros Hp. revert cur out e. induction Hp as [|s plan Hs _ IH]; intros cur out e; cbn [Send_loop].
  - case_decide; [by eexists _, _|]. rewrite drop_ge, app_nil_r by lia. by eexists _, _.
  - case_decide; [|rewrite drop_ge, app_nil_r by lia; by eexists _, _].
    destruct s as [[|n]|e'| |]; simpl in Hs; [lia| |rewrite Hs; apply IH|done..].
    destruct (IH (cur + S n) (out ++ take (S n) (drop cur buf)) e) as (plan' & e' & ->).
    rewrite <-app_assoc, <-drop_drop, take_drop. by eexists _, _.
Qed.

(** [Recv] on the results [pre ++ tail], where [tail] begins with what ends it. *)
Lemma Recv_run c ep pre tail exit :
  incoming ep = pre ++ tail → Forall recv_ok pre → Forall goes_on pre →
  match tail with [] => exit = false | r :: _ => ends r = Some exit end →
  Recv (c, ep) =
    Ok ((size_of (concat (carried <$> pre)), exit),
        (with_read_buffer c (mkBuffer (buf_ (read_buffer_ c) ++ concat (carried <$> pre))),
         mkEndpoint (drop 1 tail) (send_plan ep) (wire ep) (Recv_errno (incoming ep) (errno_ ep)))).
Proof.
  intros Hin Hok Hgo He. unfold Recv. rewrite Hin at 1. rewrite Recv_loop_step by done.
  destruct tail as [|[[|? ?]|[]] tail]; simplify_eq/=; done.
Qed.

Lemma Send_run c ep :
  Forall sends_on (send_plan ep) →
  ∃ plan e, Send (c, ep) =
    Ok (tt, (with_write_buffer c (mkBuffer []),
             mkEndpoint (incoming ep) plan (wire ep ++ buf_ (write_buffer_ c)) e)) ∧
    Forall sends_on plan.
Proof.
  intros Hp. unfold Send, Data.
  pose proof (Send_loop_run (send_plan ep) (buf_ (write_buffer_ c)) 0 (wire ep) (errno_ ep)) as Hr.
  destruct (Send_loop_complete (send_plan ep) (buf_ (write_buffer_ c)) 0 (wire ep) (errno_ ep) Hp) as (plan & e & E).
  rewrite E in Hr |- *. destruct Hr as [[k Hk] _]. rewrite Hk in Hp. apply Forall_app in Hp as [_ Hp].
  exists plan, e. by rewrite drop_0.
Qed.

(** A call of [Send], however it ends. *)
Lemma Send_total c ep :
  match Send (c, ep) with
  | Ok (_, (c', ep')) =>
      c' = with_write_buffer c (mkBuffer []) ∧ incoming ep' = incoming ep ∧
      send_plan ep' `suffix_of` send_plan ep ∧
      ∃ p, wire ep' = wire ep ++ p ∧ p `prefix_of` buf_ (write_buffer_ c)
  | Fail f => send_fails (send_plan ep) f
  end.
Proof.
  unfold Send, Data.
  pose proof (Send_loop_run (send_plan ep) (buf_ (write_buffer_ c)) 0 (wire ep) (errno_ ep)) as Hr.
  destruct (Send_loop _ _ _ _ _) as [[[plan out] e]|f]; [|done]. destruct Hr as (Hs & p & -> & Hp).
  rewrite drop_0 in Hp. mred. cbn. split_and!; [done..|]. by exists p.
Qed.
End Connection.

Lemma goes_on_split outcomes :
  ∃ pre tail exit, outcomes = pre ++ tail ∧ Forall goes_on pre ∧
    match tail with [] => exit = false | r :: _ => ends r = Some exit end.
Proof.
  induction outcomes as [|r outcomes (pre & tail & exit & -> & Hp & Ht)].
  - exists [], [], false. done.
  - destruct (ends r) as [b|] eqn:E; [by exists [], (r :: pre ++ tail), b|].
    exists (r :: pre), tail, exit. split; [done|]. split; [constructor; [|done]|done].
    by destruct r as [[|]|[]].
Qed.

(** ** Properties *)

(** C14: [Recv] drains the socket.  It reads up to the first end of stream, empty
    queue or hard error and nothing after it, appends to the read buffer exactly
    the bytes received before that, in order, retries interrupted calls, returns
    the number of bytes appended, and asks for the connection to be closed exactly
    when it stopped at an end of stream or a hard error.  [errno] is what the last
    call that failed made it. *)
Theorem Recv_drains {Callback} (c : Connection Callback) ep :
  Forall recv_ok (incoming ep) →
  ∃ pre tail exit,
    incoming ep = pre ++ tail ∧ Forall goes_on pre ∧
    match tail with [] => exit = false | r :: _ => ends r = Some exit end ∧
    Recv (c, ep) =
      Ok ((size_of (concat (carried <$> pre)), exit),
          (with_read_buffer c (mkBuffer (buf_ (read_buffer_ c) ++ concat (carried <$> pre))),
           mkEndpoint (drop 1 tail) (send_plan ep) (wire ep) (Recv_errno (incoming ep) (errno_ ep)))).
Proof.
  intros Hok. destruct (goes_on_split (incoming ep)) as (pre & tail & exit & Hin & Hgo & Ht).
  exists pre, tail, exit. split_and!; [done..|]. rewrite Hin in Hok. apply Forall_app in Hok as [Hok _].
  by apply Recv_run.
Qed.

Lemma Recv_drains_witness :
  let ep := mkEndpoint [RecvBytes (lit "GET"); RecvError EINTR; RecvBytes (lit " /"); RecvBytes []] [] [] EAGAIN in
  ∃ pre tail exit,
    incoming ep = pre ++ tail ∧ Forall goes_on pre ∧
    match tail with [] => exit = false | r :: _ => ends r = Some exit end ∧
    Recv (Connection_ctor (Callback := unit) 7, ep) =
      Ok ((size_of (concat (carried <$> pre)), exit),
          (with_read_buffer (Connection_ctor 7)
             (mkBuffer (buf_ (read_buffer_ (Connection_ctor (Callback := unit) 7)) ++ concat (carried <$> pre))),
           mkEndpoint (drop 1 tail) (send_plan ep) (wire ep) (Recv_errno (incoming ep) (errno_ ep)))).
Proof.
  apply (Recv_drains (Connection_ctor (Callback := unit) 7)
    (mkEndpoint [RecvBytes (lit "GET"); RecvError EINTR; RecvBytes (lit " /"); RecvBytes []] [] [] EAGAIN)).
  cbn [incoming]. rewrite !Forall_cons. cbn [recv_ok length lit String.list_ascii_of_string]. unfold TEMP_BUF_SIZE.
  split_and!; [lia|done|lia|lia|apply Forall_nil; exact I].
Defined.

(** C15: [Send], when it returns, has emptied the write buffer and put a prefix of it
    on the wire, in order and without repetition, whatever short writes and retries
    the kernel imposes.  The prefix is the whole buffer when every call makes
    progress or may be retried, and in that case it does return.  It does not
    return only where the peer stops reading for good, which keeps it trying for
    ever, or has broken the connection, which kills the process. *)
Theorem Send_prefix {Callback} (c : Connection Callback) ep :
  match Send (c, ep) with
  | Ok (_, (c', ep')) =>
      c' = with_write_buffer c (mkBuffer []) ∧ incoming ep' = incoming ep ∧
      send_plan ep' `suffix_of` send_plan ep ∧
      ∃ p, wire ep' = wire ep ++ p ∧ p `prefix_of` buf_ (write_buffer_ c)
  | Fail f => send_fails (send_plan ep) f
  end ∧
  (Forall sends_on (send_plan ep) → ∃ plan e,
     Send (c, ep) = Ok (tt, (with_write_buffer c (mkBuffer []),
                             mkEndpoint (incoming ep) plan (wire ep ++ buf_ (write_buffer_ c)) e))).
Proof.
  split; [apply Send_total|]. intros Hs. destruct (Send_run c ep Hs) as (plan & e & H & _). by exists plan, e.
Qed.

Lemma Send_loop_waits k plan buf cur out e :
  cur < length buf →
  Send_loop (replicate k (SendError EAGAIN) ++ plan) buf cur out e =
    Send_loop plan buf cur out (if decide (k = 0) then e else EAGAIN).
Proof.
  intros Hc. revert e. induction k as [|k IH]; intros e; [done|].
  cbn [replicate app Send_loop]. rewrite decide_True by done. cbn [is_transient].
  rewrite IH. repeat case_decide; done.
Qed.

(** what a peer that does not read costs: while its socket is full, one call of
    [Send] calls [send] again and again, [k] times if the socket is full [k] times,
    before it puts anything on the wire or returns. *)
Theorem Send_waits {Callback} k n plan (c : Connection Callback) ep :
  send_plan ep = replicate k (SendError EAGAIN) ++ SendBytes n :: plan → 0 < n →
  buf_ (write_buffer_ c) ≠ [] → length (buf_ (write_buffer_ c)) ≤ n →
  ∃ e, Send (c, ep) = Ok (tt, (with_write_buffer c (mkBuffer []),
         mkEndpoint (incoming ep) plan (wire ep ++ buf_ (write_buffer_ c)) e)).
Proof.
  intros Hplan Hn0 Hne Hn. unfold Send, Data. destruct (buf_ (write_buffer_ c)) as [|b buf] eqn:E; [done|].
  rewrite Hplan, Send_loop_waits by (simpl; lia). cbn [Send_loop]. rewrite decide_True by (simpl; lia).
  destruct n as [|n]; [lia|]. rewrite drop_0, take_ge by done.
  assert (∀ o e, Send_loop plan (b :: buf) (0 + S n) o e = Ok (plan, o, e)) as ->; [|by eexists].
  intros o e. destruct plan; cbn [Send_loop]; by rewrite decide_False by lia.
Qed.

Lemma Send_waits_witness :
  ∃ e, Send (mkConnection None 7 (mkBuffer []) (mkBuffer (lit "hi")) 0 0 (None : option unit),
             mkEndpoint [] (replicate 1000 (SendError EAGAIN) ++ [SendBytes 2]) [] EAGAIN)
       = Ok (tt, (mkConnection None 7 (mkBuffer []) (mkBuffer []) 0 0 None, mkEndpoint [] [] (lit "hi") e)).
Proof.
  apply (Send_waits 1000 2 [] (mkConnection None 7 (mkBuffer []) (mkBuffer (lit "hi")) 0 0 None)).
  - reflexivity.
  - lia.
  - discriminate.
  - reflexivity.
Defined.
