(* ===== verification/Response.v ===== *)
(** * [Icee::Http::Response] (src/include/http/response.h, src/http/response.cc)

    A response is built for a status and possibly a file, adjusted, and serialised
    once.  [should_transfer_content_] has no initialiser: it is [None] until
    [SetShouldTransferContent] sets it, and reading it before is a fault.

    The theorems show that what is serialised is a message a client can frame: the
    header block ends at the first empty line and the declared length is that of
    the body, if there is one. *)

From S2P Require Import Prelude CppString HttpUtils Header.

Record Response := mkResponse {
  status_line_ : bytes;
  headers_ : list Header;
  should_close_ : bool;
  should_transfer_content_ : option bool;
  url_ : option bytes;
  body_ : bytes
}.

(** The [Content-Type] the constructor adds, when the path has a dot. *)
Definition type_header (path : bytes) : result (list Header) :=
  match find_last_of path Dot with
  | Some index =>
      raw_string ← substr path (Z.of_nat index + 1) (size_of path);
      extension ← ToExtension raw_string;
      mret [Header_move_kv HEADER_CONTENT_TYPE (ExtensionToMime extension)]
  | None => mret []
  end.

Definition Response_ctor (fs : filesystem) (status_code : bytes) (should_close : bool)
    (url : option bytes) : result Response :=
  let status_line := HTTP_VERSION ++ SPACE ++ status_code in
  let headers :=
    [Header_move_kv HEADER_SERVER SERVER_ICEE;
     Header_move_kv HEADER_CONNECTION (if should_close then CONNECTION_CLOSE else CONNECTION_KEEP_ALIVE)] in
  match url with
  | Some path =>
      exist ← IsFileExist fs path;
      if (exist : bool) then
        file_size ← FileSize fs path;
        let headers := headers ++ [Header_move_kv HEADER_CONTENT_LENGTH (to_string (Z.to_nat file_size))] in
        type ← type_header path;
        mret (mkResponse status_line (headers ++ type) should_close None url [])
      else
        mret (mkResponse status_line (headers ++ [Header_move_kv HEADER_CONTENT_LENGTH (lit "0")])
                should_close None None [])
  | None =>
      mret (mkResponse status_line (headers ++ [Header_move_kv HEADER_CONTENT_LENGTH (lit "0")])
              should_close None None [])
  end.

Definition Make200Response (fs : filesystem) (should_close : bool) (url : option bytes) : result Response :=
  match url with
  | Some u => Response_ctor fs RESPONSE_OK should_close (Some u)
  | None => Fail AssertionFailed
  end.

Definition Make400Response (fs : filesystem) : result Response :=
  Response_ctor fs RESPONSE_BAD_REQUEST true None.
Definition Make404Response (fs : filesystem) : result Response :=
  Response_ctor fs RESPONSE_NOT_FOUND true None.
Definition Make503Response (fs : filesystem) : result Response :=
  Response_ctor fs RESPONSE_SERVICE_UNAVAILABLE true None.

Definition GetHeaders (r : Response) : list Header := headers_ r.

Definition SetShouldTransferContent (r : Response) (should_transfer_content : bool) : Response :=
  mkResponse (status_line_ r) (headers_ r) (should_close_ r) (Some should_transfer_content) (url_ r) (body_ r).

(** The status line, the headers and the empty line. *)
Definition basic_data (r : Response) : bytes :=
  status_line_ r ++ CRLF ++ concat (Header.Serialize <$> headers_ r) ++ CRLF.

Definition Serialize (fs : filesystem) (r : Response) (buffer : bytes) : result bytes :=
  let buffer := buffer ++ basic_data r in
  match url_ r with
  | None => mret buffer
  | Some path =>
      match should_transfer_content_ r with
      | None => Fail Uninitialised
      | Some true => LoadFile fs path buffer
      | Some false => mret buffer
      end
  end.

Fixpoint change_header (key new_value : bytes) (hs : list Header) : bool * list Header :=
  match hs with
  | [] => (false, [])
  | h :: hs =>
      if decide (GetKey h = key) then (true, SetValue h new_value :: hs)
      else let '(b, hs') := change_header key new_value hs in (b, h :: hs')
  end.

Definition ChangeHeader (r : Response) (key new_value : bytes) : bool * Response :=
  let '(b, hs) := change_header key new_value (headers_ r) in
  (b, mkResponse (status_line_ r) hs (should_close_ r) (should_transfer_content_ r) (url_ r) (body_ r)).

(** ** A client's view

    What a client reads off the wire: the header block, up to the line end before
    the first empty line, and what follows the empty line. *)

Definition read_message (wire : bytes) : option (bytes * bytes) :=
  n ← index_of (CRLF ++ CRLF) wire; Some (take (n + 2) wire, drop (n + 4) wire).

(** [declares lines n]: one of the header lines is [Content-Length] with value [n]. *)
Definition declares (lines : list bytes) (n : nat) : Prop :=
  ∃ num, (HEADER_CONTENT_LENGTH ++ COLON ++ num) ∈ lines ∧ num ≠ [] ∧ numeral_value num = n ∧
    ∀ num', (HEADER_CONTENT_LENGTH ++ COLON ++ num') ∈ lines → num' = num.

(** ** Lemmas: where the header block ends *)

(** Lines that can stand in a header block. *)
Definition line_ok (t : bytes) : Prop := t ≠ [] ∧ ("013"%char ∉ t).

#[export] Instance line_ok_dec t : Decision (line_ok t).
Proof. unfold line_ok. apply _. Defined.

Lemma index_of_skip c d t s :
  c ∉ t → index_of (c :: d) (t ++ s) = (λ n, length t + n) <$> index_of (c :: d) s.
Proof.
  induction t as [|a t IH]; intros Ht.
  - simpl app. by destruct (index_of (c :: d) s).
  - apply not_elem_of_cons in Ht as [Ha Ht]. cbn [app index_of].
    rewrite decide_False by (intros [k [= Hk _]]; by apply Ha).
    rewrite IH by done. by destruct (index_of (c :: d) s).
Qed.

Lemma index_of_crlf_skip a s :
  a ≠ "013"%char →
  index_of (CRLF ++ CRLF) (CRLF ++ a :: s) = (λ n, 2 + n) <$> index_of (CRLF ++ CRLF) (a :: s).
Proof.
  intros Ha. remember (a :: s) as u eqn:Hu. cbn [CRLF app index_of].
  rewrite decide_False by (intros [k Hk]; subst u; simplify_eq/=).
  rewrite decide_False by (intros [k Hk]; simplify_eq/=).
  by destruct (index_of _ u).
Qed.

Lemma index_of_header_end lines rest :
  lines ≠ [] → Forall line_ok lines →
  let head := concat ((λ t, t ++ CRLF) <$> lines) in
  ∃ n, length head = n + 2 ∧ index_of (CRLF ++ CRLF) (head ++ CRLF ++ rest) = Some n.
Proof.
  intros Hne Hok. induction Hok as [|t lines [Htne Ht] Hok IH]; [done|]. clear Hne.
  cbn [fmap list_fmap concat]. rewrite <-!app_assoc.
  setoid_rewrite (index_of_skip _ _ _ _ Ht).
  destruct lines as [|t' lines].
  - exists (length t). split; [rewrite !length_app; simpl; lia|]. simpl.
    f_equal. lia.
  - destruct IH as (n & Hn & Hi); [done|]. cbv zeta in Hn, Hi |- *.
    exists (length t + (2 + n)). split; [rewrite !length_app, Hn; simpl; lia|].
    apply Forall_cons in Hok as [[Htne' Ht'] _]. cbn [fmap list_fmap concat] in *.
    destruct t' as [|a t']; [done|]. apply not_elem_of_cons in Ht' as [Ha _].
    rewrite <-!app_assoc in Hi. rewrite <-!app_assoc. cbn [app] in Hi |- *.
    rewrite index_of_crlf_skip, Hi by done. done.
Qed.

Lemma read_message_lines lines rest :
  lines ≠ [] → Forall line_ok lines →
  let block := concat ((λ t, t ++ CRLF) <$> lines) in
  read_message (block ++ CRLF ++ rest) = Some (block, rest) ∧ pieces CRLF block lines.
Proof.
  intros Hne Hok block. split.
  - destruct (index_of_header_end lines rest Hne Hok) as (n & Hn & Hi). fold block in Hn, Hi.
    unfold read_message. rewrite Hi. cbn [mbind option_bind]. f_equal. f_equal.
    + rewrite <-Hn. apply take_app_length.
    + replace (n + 4) with (length (block ++ CRLF)) by (rewrite length_app, Hn; simpl; lia).
      rewrite app_assoc. apply drop_app_length.
  - apply pieces_terminated. eapply Forall_impl; [exact Hok|]. by intros t [_ ?].
Qed.

(** ** Lemmas: the lines of a response *)

Definition header_text (h : Header) : bytes := key_ h ++ COLON ++ value_ h.

Definition response_lines (r : Response) : list bytes := status_line_ r :: (header_text <$> headers_ r).

Lemma basic_data_lines r :
  basic_data r = concat ((λ t, t ++ CRLF) <$> response_lines r) ++ CRLF.
Proof.
  unfold basic_data, response_lines. rewrite fmap_cons. cbn [concat]. rewrite <-!app_assoc.
  do 2 f_equal. f_equal. induction (headers_ r) as [|h hs IH]; [done|].
  rewrite !fmap_cons. cbn [concat]. rewrite IH. unfold Header.Serialize, header_text.
  by rewrite <-!app_assoc.
Qed.

Lemma ToExtension_total s : ∃ e, ToExtension s = Ok e.
Proof. unfold ToExtension. destruct (Format_total s) as [t ->]. by eexists. Qed.

(** The part of a path after its last dot decides the type. *)
Lemma type_header_ext stem ext e :
  ("."%char ∉ ext) → ToExtension ext = Ok e →
  type_header (stem ++ Dot ++ ext) = Ok [Header_move_kv HEADER_CONTENT_TYPE (ExtensionToMime e)].
Proof.
  intros Hext He. unfold type_header. change Dot with ["."%char].
  assert (find_last_of (stem ++ ["."%char] ++ ext) ["."%char] = Some (length stem)) as ->.
  { unfold find_last_of. rewrite !last_index_app.
    rewrite (proj2 (last_index_None _ ext)).
    - simpl. f_equal. lia.
    - apply Forall_forall. intros c Hc. unfold in_set. apply bool_decide_eq_false_2.
      intros ->%list_elem_of_singleton. done. }
  assert (substr (stem ++ ["."%char] ++ ext) (Z.of_nat (length stem) + 1)
            (size_of (stem ++ ["."%char] ++ ext)) = Ok ext) as ->.
  { unfold substr. rewrite (proj2 (Z.ltb_ge _ _)) by size_lia.
    replace (Z.to_nat (Z.of_nat (length stem) + 1)) with (length (stem ++ ["."%char])) by (rewrite length_app; simpl; lia).
    rewrite app_assoc, drop_app_length, take_ge; [done|]. size_lia. }
  mred. by rewrite He.
Qed.

Lemma type_header_nodot path : ("."%char ∉ path) → type_header path = Ok [].
Proof.
  intros Hp. unfold type_header, find_last_of. rewrite (proj2 (last_index_None _ path)); [done|].
  apply Forall_forall. intros c Hc. unfold in_set. apply bool_decide_eq_false_2.
  intros ->%list_elem_of_singleton. done.
Qed.

Lemma split_last_dot path :
  ("."%char ∉ path) ∨ ∃ stem ext, path = stem ++ Dot ++ ext ∧ ("."%char ∉ ext).
Proof.
  destruct (last_index (in_set Dot) path) as [i|] eqn:E.
  - right. apply last_index_Some in E as (c & Hc & Hin & Hrest).
    apply bool_decide_eq_true in Hin. apply list_elem_of_singleton in Hin as ->.
    exists (take i path), (drop (S i) path). split; [by rewrite <-(take_drop_middle _ _ _ Hc) at 1|].
    intros Hd. pose proof (proj1 (Forall_forall _ _) Hrest _ Hd) as Hf.
    apply bool_decide_eq_false in Hf. by apply Hf, list_elem_of_singleton.
  - left. intros Hd. apply last_index_None in E. pose proof (proj1 (Forall_forall _ _) E _ Hd) as Hf.
    apply bool_decide_eq_false in Hf. by apply Hf, list_elem_of_singleton.
Qed.

Lemma type_header_total path :
  ∃ ts, type_header path = Ok ts ∧
    (ts = [] ∨ ∃ e, ts = [Header_move_kv HEADER_CONTENT_TYPE (ExtensionToMime e)]).
Proof.
  destruct (split_last_dot path) as [Hp|(stem & ext & -> & Hext)].
  - exists []. split; [by apply type_header_nodot|by left].
  - destruct (ToExtension_total ext) as [e He]. eexists. split; [by apply type_header_ext|].
    right. by exists e.
Qed.

(** The lines of a response about a file of [n] bytes. *)
Definition file_lines (should_close : bool) (n : nat) (types : list Header) : list bytes :=
  [HTTP_VERSION ++ SPACE ++ RESPONSE_OK; HEADER_SERVER ++ COLON ++ SERVER_ICEE;
   HEADER_CONNECTION ++ COLON ++ (if should_close then CONNECTION_CLOSE else CONNECTION_KEEP_ALIVE);
   HEADER_CONTENT_LENGTH ++ COLON ++ to_string n] ++ (header_text <$> types).

Lemma file_lines_ok should_close n types :
  types = [] ∨ (∃ e, types = [Header_move_kv HEADER_CONTENT_TYPE (ExtensionToMime e)]) →
  Forall line_ok (file_lines should_close n types) ∧ declares (file_lines should_close n types) n.
Proof.
  intros Ht. split.
  - unfold file_lines. apply Forall_app. split.
    + rewrite !Forall_cons. split_and!; [decided|decided|destruct should_close; decided| |by apply Forall_nil].
      split; [done|]. rewrite !not_elem_of_app. split_and!; [decided|decided|].
      apply to_string_free. vm_compute. lia.
    + destruct Ht as [->|[e ->]]; [done|]. apply Forall_singleton. destruct e; decided.
  - exists (to_string n). split_and!.
    + unfold file_lines. apply elem_of_app. left. set_solver.
    + unfold to_string. cbn [digits]. case_decide; [done|].
      destruct (digits_spec n (n `div` 10) [digit (n `mod` 10)]) as (ds & -> & _); [apply Nat.div_lt; lia|].
      by destruct ds.
    + apply to_string_value.
    + intros num' Hin. unfold file_lines in Hin.
      rewrite elem_of_app, !elem_of_cons, elem_of_nil in Hin.
      destruct Hin as [[[=]|[[=]|[[=]|[E|[]]]]]|Hin].
      * by do 2 apply app_inv_head in E.
      * exfalso. destruct Ht as [->|[e ->]]; [by apply elem_of_nil in Hin|].
        apply list_elem_of_singleton in Hin. discriminate Hin.
Qed.

Lemma Make200_lines fs should_close path c :
  fs path = Some (RegularFile c) →
  ∃ r types, Make200Response fs should_close (Some path) = Ok r ∧ type_header path = Ok types ∧
    response_lines r = file_lines should_close (length c) types ∧ url_ r = Some path.
Proof.
  intros Hf. destruct (type_header_total path) as (ts & Ht & _).
  unfold Make200Response, Response_ctor. rewrite (IsFileExist_file _ _ _ Hf). mred.
  rewrite (FileSize_file _ _ _ Hf). mred. rewrite Ht.
  eexists _, ts. split; [reflexivity|]. split; [done|]. split; [|done].
  unfold response_lines, file_lines. cbn [status_line_ headers_]. rewrite !fmap_app.
  unfold size_of. rewrite Nat2Z.id. done.
Qed.

(** The three error responses: no file, no body, the connection is announced closed. *)
Definition error_lines (status : bytes) : list bytes :=
  [HTTP_VERSION ++ SPACE ++ status; HEADER_SERVER ++ COLON ++ SERVER_ICEE;
   HEADER_CONNECTION ++ COLON ++ CONNECTION_CLOSE; HEADER_CONTENT_LENGTH ++ COLON ++ lit "0"].

Definition error_wire (status : bytes) : bytes :=
  concat ((λ t, t ++ CRLF) <$> error_lines status) ++ CRLF.

Lemma error_response fs status :
  ∃ r, Response_ctor fs status true None = Ok r ∧
    ∀ buffer, Serialize fs r buffer = Ok (buffer ++ error_wire status).
Proof.
  eexists. split; [reflexivity|]. intros buffer. unfold Serialize. cbn [url_].
  by rewrite basic_data_lines.
Qed.

(** The 200 response about a file, as the caller uses it. *)
Definition file_wire (should_close : bool) (n : nat) (types : list Header) : bytes :=
  concat ((λ t, t ++ CRLF) <$> file_lines should_close n types) ++ CRLF.

Lemma file_response fs should_close path c types :
  fs path = Some (RegularFile c) → type_header path = Ok types →
  ∃ r, Make200Response fs should_close (Some path) = Ok r ∧
    ∀ transfer buffer,
      Serialize fs (SetShouldTransferContent r transfer) buffer
      = if transfer then LoadFile fs path (buffer ++ file_wire should_close (length c) types)
        else Ok (buffer ++ file_wire should_close (length c) types).
Proof.
  intros Hf Ht. destruct (Make200_lines fs should_close path c Hf) as (r & ts & Hr & Ht' & Hl & Hu).
  rewrite Ht in Ht'. injection Ht' as <-. exists r. split; [done|]. intros transfer buffer.
  unfold Serialize. cbn [SetShouldTransferContent url_ should_transfer_content_]. rewrite Hu.
  change (basic_data (SetShouldTransferContent r transfer)) with (basic_data r).
  rewrite basic_data_lines, Hl. by destruct transfer.
Qed.

Lemma LoadFile_nonempty fs path c buffer :
  fs path = Some (RegularFile c) → c ≠ [] → LoadFile fs path buffer = Ok (buffer ++ c).
Proof.
  intros Hf Hc. unfold LoadFile. rewrite (FileSize_file _ _ _ Hf). mred. rewrite Hf, decide_True; [done|].
  destruct c; [done|]. size_lia.
Qed.

(** ** Properties *)

(** C17: a 200 response about a non-empty regular file is a well-framed message.
    Its header block ends at the first empty line of the wire, the block declares
    exactly one [Content-Length], equal to the size of the file, and what follows
    is the file's bytes when content is transferred, nothing when it is not. *)
Theorem Response_200_framed fs should_close path c transfer :
  fs path = Some (RegularFile c) → c ≠ [] →
  ∃ r wire block lines,
    Make200Response fs should_close (Some path) = Ok r ∧
    Serialize fs (SetShouldTransferContent r transfer) [] = Ok wire ∧
    read_message wire = Some (block, if transfer then c else []) ∧ pieces CRLF block lines ∧
    head lines = Some (lit "Http/1.1 200 OK") ∧ declares lines (length c) ∧
    (HEADER_CONNECTION ++ COLON ++ (if should_close then CONNECTION_CLOSE else CONNECTION_KEEP_ALIVE)) ∈ lines.
Proof.
  intros Hf Hc. destruct (type_header_total path) as (types & Ht & Hty).
  destruct (file_response fs should_close path c types Hf Ht) as (r & Hr & Hs).
  destruct (file_lines_ok should_close (length c) types Hty) as [Hok Hdecl].
  destruct (read_message_lines (file_lines should_close (length c) types) (if transfer then c else []))
    as [Hread Hp]; [done|done|].
  exists r, (file_wire should_close (length c) types ++ if transfer then c else []).
  eexists _, _. split; [done|]. rewrite Hs. split.
  { destruct transfer; [by apply LoadFile_nonempty|by rewrite app_nil_r]. }
  split; [unfold file_wire; rewrite <-app_assoc; exact Hread|].
  split; [exact Hp|]. split; [done|]. split; [done|]. unfold file_lines. set_solver.
Qed.

Lemma Response_200_framed_witness :
  ∃ r wire block lines,
    Make200Response (λ _, Some (RegularFile (lit "hi"))) false (Some (lit "/a.html")) = Ok r ∧
    Serialize (λ _, Some (RegularFile (lit "hi"))) (SetShouldTransferContent r true) [] = Ok wire ∧
    read_message wire = Some (block, lit "hi") ∧ pieces CRLF block lines ∧
    head lines = Some (lit "Http/1.1 200 OK") ∧ declares lines 2 ∧
    (HEADER_CONNECTION ++ COLON ++ CONNECTION_KEEP_ALIVE) ∈ lines.
Proof.
  apply (Response_200_framed (λ _, Some (RegularFile (lit "hi"))) false (lit "/a.html") (lit "hi") true);
    [reflexivity|discriminate].
Defined.

(** C30: the 400, 404 and 503 responses always serialise, whatever the file system
    holds and although [should_transfer_content_] was never set, to a framed message
    that announces the connection's closing and an empty body. *)
Theorem Response_errors_framed fs status buffer :
  status ∈ [RESPONSE_BAD_REQUEST; RESPONSE_NOT_FOUND; RESPONSE_SERVICE_UNAVAILABLE] →
  ∃ r wire block lines,
    Response_ctor fs status true None = Ok r ∧ should_transfer_content_ r = None ∧
    Serialize fs r buffer = Ok (buffer ++ wire) ∧
    read_message wire = Some (block, []) ∧ pieces CRLF block lines ∧
    head lines = Some (lit "Http/1.1 " ++ status) ∧ (lit "Content-Length:0") ∈ lines ∧
    (lit "Connection:Close") ∈ lines.
Proof.
  intros Hst. assert (Forall line_ok (error_lines status)) as Hok.
  { rewrite !elem_of_cons, elem_of_nil in Hst. destruct Hst as [->|[->|[->|[]]]]; decided. }
  destruct (read_message_lines (error_lines status) []) as [Hread Hp]; [done|done|].
  rewrite app_nil_r in Hread.
  eexists _, (error_wire status), _, _. split; [reflexivity|]. split; [done|].
  split; [|split; [exact Hread|split; [exact Hp|]]].
  - unfold Serialize. cbn [url_]. by rewrite basic_data_lines.
  - split; [done|]. unfold error_lines. set_solver.
Qed.

Lemma Response_errors_framed_witness :
  ∃ r wire block lines,
    Response_ctor (λ _, None) RESPONSE_NOT_FOUND true None = Ok r ∧ should_transfer_content_ r = None ∧
    Serialize (λ _, None) r (lit "x") = Ok (lit "x" ++ wire) ∧
    read_message wire = Some (block, []) ∧ pieces CRLF block lines ∧
    head lines = Some (lit "Http/1.1 " ++ RESPONSE_NOT_FOUND) ∧ (lit "Content-Length:0") ∈ lines ∧
    (lit "Connection:Close") ∈ lines.
Proof. apply (Response_errors_framed (λ _, None) RESPONSE_NOT_FOUND (lit "x")). decided. Defined.

(** the content type follows the extension: the part of the path after its last
    dot, read without regard to case or surrounding spaces, selects the MIME type;
    a path without a dot gets no [Content-Type]. *)
Theorem Response_content_type fs should_close path c :
  fs path = Some (RegularFile c) →
  ∃ r, Make200Response fs should_close (Some path) = Ok r ∧
    (("."%char ∉ path) → filter (λ h, key_ h = HEADER_CONTENT_TYPE) (headers_ r) = []) ∧
    (∀ stem ext e, path = stem ++ Dot ++ ext → ("."%char ∉ ext) → ToExtension ext = Ok e →
       filter (λ h, key_ h = HEADER_CONTENT_TYPE) (headers_ r)
       = [Header_move_kv HEADER_CONTENT_TYPE (ExtensionToMime e)]).
Proof.
  intros Hf. destruct (type_header_total path) as (ts & Ht & Hty).
  unfold Make200Response, Response_ctor. rewrite (IsFileExist_file _ _ _ Hf). mred.
  rewrite (FileSize_file _ _ _ Hf). mred. rewrite Ht.
  eexists. split; [reflexivity|]. cbn [headers_]. rewrite !filter_app.
  rewrite !filter_cons_False by discriminate. rewrite filter_nil. cbn [app].
  split.
  - intros Hd. rewrite (type_header_nodot _ Hd) in Ht. by injection Ht as <-.
  - intros stem ext e -> Hext He. rewrite (type_header_ext _ _ _ Hext He) in Ht. injection Ht as <-.
    by rewrite filter_cons_True.
Qed.

Lemma Response_content_type_witness :
  ∃ r, Make200Response (λ _, Some (RegularFile [])) true (Some (lit "/b/p.PNG")) = Ok r ∧
    (("."%char ∉ lit "/b/p.PNG") → filter (λ h, key_ h = HEADER_CONTENT_TYPE) (headers_ r) = []) ∧
    (∀ stem ext e, lit "/b/p.PNG" = stem ++ Dot ++ ext → ("."%char ∉ ext) → ToExtension ext = Ok e →
       filter (λ h, key_ h = HEADER_CONTENT_TYPE) (headers_ r)
       = [Header_move_kv HEADER_CONTENT_TYPE (ExtensionToMime e)]).
Proof. apply (Response_content_type (λ _, Some (RegularFile [])) true (lit "/b/p.PNG") []). reflexivity. Defined.

(** [ChangeHeader] replaces the value of the first header with that name, and of no
    other, and reports whether there is one; without one nothing changes. *)
Theorem ChangeHeader_first r key value :
  match list_find (λ h, GetKey h = key) (headers_ r) with
  | Some (i, h) =>
      ChangeHeader r key value =
        (true, mkResponse (status_line_ r) (<[i := SetValue h value]> (headers_ r)) (should_close_ r)
                 (should_transfer_content_ r) (url_ r) (body_ r))
  | None => ChangeHeader r key value = (false, r)
  end.
Proof.
  destruct r as [status hs close transfer url body]. unfold ChangeHeader. cbn [headers_].
  assert (change_header key value hs =
    match list_find (λ h, GetKey h = key) hs with
    | Some (i, h) => (true, <[i := SetValue h value]> hs) | None => (false, hs) end) as ->.
  { induction hs as [|h hs IH]; cbn [change_header list_find]; [done|].
    case_decide as Hk; [done|]. rewrite IH. by destruct (list_find _ hs) as [[i h']|]. }
  by destruct (list_find _ hs) as [[i h]|].
Qed.
