(* ===== verification/Cache.v ===== *)
(** * [Icee::Cache] (src/include/core/cache.h, src/core/cache.cc)

    The resource cache: a hash map from identifiers to nodes, threaded through a
    doubly linked list between two dummy nodes, oldest entry first.  The model
    keeps the pointers: [heap_] maps the address of every live [CacheNode] to its
    fields, [prev_] and [next_] hold addresses ([None] is [nullptr]), and reading
    or writing through a pointer that is null or whose node was destroyed is a
    fault.  A node is destroyed when the map drops its [shared_ptr].

    Each operation runs as one step here (the code holds [latch_] throughout);
    CacheRace.v looks inside, at what [TryLoad]'s shared lock allows.  CacheSpec.v
    states what the cache promises and proves that these operations keep it. *)

From S2P Require Import Prelude.

Abbreviation loc := positive.

Record CacheNode := mkNode {
  identifier_ : bytes;
  last_access_time_ : Z;
  data_ : bytes;
  prev_ : option loc;
  next_ : option loc
}.

Record Cache := mkCache {
  heap_ : gmap loc CacheNode;
  mapping_ : gmap bytes loc;
  capacity_ : Z;
  current_size_ : Z;
  dummy_header_ : loc;
  dummy_tailer_ : loc
}.

Definition INIT_CACHE_SIZE : Z := 10 * 1024 * 1024.

(** ** [CacheNode] *)

(** Milliseconds since the epoch; [clock] is [system_clock::now()] in nanoseconds. *)
Definition GetCurrentTime (clock : Z) : Z := to_uint64 (Z.quot clock 1000000).

(** The [uint64_t] milliseconds are stored in an [int]. *)
Definition UpdateTimeStamp (clock : Z) (n : CacheNode) : CacheNode :=
  mkNode (identifier_ n) (to_int (GetCurrentTime clock)) (data_ n) (prev_ n) (next_ n).

Definition GetTimeStamp (n : CacheNode) : Z := to_uint64 (last_access_time_ n).

Definition CacheNode_default (clock : Z) : CacheNode :=
  UpdateTimeStamp clock (mkNode [] 0 [] None None).

Definition CacheNode_ctor (clock : Z) (identifier data : bytes) : CacheNode :=
  UpdateTimeStamp clock (mkNode identifier 0 data None None).

Definition SetIdentifier (identifier : bytes) (n : CacheNode) : CacheNode :=
  mkNode identifier (last_access_time_ n) (data_ n) (prev_ n) (next_ n).
Definition GetIdentifier (n : CacheNode) : bytes := identifier_ n.
Definition CacheNode_Size (n : CacheNode) : Z := size_of (data_ n).
Definition SetData (data : bytes) (n : CacheNode) : CacheNode :=
  mkNode (identifier_ n) (last_access_time_ n) data (prev_ n) (next_ n).
Definition CacheNode_Serialize (n : CacheNode) (destination : bytes) : bytes :=
  destination ++ data_ n.

Definition set_prev (p : option loc) (n : CacheNode) : CacheNode :=
  mkNode (identifier_ n) (last_access_time_ n) (data_ n) p (next_ n).
Definition set_next (p : option loc) (n : CacheNode) : CacheNode :=
  mkNode (identifier_ n) (last_access_time_ n) (data_ n) (prev_ n) p.

(** ** Memory *)

Definition with_heap (h : gmap loc CacheNode) (c : Cache) : Cache :=
  mkCache h (mapping_ c) (capacity_ c) (current_size_ c) (dummy_header_ c) (dummy_tailer_ c).
Definition with_mapping (m : gmap bytes loc) (c : Cache) : Cache :=
  mkCache (heap_ c) m (capacity_ c) (current_size_ c) (dummy_header_ c) (dummy_tailer_ c).
Definition with_size (z : Z) (c : Cache) : Cache :=
  mkCache (heap_ c) (mapping_ c) (capacity_ c) z (dummy_header_ c) (dummy_tailer_ c).

(** [*p] *)
Definition deref (p : option loc) : stM Cache CacheNode := λ c,
  match p with
  | None => Fail NullPointer
  | Some l => match heap_ c !! l with
              | Some n => Ok (n, c)
              | None => Fail DanglingPointer
              end
  end.

(** [p->field = ...] *)
Definition store (p : option loc) (f : CacheNode → CacheNode) : stM Cache unit := λ c,
  match p with
  | None => Fail NullPointer
  | Some l => match heap_ c !! l with
              | Some n => Ok (tt, with_heap (<[l := f n]> (heap_ c)) c)
              | None => Fail DanglingPointer
              end
  end.

(** [std::make_shared<CacheNode>(...)]: an address not in use. *)
Definition alloc (n : CacheNode) : stM Cache loc := λ c,
  let l := fresh (dom (heap_ c)) in Ok (l, with_heap (<[l := n]> (heap_ c)) c).

(** The last [shared_ptr] to the node goes away. *)
Definition destroy (l : loc) : stM Cache unit := λ c,
  Ok (tt, with_heap (delete l (heap_ c)) c).

(** ** The list *)

Definition RemoveFromList (node : loc) : stM Cache unit :=
  n ← deref (Some node);
  let pre_ptr := prev_ n in
  let next_ptr := next_ n in
  store pre_ptr (set_next next_ptr);;
  store next_ptr (set_prev pre_ptr).

Definition AppendToEndOfList (node : loc) : stM Cache unit :=
  tailer ← gets dummy_tailer_;
  t ← deref (Some tailer);
  let prev_ptr := prev_ t in
  store (Some node) (set_prev prev_ptr);;
  store (Some node) (set_next (Some tailer));;
  store prev_ptr (set_next (Some node));;
  store (Some tailer) (set_prev (Some node)).

(** ** The cache *)

Definition GetCapacity (c : Cache) : Z := capacity_ c.
Definition GetCurSize (c : Cache) : Z := current_size_ c.

(** The constructor: two dummy nodes linked to each other. *)
Definition Cache_ctor (clock capacity : Z) : Cache :=
  let header := 1%positive in
  let tailer := 2%positive in
  mkCache
    (<[header := set_next (Some tailer) (CacheNode_default clock)]>
       (<[tailer := set_prev (Some header) (CacheNode_default clock)]> ∅))
    ∅ capacity 0 header tailer.

Definition TryLoad (clock : Z) (identifier destination : bytes) : stM Cache (bool * bytes) :=
  mapping ← gets mapping_;
  match mapping !! identifier with
  | Some node =>
      n ← deref (Some node);
      let destination := CacheNode_Serialize n destination in
      RemoveFromList node;;
      AppendToEndOfList node;;
      store (Some node) (UpdateTimeStamp clock);;
      mret (true, destination)
  | None => mret (false, destination)
  end.

Definition EvitOne : stM Cache unit :=
  c ← get;
  header ← deref (Some (dummy_header_ c));
  ensure AssertionFailed (bool_decide (next_ header ≠ Some (dummy_tailer_ c)));;
  first_node ← deref (next_ header);
  let resource_size := CacheNode_Size first_node in
  match mapping_ c !! GetIdentifier first_node with
  | None => mthrow AssertionFailed
  | Some node =>
      RemoveFromList node;;
      modify (λ c, with_mapping (delete (GetIdentifier first_node) (mapping_ c)) c);;
      destroy node;;
      modify (λ c, with_size (to_int (to_size_t (current_size_ c - resource_size))) c)
  end.

(** [while ((capacity_ - current_size_) < needed_size && !mapping_.empty())]:
    each iteration removes one map entry, so one more than their number is fuel
    enough. *)
Fixpoint evict_loop (fuel : nat) (needed_size : Z) : stM Cache unit :=
  match fuel with
  | 0 => mthrow FuelExhausted
  | S fuel =>
      c ← get;
      free ← lift (int_sub (capacity_ c) (current_size_ c));
      if (free <? needed_size)%Z && negb (bool_decide (mapping_ c = ∅)) then
        EvitOne;; evict_loop fuel needed_size
      else mret tt
  end.

Definition TryInsert (clock : Z) (resource_identifier source : bytes) : stM Cache bool :=
  c ← get;
  match mapping_ c !! resource_identifier with
  | Some _ => mret false
  | None =>
      let needed_size := to_int (size_of source) in
      if (capacity_ c <? needed_size)%Z then mret false
      else
        evict_loop (S (size (mapping_ c))) needed_size;;
        new_node ← alloc (CacheNode_ctor clock resource_identifier source);
        AppendToEndOfList new_node;;
        c ← get;
        z ← lift (int_add (current_size_ c) needed_size);
        modify (with_size z);;
        modify (λ c, with_mapping (<[resource_identifier := new_node]> (mapping_ c)) c);;
        mret true
  end.

(** [mapping_.clear()] destroys every node the map owns. *)
Definition Clear : stM Cache unit :=
  c ← get;
  store (Some (dummy_tailer_ c)) (set_prev (Some (dummy_header_ c)));;
  store (Some (dummy_header_ c)) (set_next (Some (dummy_tailer_ c)));;
  modify (λ c, with_heap (foldr delete (heap_ c) (map_to_list (mapping_ c)).*2) c);;
  modify (with_mapping ∅);;
  modify (with_size 0).

(** ** The well-formed heaps: a doubly linked list

    [chain h l]: consecutive addresses of [l] point to each other. *)

Definition nextv (h : gmap loc CacheNode) (x : loc) : option loc := h !! x ≫= next_.
Definition prevv (h : gmap loc CacheNode) (x : loc) : option loc := h !! x ≫= prev_.
(** What a node carries beside its links. *)
Definition body (h : gmap loc CacheNode) (x : loc) : option (bytes * bytes) :=
  (λ n, (identifier_ n, data_ n)) <$> h !! x.

Fixpoint chain (h : gmap loc CacheNode) (l : list loc) : Prop :=
  match l with
  | x :: (y :: _) as l' => nextv h x = Some y ∧ prevv h y = Some x ∧ chain h l'
  | _ => True
  end.

(** [view h h' next prev]: [h'] is [h] with its links replaced. *)
Definition relinked (h h' : gmap loc CacheNode) (next prev : loc → option loc) : Prop :=
  (∀ x, nextv h' x = next x) ∧ (∀ x, prevv h' x = prev x) ∧
  (∀ x, body h' x = body h x) ∧ dom h' = dom h.

(** ** Lemmas: one store *)

Lemma with_heap_heap h1 h2 c : with_heap h2 (with_heap h1 c) = with_heap h2 c.
Proof. reflexivity. Qed.

Lemma with_heap_id c : with_heap (heap_ c) c = c.
Proof. by destruct c. Qed.

Lemma nextv_live h x y : nextv h x = Some y → ∃ n, h !! x = Some n ∧ next_ n = Some y.
Proof. unfold nextv. destruct (h !! x) as [n|]; [|done]. intros. by exists n. Qed.

Lemma prevv_live h x y : prevv h x = Some y → ∃ n, h !! x = Some n ∧ prev_ n = Some y.
Proof. unfold prevv. destruct (h !! x) as [n|]; [|done]. intros. by exists n. Qed.

Lemma store_ok c a f n :
  heap_ c !! a = Some n → store (Some a) f c = Ok (tt, with_heap (<[a := f n]> (heap_ c)) c).
Proof. unfold store. by intros ->. Qed.

Lemma relinked_next h a n v :
  h !! a = Some n →
  relinked h (<[a := set_next v n]> h) (λ x, if decide (x = a) then v else nextv h x) (prevv h).
Proof.
  intros Ha. unfold relinked, nextv, prevv, body. split_and!; [intros x..|].
  1-3: destruct (decide (x = a)) as [->|];
       [rewrite lookup_insert_eq, ?Ha|rewrite lookup_insert_ne]; done.
  rewrite dom_insert_L. apply elem_of_dom_2 in Ha. set_solver.
Qed.

Lemma relinked_prev h a n v :
  h !! a = Some n →
  relinked h (<[a := set_prev v n]> h) (nextv h) (λ x, if decide (x = a) then v else prevv h x).
Proof.
  intros Ha. unfold relinked, nextv, prevv, body. split_and!; [intros x..|].
  1-3: destruct (decide (x = a)) as [->|];
       [rewrite lookup_insert_eq, ?Ha|rewrite lookup_insert_ne]; done.
  rewrite dom_insert_L. apply elem_of_dom_2 in Ha. set_solver.
Qed.

Lemma relinked_time h a n clock :
  h !! a = Some n → relinked h (<[a := UpdateTimeStamp clock n]> h) (nextv h) (prevv h).
Proof.
  intros Ha. unfold relinked, nextv, prevv, body. split_and!; [intros x..|].
  1-3: destruct (decide (x = a)) as [->|];
       [rewrite lookup_insert_eq, ?Ha|rewrite lookup_insert_ne]; done.
  rewrite dom_insert_L. apply elem_of_dom_2 in Ha. set_solver.
Qed.

Lemma relinked_live h h' nx pv x : relinked h h' nx pv → is_Some (h !! x) → is_Some (h' !! x).
Proof. intros (_ & _ & _ & Hd). rewrite <-!elem_of_dom. by rewrite Hd. Qed.

(** Storing through a live pointer: the general step used by the two list
    operations. *)
Lemma store_next_run c a v :
  is_Some (heap_ c !! a) →
  ∃ h', store (Some a) (set_next v) c = Ok (tt, with_heap h' c) ∧
        relinked (heap_ c) h' (λ x, if decide (x = a) then v else nextv (heap_ c) x) (prevv (heap_ c)).
Proof. intros [n Hn]. eexists. split; [by apply store_ok|by apply relinked_next]. Qed.

Lemma store_prev_run c a v :
  is_Some (heap_ c !! a) →
  ∃ h', store (Some a) (set_prev v) c = Ok (tt, with_heap h' c) ∧
        relinked (heap_ c) h' (nextv (heap_ c)) (λ x, if decide (x = a) then v else prevv (heap_ c) x).
Proof. intros [n Hn]. eexists. split; [by apply store_ok|by apply relinked_prev]. Qed.

Lemma relinked_trans h1 h2 h3 nx2 pv2 nx3 pv3 :
  relinked h1 h2 nx2 pv2 → relinked h2 h3 nx3 pv3 → relinked h1 h3 nx3 pv3.
Proof.
  intros (Hn & Hp & Hb & Hd) (Hn' & Hp' & Hb' & Hd'). split_and!; [done..| |congruence].
  intros x. by rewrite Hb', Hb.
Qed.

Lemma relinked_ext h h' nx pv nx' pv' :
  relinked h h' nx pv → (∀ x, nx x = nx' x) → (∀ x, pv x = pv' x) → relinked h h' nx' pv'.
Proof.
  intros (Hn & Hp & Hb & Hd) Hnx Hpv.
  split_and!; [intros x; by rewrite Hn|intros x; by rewrite Hp|done..].
Qed.

(** ** Lemmas: the two list operations *)

Lemma deref_ok c l n : heap_ c !! l = Some n → deref (Some l) c = Ok (n, c).
Proof. unfold deref. by intros ->. Qed.

(** [RemoveFromList] joins the neighbours of the node. *)
Lemma RemoveFromList_run c p a b :
  prevv (heap_ c) p = Some a → nextv (heap_ c) p = Some b →
  is_Some (heap_ c !! a) → is_Some (heap_ c !! b) →
  ∃ h', RemoveFromList p c = Ok (tt, with_heap h' c) ∧
    relinked (heap_ c) h'
      (λ x, if decide (x = a) then Some b else nextv (heap_ c) x)
      (λ x, if decide (x = b) then Some a else prevv (heap_ c) x).
Proof.
  intros Hp Hn Ha Hb. unfold RemoveFromList.
  apply prevv_live in Hp as (n & Hpn & Hp). unfold nextv in Hn. rewrite Hpn in Hn. simpl in Hn.
  mstep (deref_ok _ _ _ Hpn). rewrite Hp, Hn.
  destruct (store_next_run c a (Some b) Ha) as (h1 & H1 & R1). mstep H1.
  destruct (store_prev_run (with_heap h1 c) b (Some a)) as (h2 & H2 & R2).
  { by eapply relinked_live. }
  exists h2. split; [done|]. pose proof R1 as (Hn1 & Hp1 & _).
  eapply relinked_ext; [by eapply relinked_trans|done|].
  intros x. simpl. by rewrite Hp1.
Qed.

(** [AppendToEndOfList] puts the node between the last one and the tailer. *)
Lemma AppendToEndOfList_run c p z :
  prevv (heap_ c) (dummy_tailer_ c) = Some z →
  is_Some (heap_ c !! p) → is_Some (heap_ c !! z) → p ≠ dummy_tailer_ c →
  ∃ h', AppendToEndOfList p c = Ok (tt, with_heap h' c) ∧
    relinked (heap_ c) h'
      (λ x, if decide (x = z) then Some p
            else if decide (x = p) then Some (dummy_tailer_ c) else nextv (heap_ c) x)
      (λ x, if decide (x = dummy_tailer_ c) then Some p
            else if decide (x = p) then Some z else prevv (heap_ c) x).
Proof.
  intros Hz Hp Hlz Hne. unfold AppendToEndOfList.
  apply prevv_live in Hz as (t & Ht & Hz). set (tl := dummy_tailer_ c) in *.
  mstep (eq_refl : gets dummy_tailer_ c = Ok (tl, c)). mstep (deref_ok _ _ _ Ht). rewrite Hz.
  destruct (store_prev_run c p (Some z) Hp) as (h1 & H1 & R1). mstep H1.
  destruct (store_next_run (with_heap h1 c) p (Some tl)) as (h2 & H2 & R2).
  { by eapply relinked_live. }
  pose proof (relinked_trans _ _ _ _ _ _ _ R1 R2) as R12. mstep H2.
  destruct (store_next_run (with_heap h2 (with_heap h1 c)) z (Some p)) as (h3 & H3 & R3).
  { by eapply relinked_live. }
  pose proof (relinked_trans _ _ _ _ _ _ _ R12 R3) as R13. mstep H3.
  destruct (store_prev_run (with_heap h3 (with_heap h2 (with_heap h1 c))) tl (Some p)) as (h4 & H4 & R4).
  { by eapply relinked_live. }
  exists h4. split; [done|]. simpl in *.
  destruct R1 as (Hn1 & Hp1 & _), R2 as (Hn2 & Hp2 & _), R3 as (Hn3 & Hp3 & _).
  eapply relinked_ext; [exact (relinked_trans _ _ _ _ _ _ _ R13 R4)|..]; intros x; simpl.
  - by rewrite Hn3, Hn2, Hn1.
  - by rewrite Hp3, Hp2, Hp1.
Qed.

(** ** Lemmas: chains *)

Lemma chain_cons2 h x y l :
  chain h (x :: y :: l) ↔ nextv h x = Some y ∧ prevv h y = Some x ∧ chain h (y :: l).
Proof. reflexivity. Qed.

Lemma chain_app h l1 x l2 :
  chain h (l1 ++ x :: l2) ↔ chain h (l1 ++ [x]) ∧ chain h (x :: l2).
Proof.
  induction l1 as [|y l1 IH]; [simpl; tauto|].
  destruct l1 as [|z l1]; [simpl; tauto|]. cbn [app chain] in *. tauto.
Qed.

Lemma chain_frame h h' l :
  chain h l →
  (∀ x, x ∈ removelast l → nextv h' x = nextv h x) →
  (∀ x, x ∈ tail l → prevv h' x = prevv h x) →
  chain h' l.
Proof.
  induction l as [|x [|y l] IH]; [done..|]. intros (Hx & Hy & Hc) Hn Hp.
  cbn [chain]. split_and!.
  - rewrite Hn by (simpl; set_solver). done.
  - rewrite Hp by (simpl; set_solver). done.
  - apply IH; [done|..]; intros z Hz.
    + apply Hn. change (removelast (x :: y :: l)) with (x :: removelast (y :: l)). set_solver.
    + apply Hp. simpl in *. set_solver.
Qed.

Lemma elem_of_removelast {A} (x : A) l : x ∈ removelast l → x ∈ l.
Proof.
  induction l as [|y [|z l] IH]; [done|by intros ?%elem_of_nil|].
  change (removelast (y :: z :: l)) with (y :: removelast (z :: l)).
  rewrite !elem_of_cons. intros [->|H]; [by left|right]. specialize (IH H). by rewrite elem_of_cons in IH.
Qed.

(** Unlinking a node of the middle. *)
Lemma chain_remove h h' l1 a p b l2 :
  NoDup (l1 ++ a :: p :: b :: l2) →
  chain h (l1 ++ a :: p :: b :: l2) →
  (∀ x, nextv h' x = if decide (x = a) then Some b else nextv h x) →
  (∀ x, prevv h' x = if decide (x = b) then Some a else prevv h x) →
  chain h' (l1 ++ a :: b :: l2).
Proof.
  intros Hnd Hc Hn Hp. apply chain_app in Hc as [Hc1 (_ & _ & _ & _ & Hc2)].
  apply NoDup_app in Hnd as (Hnd1 & Hdisj & Hnd2).
  rewrite !NoDup_cons in Hnd2. destruct Hnd2 as (Ha & Hp' & Hb & _).
  apply chain_app. split.
  - eapply chain_frame; [exact Hc1|..]; intros x Hx.
    + rewrite removelast_last in Hx. rewrite Hn, decide_False; [done|].
      intros ->. apply (Hdisj _ Hx). set_solver.
    + rewrite Hp, decide_False; [done|]. intros ->.
      assert (b ∈ l1 ++ [a]) as Hin by (destruct l1; simpl in *; set_solver).
      apply elem_of_app in Hin as [Hin|Hin]; [apply (Hdisj _ Hin)|]; set_solver.
  - rewrite chain_cons2, Hn, Hp, !decide_True by done. split_and!; [done..|].
    eapply chain_frame; [exact Hc2|..]; intros x Hx.
    + apply elem_of_removelast in Hx. rewrite Hn, decide_False; [done|]. set_solver.
    + simpl in Hx. rewrite Hp, decide_False; [done|]. set_solver.
Qed.

(** Linking a new node before the last one. *)
Lemma chain_append h h' l z p t :
  NoDup (l ++ [z; p; t]) → chain h (l ++ [z; t]) →
  (∀ x, nextv h' x = if decide (x = z) then Some p
                     else if decide (x = p) then Some t else nextv h x) →
  (∀ x, prevv h' x = if decide (x = t) then Some p
                     else if decide (x = p) then Some z else prevv h x) →
  chain h' (l ++ [z; p; t]).
Proof.
  intros Hnd Hc Hn Hp. apply chain_app in Hc as [Hc1 _].
  apply NoDup_app in Hnd as (_ & Hdisj & Hnd2).
  rewrite !NoDup_cons in Hnd2. destruct Hnd2 as (Hz & Hpt & _ & _).
  assert (z ≠ p ∧ z ≠ t ∧ p ≠ t) as (?&?&?) by set_solver.
  assert (∀ x, x ∈ l → x ≠ z ∧ x ≠ p ∧ x ≠ t) as Hl by set_solver.
  apply chain_app. split.
  - eapply chain_frame; [exact Hc1|..]; intros x Hx.
    + rewrite removelast_last in Hx. rewrite Hn, !decide_False; [done|set_solver..].
    + assert (x ∈ l ++ [z]) as Hin by (destruct l; simpl in *; set_solver).
      rewrite Hp, !decide_False; [done|set_solver..].
  - cbn [chain]. rewrite !Hn, !Hp. repeat case_decide; naive_solver.
Qed.
