(* ===== verification/CacheSpec.v ===== *)
(** * What the cache promises

    The abstract cache is a list of (identifier, data) entries, least recently
    used first.  [Rep c gs] relates a concrete cache (pointers, hash map, sizes)
    to such a list, and each operation of Cache.v is proved to run without a fault
    and to do what its abstract counterpart does; [Cache_refines_lru] lifts this to
    every sequence of operations. *)

From S2P Require Import Prelude Cache.

(** ** The abstract cache *)

Abbreviation entries := (list (bytes * bytes)).

Fixpoint lookup_entry (id : bytes) (es : entries) : option bytes :=
  match es with
  | [] => None
  | (k, d) :: es => if decide (k = id) then Some d else lookup_entry id es
  end.

Definition remove_entry (id : bytes) (es : entries) : entries :=
  filter (λ e, e.1 ≠ id) es.

Definition total (es : entries) : Z := foldr (λ e z, size_of e.2 + z)%Z 0%Z es.

(** A hit moves the entry to the most recently used end. *)
Definition lru_load (id : bytes) (es : entries) : option bytes * entries :=
  match lookup_entry id es with
  | Some d => (Some d, remove_entry id es ++ [(id, d)])
  | None => (None, es)
  end.

(** Drop least recently used entries until [need] more bytes fit. *)
Fixpoint lru_evict (cap need : Z) (es : entries) : entries :=
  match es with
  | [] => []
  | _ :: es' => if (cap - total es <? need)%Z then lru_evict cap need es' else es
  end.

Definition lru_insert (cap : Z) (id d : bytes) (es : entries) : bool * entries :=
  match lookup_entry id es with
  | Some _ => (false, es)
  | None => if (cap <? size_of d)%Z then (false, es)
            else (true, lru_evict cap (size_of d) es ++ [(id, d)])
  end.

(** ** Client calls, on both sides *)

Inductive op :=
  | OpLoad (clock : Z) (id dest : bytes)
  | OpInsert (clock : Z) (id source : bytes)
  | OpClear.

Inductive answer :=
  | AnsLoad (hit : bool) (dest : bytes)
  | AnsInsert (stored : bool)
  | AnsClear.

Definition run_op (o : op) : stM Cache answer :=
  match o with
  | OpLoad clock id dest => '(b, d) ← TryLoad clock id dest; mret (AnsLoad b d)
  | OpInsert clock id source => b ← TryInsert clock id source; mret (AnsInsert b)
  | OpClear => Clear;; mret AnsClear
  end.

Fixpoint run_ops (os : list op) : stM Cache (list answer) :=
  match os with
  | [] => mret []
  | o :: os => a ← run_op o; l ← run_ops os; mret (a :: l)
  end.

Definition spec_op (cap : Z) (o : op) (es : entries) : answer * entries :=
  match o with
  | OpLoad _ id dest =>
      match lru_load id es with
      | (Some d, es') => (AnsLoad true (dest ++ d), es')
      | (None, es') => (AnsLoad false dest, es')
      end
  | OpInsert _ id source => let '(b, es') := lru_insert cap id source es in (AnsInsert b, es')
  | OpClear => (AnsClear, [])
  end.

Fixpoint spec_ops (cap : Z) (os : list op) (es : entries) : list answer * entries :=
  match os with
  | [] => ([], es)
  | o :: os => let '(a, es') := spec_op cap o es in
               let '(l, es'') := spec_ops cap os es' in (a :: l, es'')
  end.

(** Inserted data are shorter than 2^31 bytes, so their size fits an [int]. *)
Definition op_ok (o : op) : Prop :=
  match o with OpInsert _ _ source => (size_of source < 2 ^ 31)%Z | _ => True end.

(** ** The representation *)

(** One cached entry: the node's address, its identifier and its data. *)
Record slot := mkSlot { s_loc : loc; s_key : bytes; s_data : bytes }.
Definition slot_entry (g : slot) : bytes * bytes := (s_key g, s_data g).
Definition slot_binding (g : slot) : bytes * loc := (s_key g, s_loc g).

(** The pointers: [ls] is the list between the dummies, [X] the live nodes that
    are not linked. *)
Record ListRep (c : Cache) (ls : list loc) (X : gset loc) : Prop := {
  lr_nodup : NoDup (dummy_header_ c :: ls ++ [dummy_tailer_ c]);
  lr_chain : chain (heap_ c) (dummy_header_ c :: ls ++ [dummy_tailer_ c]);
  lr_dom : dom (heap_ c) = list_to_set (dummy_header_ c :: ls ++ [dummy_tailer_ c]) ∪ X;
  lr_disj : ∀ x, x ∈ X → x ∉ dummy_header_ c :: ls ++ [dummy_tailer_ c]
}.

Record Rep (c : Cache) (gs : list slot) : Prop := {
  rep_list : ListRep c (s_loc <$> gs) ∅;
  rep_body : Forall (λ g, body (heap_ c) (s_loc g) = Some (slot_entry g)) gs;
  rep_keys : NoDup (s_key <$> gs);
  rep_map : mapping_ c = list_to_map (slot_binding <$> gs);
  rep_size : current_size_ c = total (slot_entry <$> gs);
  rep_cap : in_int (capacity_ c);
  rep_bound : gs = [] ∨ (total (slot_entry <$> gs) ≤ capacity_ c)%Z
}.

(** The abstract state a concrete cache stands for. *)
Definition represents (c : Cache) (es : entries) : Prop :=
  ∃ gs, Rep c gs ∧ slot_entry <$> gs = es.

(** ** Lemmas on the abstract cache *)

Lemma total_app es1 es2 : total (es1 ++ es2) = (total es1 + total es2)%Z.
Proof. induction es1 as [|e es1 IH]; simpl; [lia|]. rewrite IH. lia. Qed.

Lemma total_nonneg es : (0 ≤ total es)%Z.
Proof. induction es as [|e es IH]; simpl; [lia|]. pose proof (size_of_nonneg e.2). lia. Qed.

#[export] Instance total_proper : Proper (Permutation ==> eq) total.
Proof. induction 1; simpl; lia. Qed.

#[export] Hint Resolve total_nonneg : icee.
#[export] Hint Rewrite total_app : icee.

Lemma lru_evict_suffix cap need es : ∃ k, es = k ++ lru_evict cap need es.
Proof.
  induction es as [|e es [k IH]]; [by exists []|]. cbn [lru_evict].
  case_match; [|by exists []]. exists (e :: k). simpl. by f_equal.
Qed.

Lemma lru_evict_fits cap need es :
  (need ≤ cap)%Z → (total (lru_evict cap need es) + need ≤ cap)%Z.
Proof.
  intros. induction es as [|e es IH]; [simpl; lia|]. cbn [lru_evict].
  destruct (Z.ltb_spec (cap - total (e :: es)) need); [done|lia].
Qed.

Lemma lru_evict_keeps cap need es : (total es + need ≤ cap)%Z → lru_evict cap need es = es.
Proof. intros. destruct es as [|e es]; [done|]. cbn [lru_evict]. by rewrite (proj2 (Z.ltb_ge _ _)) by lia. Qed.

(** Every longer suffix would not have left enough room. *)
Lemma lru_evict_longer cap need es k e rest :
  es = k ++ e :: rest ++ lru_evict cap need es →
  (cap - total (e :: rest ++ lru_evict cap need es) < need)%Z.
Proof.
  revert k. induction es as [|e' es IH]; intros k Hes; [by destruct k|].
  revert Hes. cbn [lru_evict].
  destruct (Z.ltb_spec (cap - total (e' :: es)) need) as [Hlt|Hge]; intros Hes.
  - destruct k as [|e'' k]; injection Hes as -> Hes; [by rewrite <-Hes|by apply (IH k)].
  - apply (f_equal length) in Hes. repeat (rewrite length_app in Hes; simpl in Hes). lia.
Qed.

Lemma lookup_entry_None id es : lookup_entry id es = None ↔ id ∉ es.*1.
Proof.
  induction es as [|[k d] es IH]; simpl; [by split; [intros _ ?%elem_of_nil|]|].
  rewrite elem_of_cons. case_decide; naive_solver.
Qed.

Lemma remove_entry_notin id es : id ∉ es.*1 → remove_entry id es = es.
Proof.
  unfold remove_entry. induction es as [|[k d] es IH]; [done|].
  rewrite fmap_cons, not_elem_of_cons. intros [Hk Hid].
  rewrite filter_cons_True by (simpl in *; congruence). f_equal. by apply IH.
Qed.

Lemma lookup_entry_middle id d es1 es2 :
  NoDup (es1 ++ (id, d) :: es2).*1 →
  lookup_entry id (es1 ++ (id, d) :: es2) = Some d ∧
  remove_entry id (es1 ++ (id, d) :: es2) = es1 ++ es2.
Proof.
  rewrite fmap_app, fmap_cons. simpl. intros (_ & Hdisj & Hnd)%NoDup_app.
  apply NoDup_cons in Hnd as [H2 _].
  assert (id ∉ es1.*1) as H1 by (intros Hin; apply (Hdisj _ Hin); set_solver).
  split.
  - clear Hdisj H2. induction es1 as [|[k e] es1 IH]; simpl; [by rewrite decide_True|].
    rewrite fmap_cons, not_elem_of_cons in H1. destruct H1.
    rewrite decide_False by (simpl in *; congruence). by apply IH.
  - unfold remove_entry. rewrite filter_app, filter_cons_False by (simpl; tauto).
    f_equal; by apply remove_entry_notin.
Qed.

(** ** Lemmas on the linked list *)

Lemma chain_ext h h' l : chain h l → (∀ x, x ∈ l → h' !! x = h !! x) → chain h' l.
Proof.
  intros Hc Hx. eapply chain_frame; [exact Hc|..]; intros x Hin; unfold nextv, prevv; rewrite Hx.
  1,3: done.
  - by apply elem_of_removelast.
  - destruct l; simpl in *; [done|by right].
Qed.

Ltac lr_split := split; cbn [with_heap heap_ dummy_header_ dummy_tailer_].

Lemma ListRep_relinked c h' ls X :
  ListRep c ls X → relinked (heap_ c) h' (nextv (heap_ c)) (prevv (heap_ c)) →
  ListRep (with_heap h' c) ls X.
Proof.
  intros [Hnd Hc Hd Hx] (Hn & Hp & _ & Hdom). lr_split; [done| |by rewrite Hdom|done].
  by eapply chain_frame.
Qed.

Lemma RemoveFromList_rep c l1 p l2 X :
  ListRep c (l1 ++ p :: l2) X →
  ∃ h', RemoveFromList p c = Ok (tt, with_heap h' c) ∧
    ListRep (with_heap h' c) (l1 ++ l2) ({[p]} ∪ X) ∧ (∀ x, body h' x = body (heap_ c) x).
Proof.
  intros [Hnd Hc Hd Hx].
  destruct (@exists_last _ (dummy_header_ c :: l1)) as (k1 & a & E1); [done|].
  destruct (l2 ++ [dummy_tailer_ c]) as [|b k2] eqn:E2; [by destruct l2|].
  assert (∀ m, dummy_header_ c :: (l1 ++ m ++ l2) ++ [dummy_tailer_ c] = k1 ++ a :: m ++ b :: k2) as Hsplit.
  { intros m. rewrite <-!app_assoc, E2, app_comm_cons, E1, <-app_assoc. done. }
  pose proof (Hsplit [p]) as Hfull. pose proof (Hsplit []) as Hrest. simpl in Hfull, Hrest.
  rewrite Hfull in Hnd, Hc, Hd, Hx.
  pose proof Hc as (_ & Hap & Hpa & Hpb & Hbp & _)%chain_app.
  destruct (RemoveFromList_run c p a b) as (h' & Hrun & Hr); [done..| | |].
  { apply nextv_live in Hap as (n & ? & _). by exists n. }
  { apply prevv_live in Hbp as (n & ? & _). by exists n. }
  exists h'. split; [done|]. destruct Hr as (Hn & Hp & Hb & Hdom). split; [|done].
  assert (NoDup (k1 ++ a :: b :: k2) ∧ (p ∉ k1 ++ a :: b :: k2)) as [Hnd' Hp'].
  { change (a :: p :: b :: k2) with ([a] ++ p :: b :: k2) in Hnd. rewrite app_assoc in Hnd.
    rewrite <-Permutation_middle in Hnd. apply NoDup_cons in Hnd as [? ?].
    rewrite <-app_assoc in *. done. }
  lr_split; rewrite Hrest; [done|by eapply chain_remove| |].
  - rewrite Hdom, Hd, !list_to_set_app_L. set_solver.
  - intros x [->%elem_of_singleton|Hin]%elem_of_union; [done|].
    specialize (Hx x Hin). set_solver.
Qed.

Lemma AppendToEndOfList_rep c ls p X :
  ListRep c ls X → p ∈ X →
  ∃ h', AppendToEndOfList p c = Ok (tt, with_heap h' c) ∧
    ListRep (with_heap h' c) (ls ++ [p]) (X ∖ {[p]}) ∧ (∀ x, body h' x = body (heap_ c) x).
Proof.
  intros [Hnd Hc Hd Hx] Hp.
  destruct (@exists_last _ (dummy_header_ c :: ls)) as (k & z & E); [done|].
  assert (∀ m, dummy_header_ c :: (ls ++ m) ++ [dummy_tailer_ c] = k ++ z :: m ++ [dummy_tailer_ c]) as Hsplit.
  { intros m. rewrite <-app_assoc, app_comm_cons, E, <-app_assoc. done. }
  pose proof (Hsplit [p]) as Hnew. pose proof (Hsplit []) as Hold.
  simpl in Hnew, Hold. rewrite app_nil_r in Hold. rewrite Hold in Hnd, Hc, Hd, Hx.
  pose proof (Hx p Hp) as Hpl.
  pose proof Hc as (_ & Hzt & Htz & _)%chain_app.
  destruct (AppendToEndOfList_run c p z) as (h' & Hrun & Hn & Hpv & Hb & Hdom); [done|..].
  { apply elem_of_dom. rewrite Hd. by apply elem_of_union_r. }
  { apply nextv_live in Hzt as (n & ? & _). by exists n. }
  { intros ->. apply Hpl. set_solver. }
  exists h'. split; [done|]. split; [|done].
  assert (NoDup (k ++ [z; p; dummy_tailer_ c])) as Hnd'.
  { change [z; p; dummy_tailer_ c] with ([z] ++ p :: [dummy_tailer_ c]).
    rewrite app_assoc, <-Permutation_middle, <-app_assoc. by apply NoDup_cons. }
  lr_split; rewrite Hnew; [done|by eapply chain_append| |].
  - rewrite Hdom, Hd, !list_to_set_app_L. simpl.
    apply set_eq. intros x. destruct (decide (x = p)); set_solver.
  - intros x [Hin Hne]%elem_of_difference. specialize (Hx x Hin). set_solver.
Qed.

Lemma alloc_rep c ls X n :
  ListRep c ls X →
  ∃ p h', alloc n c = Ok (p, with_heap h' c) ∧ ListRep (with_heap h' c) ls ({[p]} ∪ X) ∧
    h' = <[p := n]> (heap_ c) ∧ (p ∉ dom (heap_ c)).
Proof.
  intros [Hnd Hc Hd Hx]. pose proof (is_fresh (dom (heap_ c))) as Hf.
  eexists _, _. split; [done|]. split; [|done].
  set (p := fresh (dom (heap_ c))) in *. clearbody p.
  assert (∀ x, x ∈ dummy_header_ c :: ls ++ [dummy_tailer_ c] → x ≠ p) as Hne.
  { intros x Hin ->. apply Hf. rewrite Hd. apply elem_of_union_l. by apply elem_of_list_to_set. }
  lr_split.
  - done.
  - eapply chain_ext; [done|]. intros x Hin. apply lookup_insert_ne. symmetry. by apply Hne.
  - rewrite dom_insert_L, Hd. set_solver.
  - intros x [->%elem_of_singleton|Hin]%elem_of_union; [|by apply Hx]. by intros ?%Hne.
Qed.

Lemma destroy_rep c ls X p :
  ListRep c ls X → p ∈ X → ListRep (with_heap (delete p (heap_ c)) c) ls (X ∖ {[p]}).
Proof.
  intros [Hnd Hc Hd Hx] Hp. pose proof (Hx p Hp) as Hpl.
  lr_split.
  - done.
  - eapply chain_ext; [done|]. intros x Hin. apply lookup_delete_ne. by intros ->.
  - rewrite dom_delete_L, Hd. apply set_eq. intros x. destruct (decide (x = p)) as [->|]; [|set_solver].
    rewrite elem_of_difference, elem_of_union, elem_of_list_to_set. set_solver.
  - intros x [Hin _]%elem_of_difference. by apply Hx.
Qed.

(** ** Lemmas on the representation *)

Lemma list_to_map_middle {K A} `{Countable K} (l1 l2 : list (K * A)) k v :
  NoDup (l1 ++ (k, v) :: l2).*1 →
  (list_to_map (l1 ++ (k, v) :: l2) : gmap K A) = <[k := v]> (list_to_map (l1 ++ l2)) ∧
  (list_to_map (l1 ++ l2) : gmap K A) !! k = None.
Proof.
  intros Hnd. split.
  - rewrite (list_to_map_proper (l1 ++ (k, v) :: l2) ((k, v) :: l1 ++ l2)); [done..|].
    by rewrite Permutation_middle.
  - apply not_elem_of_list_to_map_1. rewrite <-Permutation_middle in Hnd.
    by apply NoDup_cons in Hnd as [? _].
Qed.

Lemma slot_binding_keys gs : (slot_binding <$> gs).*1 = s_key <$> gs.
Proof. induction gs as [|g gs IH]; [done|]. rewrite !fmap_cons. f_equal. exact IH. Qed.

Lemma slot_entry_keys gs : (slot_entry <$> gs).*1 = s_key <$> gs.
Proof. induction gs as [|g gs IH]; [done|]. rewrite !fmap_cons. f_equal. exact IH. Qed.

Section Representation.
Context (c : Cache) (gs : list slot) (R : Rep c gs).

Lemma rep_lookup_None id : mapping_ c !! id = None ↔ id ∉ s_key <$> gs.
Proof. rewrite (rep_map _ _ R), <-slot_binding_keys. symmetry. apply not_elem_of_list_to_map. Qed.

Lemma rep_lookup_Some id p :
  mapping_ c !! id = Some p → ∃ gs1 d gs2, gs = gs1 ++ mkSlot p id d :: gs2.
Proof.
  rewrite (rep_map _ _ R). intros Hl%elem_of_list_to_map_2.
  apply list_elem_of_fmap in Hl as ([p' id' d] & [= -> ->] & Hin).
  apply list_elem_of_split in Hin as (gs1 & gs2 & ->). by exists gs1, d, gs2.
Qed.

Lemma rep_middle_map gs1 g gs2 :
  gs = gs1 ++ g :: gs2 →
  mapping_ c !! s_key g = Some (s_loc g) ∧
  delete (s_key g) (mapping_ c) = list_to_map (slot_binding <$> gs1 ++ gs2).
Proof.
  intros E. rewrite (rep_map _ _ R). pose proof (rep_keys _ _ R) as Hnd. subst gs.
  rewrite <-slot_binding_keys, fmap_app, fmap_cons in Hnd.
  rewrite !fmap_app, fmap_cons. change (slot_binding g) with (s_key g, s_loc g) in *.
  destruct (list_to_map_middle _ _ _ _ Hnd) as [-> Hf].
  split; [by rewrite lookup_insert_eq|]. by rewrite delete_insert_id.
Qed.

Lemma rep_live g : g ∈ gs → ∃ n, heap_ c !! s_loc g = Some n ∧ identifier_ n = s_key g ∧ data_ n = s_data g.
Proof.
  intros Hin. pose proof (proj1 (Forall_forall _ _) (rep_body _ _ R) g Hin) as Hb.
  unfold body, slot_entry in Hb. destruct (heap_ c !! s_loc g) as [n|]; simplify_eq/=. by exists n.
Qed.

Lemma rep_total : (0 ≤ current_size_ c < 2 ^ 31)%Z ∧ in_int (capacity_ c - current_size_ c).
Proof.
  rewrite (rep_size _ _ R). pose proof (total_nonneg (slot_entry <$> gs)).
  pose proof (rep_cap _ _ R) as Hc. unfold in_int in *. destruct (rep_bound _ _ R) as [->|?]; simpl in *; lia.
Qed.

Lemma rep_map_empty : mapping_ c = ∅ ↔ gs = [].
Proof.
  split.
  - intros He. assert (gs = [] ∨ ∃ g gs', gs = g :: gs') as [?|(g & gs' & E)]; [|done|exfalso].
    { clear. destruct gs; eauto. }
    destruct (rep_middle_map [] g gs') as [Hl _]; [done|]. by rewrite He in Hl.
  - intros E. by rewrite (rep_map _ _ R), E.
Qed.

Lemma rep_map_size : size (mapping_ c) = length gs.
Proof.
  rewrite (rep_map _ _ R), map_size_list_to_map; [by rewrite length_fmap|].
  rewrite slot_binding_keys. apply (rep_keys _ _ R).
Qed.
End Representation.

Lemma bodies_ext h h' gs :
  Forall (λ g, body h (s_loc g) = Some (slot_entry g)) gs →
  (∀ g, g ∈ gs → body h' (s_loc g) = body h (s_loc g)) →
  Forall (λ g, body h' (s_loc g) = Some (slot_entry g)) gs.
Proof. rewrite !Forall_forall. intros H Hx g Hg. rewrite Hx by done. by apply H. Qed.

(** ** The operations keep the representation *)

(** Evicting removes the oldest entry. *)
Lemma EvitOne_rep c g gs :
  Rep c (g :: gs) → ∃ c', EvitOne c = Ok (tt, c') ∧ Rep c' gs ∧ capacity_ c' = capacity_ c.
Proof.
  intros R. pose proof R as [L Hb Hk Hm Hs Hc Hbd]. pose proof L as [Hnd Hch _ _].
  cbn [fmap list_fmap app] in Hnd, Hch.
  pose proof Hch as (Hhd & _ & _). apply nextv_live in Hhd as (hn & Hhl & Hhn).
  destruct (rep_live _ _ R g) as (n & Hn & Hid & Hdata); [by left|].
  destruct (rep_middle_map _ _ R [] g gs) as [Hl Hdel]; [done|]. cbn [app] in Hdel.
  destruct (RemoveFromList_rep c [] (s_loc g) (s_loc <$> gs) ∅) as (h' & Hrun & L' & Hb'); [done|].
  unfold EvitOne. mstep (eq_refl : get c = Ok (c, c)). mstep (deref_ok _ _ _ Hhl).
  rewrite Hhn, bool_decide_eq_true_2.
  2: { intros [= E]. apply NoDup_cons in Hnd as [_ Hnd]. apply NoDup_cons in Hnd as [Hnd _].
       apply Hnd. rewrite E. set_solver. }
  mstep (eq_refl : ensure AssertionFailed true c = Ok (tt, c)). mstep (deref_ok _ _ _ Hn).
  unfold CacheNode_Size, GetIdentifier. rewrite Hid, Hdata, Hl. mstep Hrun.
  eexists. split; [reflexivity|]. split; [|done].
  apply (destroy_rep _ _ _ (s_loc g)) in L'; [|set_solver].
  replace (({[s_loc g]} ∪ ∅) ∖ {[s_loc g]}) with (∅ : gset loc) in L' by set_solver.
  cbn [fmap list_fmap] in *. apply NoDup_cons in Hk as [Hk1 Hk2].
  pose proof (total_nonneg (slot_entry <$> gs)) as Ht. pose proof (size_of_nonneg (s_data g)) as Hg.
  split; cbn.
  - destruct L'. by split.
  - apply Forall_cons in Hb as [_ Hb]. eapply bodies_ext; [exact Hb|]. intros g' Hin.
    unfold body. rewrite lookup_delete_ne; [by apply Hb'|]. intros E.
    apply NoDup_cons in Hnd as [_ Hnd]. apply NoDup_cons in Hnd as [Hnd _]. apply Hnd.
    rewrite E. apply elem_of_app. left. by apply list_elem_of_fmap_2.
  - done.
  - exact Hdel.
  - simpl in *. destruct Hbd as [?|Hbd]; [done|]. unfold in_int in Hc.
    rewrite Hs. rewrite wrap_u_id by lia. rewrite to_int_id; [lia|]. unfold in_int. lia.
  - done.
  - simpl in *. destruct Hbd as [?|Hbd]; [done|]. right. lia.
Qed.

(** The eviction loop stops exactly where [lru_evict] does. *)
Lemma evict_loop_rep fuel need c gs :
  length gs < fuel → Rep c gs →
  ∃ c' gs', evict_loop fuel need c = Ok (tt, c') ∧ Rep c' gs' ∧ capacity_ c' = capacity_ c ∧
    slot_entry <$> gs' = lru_evict (capacity_ c) need (slot_entry <$> gs).
Proof.
  revert c gs. induction fuel as [|fuel IH]; [lia|]. intros c gs Hf R.
  cbn [evict_loop]. mstep (eq_refl : get c = Ok (c, c)).
  destruct (rep_total _ _ R) as [_ Hint].
  assert (lift (int_sub (capacity_ c) (current_size_ c)) c = Ok (capacity_ c - current_size_ c, c)%Z) as E.
  { unfold lift, int_sub. by rewrite checked_int_ok. }
  mstep E. rewrite (rep_size _ _ R).
  destruct gs as [|g gs].
  - assert (mapping_ c = ∅) as He by (by rewrite (rep_map_empty _ _ R)).
    rewrite bool_decide_eq_true_2, andb_false_r by exact He.
    by exists c, [].
  - assert (mapping_ c ≠ ∅) as He by (by rewrite (rep_map_empty _ _ R)).
    rewrite bool_decide_eq_false_2, andb_true_r by exact He. rewrite fmap_cons. cbn [lru_evict]. case_match.
    + destruct (EvitOne_rep c g gs R) as (c1 & H1 & R1 & C1). mstep H1.
      destruct (IH c1 gs) as (c2 & gs2 & H2 & R2 & C2 & E2); [simpl in *; lia|done|].
      exists c2, gs2. rewrite C1 in *. done.
    + by exists c, (g :: gs).
Qed.

(** A reordering of the list leaves the rest of the representation alone. *)
Lemma Rep_reorder c h' gs gs' :
  Rep c gs → gs' ≡ₚ gs → ListRep (with_heap h' c) (s_loc <$> gs') ∅ →
  (∀ x, body h' x = body (heap_ c) x) → Rep (with_heap h' c) gs'.
Proof.
  intros [L Hb Hk Hm Hs Hc Hbd] Hp L' Hbody. split; cbn; rewrite ?Hp; [done| |done| |done|done|].
  - eapply bodies_ext; [exact Hb|]. intros; apply Hbody.
  - rewrite Hm. apply list_to_map_proper; [by rewrite slot_binding_keys|by rewrite Hp].
  - destruct Hbd as [->|?]; [left; by apply Permutation_nil_r|right; by rewrite Hp].
Qed.

Definition simulates (o : op) (c : Cache) (gs : list slot) : Prop :=
  ∃ a c' gs', run_op o c = Ok (a, c') ∧ Rep c' gs' ∧ capacity_ c' = capacity_ c ∧
    spec_op (capacity_ c) o (slot_entry <$> gs) = (a, slot_entry <$> gs').

Lemma TryLoad_rep clock id dest c gs : Rep c gs → simulates (OpLoad clock id dest) c gs.
Proof.
  intros R. unfold simulates. cbn [run_op spec_op]. unfold TryLoad, lru_load.
  rewrite !stM_bind_assoc. mstep (eq_refl : gets mapping_ c = Ok (mapping_ c, c)).
  destruct (mapping_ c !! id) as [p|] eqn:Hl.
  - destruct (rep_lookup_Some _ _ R _ _ Hl) as (gs1 & d & gs2 & E).
    set (g := mkSlot p id d) in *.
    assert (g ∈ gs) as Hg by (rewrite E; set_solver).
    destruct (rep_live _ _ R g Hg) as (n & Hn & _ & Hd). simpl in Hn, Hd.
    pose proof (rep_list _ _ R) as L. rewrite E, fmap_app, fmap_cons in L.
    destruct (RemoveFromList_rep _ _ _ _ _ L) as (h1 & H1 & L1 & B1). cbn [s_loc g] in H1, L1.
    destruct (AppendToEndOfList_rep _ _ p _ L1) as (h2 & H2 & L2 & B2); [set_solver|].
    assert (is_Some (h2 !! p)) as [n2 Hn2].
    { specialize (B2 p). specialize (B1 p). cbn [with_heap heap_] in B2. rewrite B1 in B2.
      unfold body in B2. rewrite Hn in B2. destruct (h2 !! p) as [n2|]; [by exists n2|done]. }
    pose proof (relinked_time h2 p n2 clock Hn2) as R3. pose proof R3 as (_ & _ & B3 & _).
    rewrite !stM_bind_assoc. mstep (deref_ok _ _ _ Hn). rewrite !stM_bind_assoc. mstep H1.
    rewrite !stM_bind_assoc. mstep H2.
    rewrite !stM_bind_assoc. mstep (store_ok (with_heap h2 (with_heap h1 c)) p (UpdateTimeStamp clock) n2 Hn2).
    eexists _, _, (gs1 ++ gs2 ++ [g]). split; [reflexivity|].
    replace (({[p]} ∪ ∅) ∖ {[p]}) with (∅ : gset loc) in L2 by set_solver.
    apply (ListRep_relinked _ _ _ _ L2) in R3. split; [|split; [done|]].
    + apply (Rep_reorder c _ gs).
      * done.
      * by rewrite E, (Permutation_app_comm gs2).
      * rewrite app_assoc, !fmap_app. exact R3.
      * intros x. cbn. rewrite B3. rewrite (B2 x). apply B1.
    + assert (NoDup (slot_entry <$> gs).*1) as Hnd by (rewrite slot_entry_keys; apply (rep_keys _ _ R)).
      rewrite E, fmap_app, fmap_cons in *. change (slot_entry g) with (id, d) in *.
      destruct (lookup_entry_middle _ _ _ _ Hnd) as [-> ->].
      rewrite !fmap_app, <-app_assoc. unfold CacheNode_Serialize. by rewrite Hd.
  - rewrite (rep_lookup_None _ _ R), <-slot_entry_keys in Hl.
    eexists _, c, gs. split; [reflexivity|]. split_and!; [done..|].
    apply lookup_entry_None in Hl. by rewrite Hl.
Qed.

(** Linking a freshly allocated node at the most recently used end. *)
Lemma insert_rep c gs clock id d :
  Rep c gs → (id ∉ s_key <$> gs) → (total (slot_entry <$> gs) + size_of d ≤ capacity_ c)%Z →
  ∃ p h', (p' ← alloc (CacheNode_ctor clock id d); AppendToEndOfList p';; mret p') c
            = Ok (p, with_heap h' c) ∧
    Rep (with_mapping (<[id := p]> (mapping_ c))
          (with_size (current_size_ c + size_of d) (with_heap h' c))) (gs ++ [mkSlot p id d]).
Proof.
  intros R Hid Hfit. pose proof R as [L Hb Hk Hm Hs Hc Hbd].
  destruct (alloc_rep _ _ _ (CacheNode_ctor clock id d) L) as (p & h1 & H1 & L1 & E1 & Hfresh).
  destruct (AppendToEndOfList_rep _ _ p _ L1) as (h2 & H2 & L2 & B2); [set_solver|].
  exists p, h2. split; [mstep H1; mstep H2; reflexivity|].
  replace (({[p]} ∪ ∅) ∖ {[p]}) with (∅ : gset loc) in L2 by set_solver.
  split; cbn; rewrite ?fmap_app, ?fmap_cons; cbn.
  - destruct L2. by split.
  - apply Forall_app. split.
    + eapply bodies_ext; [exact Hb|]. intros g Hg. rewrite (B2 (s_loc g)). cbn. rewrite E1.
      unfold body. rewrite lookup_insert_ne; [done|]. intros ->. apply Hfresh.
      destruct (rep_live _ _ R g Hg) as (n & Hn & _). by apply elem_of_dom_2 in Hn.
    + apply Forall_singleton. change (body h2 p = Some (id, d)). rewrite (B2 p). cbn. rewrite E1. unfold body. by rewrite lookup_insert_eq.
  - apply NoDup_app. split_and!; [done| |apply NoDup_singleton].
    intros k Hk1 Hk2%list_elem_of_singleton. by subst.
  - assert (NoDup ((slot_binding <$> gs) ++ (id, p) :: []).*1) as Hnd.
    { rewrite fmap_app, slot_binding_keys. cbn. apply NoDup_app. split_and!; [done| |apply NoDup_singleton].
      intros k Hk1 Hk2%list_elem_of_singleton. by subst. }
    change (slot_binding (mkSlot p id d)) with (id, p).
    destruct (list_to_map_middle _ _ _ _ Hnd) as [-> _]. by rewrite app_nil_r, Hm.
  - rewrite total_app. cbn. lia.
  - done.
  - right. rewrite total_app. cbn. lia.
Qed.

Lemma TryInsert_rep clock id source c gs :
  Rep c gs → (size_of source < 2 ^ 31)%Z → simulates (OpInsert clock id source) c gs.
Proof.
  intros R Hsz. unfold simulates. cbn [run_op spec_op]. unfold TryInsert, lru_insert.
  pose proof (size_of_nonneg source). pose proof (rep_cap _ _ R) as Hcap.
  assert (to_int (size_of source) = size_of source) as Hint by (apply to_int_id; unfold in_int; lia).
  rewrite !stM_bind_assoc. mstep (eq_refl : get c = Ok (c, c)).
  destruct (mapping_ c !! id) as [p|] eqn:Hl.
  - destruct (rep_lookup_Some _ _ R _ _ Hl) as (gs1 & d & gs2 & E).
    assert (NoDup (slot_entry <$> gs).*1) as Hnd by (rewrite slot_entry_keys; apply (rep_keys _ _ R)).
    eexists _, c, gs. split; [reflexivity|]. split_and!; [done..|].
    rewrite E, fmap_app, fmap_cons in *. change (slot_entry (mkSlot p id d)) with (id, d) in *.
    destruct (lookup_entry_middle _ _ _ _ Hnd) as [-> _]. done.
  - rewrite (rep_lookup_None _ _ R), <-slot_entry_keys in Hl.
    rewrite (proj2 (lookup_entry_None _ _) Hl), Hint.
    destruct (Z.ltb_spec (capacity_ c) (size_of source)) as [Hlt|Hle].
    { by eexists _, c, gs. }
    destruct (evict_loop_rep (S (size (mapping_ c))) (size_of source) c gs)
      as (c1 & gs1 & H1 & R1 & C1 & E1); [rewrite (rep_map_size _ _ R); lia|done|].
    pose proof (lru_evict_fits (capacity_ c) (size_of source) (slot_entry <$> gs) Hle) as Hfit.
    destruct (lru_evict_suffix (capacity_ c) (size_of source) (slot_entry <$> gs)) as [k Hk].
    rewrite <-E1 in *.
    assert (id ∉ s_key <$> gs1) as Hid.
    { rewrite <-slot_entry_keys. intros Hin. apply Hl. rewrite Hk, fmap_app. apply elem_of_app. by right. }
    destruct (insert_rep c1 gs1 clock id source R1 Hid) as (p & h & H2 & R2); [by rewrite C1|].
    rewrite !stM_bind_assoc. mstep H1. rewrite !stM_bind_assoc.
    destruct (stM_bind_inv _ _ _ _ _ H2) as (p1 & c2 & Ha & H3). mstep Ha.
    destruct (stM_bind_inv _ _ _ _ _ H3) as ([] & c3 & Hb & [= -> ->]).
    rewrite !stM_bind_assoc. mstep Hb. rewrite !stM_bind_assoc. mstep (eq_refl : get (with_heap h c1) = Ok (with_heap h c1, with_heap h c1)).
    assert (lift (int_add (current_size_ (with_heap h c1)) (size_of source)) (with_heap h c1)
            = Ok (current_size_ c1 + size_of source, with_heap h c1)%Z) as E2.
    { unfold lift, int_add. cbn. rewrite checked_int_ok; [done|]. rewrite (rep_size _ _ R1).
      pose proof (total_nonneg (slot_entry <$> gs1)). unfold in_int in *. lia. }
    rewrite !stM_bind_assoc. mstep E2.
    eexists _, _, (gs1 ++ [mkSlot p id source]). split; [reflexivity|]. split; [exact R2|].
    split; [done|]. by rewrite fmap_app.
Qed.

Lemma Clear_rep c gs : Rep c gs → simulates OpClear c gs.
Proof.
  intros R. unfold simulates. cbn [run_op spec_op]. unfold Clear.
  pose proof R as [L Hb Hk Hm Hs Hc Hbd]. pose proof L as [Hnd Hch Hd _].
  set (hd := dummy_header_ c) in *. set (tl := dummy_tailer_ c) in *.
  assert (is_Some (heap_ c !! hd) ∧ is_Some (heap_ c !! tl)) as [Hlh Hlt].
  { rewrite <-!elem_of_dom, Hd. set_solver. }
  rewrite !stM_bind_assoc. mstep (eq_refl : get c = Ok (c, c)). fold hd tl.
  destruct (store_prev_run c tl (Some hd) Hlt) as (h1 & H1 & R1).
  rewrite !stM_bind_assoc. mstep H1.
  destruct (store_next_run (with_heap h1 c) hd (Some tl)) as (h2 & H2 & R2).
  { by eapply relinked_live. }
  rewrite !stM_bind_assoc. mstep H2.
  pose proof (relinked_trans _ _ _ _ _ _ _ R1 R2) as (Hn & Hp & _ & Hdom). cbn in Hn, Hp, Hdom.
  assert ((map_to_list (mapping_ c)).*2 ≡ₚ s_loc <$> gs) as Hlocs.
  { rewrite Hm, map_to_list_to_map by (by rewrite slot_binding_keys).
    clear. induction gs as [|g gs IH]; [done|]. rewrite !fmap_cons. by rewrite IH. }
  assert (hd ≠ tl ∧ (hd ∉ s_loc <$> gs) ∧ (tl ∉ s_loc <$> gs)) as (Hne & Hh & Ht).
  { apply NoDup_cons in Hnd as [Hnd1 Hnd2]. apply NoDup_app in Hnd2 as (_ & Hnd2 & _). set_solver. }
  eexists _, _, []. split; [reflexivity|]. split; [|done].
  set (h3 := foldr delete h2 (map_to_list (mapping_ c)).*2).
  assert (∀ x, x ∉ s_loc <$> gs → h3 !! x = h2 !! x) as Hkeep.
  { intros x Hx. apply lookup_foldr_delete_not_elem_of. by rewrite Hlocs. }
  assert (∀ x, x ∈ s_loc <$> gs → h3 !! x = None) as Hgone.
  { intros x Hx. apply lookup_foldr_delete. by rewrite Hlocs. }
  change (Rep (with_size 0 (with_mapping ∅ (with_heap h3 c))) []).
  split; cbn; [|done|by apply NoDup_nil|done|done|done|by left].
  split; cbn; fold hd tl.
  - apply NoDup_cons. split; [set_solver|apply NoDup_singleton].
  - unfold nextv, prevv. rewrite !Hkeep by done.
    change (nextv h2 hd = Some tl ∧ prevv h2 tl = Some hd ∧ True). rewrite Hn, Hp.
    destruct R1 as (_ & Hp1 & _). cbn in Hp1 |- *. rewrite Hp1, !decide_True by done. done.
  - apply set_eq. intros x. rewrite elem_of_dom. destruct (decide (x ∈ s_loc <$> gs)) as [Hx|Hx].
    + rewrite Hgone by done. split; [by intros [? ?]|set_solver].
    + rewrite Hkeep, <-elem_of_dom, Hdom, Hd by done. rewrite elem_of_union, elem_of_list_to_set.
      rewrite elem_of_cons, elem_of_app. set_solver.
  - set_solver.
Qed.

Lemma Cache_ctor_rep clock capacity : in_int capacity → Rep (Cache_ctor clock capacity) [].
Proof.
  intros Hc. split; cbn; [|done|by apply NoDup_nil|done|done|done|by left].
  split; cbn.
  - apply NoDup_cons. split; [set_solver|apply NoDup_singleton].
  - done.
  - by apply set_eq.
  - set_solver.
Qed.

Lemma op_rep o c gs : op_ok o → Rep c gs → simulates o c gs.
Proof.
  destruct o; simpl; intros Hok R; [by apply TryLoad_rep|by apply TryInsert_rep|by apply Clear_rep].
Qed.

Lemma ops_rep os c gs :
  Forall op_ok os → Rep c gs →
  ∃ l c' gs', run_ops os c = Ok (l, c') ∧ Rep c' gs' ∧ capacity_ c' = capacity_ c ∧
    spec_ops (capacity_ c) os (slot_entry <$> gs) = (l, slot_entry <$> gs').
Proof.
  intros Hok. revert c gs. induction Hok as [|o os Ho _ IH]; intros c gs R; [by eexists _, c, gs|].
  destruct (op_rep o c gs Ho R) as (a & c1 & gs1 & H1 & R1 & C1 & E1).
  destruct (IH c1 gs1 R1) as (l & c2 & gs2 & H2 & R2 & C2 & E2).
  exists (a :: l), c2, gs2. cbn [run_ops spec_ops]. mstep H1. mstep H2.
  rewrite E1, <-C1, E2. split_and!; [done|done|congruence|done].
Qed.

Lemma rep_heap_size c gs : Rep c gs → size (heap_ c) = 2 + length gs.
Proof.
  intros [[Hnd _ Hd _] _ _ _ _ _ _]. rewrite <-(size_dom (D := gset loc)), Hd, union_empty_r_L.
  rewrite size_list_to_set by done. simpl. rewrite length_app, length_fmap. simpl. lia.
Qed.

(** ** Properties *)

(** C7: the pointer-level cache refines the abstract LRU cache.  From the
    constructor, any sequence of [TryLoad], [TryInsert] and [Clear] runs without a
    fault (no null or dangling pointer, no failed assertion, no overflow), answers
    what the abstract cache answers, and ends in a state that represents the
    abstract one: same entries in the same recency order, the sizes accounted for
    exactly and within the capacity, and no node leaked (the live nodes are the
    two dummies and one per entry). *)
Theorem Cache_refines_lru clock capacity os :
  in_int capacity → Forall op_ok os →
  ∃ answers c es,
    run_ops os (Cache_ctor clock capacity) = Ok (answers, c) ∧
    spec_ops capacity os [] = (answers, es) ∧ represents c es ∧
    GetCurSize c = total es ∧ (es = [] ∨ (GetCurSize c ≤ GetCapacity c)%Z) ∧
    size (mapping_ c) = length es ∧ size (heap_ c) = 2 + length es.
Proof.
  intros Hc Hok.
  destruct (ops_rep os _ [] Hok (Cache_ctor_rep clock capacity Hc)) as (l & c & gs & H & R & HC & E).
  exists l, c, (slot_entry <$> gs). unfold GetCurSize, GetCapacity.
  rewrite (rep_map_size _ _ R), (rep_heap_size _ _ R), length_fmap, (rep_size _ _ R).
  split_and!; [done|done|by exists gs|done| |done|done].
  destruct (rep_bound _ _ R) as [->|?]; [by left|by right].
Qed.

Lemma Cache_refines_lru_witness :
  ∃ answers c es,
    run_ops [OpInsert 0 (lit "a") (lit "12"); OpLoad 0 (lit "a") []; OpInsert 0 (lit "b") (lit "345"); OpClear]
      (Cache_ctor 0 4) = Ok (answers, c) ∧
    spec_ops 4 [OpInsert 0 (lit "a") (lit "12"); OpLoad 0 (lit "a") []; OpInsert 0 (lit "b") (lit "345"); OpClear] []
      = (answers, es) ∧ represents c es ∧
    GetCurSize c = total es ∧ (es = [] ∨ (GetCurSize c ≤ GetCapacity c)%Z) ∧
    size (mapping_ c) = length es ∧ size (heap_ c) = 2 + length es.
Proof.
  apply (Cache_refines_lru 0 4); [decided|].
  repeat constructor.
Defined.

(** C21: an insertion of a new resource that fits the capacity is stored at the
    most recently used end, after evicting the least recently used entries and
    only those: what stays is the longest suffix of the recency order that leaves
    room for it. *)
Theorem TryInsert_evicts_least_recent clock id source c es :
  represents c es → lookup_entry id es = None →
  (size_of source < 2 ^ 31)%Z → (size_of source ≤ capacity_ c)%Z →
  ∃ c' evicted kept,
    TryInsert clock id source c = Ok (true, c') ∧ represents c' (kept ++ [(id, source)]) ∧
    es = evicted ++ kept ∧ (total kept + size_of source ≤ capacity_ c)%Z ∧
    (∀ k e rest, evicted = k ++ e :: rest →
       (capacity_ c < total (e :: rest ++ kept) + size_of source)%Z).
Proof.
  intros (gs & R & <-) Hnone Hsz Hle.
  destruct (TryInsert_rep clock id source c gs R Hsz) as (a & c' & gs' & H & R' & _ & E).
  cbn [run_op spec_op] in H, E. unfold lru_insert in E. rewrite Hnone in E.
  destruct (Z.ltb_spec (capacity_ c) (size_of source)); [lia|]. injection E as <- E.
  apply stM_bind_inv in H as (b & c1 & H & [= -> ->]).
  set (kept := lru_evict (capacity_ c) (size_of source) (slot_entry <$> gs)) in *.
  destruct (lru_evict_suffix (capacity_ c) (size_of source) (slot_entry <$> gs)) as [k Hk].
  exists c', k, kept. split_and!; [done|by exists gs'|exact Hk|by apply lru_evict_fits|].
  intros k' e rest ->.
  pose proof (lru_evict_longer (capacity_ c) (size_of source) (slot_entry <$> gs) k' e rest). 
  fold kept in H1. rewrite <-app_assoc in Hk. specialize (H1 Hk). lia.
Qed.

Lemma TryInsert_evicts_least_recent_witness :
  ∃ c, represents c [(lit "a", lit "12"); (lit "b", lit "3")] ∧
  ∃ c' evicted kept,
    TryInsert 7 (lit "c") (lit "45") c = Ok (true, c') ∧ represents c' (kept ++ [(lit "c", lit "45")]) ∧
    [(lit "a", lit "12"); (lit "b", lit "3")] = evicted ++ kept ∧ (total kept + size_of (lit "45") ≤ capacity_ c)%Z ∧
    (∀ k e rest, evicted = k ++ e :: rest →
       (capacity_ c < total (e :: rest ++ kept) + size_of (lit "45"))%Z).
Proof.
  destruct (ops_rep [OpInsert 0 (lit "a") (lit "12"); OpInsert 0 (lit "b") (lit "3")] _ []
              ltac:(repeat constructor) (Cache_ctor_rep 0 4 ltac:(decided)))
    as (l & c & gs & _ & R & C & E).
  injection E as _ E.
  assert (represents c [(lit "a", lit "12"); (lit "b", lit "3")]) as Hrep by (by exists gs).
  exists c. split; [exact Hrep|].
  apply (TryInsert_evicts_least_recent 7 (lit "c") (lit "45") c _ Hrep);
    [reflexivity|decided|rewrite C; decided].
Defined.

(** the size of the data is narrowed to [int] before it is compared with the
    capacity.  Data of 2^31 bytes or more (below 2^32) count as negative: they are
    stored whatever the capacity, nothing is evicted for them, and the recorded
    size drops below that of the entries held. *)
Theorem TryInsert_oversized_accepted clock id source c es :
  represents c es → lookup_entry id es = None → (0 ≤ capacity_ c)%Z →
  (2 ^ 31 ≤ size_of source < 2 ^ 32)%Z →
  ∃ c', TryInsert clock id source c = Ok (true, c') ∧
    (GetCurSize c' = total es + size_of source - 2 ^ 32)%Z ∧ (GetCurSize c' < total es)%Z.
Proof.
  intros (gs & R & <-) Hnone Hcap Hsz. unfold TryInsert.
  assert (to_int (size_of source) = size_of source - 2 ^ 32)%Z as Hint.
  { unfold wrap_s. rewrite <-(Z.mod_unique (size_of source + 2 ^ (32 - 1)) (2 ^ 32) 1
      (size_of source - 2 ^ 31)); lia. }
  apply lookup_entry_None in Hnone. rewrite slot_entry_keys in Hnone.
  destruct (rep_total _ _ R) as [Hcur Hdiff]. pose proof (rep_size _ _ R) as Hs.
  mstep (eq_refl : get c = Ok (c, c)). rewrite (proj2 (rep_lookup_None _ _ R id) Hnone), Hint.
  destruct (Z.ltb_spec (capacity_ c) (size_of source - 2 ^ 32)); [lia|].
  destruct (evict_loop_rep (S (size (mapping_ c))) (size_of source - 2 ^ 32) c gs)
    as (c1 & gs1 & H1 & R1 & C1 & E1); [rewrite (rep_map_size _ _ R); lia|done|].
  rewrite lru_evict_keeps in E1.
  2: { destruct (rep_bound _ _ R) as [->|?]; simpl in *; lia. }
  pose proof (rep_size _ _ R1) as Hs1. rewrite E1, <-Hs in Hs1. mstep H1.
  destruct (alloc_rep _ _ _ (CacheNode_ctor clock id source) (rep_list _ _ R1)) as (p & h1 & H2 & L1 & _).
  mstep H2. destruct (AppendToEndOfList_rep _ _ p _ L1) as (h2 & H3 & _); [set_solver|]. mstep H3.
  eexists. mred. cbn [with_heap current_size_]. unfold int_add. rewrite Hs1.
  rewrite checked_int_ok by (unfold in_int; lia). split; [reflexivity|]. cbn. lia.
Qed.

Lemma TryInsert_oversized_accepted_witness :
  ∃ c', TryInsert 0 (lit "big") (replicate (Z.to_nat (2 ^ 31)) " "%char) (Cache_ctor 0 10) = Ok (true, c') ∧
    (GetCurSize c' = total [] + size_of (replicate (Z.to_nat (2 ^ 31)) " "%char) - 2 ^ 32)%Z ∧
    (GetCurSize c' < total [])%Z.
Proof.
  apply (TryInsert_oversized_accepted 0 (lit "big") _ _ []).
  - exists []. split; [apply Cache_ctor_rep; decided|reflexivity].
  - reflexivity.
  - decided.
  - unfold size_of. rewrite length_replicate, Z2Nat.id; lia.
Defined.
