(* ===== verification/CacheRace.v ===== *)
(** * Lookups at once

    [Cache::TryLoad] relinks the recency list, yet takes [latch_] in shared mode, so
    several workers can be inside it together (src/core/cache.cc, lines 44-58).  This
    file splits [TryLoad] into its memory accesses, one per step, and runs two of
    them, or any number, under an explicit schedule.

    Alone, the steps are [TryLoad] of Cache.v ([load_steps_alone]); interleaved,
    they can drop a cached entry from the list while the map keeps it, and a later
    eviction then fails its assertion ([TryLoad_race]) or leaves a pointer to a
    destroyed node ([race_use_after_free]).  What stays: no lookup
    faults, each answers as it would alone, and the map and the data are as before
    ([lookups_race_answers]). *)

From S2P Require Import Prelude Cache CacheSpec.

(** Where a thread stands inside [TryLoad], with its locals [node_ptr],
    [pre_ptr], [next_ptr] and [prev_ptr]. *)
Inductive load_pc :=
  | LFind
  | LSerialize (node : loc)
  | LReadPrev (node : loc)
  | LReadNext (node : loc) (pre : option loc)
  | LLinkLeft (node : loc) (pre next : option loc)
  | LLinkRight (node : loc) (pre next : option loc)
  | LReadTail (node : loc)
  | LSetPrev (node : loc) (prev : option loc)
  | LSetNext (node : loc) (prev : option loc)
  | LLinkLast (node : loc) (prev : option loc)
  | LLinkTail (node : loc)
  | LTouch (node : loc)
  | LDone (hit : bool).

Record reader := mkReader { r_pc : load_pc; r_destination : bytes }.

Definition load_step (clock : Z) (identifier : bytes) (r : reader) : stM Cache reader :=
  let goto pc := mret (mkReader pc (r_destination r)) in
  match r_pc r with
  | LFind =>
      mapping ← gets mapping_;
      match mapping !! identifier with
      | Some node => goto (LSerialize node)
      | None => goto (LDone false)
      end
  | LSerialize node =>
      n ← deref (Some node);
      mret (mkReader (LReadPrev node) (CacheNode_Serialize n (r_destination r)))
  | LReadPrev node => n ← deref (Some node); goto (LReadNext node (prev_ n))
  | LReadNext node pre => n ← deref (Some node); goto (LLinkLeft node pre (next_ n))
  | LLinkLeft node pre next => store pre (set_next next);; goto (LLinkRight node pre next)
  | LLinkRight node pre next => store next (set_prev pre);; goto (LReadTail node)
  | LReadTail node =>
      tailer ← gets dummy_tailer_; t ← deref (Some tailer); goto (LSetPrev node (prev_ t))
  | LSetPrev node prev => store (Some node) (set_prev prev);; goto (LSetNext node prev)
  | LSetNext node prev =>
      tailer ← gets dummy_tailer_;
      store (Some node) (set_next (Some tailer));; goto (LLinkLast node prev)
  | LLinkLast node prev => store prev (set_next (Some node));; goto (LLinkTail node)
  | LLinkTail node =>
      tailer ← gets dummy_tailer_;
      store (Some tailer) (set_prev (Some node));; goto (LTouch node)
  | LTouch node => store (Some node) (UpdateTimeStamp clock);; goto (LDone true)
  | LDone _ => mret r
  end.

(** The number of accesses of a complete [TryLoad]. *)
Definition load_length : nat := 12.

Fixpoint load_steps (n : nat) (clock : Z) (identifier : bytes) (r : reader) : stM Cache reader :=
  match n with
  | 0 => mret r
  | S n => r ← load_step clock identifier r; load_steps n clock identifier r
  end.

(** A thread that called [TryLoad] and the value it returns once it is done. *)
Definition load_start (destination : bytes) : reader := mkReader LFind destination.
Definition load_result (r : reader) : option (bool * bytes) :=
  match r_pc r with LDone hit => Some (hit, r_destination r) | _ => None end.

(** Two threads; the schedule says whose turn it is ([true]: the first). *)
Fixpoint load_race (schedule : list bool) (clock : Z) (id1 id2 : bytes) (r1 r2 : reader) :
    stM Cache (reader * reader) :=
  match schedule with
  | [] => mret (r1, r2)
  | true :: schedule => r1 ← load_step clock id1 r1; load_race schedule clock id1 id2 r1 r2
  | false :: schedule => r2 ← load_step clock id2 r2; load_race schedule clock id1 id2 r1 r2
  end.

(** ** Lemmas *)

Lemma deref_state p c n c' : deref p c = Ok (n, c') → c' = c.
Proof. unfold deref. destruct p as [l|]; [|done]. destruct (heap_ c !! l); congruence. Qed.

Lemma store_tailer p f c u c' : store p f c = Ok (u, c') → dummy_tailer_ c' = dummy_tailer_ c.
Proof. unfold store. destruct p as [l|]; [|done]. destruct (heap_ c !! l); [|done]. by intros [= _ <-]. Qed.

(** Case analysis on the next access of the goal. *)
Ltac load_case :=
  first
    [ reflexivity
    | match goal with
      | H : deref ?p ?c = Ok (_, ?c') |- _ => pose proof (deref_state _ _ _ _ H); subst c'
      | H : store _ _ _ = Ok (_, ?c') |- context [dummy_tailer_ ?c'] =>
          rewrite (store_tailer _ _ _ _ _ H)
      | H : ?e = _ |- context [match ?e with _ => _ end] => rewrite H
      | |- context [match deref ?p ?c with _ => _ end] => destruct (deref p c) as [[? ?]|] eqn:?
      | |- context [match store ?p ?f ?c with _ => _ end] =>  destruct (store p f c) as [[[] ?]|] eqn:?
      | |- context [match mapping_ ?c !! ?i with _ => _ end] => destruct (mapping_ c !! i) eqn:?
      end
    | progress cbn [r_pc r_destination] ].

(** ** Any number of lookups

    What the race spares.  Threads inside [TryLoad] write nothing but links and time
    stamps: however their accesses interleave, the map and the data stay, the links
    of every node lead to live nodes, and each lookup finishes with the answer it
    would get alone. *)

(** A call of [TryLoad] and where it stands. *)
Record load_call := mkCall { lc_clock : Z; lc_identifier : bytes; lc_destination : bytes }.
Record load_thread := mkThread { lt_call : load_call; lt_reader : reader }.

Definition thread_start (call : load_call) : load_thread := mkThread call (load_start (lc_destination call)).

(** The schedule names the thread of each access. *)
Fixpoint load_threads (schedule : list nat) (ts : list load_thread) : stM Cache (list load_thread) :=
  match schedule with
  | [] => mret ts
  | i :: schedule =>
      match ts !! i with
      | None => load_threads schedule ts
      | Some t =>
          r ← load_step (lc_clock (lt_call t)) (lc_identifier (lt_call t)) (lt_reader t);
          load_threads schedule (<[i := mkThread (lt_call t) r]> ts)
      end
  end.

(** What the lookup returns on a cache that holds [es]. *)
Definition load_answer (es : entries) (call : load_call) : bool * bytes :=
  match lookup_entry (lc_identifier call) es with
  | Some d => (true, lc_destination call ++ d)
  | None => (false, lc_destination call)
  end.

(** The accesses still to come. *)
Definition load_left (r : reader) : nat :=
  match r_pc r with
  | LFind => 12 | LSerialize _ => 11 | LReadPrev _ => 10 | LReadNext _ _ => 9
  | LLinkLeft _ _ _ => 8 | LLinkRight _ _ _ => 7 | LReadTail _ => 6 | LSetPrev _ _ => 5
  | LSetNext _ _ => 4 | LLinkLast _ _ => 3 | LLinkTail _ => 2 | LTouch _ => 1 | LDone _ => 0
  end.

Section Readers.
Context (c0 : Cache) (es : entries).

(** Nodes a [next_] may lead to, and a [prev_]. *)
Definition after_header (y : loc) : Prop := y ∈ dom (heap_ c0) ∧ y ≠ dummy_header_ c0.
Definition before_tailer (y : loc) : Prop := y ∈ dom (heap_ c0) ∧ y ≠ dummy_tailer_ c0.

(** [c] is [c0] up to its links and time stamps, which lead to live nodes. *)
Record loose (c : Cache) : Prop := {
  lo_frame : c = with_heap (heap_ c) c0;
  lo_dom : dom (heap_ c) = dom (heap_ c0);
  lo_body x : body (heap_ c) x = body (heap_ c0) x;
  lo_next x : before_tailer x → ∃ y, nextv (heap_ c) x = Some y ∧ after_header y;
  lo_prev x : after_header x → ∃ y, prevv (heap_ c) x = Some y ∧ before_tailer y
}.

(** The node of the looked-up entry. *)
Definition found (id : bytes) (node : loc) : Prop :=
  mapping_ c0 !! id = Some node ∧ after_header node ∧ before_tailer node ∧
  ∃ k d, body (heap_ c0) node = Some (k, d) ∧ lookup_entry id es = Some d.

Definition is_left (p : option loc) : Prop := ∃ y, p = Some y ∧ before_tailer y.
Definition is_right (p : option loc) : Prop := ∃ y, p = Some y ∧ after_header y.

Definition reader_ok (call : load_call) (r : reader) : Prop :=
  let served node := found (lc_identifier call) node ∧ (true, r_destination r) = load_answer es call in
  match r_pc r with
  | LFind => r_destination r = lc_destination call
  | LSerialize node => found (lc_identifier call) node ∧ r_destination r = lc_destination call
  | LReadPrev node | LReadTail node | LLinkTail node | LTouch node => served node
  | LReadNext node pre => served node ∧ is_left pre
  | LLinkLeft node pre next | LLinkRight node pre next => served node ∧ is_left pre ∧ is_right next
  | LSetPrev node prev | LSetNext node prev | LLinkLast node prev => served node ∧ is_left prev
  | LDone hit => (hit, r_destination r) = load_answer es call
  end.

Lemma loose_relinked c h' nx pv :
  loose c → relinked (heap_ c) h' nx pv →
  (∀ x, before_tailer x → ∃ y, nx x = Some y ∧ after_header y) →
  (∀ x, after_header x → ∃ y, pv x = Some y ∧ before_tailer y) → loose (with_heap h' c).
Proof.
  intros [Hf Hd Hb Hn Hp] (R1 & R2 & R3 & R4) Hnx Hpv. split; cbn [heap_ with_heap].
  - by rewrite Hf.
  - by rewrite R4.
  - intros x. by rewrite R3.
  - intros x Hx. rewrite R1. by apply Hnx.
  - intros x Hx. rewrite R2. by apply Hpv.
Qed.

Lemma loose_live c x : loose c → x ∈ dom (heap_ c0) → is_Some (heap_ c !! x).
Proof. intros L Hx. apply elem_of_dom. by rewrite (lo_dom _ L). Qed.

Lemma loose_set_next c a v :
  loose c → is_left a → is_right v → ∃ c', store a (set_next v) c = Ok (tt, c') ∧ loose c'.
Proof.
  intros L (x & -> & Hx) (y & -> & Hy).
  destruct (store_next_run c x (Some y)) as (h' & H & R); [apply loose_live; [done|apply Hx]|].
  exists (with_heap h' c). split; [done|]. eapply loose_relinked; [done|exact R| |apply (lo_prev _ L)].
  intros z Hz. cbv beta. case_decide; [by exists y|]. by apply (lo_next _ L).
Qed.

Lemma loose_set_prev c a v :
  loose c → is_right a → is_left v → ∃ c', store a (set_prev v) c = Ok (tt, c') ∧ loose c'.
Proof.
  intros L (x & -> & Hx) (y & -> & Hy).
  destruct (store_prev_run c x (Some y)) as (h' & H & R); [apply loose_live; [done|apply Hx]|].
  exists (with_heap h' c). split; [done|]. eapply loose_relinked; [done|exact R|apply (lo_next _ L)|].
  intros z Hz. cbv beta. case_decide; [by exists y|]. by apply (lo_prev _ L).
Qed.

Lemma loose_touch c clock x :
  loose c → x ∈ dom (heap_ c0) → ∃ c', store (Some x) (UpdateTimeStamp clock) c = Ok (tt, c') ∧ loose c'.
Proof.
  intros L Hx. destruct (loose_live c x L Hx) as [n Hn]. eexists. split; [by apply store_ok|].
  eapply loose_relinked; [done|by apply relinked_time|apply (lo_next _ L)|apply (lo_prev _ L)].
Qed.

Lemma loose_links c x :
  loose c → x ∈ dom (heap_ c0) →
  ∃ n, deref (Some x) c = Ok (n, c) ∧ body (heap_ c0) x = Some (identifier_ n, data_ n) ∧
    (after_header x → is_left (prev_ n)) ∧ (before_tailer x → is_right (next_ n)).
Proof.
  intros L Hx. destruct (loose_live c x L Hx) as [n Hn]. exists n. split; [by apply deref_ok|].
  split; [rewrite <-(lo_body _ L); unfold body; by rewrite Hn|].
  split; intros H; [destruct (lo_prev _ L x H) as (y & Hy & ?)|destruct (lo_next _ L x H) as (y & Hy & ?)];
    unfold prevv, nextv in Hy; rewrite Hn in Hy; by exists y.
Qed.
End Readers.

(** [c] stores the entries [es], in whatever order its list has them, and whether or
    not the list reaches all of them. *)
Record stores (c : Cache) (es : entries) : Prop := {
  st_loose : loose c c;
  st_header : dummy_header_ c ∈ dom (heap_ c);
  st_tailer : after_header c (dummy_tailer_ c);
  st_found id : match mapping_ c !! id with
                | Some node => found c es id node
                | None => lookup_entry id es = None
                end;
  st_size : current_size_ c = total es
}.

(** A well-formed cache stores what it represents. *)
Section Represents.
Context (c0 : Cache) (es : entries).
Hypothesis Hrep : represents c0 es.

Lemma represents_tailer : after_header c0 (dummy_tailer_ c0).
Proof.
  destruct Hrep as (gs & R & _). destruct (rep_list _ _ R) as [Hnd _ Hdom _]. split.
  - rewrite Hdom. apply elem_of_union_l, elem_of_list_to_set, list_elem_of_further, elem_of_app. right. by apply list_elem_of_singleton.
  - intros E. apply NoDup_cons in Hnd as [Hnd _]. apply Hnd. rewrite <-E. apply elem_of_app. right. by apply list_elem_of_singleton.
Qed.

Lemma represents_loose : loose c0 c0.
Proof.
  destruct Hrep as (gs & R & _). destruct (rep_list _ _ R) as [Hnd Hc Hdom _].
  set (H := dummy_header_ c0) in *. set (T := dummy_tailer_ c0) in *. set (ls := s_loc <$> gs) in *.
  rewrite union_empty_r_L in Hdom.
  assert (∀ x, x ∈ dom (heap_ c0) ↔ x ∈ H :: ls ++ [T]) as Hin by (intros x; rewrite Hdom; apply elem_of_list_to_set).
  split; [by rewrite with_heap_id|done|done|intros x [Hx Hne]%id|intros x [Hx Hne]%id]; apply Hin in Hx.
  - apply list_elem_of_split in Hx as (k1 & k2 & E). destruct k2 as [|y k2].
    { rewrite app_comm_cons in E. by apply app_inj_tail in E as [_ <-]. }
    rewrite E in Hc. exists y. apply chain_app in Hc as (_ & Hn & _). split; [done|].
    assert (y ∈ ls ++ [T]) as Hy by (destruct k1; injection E as -> ->; set_solver).
    split; [apply Hin; by right|]. intros ->. by apply NoDup_cons in Hnd as [? _].
  - apply elem_of_cons in Hx as [->|Hx]; [done|].
    apply list_elem_of_split in Hx as (k1 & k2 & E). rewrite E in *.
    destruct (@exists_last _ (H :: k1)) as (k & a & Ek); [done|]. rewrite app_comm_cons, Ek, <-app_assoc in *. cbn [app] in *.
    apply chain_app in Hc as (_ & _ & Hp & _). exists a. split; [done|]. split; [apply Hin; set_solver|].
    intros ->. destruct (@exists_last _ (x :: k2)) as (m & z & Em); [done|].
    rewrite Em, app_assoc in E. apply app_inj_tail in E as [_ <-].
    apply NoDup_app in Hnd as (_ & _ & Hnd). apply NoDup_cons in Hnd as [Hnd _]. apply Hnd. rewrite Em. set_solver.
Qed.

Lemma represents_found id :
  match mapping_ c0 !! id with
  | Some node => found c0 es id node
  | None => lookup_entry id es = None
  end.
Proof.
  destruct Hrep as (gs & R & <-). destruct (mapping_ c0 !! id) as [node|] eqn:E.
  - destruct (rep_lookup_Some c0 gs R _ _ E) as (gs1 & d & gs2 & Hgs).
    destruct (rep_list _ _ R) as [Hnd _ Hdom _]. pose proof (rep_body _ _ R) as Hb. pose proof (rep_keys _ _ R) as Hk.
    assert (node ∈ s_loc <$> gs) as Hin by (rewrite Hgs, fmap_app, fmap_cons; set_solver).
    assert (node ∈ dom (heap_ c0)) as Hd by (rewrite Hdom; set_solver).
    apply NoDup_cons in Hnd as [Hh Hnd]. apply NoDup_app in Hnd as (_ & Ht & _).
    split; [done|]. split; [split; [done|set_solver]|]. split; [split; [done|set_solver]|].
    rewrite Hgs in *. apply Forall_app in Hb as [_ Hb]. apply Forall_cons in Hb as [Hb _].
    exists id, d. split; [exact Hb|].
    rewrite <-slot_entry_keys, fmap_app, fmap_cons in Hk. rewrite fmap_app, fmap_cons.
    by apply (lookup_entry_middle id d).
  - apply lookup_entry_None. rewrite slot_entry_keys. by apply (rep_lookup_None c0 gs R).
Qed.

Lemma represents_stores : stores c0 es.
Proof.
  split; [apply represents_loose| |apply represents_tailer|apply represents_found|].
  - destruct Hrep as (gs & R & _). rewrite (lr_dom _ _ _ (rep_list _ _ R)). set_solver.
  - destruct Hrep as (gs & R & <-). apply (rep_size _ _ R).
Qed.
End Represents.

(** The start: a cache that stores [es]. *)
Section Start.
Context (c0 : Cache) (es : entries).
Hypothesis Hst : stores c0 es.

(** Where a step leaves its thread. *)
Definition steps_to (call : load_call) (r : reader) (res : result (reader * Cache)) : Prop :=
  ∃ r' c', res = Ok (r', c') ∧ loose c0 c' ∧ reader_ok c0 es call r' ∧ load_left r' ≤ pred (load_left r).

Lemma steps_to_intro call r r' c' :
  loose c0 c' → reader_ok c0 es call r' → load_left r' ≤ pred (load_left r) → steps_to call r (Ok (r', c')).
Proof. by exists r', c'. Qed.

Lemma load_step_read call node c :
  loose c0 c → found c0 es (lc_identifier call) node →
  ∃ n, deref (Some node) c = Ok (n, c) ∧ is_left c0 (prev_ n) ∧ is_right c0 (next_ n) ∧
    (true, lc_destination call ++ data_ n) = load_answer es call.
Proof.
  intros L (_ & Ha & Hb & k & d & Hbody & Hd). destruct (loose_links c0 c node L (proj1 Ha)) as (n & Hn & Hbn & Hp & Hx).
  exists n. rewrite Hbody in Hbn. injection Hbn as -> ->. split_and!; [done|auto..|]. unfold load_answer. by rewrite Hd.
Qed.

#[local] Ltac step_done := apply steps_to_intro; [done|unfold reader_ok; cbn; repeat match goal with H : _ ∧ _ |- _ => destruct H end; split_and?; done|cbn; lia].

Lemma load_step_ok call r c :
  loose c0 c → reader_ok c0 es call r →
  steps_to call r (load_step (lc_clock call) (lc_identifier call) r c).
Proof.
  intros L Hr. pose proof (lo_frame _ _ L) as Hfr. destruct r as [pc dest].
  assert (mapping_ c = mapping_ c0 ∧ dummy_tailer_ c = dummy_tailer_ c0) as [Hmap Ht] by (by rewrite Hfr).
  unfold reader_ok in Hr. destruct pc as [|node|node|node pre|node pre next|node pre next|node|node prev|node prev|node prev|node|node|hit];
    cbn [r_pc r_destination] in Hr; unfold load_step; cbn [r_pc r_destination]; mred; rewrite ?Hmap, ?Ht.
  - pose proof (st_found _ _ Hst (lc_identifier call)) as Hf.
    destruct (mapping_ c0 !! lc_identifier call) as [node|]; [step_done|].
    apply steps_to_intro; [done| |cbn; lia]. unfold reader_ok, load_answer. cbn. by rewrite Hf, Hr.
  - destruct Hr as [Hf ->]. destruct (load_step_read call node c L Hf) as (n & -> & _ & _ & Ha). step_done.
  - destruct (load_step_read call node c L (proj1 Hr)) as (n & -> & Hp & _). step_done.
  - destruct (load_step_read call node c L (proj1 (proj1 Hr))) as (n & -> & _ & Hn & _). step_done.
  - destruct Hr as (Hs & Hp & Hn). destruct (loose_set_next c0 c pre next L Hp Hn) as (c' & -> & L'). step_done.
  - destruct Hr as (Hs & Hp & Hn). destruct (loose_set_prev c0 c next pre L Hn Hp) as (c' & -> & L'). step_done.
  - destruct (loose_links c0 c (dummy_tailer_ c0) L (proj1 (st_tailer _ _ Hst))) as (t & -> & _ & Hp & _).
    specialize (Hp (st_tailer _ _ Hst)). step_done.
  - destruct Hr as [[Hf Ha] Hp]. pose proof Hf as (_ & Hah & Hbt & _).
    destruct (loose_set_prev c0 c (Some node) prev L) as (c' & -> & L'); [by exists node|done|]. step_done.
  - destruct Hr as [[Hf Ha] Hp]. pose proof Hf as (_ & Hah & Hbt & _).
    destruct (loose_set_next c0 c (Some node) (Some (dummy_tailer_ c0)) L) as (c' & -> & L');
      [by exists node|exists (dummy_tailer_ c0); split; [done|apply (st_tailer _ _ Hst)]|]. step_done.
  - destruct Hr as [[Hf Ha] Hp]. pose proof Hf as (_ & Hah & Hbt & _).
    destruct (loose_set_next c0 c prev (Some node) L) as (c' & -> & L'); [done|by exists node|]. step_done.
  - destruct Hr as [Hf Ha]. pose proof Hf as (_ & Hah & Hbt & _).
    destruct (loose_set_prev c0 c (Some (dummy_tailer_ c0)) (Some node) L) as (c' & -> & L');
      [exists (dummy_tailer_ c0); split; [done|apply (st_tailer _ _ Hst)]|by exists node|]. step_done.
  - destruct Hr as [Hf Ha]. pose proof Hf as (_ & Hah & _).
    destruct (loose_touch c0 c (lc_clock call) node L (proj1 Hah)) as (c' & -> & L'). step_done.
  - step_done.
Qed.

(** Accesses that [schedule] gives to the thread [i]. *)
Definition turns (i : nat) (schedule : list nat) : nat := length (filter (eq i) schedule).

Lemma turns_cons i j schedule : turns i (j :: schedule) = (if decide (i = j) then 1 else 0) + turns i schedule.
Proof. unfold turns. rewrite filter_cons. repeat case_decide; done. Qed.

Lemma load_threads_run schedule ts c :
  loose c0 c → Forall (λ t, reader_ok c0 es (lt_call t) (lt_reader t)) ts →
  ∃ ts' c', load_threads schedule ts c = Ok (ts', c') ∧ loose c0 c' ∧ lt_call <$> ts' = lt_call <$> ts ∧
    Forall (λ t, reader_ok c0 es (lt_call t) (lt_reader t)) ts' ∧
    ∀ i t t', ts !! i = Some t → ts' !! i = Some t' →
      load_left (lt_reader t') ≤ load_left (lt_reader t) - turns i schedule.
Proof.
  revert ts c. induction schedule as [|i schedule IH]; intros ts c L Hok; cbn [load_threads].
  { exists ts, c. split_and!; [done..|]. intros i t t' Ht Ht'. simplify_eq. cbn. lia. }
  destruct (ts !! i) as [t|] eqn:Ht.
  - destruct (load_step_ok (lt_call t) (lt_reader t) c L) as (r & c1 & Hrun & L1 & Hr & Hle).
    { by apply (Forall_lookup_1 _ _ _ _ Hok Ht). }
    destruct (IH (<[i := mkThread (lt_call t) r]> ts) c1 L1) as (ts' & c' & Hts & L' & Hcalls & Hok' & Hleft).
    { by apply Forall_insert. }
    exists ts', c'. split; [by mstep Hrun|]. split; [done|].
    split; [rewrite Hcalls, list_fmap_insert; by apply list_insert_id; rewrite list_lookup_fmap, Ht|]. split; [done|].
    intros j u u' Hu Hu'. rewrite turns_cons. destruct (decide (j = i)) as [->|Hne].
    + rewrite Ht in Hu. injection Hu as <-.
      specialize (Hleft i (mkThread (lt_call t) r) u'). cbn [lt_reader] in Hleft.
      pose proof (Hleft ltac:(apply list_lookup_insert_eq; by eapply lookup_lt_Some) Hu'). lia.
    + apply (Hleft j u u'); [by rewrite list_lookup_insert_ne|done].
  - destruct (IH ts c L Hok) as (ts' & c' & Hts & L' & Hcalls & Hok' & Hleft). exists ts', c'.
    split_and!; [done..|]. intros j u u' Hu Hu'. rewrite turns_cons.
    rewrite decide_False by congruence. by apply (Hleft j u u').
Qed.
End Start.

(** Races leave a cache that stores what it stored. *)
Lemma loose_stores c0 c es : stores c0 es → loose c0 c → stores c es.
Proof.
  intros [_ Hh Ht Hf Hs] L. pose proof (lo_frame _ _ L) as Hfr. pose proof (lo_dom _ _ L) as Hd.
  assert (mapping_ c = mapping_ c0 ∧ dummy_header_ c = dummy_header_ c0 ∧ dummy_tailer_ c = dummy_tailer_ c0 ∧
          current_size_ c = current_size_ c0) as (Em & Eh & Et & Es) by (by rewrite Hfr).
  assert (∀ x, after_header c x ↔ after_header c0 x) as Ha by (intros x; unfold after_header; by rewrite Hd, Eh).
  assert (∀ x, before_tailer c x ↔ before_tailer c0 x) as Hb by (intros x; unfold before_tailer; by rewrite Hd, Et).
  split; [split| | | |by rewrite Es].
  - by rewrite with_heap_id.
  - done.
  - done.
  - intros x Hx%Hb. destruct (lo_next _ _ L x Hx) as (y & Hy & Hya). exists y. by rewrite Ha.
  - intros x Hx%Ha. destruct (lo_prev _ _ L x Hx) as (y & Hy & Hyb). exists y. by rewrite Hb.
  - by rewrite Eh, Hd.
  - rewrite Et. by apply Ha.
  - intros id. rewrite Em. specialize (Hf id). destruct (mapping_ c0 !! id) as [node|]; [|done].
    unfold found in *. rewrite Em, Ha, Hb, (lo_body _ _ L). exact Hf.
Qed.

(** Lookups that run together on a cache that stores [es]. *)
Lemma stores_lookups c es calls schedule :
  stores c es →
  ∃ ts c', load_threads schedule (thread_start <$> calls) c = Ok (ts, c') ∧ loose c c' ∧ length ts = length calls ∧
    ∀ i call, calls !! i = Some call →
      ∃ r, ts !! i = Some (mkThread call r) ∧
        (load_length ≤ turns i schedule → is_Some (load_result r)) ∧
        (∀ res, load_result r = Some res → res = load_answer es call).
Proof.
  intros Hst. destruct (load_threads_run c es Hst schedule (thread_start <$> calls) c (st_loose _ _ Hst))
    as (ts & c' & Hrun & L & Hcalls & Hok & Hleft).
  { apply Forall_fmap, Forall_forall. by intros call _. }
  exists ts, c'. split; [done|]. split; [done|].
  split; [by rewrite <-(length_fmap lt_call), Hcalls, !length_fmap|]. intros i call Hi.
  assert ((lt_call <$> ts) !! i = Some call) as Hts by (by rewrite Hcalls, !list_lookup_fmap, Hi).
  rewrite list_lookup_fmap in Hts. apply fmap_Some in Hts as ([call' r] & Hti & ->). exists r. split; [done|].
  pose proof (Forall_lookup_1 _ _ _ _ Hok Hti) as Hr. cbn [lt_call lt_reader] in Hr. split.
  - intros Hturns. assert (load_left r = 0) as Hz.
    { specialize (Hleft i _ _ ltac:(by rewrite list_lookup_fmap, Hi) Hti). unfold load_length in Hturns.
      cbn in Hleft. lia. }
    unfold load_left, load_result in *. by destruct (r_pc r).
  - unfold load_result, reader_ok in *. destruct (r_pc r); try done. by intros res [= <-].
Qed.

(** ** Properties *)

(** run without interference, the memory accesses of [TryLoad] add up to the
    atomic [TryLoad] of the model, on every cache, well formed or not: same answer,
    same state, and a fault exactly when [TryLoad] faults. *)
Theorem load_steps_alone clock identifier destination c :
  (r ← load_steps load_length clock identifier (load_start destination); mret (load_result r)) c
  = (a ← TryLoad clock identifier destination; mret (Some a)) c.
Proof.
  unfold TryLoad, load_length, load_start, load_steps, load_step, load_result,
    RemoveFromList, AppendToEndOfList. mred. cbn [r_pc r_destination].
  repeat load_case.
Qed.

(** A cache of two bytes that holds "a" and "b". *)
Definition race_cache : result Cache :=
  '(_, c) ← run_ops [OpInsert 0 (lit "a") (lit "1"); OpInsert 0 (lit "b") (lit "2")] (Cache_ctor 0 2);
  mret c.

(** The first thread stops after reading the tailer's predecessor, the second
    one unlinks its node, then each finishes. *)
Definition race_schedule : list bool :=
  replicate 7 true ++ replicate 6 false ++ replicate 5 true ++ replicate 6 false.

(** Everything the schedule leads to, as one closed computation. *)
Definition race_report : result (option (bool * bytes) * option (bool * bytes) * result bool * result bool) :=
  c ← race_cache;
  '((r1, r2), c') ← load_race race_schedule 0 (lit "a") (lit "b") (load_start []) (load_start []) c;
  mret (load_result r1, load_result r2,
        fst <$> TryInsert 0 (lit "c") (lit "34") c',
        fst <$> (TryLoad 0 (lit "a") [];; TryLoad 0 (lit "b") [];; TryInsert 0 (lit "c") (lit "34")) c).

Lemma race_report_eq :
  race_report = Ok (Some (true, lit "1"), Some (true, lit "2"), Fail AssertionFailed, Ok true).
Proof. vm_compute. reflexivity. Qed.

Lemma race_cache_represents c :
  race_cache = Ok c → represents c [(lit "a", lit "1"); (lit "b", lit "2")].
Proof.
  intros Hc.
  assert (Forall op_ok [OpInsert 0 (lit "a") (lit "1"); OpInsert 0 (lit "b") (lit "2")]) as Hok
    by (repeat constructor).
  destruct (ops_rep _ _ [] Hok (Cache_ctor_rep 0 2 ltac:(decided))) as (l & c' & gs & H & R & _ & E).
  injection E as _ E. unfold race_cache in Hc. rewrite H in Hc. injection Hc as ->. by exists gs.
Qed.

(** C37: two concurrent [TryLoad]s, which the shared lock lets run together, can
    corrupt the cache: under this schedule both return their data, but the next
    insertion that needs the room of both entries runs into [EvitOne]'s assertion,
    although the same insertion succeeds when the two lookups run one after the
    other. *)
Theorem TryLoad_race :
  ∃ c r1 r2 c' c'',
    race_cache = Ok c ∧ represents c [(lit "a", lit "1"); (lit "b", lit "2")] ∧
    load_race race_schedule 0 (lit "a") (lit "b") (load_start []) (load_start []) c = Ok ((r1, r2), c') ∧
    load_result r1 = Some (true, lit "1") ∧ load_result r2 = Some (true, lit "2") ∧
    TryInsert 0 (lit "c") (lit "34") c' = Fail AssertionFailed ∧
    (TryLoad 0 (lit "a") [];; TryLoad 0 (lit "b") [];; TryInsert 0 (lit "c") (lit "34")) c = Ok (true, c'').
Proof.
  pose proof race_report_eq as H. unfold race_report in H.
  destruct race_cache as [c|] eqn:Hc; [|done]. pose proof (race_cache_represents c Hc) as Hrep.
  mred. destruct (load_race _ _ _ _ _ _ c) as [[[r1 r2] c']|] eqn:Hr; [|done].
  injection H as H1 H2 H3 H4. apply fmap_result_fail in H3. apply fmap_result_ok in H4 as ([b c''] & H4 & Hb).
  simpl in Hb. subst b. by exists c, r1, r2, c', c''.
Qed.

(** The race frees what is still in use: on a cache of three bytes that holds "a" and
    "b", both lookups return their data and two insertions succeed, the second one by
    an eviction; the next lookup of "a" follows a link to the node that was
    destroyed. *)
Definition use_after_free_schedule : list bool :=
  replicate 7 true ++ replicate 7 false ++ replicate 5 true ++ replicate 5 false.

Definition use_after_free_report : result (list answer * result (list answer)) :=
  '(_, c) ← run_ops [OpInsert 0 (lit "a") (lit "1"); OpInsert 0 (lit "b") (lit "2")] (Cache_ctor 0 3);
  '((r1, r2), c) ← load_race use_after_free_schedule 0 (lit "a") (lit "b") (load_start []) (load_start []) c;
  '(answers, c) ← run_ops [OpInsert 0 (lit "c") (lit "3"); OpInsert 0 (lit "d") (lit "4")] c;
  mret (default [] ((λ '(hit, d), [AnsLoad hit d]) <$> load_result r1) ++
        default [] ((λ '(hit, d), [AnsLoad hit d]) <$> load_result r2) ++ answers,
        fst <$> run_ops [OpLoad 0 (lit "a") []] c).

Theorem race_use_after_free :
  use_after_free_report =
    Ok ([AnsLoad true (lit "1"); AnsLoad true (lit "2"); AnsInsert true; AnsInsert true], Fail DanglingPointer).
Proof. vm_compute. reflexivity. Qed.

(** C20: what the race spares: on a cache that holds [es], any number of lookups run
    together under any schedule without a fault; a thread that has had twelve turns
    is done; each lookup that is done answered as it would have alone; and the map,
    the size and the contents of every node are as before.  Only the order of
    eviction is lost. *)
Theorem lookups_race_answers c es calls schedule :
  represents c es →
  ∃ ts c', load_threads schedule (thread_start <$> calls) c = Ok (ts, c') ∧
    mapping_ c' = mapping_ c ∧ GetCurSize c' = GetCurSize c ∧ (∀ x, body (heap_ c') x = body (heap_ c) x) ∧
    ∀ i call, calls !! i = Some call →
      ∃ r, ts !! i = Some (mkThread call r) ∧
        (load_length ≤ turns i schedule → is_Some (load_result r)) ∧
        (∀ res, load_result r = Some res → res = load_answer es call).
Proof.
  intros Hst%represents_stores. destruct (stores_lookups c es calls schedule Hst) as (ts & c' & Hrun & L & _ & Hans).
  exists ts, c'. split; [done|]. pose proof (lo_frame _ _ L) as Hf.
  split; [by rewrite Hf|]. split; [by rewrite Hf|]. split; [apply (lo_body _ _ L)|exact Hans].
Qed.

Definition race_calls : list load_call := [mkCall 0 (lit "a") []; mkCall 0 (lit "b") []; mkCall 0 (lit "z") []].

Lemma lookups_race_answers_witness :
  ∃ c ts c', race_cache = Ok c ∧
    load_threads (replicate 7 0 ++ replicate 6 1 ++ [2] ++ replicate 5 0 ++ replicate 6 1) (thread_start <$> race_calls) c
      = Ok (ts, c') ∧
    (load_result ∘ lt_reader) <$> ts = [Some (true, lit "1"); Some (true, lit "2"); Some (false, [])] ∧
    mapping_ c' = mapping_ c.
Proof.
  destruct race_cache as [c|] eqn:Hc; [|discriminate Hc]. pose proof (race_cache_represents c Hc) as Hrep.
  destruct (lookups_race_answers c _ race_calls
              (replicate 7 0 ++ replicate 6 1 ++ [2] ++ replicate 5 0 ++ replicate 6 1) Hrep)
    as (ts & c' & Hrun & Hm & _ & _ & _).
  exists c, ts, c'. split; [reflexivity|]. split; [exact Hrun|]. split; [|exact Hm].
  vm_compute in Hc. injection Hc as <-. vm_compute in Hrun. injection Hrun as <- _. reflexivity.
Defined.
