(* ===== verification/CacheFilling.v ===== *)
(** * Threads on a cache that does not fill

    What the race of CacheRace.v spares, over a whole run.  [TryInsert] holds
    [latch_] exclusively, so a run of the shared cache is a sequence of phases: any
    number of lookups under the shared lock, interleaved access by access, or one
    insertion.  As long as what is inserted fits the capacity together, so that nothing
    is evicted, every phase returns, and every lookup and insertion answers as a plain
    map would, in spite of the damage to the list; the first eviction is where the
    damage shows ([TryLoad_race]). *)

From S2P Require Import Prelude Cache CacheSpec CacheRace.

Inductive phase :=
  | Lookups (calls : list load_call) (schedule : list nat)
  | Insertion (clock : Z) (identifier source : bytes).

Inductive phase_answer :=
  | AnsLookups (results : list (option (bool * bytes)))
  | AnsInsertion (stored : bool).

Definition run_phase (p : phase) : stM Cache phase_answer :=
  match p with
  | Lookups calls schedule =>
      ts ← load_threads schedule (thread_start <$> calls);
      mret (AnsLookups (load_result ∘ lt_reader <$> ts))
  | Insertion clock identifier source => b ← TryInsert clock identifier source; mret (AnsInsertion b)
  end.

Fixpoint run_phases (ps : list phase) : stM Cache (list phase_answer) :=
  match ps with
  | [] => mret []
  | p :: ps => a ← run_phase p; l ← run_phases ps; mret (a :: l)
  end.

(** ** The same on a map *)

Definition spec_phase (p : phase) (es : entries) : phase_answer * entries :=
  match p with
  | Lookups calls _ => (AnsLookups (Some ∘ load_answer es <$> calls), es)
  | Insertion _ identifier source =>
      match lookup_entry identifier es with
      | Some _ => (AnsInsertion false, es)
      | None => (AnsInsertion true, es ++ [(identifier, source)])
      end
  end.

Fixpoint spec_phases (ps : list phase) (es : entries) : list phase_answer * entries :=
  match ps with
  | [] => ([], es)
  | p :: ps => let '(a, es) := spec_phase p es in
               let '(l, es) := spec_phases ps es in (a :: l, es)
  end.

(** Every lookup of a phase runs to its end before the shared lock is released. *)
Definition complete (p : phase) : Prop :=
  match p with
  | Lookups calls schedule => Forall (λ i, load_length ≤ turns i schedule) (seq 0 (length calls))
  | Insertion _ _ _ => True
  end.

(** The bytes a phase may add. *)
Definition adds (p : phase) : Z :=
  match p with Lookups _ _ => 0 | Insertion _ _ source => size_of source end.
Definition added (ps : list phase) : Z := foldr (λ p z, adds p + z)%Z 0%Z ps.

(** ** An insertion that fits *)

Lemma stores_tail c es :
  stores c es → ∃ z, prevv (heap_ c) (dummy_tailer_ c) = Some z ∧ before_tailer c z.
Proof. intros Hst. exact (lo_prev _ _ (st_loose _ _ Hst) _ (st_tailer _ _ Hst)). Qed.

(** The links after a new node is linked in at the tailer. *)
Lemma loose_append c es p n h' z :
  stores c es → (p ∉ dom (heap_ c)) → prevv (heap_ c) (dummy_tailer_ c) = Some z →
  relinked (<[p := n]> (heap_ c)) h'
    (λ x, if decide (x = z) then Some p
          else if decide (x = p) then Some (dummy_tailer_ c) else nextv (<[p := n]> (heap_ c)) x)
    (λ x, if decide (x = dummy_tailer_ c) then Some p
          else if decide (x = p) then Some z else prevv (<[p := n]> (heap_ c)) x) →
  loose (with_heap h' c) (with_heap h' c).
Proof.
  intros Hst Hp Hz (Hn & Hv & Hb & Hd). pose proof (st_loose _ _ Hst) as L.
  destruct (stores_tail c es Hst) as (z' & Hz' & Hzt). rewrite Hz in Hz'. injection Hz' as <-.
  destruct (st_tailer _ _ Hst) as [Htd Hth]. pose proof (st_header _ _ Hst) as Hhd. destruct Hzt as [Hzd Hzt].
  rewrite dom_insert_L in Hd.
  split; [by rewrite with_heap_id|done|done|..]; cbn [heap_ with_heap];
    unfold before_tailer, after_header; cbn [heap_ with_heap dummy_tailer_ dummy_header_]; rewrite Hd.
  - intros x [Hx Hxt]. rewrite Hn. destruct (decide (x = z)); [exists p; set_solver|].
    destruct (decide (x = p)) as [->|Hne]; [exists (dummy_tailer_ c); set_solver|].
    destruct (lo_next _ _ L x) as (y & Hy & Hya & Hyh); [split; set_solver|]. exists y.
    unfold nextv in *. rewrite lookup_insert_ne by done. set_solver.
  - intros x [Hx Hxh]. rewrite Hv. destruct (decide (x = dummy_tailer_ c)); [exists p; set_solver|].
    destruct (decide (x = p)) as [->|Hne]; [exists z; set_solver|].
    destruct (lo_prev _ _ L x) as (y & Hy & Hya & Hyh); [split; set_solver|]. exists y.
    unfold prevv in *. rewrite lookup_insert_ne by done. set_solver.
Qed.

Lemma lookup_entry_snoc id es k d :
  lookup_entry id (es ++ [(k, d)]) =
  match lookup_entry id es with Some v => Some v | None => if decide (k = id) then Some d else None end.
Proof. induction es as [|[k' d'] es IH]; simpl; [done|]. by destruct (decide (k' = id)). Qed.

(** The state an insertion leaves: the heap [h'], in which [p] is the new node. *)
Definition inserted (c : Cache) (h' : gmap loc CacheNode) (p : loc) (id d : bytes) : Cache :=
  with_mapping (<[id := p]> (mapping_ c)) (with_size (current_size_ c + size_of d) (with_heap h' c)).

Lemma stores_inserted c es h' p id d :
  stores c es → loose (with_heap h' c) (with_heap h' c) → dom h' = {[p]} ∪ dom (heap_ c) → (p ∉ dom (heap_ c)) →
  (∀ x, body h' x = if decide (x = p) then Some (id, d) else body (heap_ c) x) →
  lookup_entry id es = None → stores (inserted c h' p id d) (es ++ [(id, d)]).
Proof.
  intros Hst [_ _ _ Ln Lp] Hd Hp Hb Hid. pose proof (st_header _ _ Hst) as Hh. pose proof (st_tailer _ _ Hst) as [Ht Hth].
  assert (∀ x, after_header (inserted c h' p id d) x ↔ x = p ∨ after_header c x) as Ha.
  { intros x. unfold after_header. cbn [inserted with_mapping with_size with_heap heap_ dummy_header_]. rewrite Hd. set_solver. }
  assert (∀ x, before_tailer (inserted c h' p id d) x ↔ x = p ∨ before_tailer c x) as Hbt.
  { intros x. unfold before_tailer. cbn [inserted with_mapping with_size with_heap heap_ dummy_tailer_]. rewrite Hd. set_solver. }
  split; [split; [by rewrite with_heap_id|done|done|exact Ln|exact Lp]| | | |].
  - cbn. rewrite Hd. set_solver.
  - apply Ha. right. by split.
  - intros id'. unfold found. cbn [inserted with_mapping with_size with_heap heap_ mapping_].
    rewrite lookup_entry_snoc. destruct (decide (id = id')) as [<-|Hne].
    + rewrite lookup_insert_eq, Hid. split_and!; [done|apply Ha; by left|apply Hbt; by left|].
      exists id, d. by rewrite Hb, decide_True.
    + rewrite lookup_insert_ne by done. pose proof (st_found _ _ Hst id') as Hf.
      destruct (mapping_ c !! id') as [node|]; [|by rewrite Hf].
      destruct Hf as (_ & Hna & Hnb & k & v & Hbody & Hv). rewrite Hv.
      split_and!; [done|apply Ha; by right|apply Hbt; by right|].
      exists k, v. rewrite Hb, decide_False; [done|]. intros ->. by destruct Hna.
  - cbn. rewrite (st_size _ _ Hst), total_app. cbn. lia.
Qed.

Lemma stores_insert c es clock id d :
  stores c es → in_int (capacity_ c) → (lookup_entry id es = None → total es + size_of d ≤ capacity_ c)%Z →
  ∃ c', TryInsert clock id d c = Ok (bool_decide (lookup_entry id es = None), c') ∧ capacity_ c' = capacity_ c ∧
        stores c' (snd (spec_phase (Insertion clock id d) es)).
Proof.
  intros Hst Hcap Hfit. pose proof (st_found _ _ Hst id) as Hf. cbn [spec_phase].
  unfold TryInsert. mstep (eq_refl : get c = Ok (c, c)).
  destruct (mapping_ c !! id) as [node|].
  { destruct Hf as (_ & _ & _ & k & v & _ & Hv). exists c. by rewrite Hv. }
  specialize (Hfit Hf). rewrite Hf. pose proof (total_nonneg es). pose proof (size_of_nonneg d). pose proof (st_size _ _ Hst) as Hs.
  unfold in_int in Hcap. rewrite to_int_id by (unfold in_int; lia).
  rewrite (proj2 (Z.ltb_ge _ _)) by lia.
  assert (evict_loop (S (size (mapping_ c))) (size_of d) c = Ok (tt, c)) as He.
  { cbn [evict_loop]. mstep (eq_refl : get c = Ok (c, c)). unfold int_sub. rewrite Hs.
    rewrite checked_int_ok by (unfold in_int; lia). mred.
    by rewrite (proj2 (Z.ltb_ge _ _)) by lia. }
  mstep He. set (n := CacheNode_ctor clock id d). set (p := fresh (dom (heap_ c))).
  assert (p ∉ dom (heap_ c)) as Hp by apply is_fresh.
  mstep (eq_refl : alloc n c = Ok (p, with_heap (<[p := n]> (heap_ c)) c)). clearbody p.
  destruct (stores_tail c es Hst) as (z & Hz & Hzd & _). destruct (st_tailer _ _ Hst) as [Htd _].
  destruct (AppendToEndOfList_run (with_heap (<[p := n]> (heap_ c)) c) p z) as (h' & Hrun & Hr).
  { cbn. unfold prevv in *. rewrite lookup_insert_ne; [done|]. by intros ->. }
  { cbn. rewrite lookup_insert_eq. by eexists. }
  { cbn. apply elem_of_dom. rewrite dom_insert_L. set_solver. }
  { cbn. by intros ->. }
  mstep Hrun. pose proof (loose_append c es p n h' z Hst Hp Hz Hr) as L. mred. cbn [current_size_ with_heap].
  unfold int_add. rewrite Hs, checked_int_ok by (unfold in_int; lia). rewrite <-Hs.
  exists (inserted c h' p id d). split; [done|]. split; [done|].
  destruct Hr as (_ & _ & Hb & Hd). cbn [heap_ with_heap] in Hb, Hd.
  apply stores_inserted; [done|done| |done| |done].
  - by rewrite Hd, dom_insert_L.
  - intros x. rewrite Hb. unfold body. case_decide as Hx; [subst x; by rewrite lookup_insert_eq|by rewrite lookup_insert_ne].
Qed.

(** ** Phases *)

Lemma stores_phase c es p :
  stores c es → in_int (capacity_ c) → complete p → (total es + adds p ≤ capacity_ c)%Z →
  ∃ c', run_phase p c = Ok (fst (spec_phase p es), c') ∧ capacity_ c' = capacity_ c ∧
        stores c' (snd (spec_phase p es)) ∧ (total (snd (spec_phase p es)) ≤ total es + adds p)%Z.
Proof.
  intros Hst Hcap Hc Hfit. destruct p as [calls schedule|clock id d]; cbn [run_phase adds] in *.
  - destruct (stores_lookups c es calls schedule Hst) as (ts & c' & Hrun & L & Hlen & Hans).
    assert (load_result ∘ lt_reader <$> ts = Some ∘ load_answer es <$> calls) as E.
    { apply list_eq. intros i. rewrite !list_lookup_fmap. destruct (calls !! i) as [call|] eqn:Hi.
      - destruct (Hans i call Hi) as (r & -> & Hdone & Hres). cbn.
        destruct Hdone as [res Er]; [|by rewrite Er, (Hres res Er)].
        apply lookup_lt_Some in Hi. exact (proj1 (Forall_seq _ _ _) Hc i ltac:(lia)).
      - apply lookup_ge_None in Hi. by rewrite lookup_ge_None_2 by lia. }
    exists c'. mstep Hrun. rewrite E. split; [done|].
    split; [by rewrite (lo_frame _ _ L)|]. cbn [spec_phase fst snd]. split; [by eapply loose_stores|lia].
  - destruct (stores_insert c es clock id d Hst Hcap (λ _, Hfit)) as (c' & Hrun & Hcap' & Hst').
    exists c'. mstep Hrun. cbn [spec_phase] in *. split; [by destruct (lookup_entry id es)|]. split; [done|].
    split; [done|]. pose proof (size_of_nonneg d). destruct (lookup_entry id es); cbn [snd]; rewrite ?total_app; cbn; lia.
Qed.

Lemma stores_phases ps c es :
  stores c es → in_int (capacity_ c) → Forall complete ps → (total es + added ps ≤ capacity_ c)%Z →
  ∃ c', run_phases ps c = Ok (fst (spec_phases ps es), c') ∧ stores c' (snd (spec_phases ps es)).
Proof.
  revert c es. induction ps as [|p ps IH]; intros c es Hst Hcap Hc Hfit; [by exists c|].
  apply Forall_cons in Hc as [Hcp Hc]. cbn [added foldr] in Hfit. fold (added ps) in Hfit.
  assert (0 ≤ added ps)%Z as Hpos.
  { clear. induction ps as [|p ps IH]; cbn [added foldr]; [lia|]. fold (added ps).
    destruct p; cbn [adds]; [lia|]. pose proof (size_of_nonneg source). lia. }
  destruct (stores_phase c es p Hst Hcap Hcp) as (c1 & Hrun & Hcap1 & Hst1 & Htot); [lia|].
  cbn [run_phases spec_phases]. mstep Hrun. destruct (spec_phase p es) as [a es1]. cbn [fst snd] in *.
  destruct (IH c1 es1 Hst1) as (c' & Hrun' & Hst'); [by rewrite Hcap1|done|rewrite Hcap1; lia|].
  mstep Hrun'. destruct (spec_phases ps es1) as [l es2]. by exists c'.
Qed.

(** C19: while the cache does not fill, the race does no harm: from an empty cache, any
    alternation of insertions and of lookups running together, under every schedule
    of their accesses, returns without a fault and answers what a map would, as long
    as everything inserted fits the capacity together; the size counts what the map
    holds. *)
Theorem unfilled_cache_answers clock capacity ps :
  in_int capacity → Forall complete ps → (added ps ≤ capacity)%Z →
  ∃ c, run_phases ps (Cache_ctor clock capacity) = Ok (fst (spec_phases ps []), c) ∧
       GetCurSize c = total (snd (spec_phases ps [])).
Proof.
  intros Hcap Hc Hfit.
  assert (represents (Cache_ctor clock capacity) []) as Hrep by (exists []; split; [by apply Cache_ctor_rep|done]).
  destruct (stores_phases ps (Cache_ctor clock capacity) []) as (c & Hrun & Hst);
    [by apply represents_stores|done|done|cbn; lia|].
  exists c. split; [exact Hrun|apply (st_size _ _ Hst)].
Qed.

(** The lookups that corrupt the list in [TryLoad_race], on a cache with a byte to
    spare: the insertion after them succeeds, and so does every lookup. *)
Definition damaging : list phase :=
  [Insertion 0 (lit "a") (lit "1"); Insertion 0 (lit "b") (lit "2");
   Lookups [mkCall 0 (lit "a") []; mkCall 0 (lit "b") []]
           (replicate 7 0 ++ replicate 6 1 ++ replicate 5 0 ++ replicate 6 1);
   Insertion 0 (lit "c") (lit "3");
   Lookups ((λ id, mkCall 0 id []) <$> [lit "a"; lit "b"; lit "c"; lit "d"])
           (concat (replicate 12 [0; 1; 2; 3]))].

Lemma damaging_complete : Forall complete damaging.
Proof. repeat (apply Forall_cons_2; [first [exact I|unfold complete; decided]|]). apply Forall_nil_2. Qed.

Lemma unfilled_cache_answers_witness :
  ∃ c, run_phases damaging (Cache_ctor 0 3) =
    Ok ([AnsInsertion true; AnsInsertion true; AnsLookups [Some (true, lit "1"); Some (true, lit "2")];
         AnsInsertion true;
         AnsLookups [Some (true, lit "1"); Some (true, lit "2"); Some (true, lit "3"); Some (false, [])]], c) ∧
    GetCurSize c = 3%Z.
Proof.
  destruct (unfilled_cache_answers 0 3 damaging) as (c & Hrun & Hsize); [by split|apply damaging_complete|by vm_compute|].
  exists c. split; [exact Hrun|exact Hsize].
Defined.
