(* ===== verification/ResourceCache.v ===== *)
(** * What a request handler needs of the cache

    The handler only calls [TryLoad] and [TryInsert], the operations of [CacheOps].
    It is verified against two interfaces.

    [ResourceCache] is the sequential one: the abstract LRU contents a state stands
    for, and the promise that each operation returns what the abstract cache
    returns.  [Icee::Cache] implements it (through the refinement of CacheSpec.v),
    and so does the abstract cache itself.

    [CoherentCache] is the one that survives sharing: what is found is the contents
    of the file of that name, provided that only contents of files are inserted;
    nothing is said about what is found.  Every [ResourceCache] implements it, and so
    does [Shared], a cache that other threads use between the operations of this
    one. *)

From S2P Require Import Prelude HttpUtils Cache CacheSpec.

Class CacheOps (C : Type) := {
  rc_load : Z → bytes → bytes → stM C (bool * bytes);
  rc_insert : Z → bytes → bytes → stM C bool
}.

(** ** The sequential interface *)

Class ResourceCache (C : Type) `{CacheOps C} := {
  (** [rc_holds c cap es]: [c] has capacity [cap] and holds the entries [es]. *)
  rc_holds : C → Z → entries → Prop;
  rc_load_hit clock id destination c cap es d es' :
    rc_holds c cap es → lru_load id es = (Some d, es') →
    ∃ c', rc_load clock id destination c = Ok ((true, destination ++ d), c') ∧ rc_holds c' cap es';
  rc_load_miss clock id destination c cap es es' :
    rc_holds c cap es → lru_load id es = (None, es') →
    ∃ c', rc_load clock id destination c = Ok ((false, destination), c') ∧ rc_holds c' cap es';
  rc_insert_spec clock id source c cap es b es' :
    rc_holds c cap es → (size_of source < 2 ^ 31)%Z → lru_insert cap id source es = (b, es') →
    ∃ c', rc_insert clock id source c = Ok (b, c') ∧ rc_holds c' cap es'
}.

(** The cache of the program. *)
#[export] Instance Cache_ops : CacheOps Cache := {| rc_load := TryLoad; rc_insert := TryInsert |}.

#[export] Program Instance Cache_ResourceCache : ResourceCache Cache := {|
  rc_holds c cap es := capacity_ c = cap ∧ represents c es
|}.
Next Obligation.
  intros clock id destination c cap es d es' [<- (gs & R & <-)] E.
  destruct (TryLoad_rep clock id destination c gs R) as (a & c' & gs' & H & R' & C' & E').
  cbn [run_op spec_op] in H, E'. rewrite E in E'. injection E' as <- ->.
  apply stM_bind_inv in H as ([b d'] & c1 & H & [= -> -> ->]).
  exists c'. split; [done|]. split; [done|]. by exists gs'.
Qed.
Next Obligation.
  intros clock id destination c cap es es' [<- (gs & R & <-)] E.
  destruct (TryLoad_rep clock id destination c gs R) as (a & c' & gs' & H & R' & C' & E').
  cbn [run_op spec_op] in H, E'. rewrite E in E'. injection E' as <- ->.
  apply stM_bind_inv in H as ([b d'] & c1 & H & [= -> -> ->]).
  exists c'. split; [done|]. split; [done|]. by exists gs'.
Qed.
Next Obligation.
  intros clock id source c cap es b es' [<- (gs & R & <-)] Hs E.
  destruct (TryInsert_rep clock id source c gs R Hs) as (a & c' & gs' & H & R' & C' & E').
  cbn [run_op spec_op] in H, E'. rewrite E in E'. injection E' as <- ->.
  apply stM_bind_inv in H as (b' & c1 & H & [= -> ->]).
  exists c'. split; [done|]. split; [done|]. by exists gs'.
Qed.

Lemma Cache_ctor_holds clock cap :
  in_int cap → rc_holds (Cache_ctor clock cap) cap [].
Proof. intros Hc. split; [done|]. exists []. split; [by apply Cache_ctor_rep|done]. Qed.

(** The abstract cache, as its own implementation. *)
Record LruCache := mkLru { lru_capacity : Z; lru_entries : entries }.

#[export] Instance LruCache_ops : CacheOps LruCache := {|
  rc_load clock id destination := λ c,
    match lru_load id (lru_entries c) with
    | (Some d, es) => Ok ((true, destination ++ d), mkLru (lru_capacity c) es)
    | (None, es) => Ok ((false, destination), mkLru (lru_capacity c) es)
    end;
  rc_insert clock id source := λ c,
    let '(b, es) := lru_insert (lru_capacity c) id source (lru_entries c) in
    Ok (b, mkLru (lru_capacity c) es)
|}.

#[export] Program Instance LruCache_ResourceCache : ResourceCache LruCache := {|
  rc_holds c cap es := c = mkLru cap es
|}.
Next Obligation.
  intros clock id destination c cap es d es' -> E. cbn [rc_load rc_insert LruCache_ops lru_entries lru_capacity]. rewrite E. by eexists.
Qed.
Next Obligation.
  intros clock id destination c cap es es' -> E. cbn [rc_load rc_insert LruCache_ops lru_entries lru_capacity]. rewrite E. by eexists.
Qed.
Next Obligation.
  intros clock id source c cap es b es' -> _ E. cbn [rc_load rc_insert LruCache_ops lru_entries lru_capacity]. rewrite E. by eexists.
Qed.

(** ** Coherence with the file system *)

(** The cache agrees with the file system. *)
Definition coherent (fs : filesystem) (es : entries) : Prop :=
  Forall (λ e, fs e.1 = Some (RegularFile e.2)) es.
Lemma coherent_lookup fs es p d :
  coherent fs es → lookup_entry p es = Some d → fs p = Some (RegularFile d).
Proof.
  induction 1 as [|[k e] es Hk _ IH]; simpl; [done|]. case_decide as Hd; [|done].
  intros [= <-]. by subst.
Qed.

Lemma coherent_load fs es p r es' : coherent fs es → lru_load p es = (r, es') → coherent fs es'.
Proof.
  intros Hc. unfold lru_load. destruct (lookup_entry p es) as [d|] eqn:E; intros [= <- <-]; [|done].
  apply Forall_app. split.
  - apply Forall_forall. intros e [_ He]%list_elem_of_filter.
    by apply (proj1 (Forall_forall _ _) Hc).
  - apply Forall_singleton. by apply (coherent_lookup fs es).
Qed.

Lemma coherent_insert fs cap es p c :
  coherent fs es → fs p = Some (RegularFile c) → coherent fs (lru_insert cap p c es).2.
Proof.
  intros Hc Hf. unfold lru_insert. destruct (lookup_entry p es); [done|]. case_match; [done|].
  cbn [snd]. apply Forall_app. split; [|by apply Forall_singleton].
  destruct (lru_evict_suffix cap (size_of c) es) as [k Hk]. unfold coherent in Hc.
  rewrite Hk in Hc. by apply Forall_app in Hc as [_ ?].
Qed.

(** ** The interface for a shared cache *)

Class CoherentCache (fs : filesystem) (C : Type) `{CacheOps C} := {
  rc_ok : C → Prop;
  co_load clock id destination c :
    rc_ok c →
    ∃ r c', rc_load clock id destination c = Ok (r, c') ∧ rc_ok c' ∧
      (r = (false, destination) ∨ ∃ d, r = (true, destination ++ d) ∧ fs id = Some (RegularFile d));
  co_insert clock id source c :
    rc_ok c → fs id = Some (RegularFile source) → (size_of source < 2 ^ 31)%Z →
    ∃ b c', rc_insert clock id source c = Ok (b, c') ∧ rc_ok c'
}.

(** A cache used by one thread. *)
#[export] Program Instance ResourceCache_coherent fs C `{ResourceCache C} : CoherentCache fs C := {|
  rc_ok c := ∃ cap es, rc_holds c cap es ∧ coherent fs es
|}.
Next Obligation.
  intros fs C ? ? clock id destination c (cap & es & Hc & Hes).
  destruct (lru_load id es) as [[d|] es'] eqn:E.
  - destruct (rc_load_hit clock id destination c cap es d es' Hc E) as (c' & Hrun & Hc').
    exists (true, destination ++ d), c'. split; [done|]. split; [exists cap, es'; split; [done|by eapply coherent_load]|].
    right. exists d. split; [done|]. unfold lru_load in E. destruct (lookup_entry id es) eqn:El; [|done].
    injection E as -> _. by eapply coherent_lookup.
  - destruct (rc_load_miss clock id destination c cap es es' Hc E) as (c' & Hrun & Hc').
    exists (false, destination), c'. split; [done|]. split; [|by left].
    exists cap, es'. split; [done|by eapply coherent_load].
Qed.
Next Obligation.
  intros fs C ? ? clock id source c (cap & es & Hc & Hes) Hf Hs.
  destruct (lru_insert cap id source es) as [b es'] eqn:E.
  destruct (rc_insert_spec clock id source c cap es b es' Hc Hs E) as (c' & Hrun & Hc').
  exists b, c'. split; [done|]. exists cap, es'. split; [done|].
  pose proof (coherent_insert fs cap es id source Hes Hf) as Hi. by rewrite E in Hi.
Qed.

(** What another thread may do to the cache. *)
Inductive cache_action :=
  | ActLoad (clock : Z) (id : bytes)
  | ActInsert (clock : Z) (id source : bytes).

Definition action_ok (fs : filesystem) (a : cache_action) : Prop :=
  match a with
  | ActLoad _ _ => True
  | ActInsert _ id source => fs id = Some (RegularFile source) ∧ (size_of source < 2 ^ 31)%Z
  end.

(** A cache in use by several threads, seen from one of them: before its [i]-th
    operation the others carry out the [i]-th list of [sh_others]. *)
Record Shared (C : Type) := mkShared { sh_cache : C; sh_others : list (list cache_action) }.
Arguments mkShared {_} _ _.
Arguments sh_cache {_} _.
Arguments sh_others {_} _.

Section Shared.
Context {C : Type} `{CacheOps C}.

Definition run_action (a : cache_action) : stM C unit :=
  match a with
  | ActLoad clock id => rc_load clock id [];; mret tt
  | ActInsert clock id source => rc_insert clock id source;; mret tt
  end.

Fixpoint run_actions (acts : list cache_action) : stM C unit :=
  match acts with [] => mret tt | a :: acts => run_action a;; run_actions acts end.

(** [m] after what the other threads do first. *)
Definition shared_op {A} (m : stM C A) : stM (Shared C) A := λ s,
  '(_, c) ← run_actions (default [] (head (sh_others s))) (sh_cache s);
  '(a, c) ← m c;
  mret (a, mkShared c (tail (sh_others s))).

#[export] Instance Shared_ops : CacheOps (Shared C) := {|
  rc_load clock id destination := shared_op (rc_load clock id destination);
  rc_insert clock id source := shared_op (rc_insert clock id source)
|}.
End Shared.

Section SharedCoherent.
Context (fs : filesystem) {C : Type} `{CoherentCache fs C}.

Lemma run_actions_ok acts c :
  rc_ok c → Forall (action_ok fs) acts → ∃ c', run_actions acts c = Ok (tt, c') ∧ rc_ok c'.
Proof.
  intros Hc Ha. revert c Hc. induction Ha as [|a acts Ha _ IH]; intros c Hc; [by exists c|].
  assert (∃ c1, run_action a c = Ok (tt, c1) ∧ rc_ok c1) as (c1 & H1 & Hc1).
  { destruct a as [clock id|clock id source]; cbn [run_action].
    - destruct (co_load clock id [] c Hc) as (r & c1 & Hr & Hc1 & _). exists c1. by mstep Hr.
    - destruct Ha as [Hf Hs]. destruct (co_insert clock id source c Hc Hf Hs) as (b & c1 & Hr & Hc1).
      exists c1. by mstep Hr. }
  destruct (IH c1 Hc1) as (c' & H' & Hc'). exists c'. cbn [run_actions]. by mstep H1.
Qed.

#[export] Program Instance Shared_coherent : CoherentCache fs (Shared C) := {|
  rc_ok s := rc_ok (sh_cache s) ∧ Forall (Forall (action_ok fs)) (sh_others s)
|}.
Next Obligation.
  intros clock id destination [c others] [Hc Ho]. cbn [sh_cache sh_others] in *.
  destruct (run_actions_ok (default [] (head others)) c Hc) as (c1 & H1 & Hc1).
  { destruct Ho; [by apply Forall_nil|done]. }
  destruct (co_load clock id destination c1 Hc1) as (r & c2 & H2 & Hc2 & Hr).
  exists r, (mkShared c2 (tail others)). split; [|split; [split; [done|by destruct Ho]|done]].
  unfold rc_load, Shared_ops, shared_op. cbn [sh_cache sh_others]. mstep H1. by mstep H2.
Qed.
Next Obligation.
  intros clock id source [c others] [Hc Ho] Hf Hs. cbn [sh_cache sh_others] in *.
  destruct (run_actions_ok (default [] (head others)) c Hc) as (c1 & H1 & Hc1).
  { destruct Ho; [by apply Forall_nil|done]. }
  destruct (co_insert clock id source c1 Hc1 Hf Hs) as (b & c2 & H2 & Hc2).
  exists b, (mkShared c2 (tail others)). split; [|split; [done|by destruct Ho]].
  unfold rc_insert, Shared_ops, shared_op. cbn [sh_cache sh_others]. mstep H1. by mstep H2.
Qed.
End SharedCoherent.
