(* ===== verification/RacingCache.v ===== *)
(** * The shared cache, with the lookups of other threads inside it

    [Shared] of ResourceCache.v takes the cache's operations as atomic; here lookups
    are not.  While a thread is inside [TryLoad], other threads are too, and their
    memory accesses interleave (CacheRace.v); an insertion waits until every lookup
    has left.  Where all that can be cached fits together, so that nothing is
    evicted, this cache still keeps the laws of [CoherentCache], and everything
    proved against that interface holds of it (NamedFiles.v says when it fits). *)

From S2P Require Import Prelude HttpUtils Cache CacheSpec CacheRace ResourceCache CacheFilling.

(** The cache, the lookups of other threads under way, and what those threads do
    during the next operations of this one: the lookups they begin and the schedule
    of everybody's accesses. *)
Record RacingCache := mkRacing {
  ra_cache : Cache;
  ra_readers : list load_thread;
  ra_script : list (list load_call * list nat)
}.

Definition ra_next (s : RacingCache) : list load_call * list nat := default ([], []) (head (ra_script s)).

(** Accesses that take [n] lookups to their end. *)
Definition drain (n : nat) : list nat := concat (replicate load_length (seq 0 n)).

(** This thread's lookup: it gets its turns among the others', and the rest of them
    at the end; the others may be anywhere by then. *)
Definition racing_load (clock : Z) (id destination : bytes) : stM RacingCache (bool * bytes) := λ s,
  let '(calls, schedule) := ra_next s in
  let others := ra_readers s ++ (thread_start <$> calls) in
  let own := length others in
  '(ts, c) ← load_threads (schedule ++ replicate load_length own)
               (others ++ [thread_start (mkCall clock id destination)]) (ra_cache s);
  match ts !! own ≫= load_result ∘ lt_reader with
  | Some res => Ok (res, mkRacing c (take own ts) (tail (ra_script s)))
  | None => Fail FuelExhausted
  end.

(** This thread's insertion: the exclusive lock is taken when all lookups are done. *)
Definition racing_insert (clock : Z) (id source : bytes) : stM RacingCache bool := λ s,
  let '(calls, schedule) := ra_next s in
  let others := ra_readers s ++ (thread_start <$> calls) in
  '(_, c) ← load_threads (schedule ++ drain (length others)) others (ra_cache s);
  '(b, c) ← TryInsert clock id source c;
  Ok (b, mkRacing c [] (tail (ra_script s))).

#[export] Instance RacingCache_ops : CacheOps RacingCache := {|
  rc_load := racing_load;
  rc_insert := racing_insert
|}.

(** Whatever entries are cached together, there is room for them.  An entry is a path
    as it was spelt, so this is for file systems with finitely many of those, such as
    [only] of NamedFiles.v. *)
Definition files_fit (fs : filesystem) (capacity : Z) : Prop :=
  ∀ es, coherent fs es → NoDup es.*1 → (total es ≤ capacity)%Z.

Lemma turns_app i s1 s2 : turns i (s1 ++ s2) = turns i s1 + turns i s2.
Proof. unfold turns. by rewrite filter_app, length_app. Qed.

Lemma turns_replicate i n : turns i (replicate n i) = n.
Proof. induction n as [|n IH]; [done|]. cbn [replicate]. rewrite turns_cons, decide_True, IH; done. Qed.

(** [c] is what lookups under way, [readers], have made of a cache that stores [es]. *)
Definition racing_on (c : Cache) (readers : list load_thread) (es : entries) : Prop :=
  ∃ c0, stores c0 es ∧ loose c0 c ∧ Forall (λ t, reader_ok c0 es (lt_call t) (lt_reader t)) readers.

Lemma racing_threads c readers es calls schedule :
  racing_on c readers es →
  ∃ ts c', load_threads schedule (readers ++ (thread_start <$> calls)) c = Ok (ts, c') ∧
    capacity_ c' = capacity_ c ∧ stores c' es ∧ racing_on c' ts es ∧
    ∀ i call, calls !! i = Some call → load_length ≤ turns (length readers + i) schedule →
      ts !! (length readers + i) ≫= load_result ∘ lt_reader = Some (load_answer es call).
Proof.
  intros (c0 & Hst & L & Hr).
  destruct (load_threads_run c0 es Hst schedule (readers ++ (thread_start <$> calls)) c L)
    as (ts & c' & Hrun & L' & Hcalls & Hok & Hleft).
  { apply Forall_app. split; [done|]. apply Forall_fmap, Forall_forall. by intros call _. }
  exists ts, c'. split; [done|]. split; [by rewrite (lo_frame _ _ L'), (lo_frame _ _ L)|].
  split; [by eapply loose_stores|]. split; [by exists c0|]. intros i call Hi Hturns.
  assert ((readers ++ (thread_start <$> calls)) !! (length readers + i) = Some (thread_start call)) as Hstart.
  { rewrite lookup_app_r by lia. rewrite Nat.add_comm, Nat.add_sub, list_lookup_fmap, Hi. done. }
  assert ((lt_call <$> ts) !! (length readers + i) = Some call) as Hts.
  { by rewrite Hcalls, list_lookup_fmap, Hstart. }
  rewrite list_lookup_fmap in Hts. apply fmap_Some in Hts as ([call' r] & Hti & ->).
  specialize (Hleft _ _ _ Hstart Hti). unfold load_length in Hturns. rewrite Hti. cbn in *.
  pose proof (Forall_lookup_1 _ _ _ _ Hok Hti) as Hro. cbn [lt_call lt_reader] in Hro.
  assert (load_left r = 0) as Hz by lia. revert Hz Hro. unfold load_left, load_result, reader_ok.
  destruct (r_pc r); try done. by intros _ ->.
Qed.

Section Coherent.
Context (fs : filesystem).

(** The cache holds contents of files only, and has room for all of them. *)
Definition racing_ok (s : RacingCache) : Prop :=
  in_int (capacity_ (ra_cache s)) ∧ files_fit fs (capacity_ (ra_cache s)) ∧
  ∃ es, racing_on (ra_cache s) (ra_readers s) es ∧ coherent fs es ∧ NoDup es.*1.

#[export] Program Instance RacingCache_coherent : CoherentCache fs RacingCache := {| rc_ok := racing_ok |}.
Next Obligation.
  intros clock id destination [c readers script] (Hcap & Hfit & es & Hon & Hes & Hnd). cbn [ra_cache ra_readers] in *.
  unfold rc_load, RacingCache_ops, racing_load. cbn [ra_cache ra_readers ra_script].
  destruct (ra_next _) as [calls schedule]. set (call := mkCall clock id destination).
  set (own := length (readers ++ (thread_start <$> calls))).
  destruct (racing_threads c readers es (calls ++ [call]) (schedule ++ replicate load_length own) Hon)
    as (ts & c' & Hrun & Hcap' & _ & (c0 & Hst & L & Hok) & Hans).
  rewrite fmap_app, app_assoc in Hrun. mstep Hrun.
  assert (own = length readers + length calls) as Eown by (subst own; by rewrite length_app, length_fmap).
  specialize (Hans (length calls) call). rewrite <-Eown in Hans.
  rewrite Hans; [|by rewrite lookup_app_r, Nat.sub_diag by lia|rewrite turns_app, turns_replicate; lia].
  exists (load_answer es call), (mkRacing c' (take own ts) (tail script)). split; [done|]. split.
  - unfold racing_ok. cbn [ra_cache ra_readers]. rewrite Hcap'. split; [done|]. split; [done|]. exists es.
    split; [|done]. exists c0. split_and!; [done|done|by apply Forall_take].
  - unfold load_answer. cbn [lc_identifier lc_destination call]. destruct (lookup_entry id es) as [d|] eqn:E; [right|by left].
    exists d. split; [done|]. by eapply coherent_lookup.
Qed.
Next Obligation.
  intros clock id source [c readers script] (Hcap & Hfit & es & Hon & Hes & Hnd) Hf Hs. cbn [ra_cache ra_readers] in *.
  unfold rc_insert, RacingCache_ops, racing_insert. cbn [ra_cache ra_readers ra_script].
  destruct (ra_next _) as [calls schedule].
  destruct (racing_threads c readers es calls (schedule ++ drain (length (readers ++ (thread_start <$> calls)))) Hon)
    as (ts & c' & Hrun & Hcap' & Hst & _). mstep Hrun.
  set (es' := snd (spec_phase (Insertion clock id source) es)).
  assert (coherent fs es' ∧ NoDup es'.*1 ∧
          (lookup_entry id es = None → total es' = total es + size_of source)%Z) as (Hes' & Hnd' & Htot).
  { subst es'. cbn [spec_phase]. destruct (lookup_entry id es) as [d|] eqn:E; cbn [snd]; [done|]. split_and!.
    - apply Forall_app. split; [done|]. by apply Forall_singleton.
    - rewrite fmap_app. apply NoDup_app. split; [done|]. split; [|apply NoDup_singleton].
      intros k Hk ->%list_elem_of_singleton. by apply lookup_entry_None in E.
    - intros _. rewrite total_app. cbn. lia. }
  destruct (stores_insert c' es clock id source Hst) as (c'' & Hins & Hcap'' & Hst'').
  { by rewrite Hcap'. }
  { intros E. rewrite Hcap', <-(Htot E). by apply Hfit. }
  rewrite Hins. eexists _, _. split; [reflexivity|]. unfold racing_ok. cbn [ra_cache ra_readers].
  rewrite Hcap'', Hcap'. split; [done|]. split; [done|]. exists es'. split; [|done].
  exists c''. split; [exact Hst''|]. split; [apply (st_loose _ _ Hst'')|apply Forall_nil_2].
Qed.
End Coherent.

(** An empty cache in which anything may go on. *)
Lemma racing_start fs clock capacity script :
  in_int capacity → files_fit fs capacity → racing_ok fs (mkRacing (Cache_ctor clock capacity) [] script).
Proof.
  intros Hcap Hfit. split; [done|]. split; [done|]. exists []. split; [|split; [apply Forall_nil_2|apply NoDup_nil_2]].
  assert (stores (Cache_ctor clock capacity) []) as Hst.
  { apply represents_stores. exists []. split; [by apply Cache_ctor_rep|done]. }
  exists (Cache_ctor clock capacity). split; [done|]. split; [apply (st_loose _ _ Hst)|apply Forall_nil_2].
Qed.
