(* ===== verification/HonestCache.v ===== *)
(** * What the race cannot do: make the cache lie

    RacingCache.v shows that the shared cache keeps its promises while nothing is
    evicted.  With evictions the list the race has damaged may lead to a failed
    assertion or to a destroyed node, both faults; this file shows that short of a
    fault nothing goes wrong: whatever lookups have run together and whatever was
    evicted, a cache into which only contents of files are put finds, under the name
    of a file, the contents of that file.  The links are not mentioned: what the map
    leads to is all that matters ([honest]). *)

From S2P Require Import Prelude HttpUtils Cache CacheSpec CacheRace ResourceCache CacheFilling RacingCache.

(** ** What an operation that returned has done *)

(** Links and time stamps may differ, the map and what the nodes hold do not. *)
Definition quiet (c c' : Cache) : Prop :=
  mapping_ c' = mapping_ c ∧ ∀ x, body (heap_ c') x = body (heap_ c) x.

#[export] Instance quiet_preorder : PreOrder quiet.
Proof.
  split; [done|]. intros c1 c2 c3 [E1 B1] [E2 B2]. split; [congruence|]. intros x. by rewrite B2, B1.
Qed.

Definition leaves_quiet {A} (m : stM Cache A) : Prop := ∀ c a c', m c = Ok (a, c') → quiet c c'.

Lemma quiet_ret {A} (a : A) : leaves_quiet (mret a).
Proof. by intros c a' c' [= _ <-]. Qed.

Lemma quiet_gets {A} (f : Cache → A) : leaves_quiet (gets f).
Proof. by intros c a c' [= _ <-]. Qed.

Lemma quiet_deref p : leaves_quiet (deref p).
Proof. by intros c n c' ->%deref_state. Qed.

Lemma quiet_store p f :
  (∀ n, identifier_ (f n) = identifier_ n ∧ data_ (f n) = data_ n) → leaves_quiet (store p f).
Proof.
  intros Hf c u c'. unfold store. destruct p as [l|]; [|done]. destruct (heap_ c !! l) as [n|] eqn:E; [|done].
  intros [= _ <-]. split; [done|]. intros x. unfold body. cbn [heap_ with_heap].
  destruct (decide (x = l)) as [->|Hne]; [|by rewrite lookup_insert_ne].
  rewrite lookup_insert_eq, E. cbn. by destruct (Hf n) as [-> ->].
Qed.

Lemma quiet_bind {A B} (m : stM Cache A) (k : A → stM Cache B) :
  leaves_quiet m → (∀ a, leaves_quiet (k a)) → leaves_quiet (m ≫= k).
Proof. intros Hm Hk c b c'' (a & c' & H1 & H2)%stM_bind_inv. etrans; [by eapply Hm|by eapply Hk]. Qed.

#[local] Hint Resolve quiet_ret quiet_gets quiet_deref quiet_store : icee.

Ltac quietly := repeat (apply quiet_bind; [solve [auto with icee]|intros]); auto with icee.

Lemma quiet_RemoveFromList node : leaves_quiet (RemoveFromList node).
Proof. unfold RemoveFromList. quietly. Qed.

Lemma quiet_AppendToEndOfList node : leaves_quiet (AppendToEndOfList node).
Proof. unfold AppendToEndOfList. quietly. Qed.

Lemma quiet_load_step clock id r : leaves_quiet (load_step clock id r).
Proof.
  unfold load_step. destruct (r_pc r); quietly. match goal with |- context [?m !! id] => destruct (m !! id) end; auto with icee.
Qed.

Section Honest.
Context (fs : filesystem).

(** The map leads to nodes that hold the file of that name. *)
Definition honest (c : Cache) : Prop :=
  ∀ id node, mapping_ c !! id = Some node → ∃ d, body (heap_ c) node = Some (id, d) ∧ fs id = Some (RegularFile d).

(** What [call] has in its destination once it has found its file. *)
Definition fetched (call : load_call) (destination : bytes) : Prop :=
  ∃ d, destination = lc_destination call ++ d ∧ fs (lc_identifier call) = Some (RegularFile d).

Definition reader_honest (c : Cache) (t : load_thread) : Prop :=
  let call := lt_call t in
  match r_pc (lt_reader t) with
  | LFind | LDone false => r_destination (lt_reader t) = lc_destination call
  | LSerialize node =>
      r_destination (lt_reader t) = lc_destination call ∧
      ∃ k d, body (heap_ c) node = Some (k, d) ∧ fs (lc_identifier call) = Some (RegularFile d)
  | _ => fetched call (r_destination (lt_reader t))
  end.

Lemma quiet_honest c c' : quiet c c' → honest c → honest c'.
Proof. intros [Em Eb] Hc id node. rewrite Em, Eb. apply Hc. Qed.

Lemma quiet_reader c c' t : quiet c c' → reader_honest c t → reader_honest c' t.
Proof. intros [_ Eb]. unfold reader_honest. destruct (r_pc (lt_reader t)); try done. by rewrite Eb. Qed.

(** The two accesses that matter, the search and the copy; the others only pass on
    what was copied. *)
Lemma load_step_honest c call r r' c' :
  honest c → reader_honest c (mkThread call r) →
  load_step (lc_clock call) (lc_identifier call) r c = Ok (r', c') → reader_honest c (mkThread call r').
Proof.
  intros Hc Hr. destruct r as [pc dest]. unfold reader_honest in Hr. cbn [lt_call lt_reader r_pc r_destination] in Hr.
  unfold load_step. cbn [r_pc r_destination].
  destruct pc as [|node|node|node pre|node pre next|node pre next|node|node prev|node prev|node prev|node|node|hit].
  - intros (m & c1 & [= <- <-] & H)%stM_bind_inv. destruct (mapping_ c !! lc_identifier call) as [node|] eqn:E;
      injection H as <- _; [|done]. destruct (Hc _ _ E) as (d & Hb & Hd). split; [done|]. by exists (lc_identifier call), d.
  - intros (n & c1 & Hn & H)%stM_bind_inv. injection H as <- _. destruct Hr as (Hdest & k & d & Hb & Hd). exists d.
    split; [|done]. unfold deref in Hn. unfold body in Hb. destruct (heap_ c !! node) as [n'|]; [|done].
    injection Hn as -> _. injection Hb as _ <-. unfold CacheNode_Serialize. cbn. by rewrite Hdest.
  - intros (n & c1 & _ & [= <- _])%stM_bind_inv. exact Hr.
  - intros (n & c1 & _ & [= <- _])%stM_bind_inv. exact Hr.
  - intros (u & c1 & _ & [= <- _])%stM_bind_inv. exact Hr.
  - intros (u & c1 & _ & [= <- _])%stM_bind_inv. exact Hr.
  - intros (t & c1 & _ & (n & c2 & _ & [= <- _])%stM_bind_inv)%stM_bind_inv. exact Hr.
  - intros (u & c1 & _ & [= <- _])%stM_bind_inv. exact Hr.
  - intros (t & c1 & _ & (n & c2 & _ & [= <- _])%stM_bind_inv)%stM_bind_inv. exact Hr.
  - intros (u & c1 & _ & [= <- _])%stM_bind_inv. exact Hr.
  - intros (t & c1 & _ & (n & c2 & _ & [= <- _])%stM_bind_inv)%stM_bind_inv. exact Hr.
  - intros (u & c1 & _ & [= <- _])%stM_bind_inv. exact Hr.
  - intros [= <- _]. exact Hr.
Qed.

Lemma load_threads_honest schedule ts c ts' c' :
  honest c → Forall (reader_honest c) ts → load_threads schedule ts c = Ok (ts', c') →
  quiet c c' ∧ Forall (reader_honest c') ts' ∧ lt_call <$> ts' = lt_call <$> ts.
Proof.
  revert ts c. induction schedule as [|i schedule IH]; intros ts c Hc Hts; cbn [load_threads]; [by intros [= <- <-]|].
  destruct (ts !! i) as [t|] eqn:Ht; [|by apply IH]. intros (r & c1 & Hr & H)%stM_bind_inv.
  pose proof (quiet_load_step _ _ _ _ _ _ Hr) as Q. pose proof (Forall_lookup_1 _ _ _ _ Hts Ht) as Htr.
  destruct t as [call r0]. cbn [lt_call lt_reader] in *. pose proof (load_step_honest _ _ _ _ _ Hc Htr Hr) as Hr'.
  destruct (IH (<[i := mkThread call r]> ts) c1) as (Q' & Hts' & Hcalls); [by eapply quiet_honest| |done|].
  - apply Forall_insert; [|by eapply quiet_reader]. eapply Forall_impl; [exact Hts|]. intros t. by apply quiet_reader.
  - split; [by etrans|]. split; [done|]. rewrite Hcalls, list_fmap_insert. apply list_insert_id.
    by rewrite list_lookup_fmap, Ht.
Qed.

(** ** Insertions *)

Lemma EvitOne_honest c u c' : honest c → EvitOne c = Ok (u, c') → honest c'.
Proof.
  intros Hc. unfold EvitOne. intros (c0 & c1 & [= <- <-] & H)%stM_bind_inv.
  apply stM_bind_inv in H as (header & c1 & ->%deref_state & H). apply stM_bind_inv in H as (v & c1 & He & H).
  assert (c1 = c) as -> by (revert He; unfold ensure; case_match; [by intros [= _ <-]|done]).
  apply stM_bind_inv in H as (first & c1 & ->%deref_state & H). cbv zeta in H.
  destruct (mapping_ c !! GetIdentifier first) as [node|] eqn:E; [|done].
  apply stM_bind_inv in H as (w & c1 & Hr & H). destruct (quiet_RemoveFromList node _ _ _ Hr) as [Em Eb]. mred. injection H as _ <-.
  destruct (Hc _ _ E) as (d0 & Hb0 & _). intros id n. cbn [mapping_ heap_ with_size with_heap with_mapping].
  rewrite Em. intros [Hne Hn]%lookup_delete_Some. destruct (Hc id n Hn) as (d & Hb & Hd). exists d. split; [|done].
  rewrite <-Hb, <-Eb. unfold body. rewrite lookup_delete_ne; [done|]. intros ->. congruence.
Qed.

Lemma evict_loop_honest fuel need c u c' : honest c → evict_loop fuel need c = Ok (u, c') → honest c'.
Proof.
  revert c. induction fuel as [|fuel IH]; intros c Hc; cbn [evict_loop]; [done|].
  intros (c0 & c1 & [= <- <-] & H)%stM_bind_inv. apply stM_bind_inv in H as (free & c1 & Hf & H).
  assert (c1 = c) as -> by (revert Hf; unfold lift; destruct (int_sub _ _); [by intros [= _ <-]|done]).
  destruct (_ && _); [|by injection H as _ <-].
  apply stM_bind_inv in H as (v & c1 & He & H). eapply IH; [|exact H]. by eapply EvitOne_honest.
Qed.

Lemma TryInsert_honest clock id source c b c' :
  honest c → fs id = Some (RegularFile source) → TryInsert clock id source c = Ok (b, c') → honest c'.
Proof.
  intros Hc Hid. unfold TryInsert. intros (c0 & c1 & [= <- <-] & H)%stM_bind_inv.
  destruct (mapping_ c !! id); [by injection H as _ <-|]. cbv zeta in H.
  destruct (_ <? _)%Z; [by injection H as _ <-|]. apply stM_bind_inv in H as (v & c1 & He & H).
  apply evict_loop_honest in He; [|done]. clear Hc c. apply stM_bind_inv in H as (p & c2 & Ha & H).
  pose proof (is_fresh (dom (heap_ c1))) as Hp. unfold alloc in Ha. injection Ha as Ep <-. rewrite Ep in *. clear Ep.
  apply stM_bind_inv in H as (w & c3 & Hr & H).
  destruct (quiet_AppendToEndOfList p _ _ _ Hr) as [Em Eb]. cbn [mapping_ heap_ with_heap] in Em, Eb.
  mred. destruct (int_add _ _) as [z|]; [|done]. injection H as _ <-.
  intros id' n. cbn [mapping_ heap_ with_size with_mapping]. rewrite Em, Eb. unfold body. intros Hn.
  apply lookup_insert_Some in Hn as [[<- <-]|[Hne Hn]].
  - exists source. by rewrite lookup_insert_eq.
  - destruct (He id' n Hn) as (d & Hb & Hd). exists d. split; [|done]. rewrite lookup_insert_ne; [done|].
    intros ->. apply Hp, elem_of_dom. unfold body in Hb. by destruct (heap_ c1 !! n).
Qed.

(** ** The racing cache *)

Definition racing_honest (s : RacingCache) : Prop :=
  honest (ra_cache s) ∧ Forall (reader_honest (ra_cache s)) (ra_readers s).

Lemma starts_honest c calls : Forall (reader_honest c) (thread_start <$> calls).
Proof. apply Forall_fmap, Forall_forall. by intros call _. Qed.

Lemma racing_load_honest clock id destination s r s' :
  racing_honest s → racing_load clock id destination s = Ok (r, s') →
  racing_honest s' ∧ (r = (false, destination) ∨ ∃ d, r = (true, destination ++ d) ∧ fs id = Some (RegularFile d)).
Proof.
  intros [Hc Hrd]. unfold racing_load. destruct (ra_next s) as [calls schedule].
  set (others := ra_readers s ++ (thread_start <$> calls)). set (call := mkCall clock id destination).
  destruct (load_threads _ _ _) as [[ts c']|] eqn:Hrun; [|done]. mred.
  eapply load_threads_honest in Hrun as (Q & Hts & Hcalls); [|exact Hc|]; cycle 1.
  { repeat apply Forall_app_2; [exact Hrd|apply starts_honest|by apply Forall_singleton]. }
  destruct (ts !! length others) as [[call' r']|] eqn:Ht; [|done]. cbn.
  destruct (load_result r') as [res|] eqn:Er; [|done]. intros [= <- <-]. split.
  { split; [by eapply quiet_honest|by apply Forall_take]. }
  pose proof (Forall_lookup_1 _ _ _ _ Hts Ht) as Hr.
  apply (f_equal (.!! length others)) in Hcalls. rewrite !list_lookup_fmap, Ht, lookup_app_r, Nat.sub_diag in Hcalls by lia.
  injection Hcalls as ->. unfold reader_honest, load_result in *. cbn [lt_reader lt_call thread_start] in Hr.
  destruct (r_pc r'); try done. injection Er as <-. destruct hit; [right|left; by rewrite Hr].
  destruct Hr as (d & -> & Hd). by exists d.
Qed.

Lemma racing_insert_honest clock id source s b s' :
  racing_honest s → fs id = Some (RegularFile source) → racing_insert clock id source s = Ok (b, s') → racing_honest s'.
Proof.
  intros [Hc Hrd] Hid. unfold racing_insert. destruct (ra_next s) as [calls schedule].
  destruct (load_threads _ _ _) as [[ts c1]|] eqn:Hrun; [|done]. mred.
  eapply load_threads_honest in Hrun as (Q & _ & _); [|exact Hc|]; cycle 1.
  { by apply Forall_app_2; [|apply starts_honest]. }
  destruct (TryInsert clock id source c1) as [[b' c2]|] eqn:Hins; [|done]. intros [= <- <-].
  split; [|by apply Forall_nil]. eapply TryInsert_honest; [|exact Hid|exact Hins]. by eapply quiet_honest.
Qed.
End Honest.

Lemma honest_start fs clock capacity script : racing_honest fs (mkRacing (Cache_ctor clock capacity) [] script).
Proof. split; [|by apply Forall_nil]. intros id node. cbn. by rewrite lookup_empty. Qed.

