(* ===== verification/HttpServer.v ===== *)
(** * The HTTP handler (src/http/http_server.cc)

    [ParseHttpRequest] runs when a client's socket has data: it drains the socket,
    cuts requests off the read buffer, answers each from the file system or the
    cache, and asks the event loop to drop the connection when it is over.  It is
    written here against the cache's operations ([CacheOps]); the file system does not
    change during a call.

    [serve] is the specification: a pure function from the complete requests and
    the abstract cache to the bytes of the answers, what becomes of the connection,
    and the abstract cache afterwards.  [ParseHttpRequest_refines] proves that the
    handler implements it; the theorems after it are about what is served.

    The last section shows what a request can name: CGI programs, which are not run,
    and files outside the served directory. *)

From S2P Require Import Prelude CppString Buffer HttpUtils Header Request Connection Response Cache CacheSpec ResourceCache.

(** The end of a request. *)
Definition HEADER_END : bytes := CRLF ++ CRLF.

(** One client connection being served: its socket and buffers, the kernel's side,
    the shared cache, and the [DeleteConnection(fd)] calls made on its event loop
    (each destroys the connection). *)
Record Session (C : Type) := mkSession {
  s_conn : Connection unit;
  s_endpoint : Endpoint;
  s_cache : C;
  s_deleted : list (nat * Z)
}.
Arguments mkSession {_} _ _ _ _.
Arguments s_conn {_} _.
Arguments s_endpoint {_} _.
Arguments s_cache {_} _.
Arguments s_deleted {_} _.

Section Handler.
Context {C : Type} `{CacheOps C} (fs : filesystem) (serving_directory : bytes) (clock : Z).

(** Running an action on one part of the session. *)
Definition on_net {A} (m : stM (Connection unit * Endpoint) A) : stM (Session C) A := λ s,
  '(a, (c, ep)) ← m (s_conn s, s_endpoint s); mret (a, mkSession c ep (s_cache s) (s_deleted s)).
Definition on_conn {A} (f : Connection unit → result (A * Connection unit)) : stM (Session C) A := λ s,
  '(a, c) ← f (s_conn s); mret (a, mkSession c (s_endpoint s) (s_cache s) (s_deleted s)).
Definition on_cache {A} (m : stM C A) : stM (Session C) A := λ s,
  '(a, c) ← m (s_cache s); mret (a, mkSession (s_conn s) (s_endpoint s) c (s_deleted s)).

(** [client_conn->GetLooper()->DeleteConnection(fd)] *)
Definition delete_connection (fd : Z) : stM (Session C) unit := λ s,
  match GetLooper (s_conn s) with
  | None => Fail NullPointer
  | Some looper => Ok (tt, mkSession (s_conn s) (s_endpoint s) (s_cache s) (s_deleted s ++ [(looper, fd)]))
  end.

(** The body of the loop up to the sending: [None] is the early [return] of a CGI
    request, otherwise the response's bytes and [no_more_parse]. *)
Definition make_response (request : Request) : stM C (option (bytes * bool)) :=
  if negb (Request.IsValid request) then
    response ← lift (Make400Response fs);
    response_buf ← lift (Response.Serialize fs response []);
    mret (Some (response_buf, true))
  else
    let resource_full_path := serving_directory ++ GetResourceUrl request in
    if IsCgiRequest resource_full_path then mret None
    else
      exist ← lift (IsFileExist fs resource_full_path);
      if negb exist then
        response ← lift (Make404Response fs);
        response_buf ← lift (Response.Serialize fs response []);
        mret (Some (response_buf, true))
      else
        response ← lift (Make200Response fs (ShouldClose request) (Some resource_full_path));
        '(resource_cached, cache_buf) ← rc_load clock resource_full_path [];
        method ← match GetMethod request with Some m => mret m | None => mthrow Uninitialised end;
        let response :=
          SetShouldTransferContent response (bool_decide (method ≠ HEAD) && negb resource_cached) in
        let no_more_parse := ShouldClose request in
        response_buf ← lift (Response.Serialize fs response []);
        if (resource_cached : bool) then mret (Some (response_buf ++ cache_buf, no_more_parse))
        else
          cache_buf ← lift (LoadFile fs resource_full_path cache_buf);
          rc_insert clock resource_full_path cache_buf;;
          mret (Some (response_buf, no_more_parse)).

(** The [while] loop: [None] when it returned from the whole function, else the
    final [no_more_parse].  Each round pops at least the four bytes of
    [HEADER_END], so one more than the buffer's length is fuel enough. *)
Fixpoint request_loop (fuel : nat) : stM (Session C) (option bool) :=
  match fuel with
  | 0 => mthrow FuelExhausted
  | S fuel =>
      request_option ← on_conn (λ c, FindAndPopTill c HEADER_END);
      match request_option with
      | None => mret (Some false)
      | Some request_str =>
          request ← lift (Request_ctor request_str);
          reply ← on_cache (make_response request);
          match reply with
          | None => mret None
          | Some (response_buf, no_more_parse) =>
              on_conn (λ c, Ok (tt, WriteToWriteBuffer_vector c response_buf));;
              on_net Send;;
              if (no_more_parse : bool) then mret (Some true) else request_loop fuel
          end
      end
  end.

Definition ParseHttpRequest : stM (Session C) unit :=
  fd ← gets (λ s, GetFd (s_conn s));
  '(size, exit) ← on_net Recv;
  if (exit : bool) then delete_connection fd
  else
    fuel ← gets (λ s, S (length (buf_ (read_buffer_ (s_conn s)))));
    r ← request_loop fuel;
    match r with
    | Some true => delete_connection fd
    | _ => mret tt
    end.
End Handler.

(** ** The specification *)

(** The answer to one request, given a state [x]: a message, whether the connection
    is closed after it, the state afterwards; or none. *)
Inductive reply (X : Type) :=
  | Reply (message : bytes) (close : bool) (x : X)
  | NoReply.
Arguments Reply {_} _ _ _.
Arguments NoReply {_}.

(** What becomes of the connection after a batch of requests. *)
Inductive disposition := Drained | Closed | Stalled.

#[export] Instance disposition_eq_dec : EqDecision disposition.
Proof. solve_decision. Defined.

(** Answering requests in order, with [ans]. *)
Section ServeWith.
Context {X : Type} (ans : bytes → X → reply X).

Fixpoint serve_with (frames : list bytes) (x : X) : bytes * disposition * X :=
  match frames with
  | [] => ([], Drained, x)
  | f :: frames =>
      match ans f x with
      | NoReply => ([], Stalled, x)
      | Reply w true x' => (w, Closed, x')
      | Reply w false x' => let '(w', d, x'') := serve_with frames x' in (w ++ w', d, x'')
      end
  end.

Lemma serve_with_app f1 f2 x w1 x1 :
  serve_with f1 x = (w1, Drained, x1) →
  serve_with (f1 ++ f2) x = let '(w2, d, x2) := serve_with f2 x1 in (w1 ++ w2, d, x2).
Proof.
  revert x w1. induction f1 as [|f f1 IH]; intros x w1; cbn [serve_with app].
  - intros [= <- <-]. by destruct (serve_with f2 x) as [[? ?] ?].
  - destruct (ans f x) as [w [] x'|]; [done| |done].
    destruct (serve_with f1 x') as [[w' d'] x''] eqn:E. intros [= <- -> ->].
    rewrite (IH _ _ E). destruct (serve_with f2 x1) as [[w2 d2] x2]. by rewrite app_assoc.
Qed.
End ServeWith.

Section Spec.
Context (fs : filesystem) (serving_directory : bytes) (cap : Z).

Definition types_of (path : bytes) : list Header :=
  match type_header path with Ok ts => ts | Fail _ => [] end.

(** The answer to one valid request for a file that holds [c]. *)
Definition file_reply (m : Method) (close : bool) (path c : bytes) (es : entries) : reply entries :=
  let head := file_wire close (length c) (types_of path) in
  match lru_load path es with
  | (Some d, es') => Reply (head ++ d) close es'
  | (None, es') =>
      Reply (head ++ if decide (m = HEAD) then [] else c) close (lru_insert cap path c es').2
  end.

Definition answer (frame : bytes) (es : entries) : reply entries :=
  match Request_ctor frame with
  | Ok r =>
      if Request.IsValid r then
        let path := serving_directory ++ GetResourceUrl r in
        if IsCgiRequest path then NoReply
        else match fs path, GetMethod r with
             | Some (RegularFile c), Some m => file_reply m (ShouldClose r) path c es
             | _, _ => Reply (error_wire RESPONSE_NOT_FOUND) true es
             end
      else Reply (error_wire RESPONSE_BAD_REQUEST) true es
  | Fail _ => NoReply
  end.

Definition serve (frames : list bytes) (es : entries) : bytes * disposition * entries :=
  serve_with answer frames es.

(** Requests the handler is meant for: what they name is missing or a regular
    file that can be read, is not empty and below 2^31 bytes. *)
Definition servable (frame : bytes) : Prop :=
  ∀ r, Request_ctor frame = Ok r →
  Request.IsValid r = true → IsCgiRequest (serving_directory ++ GetResourceUrl r) = false →
  match fs (serving_directory ++ GetResourceUrl r) with
  | None => True
  | Some (RegularFile c) => c ≠ [] ∧ (size_of c < 2 ^ 31)%Z
  | Some _ => False
  end.

End Spec.

(** ** Lemmas: one request *)

Lemma valid_method frame r :
  splittable frame CRLF → Request_ctor frame = Ok r → Request.IsValid r = true →
  ∃ m, GetMethod r = Some m ∧ m ≠ METHOD_UNSUPPORTED.
Proof.
  intros Hs Hr Hv. destruct (Request_ctor_spec frame Hs) as (r' & Hr' & _ & Hspec).
  rewrite Hr in Hr'. injection Hr' as <-.
  destruct (Hspec Hv) as (? & ? & m & ? & ? & Hp & _ & _ & ->). exists m. by destruct Hp.
Qed.

Lemma types_of_eq path : type_header path = Ok (types_of path).
Proof. unfold types_of. destruct (type_header_total path) as (ts & -> & _). done. Qed.

Section Refinement.
Context {C : Type} `{ResourceCache C} (fs : filesystem) (serving_directory : bytes) (clock cap : Z).

(** An error response, whatever the cache. *)
Lemma error_reply_run status (k : bytes → option (bytes * bool)) c :
  ∃ r, Response_ctor fs status true None = Ok r ∧
    ((response_buf ← lift (Response.Serialize fs r []); mret (k response_buf)) : stM C _) c
    = Ok (k (error_wire status), c).
Proof.
  destruct (error_response fs status) as (r & Hr & Hs). exists r. split; [done|].
  mred. by rewrite Hs.
Qed.

Lemma file_reply_run r m path c es st :
  Request.IsValid r = true → GetMethod r = Some m →
  path = serving_directory ++ GetResourceUrl r → IsCgiRequest path = false →
  fs path = Some (RegularFile c) → c ≠ [] → (size_of c < 2 ^ 31)%Z → rc_holds st cap es →
  ∃ w close es' st', file_reply cap m (ShouldClose r) path c es = Reply w close es' ∧
    make_response fs serving_directory clock r st = Ok (Some (w, close), st') ∧ rc_holds st' cap es'.
Proof.
  intros Hv Hm Hpath Hcgi Hf Hne Hsz Hst. unfold file_reply, make_response.
  rewrite Hv. cbn [negb]. rewrite <-Hpath, Hcgi. rewrite (IsFileExist_file _ _ _ Hf).
  mstep (eq_refl : lift (Ok true) st = Ok (true, st)). cbn [negb].
  destruct (file_response fs (ShouldClose r) path c _ Hf (types_of_eq path)) as (resp & Hr & Hser).
  rewrite Hr. mstep (eq_refl : lift (Ok resp) st = Ok (resp, st)).
  destruct (lru_load path es) as [[d|] es'] eqn:El.
  - destruct (rc_load_hit clock path [] st cap es d es' Hst El) as (st' & Hl & Hst').
    mstep Hl. rewrite Hm. cbn [app].
    eexists _, _, _, st'. split; [reflexivity|]. split; [|done].
    mred. cbn [negb]. rewrite andb_false_r, Hser. done.
  - destruct (rc_load_miss clock path [] st cap es es' Hst El) as (st' & Hl & Hst').
    mstep Hl. rewrite Hm.
    destruct (lru_insert cap path c es') as [b es''] eqn:Ei.
    destruct (rc_insert_spec clock path c st' cap es' b es'' Hst' Hsz Ei) as (st'' & Hi & Hst'').
    eexists _, _, _, st''. split; [reflexivity|]. split; [|done].
    mred. cbn [negb]. rewrite andb_true_r, Hser.
    destruct (decide (m = HEAD)) as [->|Hmh].
    + rewrite bool_decide_eq_false_2 by (by intros []). rewrite app_nil_r, (LoadFile_nonempty _ _ _ _ Hf Hne).
      cbn [app]. by rewrite Hi.
    + rewrite bool_decide_eq_true_2 by done. rewrite !(LoadFile_nonempty _ _ _ _ Hf Hne).
      cbn [app]. by rewrite Hi.
Qed.

(** One request: the code's answer is the specified one. *)
Lemma make_response_spec frame r st es :
  splittable frame CRLF → Request_ctor frame = Ok r → servable fs serving_directory frame →
  rc_holds st cap es →
  ∃ st', match answer fs serving_directory cap frame es with
         | Reply w close es' =>
             make_response fs serving_directory clock r st = Ok (Some (w, close), st') ∧ rc_holds st' cap es'
         | NoReply => make_response fs serving_directory clock r st = Ok (None, st') ∧ rc_holds st' cap es
         end.
Proof.
  intros Hs Hr Hok Hst. unfold answer. rewrite Hr. specialize (Hok r Hr).
  destruct (Request.IsValid r) eqn:Hv.
  - destruct (valid_method _ _ Hs Hr Hv) as (m & Hm & _). specialize (Hok eq_refl).
    set (path := serving_directory ++ GetResourceUrl r) in *.
    destruct (IsCgiRequest path) eqn:Hcgi.
    { exists st. unfold make_response. rewrite Hv. cbn [negb]. fold path. by rewrite Hcgi. }
    specialize (Hok eq_refl). destruct (fs path) as [[c|e|n|]|] eqn:Hf; [|done..|].
    + rewrite Hm. destruct Hok as [Hne Hsz].
      destruct (file_reply_run r m path c es st Hv Hm eq_refl Hcgi Hf Hne Hsz Hst)
        as (w & close & es' & st' & -> & Hrun & Hst').
      by exists st'.
    + exists st. split; [|done]. unfold make_response. rewrite Hv. cbn [negb]. fold path.
      rewrite Hcgi, (IsFileExist_missing _ _ Hf). mstep (eq_refl : lift (Ok false) st = Ok (false, st)). cbn [negb].
      destruct (error_reply_run RESPONSE_NOT_FOUND (λ b, Some (b, true)) st) as (resp & Hresp & Hrun).
      unfold Make404Response. rewrite Hresp. exact Hrun.
  - exists st. split; [|done]. unfold make_response. rewrite Hv. cbn [negb].
    destruct (error_reply_run RESPONSE_BAD_REQUEST (λ b, Some (b, true)) st) as (resp & Hresp & Hrun).
    unfold Make400Response. rewrite Hresp. exact Hrun.
Qed.

End Refinement.

(** ** Lemmas: the loop

    The loop and the handler, for any relation [ans] between a request and its answer
    that [make_response] is known to respect: [ans f x o x'] says that in state [x]
    the request [f] may get the answer [o] (a message, and whether the connection is
    closed after it; or none), after which the state is [x'].  [Inv] relates the cache
    to these states, [okf] holds of the requests considered. *)

Section Serves.
Context {X : Type} (ans : bytes → X → option (bytes * bool) → X → Prop).

(** Answering a batch of requests in order, up to the first that closes the
    connection or gets no answer; [left] are the requests after it. *)
Inductive serves : list bytes → X → bytes → disposition → list bytes → X → Prop :=
  | serves_nil x :
      serves [] x [] Drained [] x
  | serves_stall f left x x' :
      ans f x None x' → serves (f :: left) x [] Stalled left x'
  | serves_close f left x w x' :
      ans f x (Some (w, true)) x' → serves (f :: left) x w Closed left x'
  | serves_next f frames x w x1 w' d left x' :
      ans f x (Some (w, false)) x1 → serves frames x1 w' d left x' →
      serves (f :: frames) x (w ++ w') d left x'.

Lemma serves_drained frames x w left x' : serves frames x w Drained left x' → left = [].
Proof. remember Drained as d eqn:E. induction 1; [done..|by apply IHserves]. Qed.
End Serves.

(** The relation of a function. *)
Definition graph_of {X} (ans : bytes → X → reply X) (f : bytes) (x : X) (o : option (bytes * bool)) (x' : X) : Prop :=
  match ans f x with
  | Reply w close x1 => o = Some (w, close) ∧ x' = x1
  | NoReply => o = None ∧ x' = x
  end.

Lemma serves_graph {X} (ans : bytes → X → reply X) frames x w d left x' :
  serves (graph_of ans) frames x w d left x' → serve_with ans frames x = (w, d, x').
Proof.
  unfold graph_of. induction 1 as [|f left x x' Hf|f left x w x' Hf|f frames x w x1 w' d left x' Hf _ IH];
    cbn [serve_with]; [done|destruct (ans f x) as [w0 c0 x0|]; destruct Hf as [[=] ->]; subst..]; [done|done|].
  by rewrite IH.
Qed.

Section Loop.
Context {C X : Type} `{CacheOps C} (fs : filesystem) (serving_directory : bytes) (clock : Z)
  (Inv : C → X → Prop) (ans : bytes → X → option (bytes * bool) → X → Prop) (okf : bytes → Prop).

Definition answers : Prop := ∀ frame r st x,
  splittable frame CRLF → Request_ctor frame = Ok r → okf frame → Inv st x →
  ∃ o st' x', make_response fs serving_directory clock r st = Ok (o, st') ∧ ans frame x o x' ∧ Inv st' x'.

Hypothesis Hans : answers.

(** Ready to serve: the cache stands for [x], nothing waits to be sent, the peer
    takes what is sent. *)
Record ready_with (s : Session C) (x : X) : Prop := {
  rd_cache : Inv (s_cache s) x;
  rd_write : buf_ (write_buffer_ (s_conn s)) = [];
  rd_plan : Forall sends_on (send_plan (s_endpoint s))
}.

(** [s'] is [s] after [w] was sent: same socket, same loop, no connection dropped. *)
Record sent (s s' : Session C) (w : bytes) : Prop := {
  se_wire : wire (s_endpoint s') = wire (s_endpoint s) ++ w;
  se_deleted : s_deleted s' = s_deleted s;
  se_fd : socket_ (s_conn s') = socket_ (s_conn s);
  se_looper : owner_looper_ (s_conn s') = owner_looper_ (s_conn s);
  se_incoming : incoming (s_endpoint s') = incoming (s_endpoint s)
}.

Lemma sent_refl s s' :
  s_endpoint s' = s_endpoint s → s_deleted s' = s_deleted s →
  socket_ (s_conn s') = socket_ (s_conn s) → owner_looper_ (s_conn s') = owner_looper_ (s_conn s) →
  sent s s' [].
Proof. intros He ? ? ?. split; [|done..|]; rewrite He; [by rewrite app_nil_r|done]. Qed.

Lemma sent_trans s1 s2 s3 w1 w2 : sent s1 s2 w1 → sent s2 s3 w2 → sent s1 s3 (w1 ++ w2).
Proof.
  intros [W1 D1 F1 L1 I1] [W2 D2 F2 L2 I2]. split; [|congruence..].
  by rewrite W2, W1, <-app_assoc.
Qed.

(** Writing a response and sending it. *)
Lemma reply_run (s : Session C) x w :
  ready_with s x →
  ∃ s', (on_conn (λ c, Ok (tt, WriteToWriteBuffer_vector c w));; on_net Send) s = Ok (tt, s') ∧
    ready_with s' x ∧ sent s s' w ∧ read_buffer_ (s_conn s') = read_buffer_ (s_conn s).
Proof.
  intros [Hc Hw Hp]. destruct s as [c ep st del]. simpl in *.
  destruct (Send_run (WriteToWriteBuffer_vector c w) ep Hp) as (plan & e & Hs & Hplan).
  unfold on_conn, on_net. mred. cbn [s_conn s_endpoint s_cache s_deleted]. rewrite Hs.
  eexists. split; [reflexivity|]. split; [by split|]. split; [|done].
  split; cbn; [|done..]. by rewrite Hw.
Qed.

Lemma request_loop_spec fuel (s : Session C) x frames rest :
  pop_frames fuel (read_buffer_ (s_conn s)) HEADER_END = Ok (frames, rest) →
  (size_of (buf_ (read_buffer_ (s_conn s))) < 2 ^ 31)%Z →
  Forall okf frames → ready_with s x →
  ∃ w d left x' s',
    request_loop fs serving_directory clock fuel s =
      Ok (match d with Drained => Some false | Closed => Some true | Stalled => None end, s') ∧
    serves ans frames x w d left x' ∧ sent s s' w ∧ ready_with s' x' ∧
    buf_ (read_buffer_ (s_conn s')) = concat left ++ buf_ rest.
Proof.
  revert s x frames. induction fuel as [|fuel IH]; intros s x frames Hp Hsz Hok Hrd; [done|].
  cbn [pop_frames] in Hp. cbn [request_loop]. rewrite FindAndPopTill_eq in Hp. mred.
  unfold on_conn at 1. unfold FindAndPopTill. rewrite FindAndPopTill_eq. mred.
  destruct (index_of HEADER_END (buf_ (read_buffer_ (s_conn s)))) as [n|] eqn:E.
  - set (frame := take n _ ++ HEADER_END) in *.
    pose proof (index_of_Some _ _ _ E) as [Hsplit Hlen].
    destruct (pop_frames fuel _ HEADER_END) as [[frames' rest']|] eqn:Ep; [|done].
    injection Hp as <- <-. apply Forall_cons in Hok as [Hf Hok].
    assert (splittable frame CRLF) as Hspl.
    { split; [|done]. unfold frame. clear -Hsz Hlen. size_lia. }
    destruct (Request_ctor_spec frame Hspl) as (r & Hr & _). rewrite Hr.
    unfold on_cache at 1. mred. cbn [s_cache s_conn s_endpoint s_deleted].
    destruct (Hans frame r (s_cache s) x Hspl Hr Hf (rd_cache _ _ Hrd)) as (o & st' & x1 & -> & Ho & Hst').
    set (s1 := mkSession (with_read_buffer (s_conn s) (mkBuffer (drop (n + length HEADER_END) (buf_ (read_buffer_ (s_conn s))))))
                 (s_endpoint s) st' (s_deleted s)).
    assert (sent s s1 []) as Hsent1 by (by apply sent_refl).
    pose proof (pop_frames_concat _ _ _ _ _ Ep) as Hcat. destruct Hrd as [Hc Hw Hplan].
    destruct o as [[w close]|].
    + fold s1. destruct (reply_run s1 x1 w) as (s2 & Hrun & Hrd2 & Hsent2 & Hrb); [by split|].
      pose proof (sent_trans _ _ _ _ _ Hsent1 Hsent2) as Hsent. cbn [app] in Hsent.
      apply stM_bind_inv in Hrun as (u & s1' & Hrun1 & Hrun2). rewrite Hrun1, Hrun2. destruct close.
      * eexists w, Closed, frames', x1, s2. split; [done|]. split; [by constructor|]. by rewrite Hrb.
      * destruct (IH s2 x1 frames') as (w' & d & left & x' & s3 & Hloop & Hs & Hsent3 & Hrd3 & Hleft); [|rewrite Hrb|done..|].
        { by rewrite Hrb. }
        { cbn. clear -Hsz. size_lia. }
        eexists (w ++ w'), d, left, x', s3. split; [exact Hloop|]. split; [by econstructor|].
        split; [by eapply sent_trans|done].
    + eexists [], Stalled, frames', x1, s1. split; [done|]. split; [by constructor|]. split; [done|]. by split.
  - injection Hp as <- <-. eexists [], Drained, [], x, _. split; [reflexivity|]. split; [by constructor|].
    split; [by apply sent_refl|]. split; [by destruct Hrd; split|done].
Qed.

(** ** Lemmas: the whole handler *)

(** Data arrive, and the peer stays. *)
Lemma ParseHttpRequest_run_with (s : Session C) x looper pre tail frames rest :
  ready_with s x → owner_looper_ (s_conn s) = Some looper →
  incoming (s_endpoint s) = pre ++ tail → Forall recv_ok pre → Forall goes_on pre →
  match tail with [] => True | r :: _ => ends r = Some false end →
  let data := concat (carried <$> pre) in
  (size_of (buf_ (read_buffer_ (s_conn s)) ++ data) < 2 ^ 31)%Z →
  Buffer.frames (mkBuffer (buf_ (read_buffer_ (s_conn s)) ++ data)) HEADER_END = Ok (frames, rest) →
  Forall okf frames →
  ∃ w d left x' s', ParseHttpRequest fs serving_directory clock s = Ok (tt, s') ∧
    serves ans frames x w d left x' ∧
    wire (s_endpoint s') = wire (s_endpoint s) ++ w ∧ ready_with s' x' ∧
    owner_looper_ (s_conn s') = Some looper ∧ socket_ (s_conn s') = socket_ (s_conn s) ∧
    s_deleted s' = s_deleted s ++ (if decide (d = Closed) then [(looper, socket_ (s_conn s))] else []) ∧
    buf_ (read_buffer_ (s_conn s')) = concat left ++ buf_ rest ∧
    incoming (s_endpoint s') = drop 1 tail.
Proof.
  intros [Hc Hw Hp] Hlo Hin Hok Hgo Ht data Hsz Hfr Hserv. subst data.
  destruct s as [c ep st del]. cbn [s_conn s_endpoint s_cache s_deleted] in *.
  assert (Recv (c, ep) = Ok ((size_of (concat (carried <$> pre)), false),
    (with_read_buffer c (mkBuffer (buf_ (read_buffer_ c) ++ concat (carried <$> pre))),
     mkEndpoint (drop 1 tail) (send_plan ep) (wire ep) (Recv_errno (incoming ep) (errno_ ep))))) as Hrecv.
  { apply Recv_run; [done..|]. by destruct tail. }
  set (s1 := mkSession (with_read_buffer c (mkBuffer (buf_ (read_buffer_ c) ++ concat (carried <$> pre))))
               (mkEndpoint (drop 1 tail) (send_plan ep) (wire ep) (Recv_errno (incoming ep) (errno_ ep))) st del).
  destruct (request_loop_spec (S (length (buf_ (read_buffer_ c) ++ concat (carried <$> pre)))) s1 x frames rest)
    as (w & d & left & x' & s' & Hloop & Hs & [Hwire Hdel Hfd Hlo' Hinc] & Hrd & Hleft); [done|done|done|by split|].
  unfold ParseHttpRequest. mstep (eq_refl : gets (λ s, GetFd (s_conn s)) (mkSession c ep st del)
                                 = Ok (GetFd c, mkSession c ep st del)).
  assert (on_net Recv (mkSession c ep st del)
          = Ok ((size_of (concat (carried <$> pre)), false), s1)) as Hnet.
  { unfold on_net. cbn [s_conn s_endpoint s_cache s_deleted]. rewrite Hrecv. done. }
  mstep Hnet. mstep (eq_refl : gets (λ s, S (length (buf_ (read_buffer_ (s_conn s))))) s1
                     = Ok (S (length (buf_ (read_buffer_ c) ++ concat (carried <$> pre))), s1)).
  mstep Hloop. cbn in Hwire, Hdel, Hfd, Hlo', Hinc. rewrite Hlo in Hlo'. exists w, d, left, x'. destruct d.
  - exists s'. split; [done|]. split_and!; try done. cbn. by rewrite app_nil_r.
  - unfold delete_connection, GetLooper. rewrite Hlo'. eexists. split; [reflexivity|]. cbn.
    split_and!; try done; [|by rewrite Hdel]. destruct Hrd; by split.
  - exists s'. split; [done|]. split_and!; try done. cbn. by rewrite app_nil_r.
Qed.
End Loop.

(** The end of the stream, or an error: whatever came before it stays unread. *)
Lemma ParseHttpRequest_exit {C} `{CacheOps C} fs dir clock (s : Session C) looper pre r tail :
  owner_looper_ (s_conn s) = Some looper →
  incoming (s_endpoint s) = pre ++ r :: tail → Forall recv_ok pre → Forall goes_on pre → ends r = Some true →
  ∃ s', ParseHttpRequest fs dir clock s = Ok (tt, s') ∧
    wire (s_endpoint s') = wire (s_endpoint s) ∧ s_cache s' = s_cache s ∧
    s_deleted s' = s_deleted s ++ [(looper, socket_ (s_conn s))] ∧
    buf_ (read_buffer_ (s_conn s')) = buf_ (read_buffer_ (s_conn s)) ++ concat (carried <$> pre).
Proof.
  intros Hlo Hin Hok Hgo He. destruct s as [c ep st del]. cbn [s_conn s_endpoint s_cache s_deleted] in *.
  pose proof (Recv_run c ep pre (r :: tail) true Hin Hok Hgo He) as Hrecv.
  unfold ParseHttpRequest, on_net, delete_connection, GetLooper. mred. cbn [s_conn s_endpoint s_cache s_deleted].
  rewrite Hrecv. cbn [s_conn with_read_buffer owner_looper_]. rewrite Hlo.
  eexists. split; [reflexivity|]. done.
Qed.

(** ** Lemmas: the handler with a sequential cache *)

Section Sequential.
Context {C : Type} `{ResourceCache C} (fs : filesystem) (serving_directory : bytes) (clock cap : Z).

(** Ready to serve: the cache holds [es], nothing waits to be sent, the peer takes
    what is sent. *)
Definition ready (s : Session C) (es : entries) : Prop :=
  ready_with (λ c es, rc_holds c cap es) s es.

(** Arrival of data: results of [recv] that carry data and then would block. *)
Definition arrives (s : Session C) (data : bytes) : Prop :=
  ∃ pre tail, incoming (s_endpoint s) = pre ++ tail ∧ Forall recv_ok pre ∧ Forall goes_on pre ∧
    match tail with [] => True | r :: _ => ends r = Some false end ∧ concat (carried <$> pre) = data.

Lemma sequential_answers :
  answers fs serving_directory clock (λ c es, rc_holds c cap es) (graph_of (answer fs serving_directory cap))
    (servable fs serving_directory).
Proof.
  intros frame r st es Hs Hr Hf Hst. unfold graph_of.
  destruct (make_response_spec fs serving_directory clock cap frame r st es Hs Hr Hf Hst) as (st' & H1).
  destruct (answer fs serving_directory cap frame es) as [w close es'|]; destruct H1 as [-> ?]; by eexists _, st', _.
Qed.

Lemma ParseHttpRequest_run (s : Session C) es looper data frames rest :
  ready s es → owner_looper_ (s_conn s) = Some looper → arrives s data →
  (size_of (buf_ (read_buffer_ (s_conn s)) ++ data) < 2 ^ 31)%Z →
  Buffer.frames (mkBuffer (buf_ (read_buffer_ (s_conn s)) ++ data)) HEADER_END = Ok (frames, rest) →
  Forall (servable fs serving_directory) frames →
  ∃ s', ParseHttpRequest fs serving_directory clock s = Ok (tt, s') ∧
    let '(w, d, es') := serve fs serving_directory cap frames es in
    wire (s_endpoint s') = wire (s_endpoint s) ++ w ∧ ready s' es' ∧
    owner_looper_ (s_conn s') = Some looper ∧ socket_ (s_conn s') = socket_ (s_conn s) ∧
    s_deleted s' = s_deleted s ++ (if decide (d = Closed) then [(looper, socket_ (s_conn s))] else []) ∧
    (d = Drained → read_buffer_ (s_conn s') = rest).
Proof.
  intros Hrd Hlo (pre & tail & Hin & Hok & Hgo & Ht & <-) Hsz Hfr Hserv.
  destruct (ParseHttpRequest_run_with fs serving_directory clock (λ c es, rc_holds c cap es)
              (graph_of (answer fs serving_directory cap)) (servable fs serving_directory) sequential_answers
              s es looper pre tail frames rest Hrd Hlo Hin Hok Hgo Ht Hsz Hfr Hserv)
    as (w & d & left & es' & s' & Hrun & Hs & ? & ? & ? & ? & ? & Hleft & _).
  exists s'. split; [exact Hrun|]. unfold serve. rewrite (serves_graph _ _ _ _ _ _ _ Hs). split_and!; [done..|].
  intros ->. rewrite (serves_drained _ _ _ _ _ _ Hs) in Hleft.
  destruct (read_buffer_ (s_conn s')), rest. cbn in Hleft. by subst.
Qed.
End Sequential.

Lemma serve_app fs dir cap f1 f2 es w1 es1 :
  serve fs dir cap f1 es = (w1, Drained, es1) →
  serve fs dir cap (f1 ++ f2) es
  = let '(w2, d, es2) := serve fs dir cap f2 es1 in (w1 ++ w2, d, es2).
Proof. apply serve_with_app. Qed.

(** ** Lemmas: coherence of the cache with the file system *)

Lemma coherent_answer fs dir cap frame es w close es' :
  coherent fs es → answer fs dir cap frame es = Reply w close es' → coherent fs es'.
Proof.
  intros Hc. unfold answer, file_reply.
  destruct (Request_ctor frame) as [r|]; [|done].
  destruct (Request.IsValid r); [|by intros [= <- <- <-]].
  destruct (IsCgiRequest _); [done|].
  destruct (fs (dir ++ GetResourceUrl r)) as [[c|e|n|]|] eqn:Hf; [|by intros [= <- <- <-]..].
  destruct (GetMethod r) as [m|]; [|by intros [= <- <- <-]].
  destruct (lru_load _ es) as [[d|] es1] eqn:El; intros [= <- <- <-].
  - by eapply coherent_load.
  - apply coherent_insert; [by eapply coherent_load|done].
Qed.

(** The reply about a regular file, in terms of what the cache holds. *)
Lemma file_reply_coherent fs cap m close path c es :
  coherent fs es → fs path = Some (RegularFile c) →
  ∃ es', coherent fs es' ∧ file_reply cap m close path c es =
    Reply (file_wire close (length c) (types_of path) ++
           (if decide (m = HEAD ∧ lookup_entry path es = None) then [] else c)) close es'.
Proof.
  intros Hc Hf. unfold file_reply. destruct (lru_load path es) as [r es1] eqn:El.
  pose proof (coherent_load _ _ _ _ _ Hc El) as Hc1. unfold lru_load in El.
  destruct (lookup_entry path es) as [d|] eqn:Ek; injection El as <- <-.
  - pose proof (coherent_lookup _ _ _ _ Hc Ek) as Hd. rewrite Hf in Hd. injection Hd as <-.
    eexists. split; [exact Hc1|]. rewrite decide_False by (by intros []). done.
  - eexists. split; [by eapply coherent_insert|]. destruct (decide (m = HEAD)) as [->|].
    + by rewrite decide_True.
    + by rewrite decide_False by tauto.
Qed.

(** The code's answer to a valid request for a regular file. *)
Lemma make_response_file {C} `{ResourceCache C} fs dir clock cap r m c es (st : C) :
  rc_holds st cap es → coherent fs es → Request.IsValid r = true → GetMethod r = Some m →
  IsCgiRequest (dir ++ GetResourceUrl r) = false →
  fs (dir ++ GetResourceUrl r) = Some (RegularFile c) → c ≠ [] → (size_of c < 2 ^ 31)%Z →
  ∃ st' es', rc_holds st' cap es' ∧ coherent fs es' ∧
    make_response fs dir clock r st = Ok (Some (
      file_wire (ShouldClose r) (length c) (types_of (dir ++ GetResourceUrl r)) ++
      (if decide (m = HEAD ∧ lookup_entry (dir ++ GetResourceUrl r) es = None) then [] else c),
      ShouldClose r), st').
Proof.
  intros Hst Hc Hv Hm Hcgi Hf Hne Hsz.
  destruct (file_reply_run fs dir clock cap r m _ c es st Hv Hm eq_refl Hcgi Hf Hne Hsz Hst)
    as (w & close & es' & st' & Hfr & Hrun & Hst').
  destruct (file_reply_coherent fs cap m (ShouldClose r) _ c es Hc Hf) as (es2 & Hc2 & Hfr2).
  rewrite Hfr2 in Hfr. injection Hfr as <- <- <-. by exists st', es2.
Qed.

(** Reading the answer off the wire. *)
Lemma file_wire_read close n path body :
  ∃ block lines,
    read_message (file_wire close n (types_of path) ++ body) = Some (block, body) ∧
    pieces CRLF block lines ∧ declares lines n.
Proof.
  destruct (type_header_total path) as (ts & Ht & Hty).
  assert (types_of path = ts) as -> by (unfold types_of; by rewrite Ht).
  destruct (file_lines_ok close n ts Hty) as [Hok Hd].
  destruct (read_message_lines (file_lines close n ts) body) as [Hread Hp]; [done|done|].
  eexists _, _. split; [|by split; [exact Hp|]].
  unfold file_wire. rewrite <-app_assoc. exact Hread.
Qed.

(** ** Properties *)

(** C5: the handler implements its specification.  When data arrive and the peer
    stays connected, [ParseHttpRequest] returns; what it put on the wire is exactly
    the answers [serve] computes for the complete requests in the buffer, in order;
    the cache ends as [serve] says; the connection is dropped, once, on its own
    event loop, if and only if [serve] closes it; and otherwise the bytes of an
    incomplete request stay in the read buffer. *)
Theorem ParseHttpRequest_refines {C} `{ResourceCache C} fs dir clock cap
    (s : Session C) es looper data frames rest :
  ready cap s es → owner_looper_ (s_conn s) = Some looper → arrives s data →
  (size_of (buf_ (read_buffer_ (s_conn s)) ++ data) < 2 ^ 31)%Z →
  Buffer.frames (mkBuffer (buf_ (read_buffer_ (s_conn s)) ++ data)) HEADER_END = Ok (frames, rest) →
  Forall (servable fs dir) frames →
  ∃ s', ParseHttpRequest fs dir clock s = Ok (tt, s') ∧
    let '(w, d, es') := serve fs dir cap frames es in
    wire (s_endpoint s') = wire (s_endpoint s) ++ w ∧ rc_holds (s_cache s') cap es' ∧
    s_deleted s' = s_deleted s ++ (if decide (d = Closed) then [(looper, socket_ (s_conn s))] else []) ∧
    (d = Drained → read_buffer_ (s_conn s') = rest).
Proof.
  intros Hrd Hlo Harr Hsz Hfr Hserv.
  destruct (ParseHttpRequest_run fs dir clock cap s es looper data frames rest Hrd Hlo Harr Hsz Hfr Hserv)
    as (s' & Hrun & Hres).
  exists s'. split; [done|]. destruct (serve fs dir cap frames es) as [[w d] es'].
  destruct Hres as (Hw & [Hc _ _] & _ & _ & Hd & Hdr). done.
Qed.

(** A file system of one page, and a client that asks for it. *)
Definition demo_fs : filesystem := λ p,
  if decide (p = lit "www/a.html") then Some (RegularFile (lit "hi")) else None.
Definition demo_request : bytes :=
  lit "GET /a.html HTTP/1.1" ++ CRLF ++ lit "Connection:Keep-Alive" ++ CRLF ++ CRLF.
Definition parsed (frame : bytes) : Request :=
  match Request_ctor frame with Ok r => r | Fail _ => Request_init end.
Definition demo_session : Session Cache :=
  mkSession (SetLooper (Connection_ctor 7) 3)
    (mkEndpoint [RecvBytes demo_request] [SendBytes 5; SendError EAGAIN] [] EAGAIN)
    (Cache_ctor 0 100) [].

Lemma demo_ready : ready 100 demo_session [].
Proof.
  split; [apply Cache_ctor_holds; decided|reflexivity|].
  repeat constructor; simpl; lia.
Qed.

Lemma demo_arrives : arrives demo_session demo_request.
Proof.
  exists [RecvBytes demo_request], []. split_and!; [reflexivity| | |done|apply app_nil_r].
  - apply Forall_singleton. vm_compute. apply Nat.leb_le. reflexivity.
  - by apply Forall_singleton.
Qed.

Lemma demo_servable : Forall (servable demo_fs (lit "www")) [demo_request].
Proof.
  apply Forall_singleton. intros r Hr. vm_compute in Hr. injection Hr as <-. intros _ _.
  vm_compute. split; [discriminate|reflexivity].
Qed.

Lemma ParseHttpRequest_refines_witness :
  ∃ s', ParseHttpRequest demo_fs (lit "www") 0 demo_session = Ok (tt, s') ∧
    let '(w, d, es') := serve demo_fs (lit "www") 100 [demo_request] [] in
    wire (s_endpoint s') = [] ++ w ∧ rc_holds (s_cache s') 100 es' ∧
    s_deleted s' = [] ++ (if decide (d = Closed) then [(3, 7%Z)] else []) ∧
    (d = Drained → read_buffer_ (s_conn s') = mkBuffer []).
Proof.
  apply (ParseHttpRequest_refines demo_fs (lit "www") 0 100 demo_session [] 3 demo_request
           [demo_request] (mkBuffer []) demo_ready eq_refl demo_arrives).
  - vm_compute. reflexivity.
  - vm_compute. reflexivity.
  - exact demo_servable.
Defined.

(** C12: a GET for an existing file is answered with the file's contents whether they
    come from the disk or from the cache: for every cache that agrees with the file
    system, the client reads a header block that declares the file's size and then
    exactly the file's bytes, and the cache still agrees afterwards. *)
Theorem GET_serves_file {C} `{ResourceCache C} fs dir clock cap r c es (st : C) :
  rc_holds st cap es → coherent fs es → Request.IsValid r = true → GetMethod r = Some GET →
  IsCgiRequest (dir ++ GetResourceUrl r) = false →
  fs (dir ++ GetResourceUrl r) = Some (RegularFile c) → c ≠ [] → (size_of c < 2 ^ 31)%Z →
  ∃ message st' es' block lines,
    make_response fs dir clock r st = Ok (Some (message, ShouldClose r), st') ∧
    rc_holds st' cap es' ∧ coherent fs es' ∧
    read_message message = Some (block, c) ∧ pieces CRLF block lines ∧ declares lines (length c).
Proof.
  intros Hst Hc Hv Hm Hcgi Hf Hne Hsz.
  destruct (make_response_file fs dir clock cap r GET c es st Hst Hc Hv Hm Hcgi Hf Hne Hsz)
    as (st' & es' & Hst' & Hc' & Hrun).
  rewrite decide_False in Hrun by (by intros []).
  destruct (file_wire_read (ShouldClose r) (length c) (dir ++ GetResourceUrl r) c) as (block & lines & Hread & Hp & Hd).
  eexists _, st', es', block, lines. split; [exact Hrun|]. done.
Qed.

(** A cache that already holds the demo page. *)
Definition demo_warm : LruCache := mkLru 100 [(lit "www/a.html", lit "hi")].

Lemma demo_warm_ok : rc_holds demo_warm 100 [(lit "www/a.html", lit "hi")] ∧ coherent demo_fs [(lit "www/a.html", lit "hi")].
Proof. split; [reflexivity|]. apply Forall_singleton. reflexivity. Qed.

Lemma GET_serves_file_witness :
  ∃ message st' es' block lines,
    make_response demo_fs (lit "www") 0 (parsed demo_request) demo_warm = Ok (Some (message, false), st') ∧
    rc_holds st' 100 es' ∧ coherent demo_fs es' ∧
    read_message message = Some (block, lit "hi") ∧ pieces CRLF block lines ∧ declares lines 2.
Proof.
  apply (GET_serves_file demo_fs (lit "www") 0 100 (parsed demo_request) (lit "hi") [(lit "www/a.html", lit "hi")]).
  - apply demo_warm_ok.
  - apply demo_warm_ok.
  - reflexivity.
  - reflexivity.
  - reflexivity.
  - reflexivity.
  - discriminate.
  - reflexivity.
Defined.

(** a HEAD request gets no body only while the resource is not cached.  Once it
    is cached, the cached bytes are appended after the header block although a
    response to HEAD has no body, so on a persistent connection the client takes
    them for the start of the next response. *)
Theorem HEAD_body_when_cached {C} `{ResourceCache C} fs dir clock cap r c es (st : C) :
  rc_holds st cap es → coherent fs es → Request.IsValid r = true → GetMethod r = Some HEAD →
  IsCgiRequest (dir ++ GetResourceUrl r) = false →
  fs (dir ++ GetResourceUrl r) = Some (RegularFile c) → c ≠ [] → (size_of c < 2 ^ 31)%Z →
  ∃ message st' block,
    make_response fs dir clock r st = Ok (Some (message, ShouldClose r), st') ∧
    read_message message
    = Some (block, if decide (lookup_entry (dir ++ GetResourceUrl r) es = None) then [] else c).
Proof.
  intros Hst Hc Hv Hm Hcgi Hf Hne Hsz.
  destruct (make_response_file fs dir clock cap r HEAD c es st Hst Hc Hv Hm Hcgi Hf Hne Hsz)
    as (st' & es' & _ & _ & Hrun).
  set (body := if decide (HEAD = HEAD ∧ _) then [] else c) in Hrun.
  destruct (file_wire_read (ShouldClose r) (length c) (dir ++ GetResourceUrl r) body) as (block & lines & Hread & _).
  eexists _, st', block. split; [exact Hrun|]. rewrite Hread. do 2 f_equal. unfold body.
  destruct (decide (lookup_entry (dir ++ GetResourceUrl r) es = None)).
  - by rewrite decide_True.
  - by rewrite decide_False by tauto.
Qed.

Lemma HEAD_body_when_cached_witness :
  ∃ message st' block,
    make_response demo_fs (lit "www") 0 (parsed (lit "HEAD /a.html HTTP/1.1" ++ CRLF ++ CRLF)) demo_warm
      = Ok (Some (message, true), st') ∧
    read_message message
    = Some (block, if decide (lookup_entry (lit "www/a.html") [(lit "www/a.html", lit "hi")] = None) then [] else lit "hi").
Proof.
  apply (HEAD_body_when_cached demo_fs (lit "www") 0 100 (parsed (lit "HEAD /a.html HTTP/1.1" ++ CRLF ++ CRLF))
           (lit "hi") [(lit "www/a.html", lit "hi")]).
  - apply demo_warm_ok.
  - apply demo_warm_ok.
  - reflexivity.
  - reflexivity.
  - reflexivity.
  - reflexivity.
  - discriminate.
  - reflexivity.
Defined.

Lemma serve_coherent fs dir cap frames es :
  coherent fs es → coherent fs (serve fs dir cap frames es).2.
Proof.
  unfold serve. revert es. induction frames as [|f frames IH]; intros es Hc; cbn [serve_with]; [done|].
  destruct (answer fs dir cap f es) as [w [] es'|] eqn:E; [|..|done].
  - by eapply coherent_answer.
  - specialize (IH es' (coherent_answer _ _ _ _ _ _ _ _ Hc E)).
    by destruct (serve_with _ frames es') as [[w' d] es''].
Qed.

(** serving never makes the cache disagree with the file system: if every cached
    entry is the contents of the file it is named after before a call of the handler,
    so it is after the call. *)
Theorem ParseHttpRequest_keeps_coherent {C} `{ResourceCache C} fs dir clock cap
    (s : Session C) es looper data frames rest :
  coherent fs es →
  ready cap s es → owner_looper_ (s_conn s) = Some looper → arrives s data →
  (size_of (buf_ (read_buffer_ (s_conn s)) ++ data) < 2 ^ 31)%Z →
  Buffer.frames (mkBuffer (buf_ (read_buffer_ (s_conn s)) ++ data)) HEADER_END = Ok (frames, rest) →
  Forall (servable fs dir) frames →
  ∃ s' es', ParseHttpRequest fs dir clock s = Ok (tt, s') ∧ rc_holds (s_cache s') cap es' ∧ coherent fs es'.
Proof.
  intros Hc Hrd Hlo Harr Hsz Hfr Hserv.
  destruct (ParseHttpRequest_run fs dir clock cap s es looper data frames rest Hrd Hlo Harr Hsz Hfr Hserv)
    as (s' & Hrun & Hres).
  pose proof (serve_coherent fs dir cap frames es Hc) as Hc'.
  destruct (serve fs dir cap frames es) as [[w d] es']. destruct Hres as (_ & [Hst _ _] & _).
  by exists s', es'.
Qed.

Lemma ParseHttpRequest_keeps_coherent_witness :
  ∃ s' es', ParseHttpRequest demo_fs (lit "www") 0 demo_session = Ok (tt, s') ∧ rc_holds (s_cache s') 100 es' ∧
    coherent demo_fs es'.
Proof.
  apply (ParseHttpRequest_keeps_coherent demo_fs (lit "www") 0 100 demo_session [] 3 demo_request
           [demo_request] (mkBuffer [])).
  - by apply Forall_nil.
  - exact demo_ready.
  - reflexivity.
  - exact demo_arrives.
  - vm_compute. reflexivity.
  - vm_compute. reflexivity.
  - exact demo_servable.
Defined.

(** Data waiting at the socket. *)
Definition with_data {C} (s : Session C) (data : list recv_ret) : Session C :=
  mkSession (s_conn s) (mkEndpoint data (send_plan (s_endpoint s)) (wire (s_endpoint s)) (errno_ (s_endpoint s)))
    (s_cache s) (s_deleted s).

(** C11: how the network segments the requests does not matter.  If all requests of a
    first batch of data are answered and the connection stays open (none of them
    closes it, none is for a CGI program, at which the handler would stop), serving
    that batch, and then a second one, puts the same bytes on the wire, makes the same
    decision about the connection and leaves the cache with the same entries as
    serving both batches in one call; and if the second is answered whole as well, it
    leaves the same bytes buffered. *)
Theorem ParseHttpRequest_segmentation {C} `{ResourceCache C} fs dir clock cap
    (s : Session C) es looper d1 d2 frames rest frames1 rest1 :
  ready cap s es → owner_looper_ (s_conn s) = Some looper →
  Forall recv_ok (d1 ++ d2) → Forall goes_on (d1 ++ d2) →
  let buffered := buf_ (read_buffer_ (s_conn s)) in
  let data1 := concat (carried <$> d1) in
  let data := concat (carried <$> d1 ++ d2) in
  (size_of (buffered ++ data) < 2 ^ 31)%Z →
  Buffer.frames (mkBuffer (buffered ++ data1)) HEADER_END = Ok (frames1, rest1) →
  Buffer.frames (mkBuffer (buffered ++ data)) HEADER_END = Ok (frames, rest) →
  Forall (servable fs dir) frames →
  (serve fs dir cap frames1 es).1.2 = Drained →
  ∃ s1 s2 s12 es',
    ParseHttpRequest fs dir clock (with_data s d1) = Ok (tt, s1) ∧
    ParseHttpRequest fs dir clock (with_data s1 d2) = Ok (tt, s2) ∧
    ParseHttpRequest fs dir clock (with_data s (d1 ++ d2)) = Ok (tt, s12) ∧
    wire (s_endpoint s2) = wire (s_endpoint s12) ∧ s_deleted s2 = s_deleted s12 ∧
    rc_holds (s_cache s2) cap es' ∧ rc_holds (s_cache s12) cap es' ∧
    ((serve fs dir cap frames es).1.2 = Drained → read_buffer_ (s_conn s2) = read_buffer_ (s_conn s12)).
Proof.
  intros Hrd Hlo Hok Hgo buffered data1 data Hsz Hf1 Hf Hserv Hdr.
  assert (∀ (t : Session C) ds es0, ready cap t es0 → ready cap (with_data t ds) es0) as Hrdd.
  { intros t ds es0 [? ? ?]. by split. }
  assert (∀ (t : Session C) ds, Forall recv_ok ds → Forall goes_on ds →
            arrives (with_data t ds) (concat (carried <$> ds))) as Harr.
  { intros t ds ? ?. exists ds, []. rewrite app_nil_r. done. }
  pose proof Hok as [Hok1 Hok2]%Forall_app. pose proof Hgo as [Hgo1 Hgo2]%Forall_app.
  assert (data = data1 ++ concat (carried <$> d2)) as Hdata.
  { unfold data, data1. by rewrite fmap_app, concat_app. }
  (* cutting the frames in two goes *)
  destruct (pop_frames_enough (S (length (buf_ rest1 ++ concat (carried <$> d2))))
              (mkBuffer (buf_ rest1 ++ concat (carried <$> d2))) HEADER_END)
    as [[frames2 rest2] Hf2]; [done|simpl; lia|].
  pose proof (pop_frames_app _ _ _ _ _ (concat (carried <$> d2)) Hf1 _ _ _ Hf2) as Hcat.
  cbn [buf_] in Hcat. rewrite <-app_assoc, <-Hdata in Hcat.
  pose proof (pop_frames_det _ _ _ _ _ _ Hf Hcat) as [= -> ->].
  apply Forall_app in Hserv as [Hs1 Hs2].
  assert (size_of (buffered ++ data1) < 2 ^ 31)%Z as Hsz1.
  { rewrite Hdata in Hsz. clear -Hsz. autorewrite with icee in *. pose proof (size_of_nonneg (concat (carried <$> d2))). lia. }
  destruct (ParseHttpRequest_run fs dir clock cap (with_data s d1) es looper data1 frames1 rest1)
    as (s1 & Hr1 & Hres1); [by apply Hrdd|done|by apply Harr|done..|].
  destruct (serve fs dir cap frames1 es) as [[w1 di1] es1] eqn:E1. simpl in Hdr. subst di1.
  destruct Hres1 as (Hw1 & Hrd1 & Hlo1 & Hfd1 & Hdel1 & Hrest1). specialize (Hrest1 eq_refl).
  destruct (ParseHttpRequest_run fs dir clock cap (with_data s1 d2) es1 looper (concat (carried <$> d2)) frames2 rest2)
    as (s2 & Hr2 & Hres2); [by apply Hrdd|done|by apply Harr| | |done|].
  { cbn [with_data s_conn]. rewrite Hrest1. pose proof (pop_frames_remainder _ _ _ _ _ Hf1) as Hrem.
    cbn [buf_] in Hrem. rewrite Hdata in Hsz. clear -Hsz Hrem. size_lia. }
  { cbn [with_data s_conn]. by rewrite Hrest1. }
  destruct (ParseHttpRequest_run fs dir clock cap (with_data s (d1 ++ d2)) es looper data (frames1 ++ frames2) rest2)
    as (s12 & Hr12 & Hres12); [by apply Hrdd|done|by apply Harr|done|done|by apply Forall_app|].
  rewrite (serve_app _ _ _ _ _ _ _ _ E1) in Hres12 |- *.
  destruct (serve fs dir cap frames2 es1) as [[w2 d] es2].
  destruct Hres2 as (Hw2 & [Hc2 _ _] & _ & _ & Hdel2 & Hb2), Hres12 as (Hw12 & [Hc12 _ _] & _ & _ & Hdel12 & Hb12).
  exists s1, s2, s12, es2. split_and!; try done.
  - cbn in Hw1, Hw2, Hw12. by rewrite Hw12, Hw2, Hw1, app_assoc.
  - cbn in Hdel1, Hdel2, Hdel12. rewrite app_nil_r in Hdel1. rewrite Hdel12, Hdel2, Hdel1, Hfd1. done.
  - cbn. intros ->. by rewrite Hb2, Hb12.
Qed.

(** The request cut inside its request line. *)
Definition demo_cut : list recv_ret := [RecvBytes (take 9 demo_request)].
Definition demo_rest : list recv_ret := [RecvError EINTR; RecvBytes (drop 9 demo_request)].

Lemma demo_cut_ok : Forall recv_ok (demo_cut ++ demo_rest) ∧ Forall goes_on (demo_cut ++ demo_rest).
Proof.
  unfold demo_cut, demo_rest. cbn [app]. rewrite !Forall_cons. cbn [recv_ok goes_on].
  split; split_and!; try done; try (apply Forall_nil; done); apply Nat.leb_le; vm_compute; reflexivity.
Qed.

Lemma ParseHttpRequest_segmentation_witness :
  ∃ s1 s2 s12 es',
    ParseHttpRequest demo_fs (lit "www") 0 (with_data demo_session demo_cut) = Ok (tt, s1) ∧
    ParseHttpRequest demo_fs (lit "www") 0 (with_data s1 demo_rest) = Ok (tt, s2) ∧
    ParseHttpRequest demo_fs (lit "www") 0 (with_data demo_session (demo_cut ++ demo_rest)) = Ok (tt, s12) ∧
    wire (s_endpoint s2) = wire (s_endpoint s12) ∧ s_deleted s2 = s_deleted s12 ∧
    rc_holds (s_cache s2) 100 es' ∧ rc_holds (s_cache s12) 100 es' ∧
    ((serve demo_fs (lit "www") 100 [demo_request] []).1.2 = Drained →
       read_buffer_ (s_conn s2) = read_buffer_ (s_conn s12)).
Proof.
  destruct demo_cut_ok as [Hok Hgo].
  apply (ParseHttpRequest_segmentation demo_fs (lit "www") 0 100 demo_session [] 3 demo_cut demo_rest
           [demo_request] (mkBuffer []) [] (mkBuffer (take 9 demo_request)) demo_ready eq_refl Hok Hgo).
  - vm_compute. reflexivity.
  - vm_compute. reflexivity.
  - vm_compute. reflexivity.
  - exact demo_servable.
  - reflexivity.
Defined.

(** data that arrive together with the end of the stream are never answered.
    When [Recv] meets an end of stream or a hard error after data, the connection
    is dropped at once, nothing is sent, and complete requests stay unread in the
    buffer. *)
Theorem ParseHttpRequest_drops_final_data {C} `{ResourceCache C} fs dir clock (s : Session C) looper pre r tail :
  owner_looper_ (s_conn s) = Some looper →
  incoming (s_endpoint s) = pre ++ r :: tail → Forall recv_ok pre → Forall goes_on pre → ends r = Some true →
  ∃ s', ParseHttpRequest fs dir clock s = Ok (tt, s') ∧
    wire (s_endpoint s') = wire (s_endpoint s) ∧ s_cache s' = s_cache s ∧
    s_deleted s' = s_deleted s ++ [(looper, socket_ (s_conn s))] ∧
    buf_ (read_buffer_ (s_conn s')) = buf_ (read_buffer_ (s_conn s)) ++ concat (carried <$> pre).
Proof. apply ParseHttpRequest_exit. Qed.

Lemma ParseHttpRequest_drops_final_data_witness :
  let s := with_data demo_session [RecvBytes demo_request; RecvBytes []] in
  ∃ s', ParseHttpRequest demo_fs (lit "www") 0 s = Ok (tt, s') ∧
    wire (s_endpoint s') = wire (s_endpoint s) ∧ s_cache s' = s_cache s ∧
    s_deleted s' = s_deleted s ++ [(3, 7%Z)] ∧
    buf_ (read_buffer_ (s_conn s')) = buf_ (read_buffer_ (s_conn s)) ++ concat (carried <$> [RecvBytes demo_request]).
Proof.
  apply (ParseHttpRequest_drops_final_data demo_fs (lit "www") 0
           (with_data demo_session [RecvBytes demo_request; RecvBytes []]) 3 [RecvBytes demo_request] (RecvBytes []) []).
  - reflexivity.
  - reflexivity.
  - apply Forall_singleton. apply Nat.leb_le. vm_compute. reflexivity.
  - apply Forall_singleton. discriminate.
  - reflexivity.
Defined.

(** a valid request for a directory, or for a path whose status cannot be had, ends
    the server.  [IsFileExist] throws for the latter; it accepts the directory, and
    then [FileSize] throws; nothing catches the exception. *)
Lemma unserved_request_throws {C} `{CacheOps C} fs dir clock r (c : C) :
  Request.IsValid r = true → IsCgiRequest (dir ++ GetResourceUrl r) = false →
  (∃ e, fs (dir ++ GetResourceUrl r) = Some (DirectoryEntry e)) ∨ fs (dir ++ GetResourceUrl r) = Some Inaccessible →
  make_response fs dir clock r c = Fail filesystem_error.
Proof.
  intros Hv Hcgi Hf. unfold make_response. rewrite Hv, Hcgi. cbn [negb].
  destruct Hf as [[e Hf]|Hf]; unfold IsFileExist; mred; rewrite Hf; [|done]. cbn [negb].
  unfold Make200Response, Response_ctor, FileSize, IsFileExist. by rewrite Hf.
Qed.

(** in particular, for a directory. *)
Theorem directory_request_throws {C} `{ResourceCache C} fs dir clock r e (c : C) :
  Request.IsValid r = true → IsCgiRequest (dir ++ GetResourceUrl r) = false →
  fs (dir ++ GetResourceUrl r) = Some (DirectoryEntry e) →
  make_response fs dir clock r c = Fail filesystem_error.
Proof. intros Hv Hcgi Hf. apply unserved_request_throws; [done..|left; by exists e]. Qed.

Lemma directory_request_throws_witness :
  make_response (λ _, Some (DirectoryEntry true)) (lit "www") 0
    (parsed (lit "GET /docs HTTP/1.1" ++ CRLF ++ CRLF)) (Cache_ctor 0 100)
  = Fail filesystem_error.
Proof.
  apply (directory_request_throws (λ _, Some (DirectoryEntry true)) (lit "www") 0
           (parsed (lit "GET /docs HTTP/1.1" ++ CRLF ++ CRLF)) true (Cache_ctor 0 100)); reflexivity.
Defined.

(** ** What requests can name *)

(** a request for a CGI program, which the server does not run, is taken off the
    buffer and not answered; the connection stays open, and what came after it
    stays in the buffer until more data arrive. *)
Theorem cgi_request_ignored {C} `{CacheOps C} fs dir clock fuel (s : Session C) frame r rest :
  FindAndPopTill (s_conn s) HEADER_END = Ok (Some frame, with_read_buffer (s_conn s) rest) →
  Request_ctor frame = Ok r → Request.IsValid r = true →
  IsCgiRequest (dir ++ GetResourceUrl r) = true →
  request_loop fs dir clock (S fuel) s =
    Ok (None, mkSession (with_read_buffer (s_conn s) rest) (s_endpoint s) (s_cache s) (s_deleted s)).
Proof.
  intros Hpop Hr Hv Hcgi. cbn [request_loop]. unfold on_conn. mred. rewrite Hpop. mred. rewrite Hr. mred.
  unfold on_cache, make_response. cbn [s_cache s_conn]. rewrite Hv. cbn [negb]. by rewrite Hcgi.
Qed.

Definition cgi_request : bytes := lit "GET /cgi_bin/add HTTP/1.1" ++ HEADER_END.

Lemma cgi_request_ignored_witness :
  let c := with_read_buffer (s_conn demo_session) (mkBuffer (cgi_request ++ demo_request)) in
  request_loop demo_fs (lit "www") 0 1 (mkSession c (s_endpoint demo_session) (s_cache demo_session) []) =
    Ok (None, mkSession (with_read_buffer c (mkBuffer demo_request)) (s_endpoint demo_session)
                (s_cache demo_session) []).
Proof.
  intros c. apply (cgi_request_ignored demo_fs (lit "www") 0 0 (mkSession c (s_endpoint demo_session) (s_cache demo_session) [])
                     cgi_request (parsed cgi_request) (mkBuffer demo_request)); reflexivity.
Defined.

(** the path of a request is not confined to the served directory: [..] in the URL
    leaves it. *)
Definition secret_fs : filesystem := λ p,
  if decide (p = lit "www/../key") then Some (RegularFile (lit "s3")) else None.
Definition escaping_request : Request := parsed (lit "GET /../key HTTP/1.1" ++ HEADER_END).

Example parent_directory_served :
  fst <$> make_response secret_fs (lit "www") 0 escaping_request (Cache_ctor 0 100) =
    Ok (Some (file_wire (ShouldClose escaping_request) 2 (types_of (lit "www/../key")) ++ lit "s3",
              ShouldClose escaping_request)).
Proof. vm_compute. reflexivity. Qed.
