(* ===== verification/Serving.v ===== *)
(** * What a client sees, whatever the cache does

    HttpServer.v relates the handler to the LRU cache.  Here the handler is put on
    the [CoherentCache] interface, which promises so little that it survives sharing
    the cache between threads.  [may_answer] says what a request may be answered
    with, from the request and the file system only: a GET is answered with the same
    bytes from the disk and from the cache, a HEAD with or without a body (see
    [HEAD_body_when_cached] in HttpServer.v), a request for a CGI program not at all.
    [answered], [served] and [settled] lift it to streams of requests; for streams
    of [plain] requests [web_reply] is the only answer.

    The lemmas carry this through one call of the handler ([handler_batch]).  The
    theorem: a call of the handler ends, on every input, or else one of the requests it
    read names something it cannot serve, or the peer has gone or reads no more. *)

From S2P Require Import Prelude CppString Buffer HttpUtils Header Request Connection Response Cache CacheSpec ResourceCache HttpServer.

(** ** The specification *)

(** The complete requests in a stream of bytes. *)
Definition requests (data : bytes) : list bytes :=
  match Buffer.frames (mkBuffer data) HEADER_END with Ok (frames, _) => frames | Fail _ => [] end.

Section Replies.
Context (fs : filesystem) (serving_directory : bytes).

Definition resource (r : Request) : bytes := serving_directory ++ GetResourceUrl r.

(** What a request may be answered with, and whether the connection is closed after
    it; [None] is no answer.  A HEAD is answered with or without a body, the rest
    is determined by the request and the file system. *)
Inductive may_answer (frame : bytes) : option (bytes * bool) → Prop :=
  | answer_bad_request r :
      Request_ctor frame = Ok r → Request.IsValid r = false →
      may_answer frame (Some (error_wire RESPONSE_BAD_REQUEST, true))
  | answer_cgi r :
      Request_ctor frame = Ok r → Request.IsValid r = true → IsCgiRequest (resource r) = true →
      may_answer frame None
  | answer_not_found r :
      Request_ctor frame = Ok r → Request.IsValid r = true → IsCgiRequest (resource r) = false →
      fs (resource r) = None →
      may_answer frame (Some (error_wire RESPONSE_NOT_FOUND, true))
  | answer_file r c :
      Request_ctor frame = Ok r → Request.IsValid r = true → IsCgiRequest (resource r) = false →
      fs (resource r) = Some (RegularFile c) →
      may_answer frame (Some (file_wire (ShouldClose r) (length c) (types_of (resource r)) ++ c, ShouldClose r))
  | answer_head r c :
      Request_ctor frame = Ok r → Request.IsValid r = true → IsCgiRequest (resource r) = false →
      fs (resource r) = Some (RegularFile c) → GetMethod r = Some HEAD →
      may_answer frame (Some (file_wire (ShouldClose r) (length c) (types_of (resource r)), ShouldClose r)).

(** [replies frames w closed]: [w] answers [frames], each in turn, and ends with an
    answer that closes the connection if [closed]. *)
Inductive replies : list bytes → bytes → bool → Prop :=
  | replies_nil :
      replies [] [] false
  | replies_ignored f frames w closed :
      may_answer f None → replies frames w closed → replies (f :: frames) w closed
  | replies_next f frames w w' closed :
      may_answer f (Some (w, false)) → replies frames w' closed → replies (f :: frames) (w ++ w') closed
  | replies_close f w :
      may_answer f (Some (w, true)) → replies [f] w true.

(** A valid request for a CGI program, which the server does not run. *)
Definition for_cgi (frame : bytes) : Prop :=
  match Request_ctor frame with
  | Ok r => Request.IsValid r = true ∧ IsCgiRequest (resource r) = true
  | Fail _ => False
  end.

(** [w] answers some of the requests in [data], from the first one on. *)
Definition answered (data w : bytes) : Prop :=
  ∃ frames closed, frames `prefix_of` requests data ∧ replies frames w closed.

(** The last of [frames] is a request for a CGI program: the handler stops there. *)
Definition stalled (frames : list bytes) : Prop := ∃ f, last frames = Some f ∧ for_cgi f.

(** [w] answers [frames] from the first one on, up to where the handler stops: at
    their end, at one that closes the connection, or at one for a CGI program. *)
Definition settles (frames : list bytes) (w : bytes) : Prop :=
  ∃ done closed, done `prefix_of` frames ∧ replies done w closed ∧
    (closed = true ∨ done = frames ∨ stalled done).

(** [w] answers the requests in [data] so far. *)
Definition settled (data w : bytes) : Prop := settles (requests data) w.

(** Streams whose requests are for files the handler is meant for. *)
Definition servable_data (data : bytes) : Prop :=
  (size_of data < 2 ^ 31)%Z ∧ Forall (servable fs serving_directory) (requests data).

(** Requests whose answer is determined: neither HEAD nor for a CGI program. *)
Definition plain (frame : bytes) : Prop :=
  ∀ r, Request_ctor frame = Ok r → Request.IsValid r = true →
    IsCgiRequest (resource r) = false ∧ GetMethod r ≠ Some HEAD.

Definition plain_answer (frame : bytes) : bytes * bool :=
  match Request_ctor frame with
  | Ok r =>
      if Request.IsValid r then
        match fs (resource r) with
        | Some (RegularFile c) =>
            (file_wire (ShouldClose r) (length c) (types_of (resource r)) ++ c, ShouldClose r)
        | _ => (error_wire RESPONSE_NOT_FOUND, true)
        end
      else (error_wire RESPONSE_BAD_REQUEST, true)
  | Fail _ => (error_wire RESPONSE_BAD_REQUEST, true)
  end.

Fixpoint plain_replies (frames : list bytes) : bytes :=
  match frames with
  | [] => []
  | f :: frames =>
      let '(w, close) := plain_answer f in if (close : bool) then w else w ++ plain_replies frames
  end.

(** The bytes sent back to a client that sends [data]. *)
Definition web_reply (data : bytes) : bytes := plain_replies (requests data).
End Replies.

(** ** Lemmas: the requests in a growing stream *)

(** A frame: the end of a request occurs at its end only. *)
Definition is_frame (f : bytes) : Prop :=
  ∃ p, f = p ++ HEADER_END ∧ index_of HEADER_END f = Some (length p).

Lemma HEADER_END_nonempty : HEADER_END ≠ [].
Proof. done. Qed.

Lemma frames_total data : ∃ frames rest, Buffer.frames (mkBuffer data) HEADER_END = Ok (frames, rest).
Proof.
  destruct (pop_frames_enough (S (length data)) (mkBuffer data) HEADER_END HEADER_END_nonempty) as [[frames rest] H].
  { simpl. lia. }
  by exists frames, rest.
Qed.

Lemma requests_frames data frames rest :
  Buffer.frames (mkBuffer data) HEADER_END = Ok (frames, rest) → requests data = frames.
Proof. intros H. unfold requests. by rewrite H. Qed.

(** What [FindAndPopTill] takes off is a frame. *)
Lemma popped_is_frame b n :
  index_of HEADER_END b = Some n →
  is_frame (take n b ++ HEADER_END) ∧ b = (take n b ++ HEADER_END) ++ drop (n + length HEADER_END) b.
Proof.
  intros E. pose proof (index_of_Some _ _ _ E) as [Hs Hl].
  assert (b = (take n b ++ HEADER_END) ++ drop (n + length HEADER_END) b) as Hb by (by rewrite <-app_assoc).
  split; [|done]. exists (take n b). split; [done|].
  assert (length (take n b) = n) as Hn by (rewrite length_take; lia).
  rewrite <-(app_nil_r HEADER_END) at 2. apply index_of_intro. intros q Hq. rewrite Hn.
  apply (index_of_least _ _ _ _ E). etrans; [exact Hq|]. rewrite app_nil_r.
  rewrite Hb at 2. apply prefix_app_r. done.
Qed.

Lemma pop_frames_are_frames fuel b frames rest :
  pop_frames fuel b HEADER_END = Ok (frames, rest) → Forall is_frame frames.
Proof.
  revert b frames. induction fuel as [|fuel IH]; intros b frames; [done|].
  simpl. rewrite FindAndPopTill_eq. simpl. destruct (index_of HEADER_END (buf_ b)) as [n|] eqn:E;
    [|intros [= <- _]; by apply Forall_nil].
  destruct (pop_frames fuel _ HEADER_END) as [[gs r]|] eqn:Ep; [|done]. mred. intros [= <- <-].
  apply Forall_cons. split; [|by eapply IH]. by apply popped_is_frame.
Qed.

Lemma requests_are_frames data : Forall is_frame (requests data).
Proof.
  destruct (frames_total data) as (frames & rest & H). rewrite (requests_frames _ _ _ H). by eapply pop_frames_are_frames.
Qed.

Lemma requests_cons f data : is_frame f → requests (f ++ data) = f :: requests data.
Proof.
  intros (p & Hf & Hi). destruct (frames_total data) as (frames & rest & H).
  rewrite (requests_frames _ _ _ H). apply (requests_frames _ _ rest).
  unfold Buffer.frames in *. cbn [pop_frames buf_]. rewrite FindAndPopTill_eq. cbn [buf_].
  rewrite (index_of_app _ _ data _ Hi). mred.
  assert (length p + length HEADER_END = length f) as Hlen by (rewrite Hf, length_app; done).
  rewrite Hlen, drop_app_length.
  rewrite (pop_frames_fuel _ (length (f ++ data)) _ _ _ H); cbn [buf_]; [|rewrite length_app, Hf, length_app; simpl; lia].
  rewrite Hf at 1. rewrite <-app_assoc, take_app_length. by rewrite <-Hf.
Qed.

Lemma requests_app frames data : Forall is_frame frames → requests (concat frames ++ data) = frames ++ requests data.
Proof.
  induction 1 as [|f frames Hf _ IH]; [done|]. cbn [concat app]. by rewrite <-app_assoc, requests_cons, IH.
Qed.

(** The stream is its requests and a rest that contains none. *)
Lemma requests_split data : ∃ rest, data = concat (requests data) ++ rest ∧ requests rest = [].
Proof.
  destruct (frames_total data) as (frames & rest & H). rewrite (requests_frames _ _ _ H).
  pose proof (pop_frames_concat _ _ _ _ _ H) as Hd. cbn [buf_] in Hd. exists (buf_ rest). split; [done|].
  pose proof (requests_frames _ _ _ H) as Hr. rewrite Hd in Hr at 1.
  rewrite (requests_app frames) in Hr by (by eapply pop_frames_are_frames).
  rewrite <-(app_nil_r frames) in Hr at 2. by apply app_inv_head in Hr.
Qed.

Lemma requests_prefix d1 d2 : requests d1 `prefix_of` requests (d1 ++ d2).
Proof.
  destruct (requests_split d1) as (rest & Hd & _). rewrite Hd at 2.
  rewrite <-app_assoc, (requests_app _ _ (requests_are_frames d1)). by eexists.
Qed.

(** ** Lemmas: answers *)

Section Answers.
Context (fs : filesystem) (dir : bytes).

Lemma replies_app f1 w1 f2 w2 closed :
  replies fs dir f1 w1 false → replies fs dir f2 w2 closed → replies fs dir (f1 ++ f2) (w1 ++ w2) closed.
Proof.
  intros H1 H2. remember false as c eqn:E. induction H1; [done| | |done]; cbn [app].
  - apply replies_ignored; auto.
  - rewrite <-app_assoc. apply replies_next; auto.
Qed.

(** A batch in the words of the loop. *)
Lemma serves_replies frames x w d left (x' : unit) :
  serves (λ f _ o _, may_answer fs dir f o) frames x w d left x' →
  ∃ done, frames = done ++ left ∧ replies fs dir done w (bool_decide (d = Closed)) ∧
    match d with Drained => left = [] | Stalled => stalled dir done | Closed => True end.
Proof.
  induction 1 as [x|f left x x' Hf|f left x w x' Hf|f frames x w x1 w' d left x' Hf _ (done & -> & Hr & Hd)].
  - exists []. split; [done|]. rewrite bool_decide_eq_false_2 by done. split; [apply replies_nil|done].
  - exists [f]. split; [done|]. rewrite bool_decide_eq_false_2 by done.
    split; [apply replies_ignored; [done|apply replies_nil]|]. exists f. split; [done|].
    inversion Hf as [|r Hr Hv Hc| | |]; subst. unfold for_cgi. by rewrite Hr.
  - exists [f]. split; [done|]. rewrite bool_decide_eq_true_2 by done. split; [by apply replies_close|done].
  - exists (f :: done). split; [done|]. split; [by apply replies_next|]. destruct d; [done..|].
    destruct Hd as (g & Hg & Hc). exists g. by rewrite last_cons, Hg.
Qed.

Lemma serves_settles frames x w d left (x' : unit) :
  serves (λ f _ o _, may_answer fs dir f o) frames x w d left x' → settles fs dir frames w.
Proof.
  intros (done & -> & Hr & Hd)%serves_replies. exists done, (bool_decide (d = Closed)).
  split; [by eexists|]. split; [done|]. destruct d; [right; left; by rewrite Hd, app_nil_r|left; by rewrite bool_decide_eq_true_2|auto].
Qed.

Lemma stalled_app f1 f2 : stalled dir f2 → stalled dir (f1 ++ f2).
Proof. intros (f & Hf & Hc). exists f. split; [|done]. rewrite last_app, Hf. done. Qed.

Lemma settled_answered data w : settled fs dir data w → answered fs dir data w.
Proof. intros (frames & closed & ? & ? & _). by exists frames, closed. Qed.

Lemma answered_app d1 d2 w : answered fs dir d1 w → answered fs dir (d1 ++ d2) w.
Proof. intros (frames & closed & Hp & Hr). exists frames, closed. split; [|done]. etrans; [exact Hp|apply requests_prefix]. Qed.

Lemma answered_prefix d1 d2 w : d1 `prefix_of` d2 → answered fs dir d1 w → answered fs dir d2 w.
Proof. intros [k ->]. apply answered_app. Qed.

Lemma answered_nil data : answered fs dir data [].
Proof. exists [], false. split; [apply prefix_nil|apply replies_nil]. Qed.

Lemma servable_data_prefix d1 d2 : servable_data fs dir (d1 ++ d2) → servable_data fs dir d1.
Proof.
  intros [Hs Hp]. split; [size_lia|]. destruct (requests_prefix d1 d2) as [k Hk]. rewrite Hk in Hp.
  by apply Forall_app in Hp as [? _].
Qed.

Lemma servable_data_nil : servable_data fs dir [].
Proof. split; [done|]. change (requests []) with (@nil bytes). by apply Forall_nil. Qed.

(** A determined request has one answer. *)
Lemma plain_answer_unique f o :
  may_answer fs dir f o → plain dir f → o = Some (plain_answer fs dir f).
Proof.
  unfold plain, plain_answer. intros Ha Hp.
  inversion Ha as [r Hr Hv|r Hr Hv Hc|r Hr Hv Hc Hf|r c Hr Hv Hc Hf|r c Hr Hv Hc Hf Hm]; subst; rewrite Hr, ?Hv, ?Hf.
  all: try done; destruct (Hp r Hr Hv); congruence.
Qed.

Lemma plain_replies_unique frames w closed all :
  replies fs dir frames w closed → frames `prefix_of` all → Forall (plain dir) all →
  closed = true ∨ frames = all → w = plain_replies fs dir all.
Proof.
  intros Hr. revert all. induction Hr as [|f frames w closed Ha _ IH|f frames w w' closed Ha _ IH|f w Ha]; intros all [k ->] Hpl Hc.
  - destruct Hc as [|<-]; done.
  - apply Forall_cons in Hpl as [Hpl _]. by apply plain_answer_unique in Ha.
  - cbn [app] in *. apply Forall_cons in Hpl as [Hf Hpl]. apply plain_answer_unique in Ha; [|done]. injection Ha as Ha.
    cbn [plain_replies]. rewrite <-Ha. f_equal. apply IH; [by eexists|done|]. destruct Hc as [|[= Hc]]; auto.
  - cbn [app] in *. apply Forall_cons in Hpl as [Hf _]. apply plain_answer_unique in Ha; [|done]. injection Ha as Ha.
    cbn [plain_replies]. by rewrite <-Ha.
Qed.

Lemma plain_not_cgi f : plain dir f → ¬ for_cgi dir f.
Proof.
  unfold plain, for_cgi. destruct (Request_ctor f) as [r|]; [|by intros _ []].
  intros Hp [Hv Hc]. destruct (Hp r eq_refl Hv). congruence.
Qed.

Lemma settled_plain data w :
  settled fs dir data w → Forall (plain dir) (requests data) → w = web_reply fs dir data.
Proof.
  intros (frames & closed & Hp & Hr & Hc) Hpl. apply (plain_replies_unique frames w closed); [done..|].
  destruct Hc as [?|[?|(f & Hin & Hf)]]; auto. exfalso. destruct Hp as [k Hk].
  apply (plain_not_cgi f); [|done]. apply (proj1 (Forall_forall _ _) Hpl). rewrite Hk, elem_of_app. left.
  apply last_Some in Hin as [l ->]. apply elem_of_app. right. by left.
Qed.

(** What answers some determined requests is what a shorter stream is answered with. *)
Lemma answered_plain data w :
  answered fs dir data w → Forall (plain dir) (requests data) →
  ∃ read, read `prefix_of` data ∧ w = web_reply fs dir read.
Proof.
  intros (frames & closed & [k Hk] & Hr) Hpl. destruct (requests_split data) as (rest & Hd & _).
  pose proof (requests_are_frames data) as Hall. rewrite Hk in Hd, Hall, Hpl.
  apply Forall_app in Hall as [Hall _]. apply Forall_app in Hpl as [Hpl _].
  exists (concat frames). split; [rewrite Hd, concat_app, <-app_assoc; by eexists|].
  unfold web_reply. rewrite <-(app_nil_r (concat frames)), requests_app by done.
  change (requests []) with (@nil bytes). rewrite app_nil_r.
  apply (plain_replies_unique frames w closed frames); [done|done|done|by right].
Qed.
End Answers.

(** ** Lemmas: one request *)

Section Client.
Context (fs : filesystem) {C : Type} `{CoherentCache fs C} (serving_directory : bytes) (clock : Z).

(** The code's answer to a valid request for a regular file: its header, and the
    file, from wherever, but perhaps not for a HEAD. *)
Lemma make_response_file_any r m c st :
  rc_ok st → Request.IsValid r = true → GetMethod r = Some m →
  let path := serving_directory ++ GetResourceUrl r in
  IsCgiRequest path = false → fs path = Some (RegularFile c) → c ≠ [] → (size_of c < 2 ^ 31)%Z →
  ∃ body st', rc_ok st' ∧ (body = c ∨ m = HEAD ∧ body = []) ∧
    make_response fs serving_directory clock r st
    = Ok (Some (file_wire (ShouldClose r) (length c) (types_of path) ++ body, ShouldClose r), st').
Proof.
  intros Hst Hv Hm path Hcgi Hf Hne Hsz. unfold make_response.
  rewrite Hv. cbn [negb]. fold path. rewrite Hcgi. rewrite (IsFileExist_file _ _ _ Hf).
  mstep (eq_refl : lift (Ok true) st = Ok (true, st)). cbn [negb].
  destruct (file_response fs (ShouldClose r) path c _ Hf (types_of_eq path)) as (resp & Hr & Hser).
  rewrite Hr. mstep (eq_refl : lift (Ok resp) st = Ok (resp, st)).
  destruct (co_load clock path [] st Hst) as (res & st1 & Hl & Hst1 & [->|(d & -> & Hd)]).
  - destruct (co_insert clock path c st1 Hst1 Hf Hsz) as (b & st2 & Hi & Hst2).
    mstep Hl. rewrite Hm. exists (if bool_decide (m ≠ HEAD) then c else []), st2. split; [done|].
    split; [destruct (decide (m = HEAD)) as [->|Hmh]; [right|left; by rewrite bool_decide_eq_true_2]|].
    { split; [done|]. by rewrite bool_decide_eq_false_2 by auto. }
    mred. cbn [negb]. rewrite andb_true_r, Hser.
    rewrite !(LoadFile_nonempty _ _ _ _ Hf Hne). destruct (bool_decide (m ≠ HEAD)); cbn [app]; rewrite Hi, ?app_nil_r; done.
  - rewrite Hf in Hd. injection Hd as <-. mstep Hl. rewrite Hm. exists c, st1. split; [done|]. split; [by left|].
    mred. cbn [negb app]. by rewrite andb_false_r, Hser.
Qed.

Lemma make_response_error status r st :
  (Request.IsValid r = false ∧ status = RESPONSE_BAD_REQUEST) ∨
  (Request.IsValid r = true ∧ IsCgiRequest (serving_directory ++ GetResourceUrl r) = false ∧
   fs (serving_directory ++ GetResourceUrl r) = None ∧ status = RESPONSE_NOT_FOUND) →
  make_response fs serving_directory clock r st = Ok (Some (error_wire status, true), st).
Proof.
  destruct (error_reply_run fs status (λ b, Some (b, true)) st) as (resp & Hresp & Hrun).
  intros [[Hv ->]|(Hv & Hcgi & Hf & ->)]; unfold make_response; rewrite Hv; cbn [negb].
  - unfold Make400Response. by rewrite Hresp.
  - rewrite Hcgi, (IsFileExist_missing _ _ Hf). mred. cbn [negb]. unfold Make404Response. by rewrite Hresp.
Qed.

Lemma make_response_cgi r st :
  Request.IsValid r = true → IsCgiRequest (serving_directory ++ GetResourceUrl r) = true →
  make_response fs serving_directory clock r st = Ok (None, st).
Proof. intros Hv Hc. unfold make_response. rewrite Hv. cbn [negb]. by rewrite Hc. Qed.

Lemma may_answers :
  answers fs serving_directory clock (λ c (_ : unit), rc_ok c) (λ f _ o _, may_answer fs serving_directory f o)
    (servable fs serving_directory).
Proof.
  intros frame r st [] Hs Hr Hserv Hst. specialize (Hserv r Hr).
  destruct (Request.IsValid r) eqn:Hv.
  2:{ eexists _, st, tt. split; [apply make_response_error; by left|]. split; [by eapply answer_bad_request|done]. }
  destruct (IsCgiRequest (serving_directory ++ GetResourceUrl r)) eqn:Hcgi.
  { exists None, st, tt. split; [by apply make_response_cgi|]. split; [by eapply answer_cgi|done]. }
  specialize (Hserv eq_refl eq_refl). destruct (valid_method _ _ Hs Hr Hv) as (m & Hm & _).
  destruct (fs (serving_directory ++ GetResourceUrl r)) as [[c|e|k|]|] eqn:Hf; [|done..|].
  - destruct Hserv as [Hne Hsz].
    destruct (make_response_file_any r m c st Hst Hv Hm Hcgi Hf Hne Hsz) as (body & st' & Hst' & Hbody & Hrun).
    eexists _, st', tt. split; [exact Hrun|]. split; [|done].
    destruct Hbody as [->|[-> ->]]; [by eapply answer_file|rewrite app_nil_r; by eapply answer_head].
  - eexists _, st, tt. split; [apply make_response_error; by right|]. split; [by eapply answer_not_found|done].
Qed.
End Client.

(** ** Lemmas: one call of the handler *)

(** Serving has gone well so far: of the bytes [read] from the client, [rb] are left
    over, and [out] was sent for the rest.  Complete requests are left over only
    where the last one taken off was for a CGI program. *)
Definition served (fs : filesystem) (dir read : bytes) (rb : Buffer) (out : bytes) : Prop :=
  ∃ frames, Forall is_frame frames ∧ read = concat frames ++ buf_ rb ∧ replies fs dir frames out false ∧
    (requests (buf_ rb) = [] ∨ stalled dir frames).

Lemma served_start fs dir : served fs dir [] (mkBuffer []) [].
Proof. exists []. split; [by apply Forall_nil|]. split; [done|]. split; [apply replies_nil|by left]. Qed.

Lemma served_settled fs dir read rb out : served fs dir read rb out → settled fs dir read out.
Proof.
  intros (frames & Hf & -> & Hr & Hrest). unfold settled. rewrite requests_app by done.
  exists frames, false. split; [by eexists|]. split; [done|]. right.
  destruct Hrest as [->|Hc]; [left; by rewrite app_nil_r|by right].
Qed.

Section ServedMore.
Context (fs : filesystem) (dir read data : bytes) (rb rest : Buffer) (out w : bytes)
  (frames left : list bytes) (d : disposition) (u : unit).
Hypothesis Hserved : served fs dir read rb out.
Hypothesis Hframes : Buffer.frames (mkBuffer (buf_ rb ++ data)) HEADER_END = Ok (frames, rest).
Hypothesis Hserves : serves (λ f _ o _, may_answer fs dir f o) frames tt w d left u.

Lemma served_settled_more : settled fs dir (read ++ data) (out ++ w).
Proof.
  destruct Hserved as (f1 & Hf1 & -> & Hr1 & _).
  destruct (serves_replies _ _ _ _ _ _ _ _ Hserves) as (f2 & Hsplit & Hr2 & Hd).
  exists (f1 ++ f2), (bool_decide (d = Closed)).
  rewrite <-app_assoc, requests_app, (requests_frames _ _ _ Hframes), Hsplit by done.
  split; [apply prefix_app; by eexists|]. split; [by apply replies_app|].
  destruct d; [right; left; by rewrite Hd, app_nil_r|left; by rewrite bool_decide_eq_true_2|].
  do 2 right. by apply stalled_app.
Qed.

Lemma served_more rb' :
  buf_ rb' = concat left ++ buf_ rest → d ≠ Closed → served fs dir (read ++ data) rb' (out ++ w).
Proof.
  intros Hrb' Hnc. destruct Hserved as (f1 & Hf1 & -> & Hr1 & Hcgi).
  destruct (serves_replies _ _ _ _ _ _ _ _ Hserves) as (f2 & Hsplit & Hr2 & Hd).
  pose proof (pop_frames_are_frames _ _ _ _ Hframes) as Hall. pose proof (pop_frames_concat _ _ _ _ _ Hframes) as Hcat.
  cbn [buf_] in Hcat. rewrite Hsplit in Hall. apply Forall_app in Hall as [Hall _].
  exists (f1 ++ f2). split; [by apply Forall_app|].
  split; [by rewrite <-app_assoc, Hcat, Hsplit, Hrb', !concat_app, <-!app_assoc|].
  rewrite bool_decide_eq_false_2 in Hr2 by done. split; [by apply replies_app|].
  destruct d; [left|done|right; by apply stalled_app].
  rewrite Hrb', Hd. cbn [concat app]. destruct (requests_split (buf_ rb ++ data)) as (r & Hr & Hnone).
  rewrite (requests_frames _ _ _ Hframes), Hcat in Hr. apply app_inv_head in Hr. by rewrite Hr.
Qed.
End ServedMore.

Lemma ends_goes_on r b : ends r = Some b → ¬ goes_on r.
Proof. destruct r as [[|]|[]]; simpl; congruence. Qed.

Lemma ends_false_carried r : ends r = Some false → carried r = [].
Proof. by destruct r as [[|]|[]]. Qed.

Section Batch.
Context (fs : filesystem) {C : Type} `{CoherentCache fs C} (dir : bytes) (clock : Z).

(** How a call leaves the connection: open, with [consumed] read and served; or
    dropped, with some of what was read answered. *)
Definition batch_open (s s' : Session C) (read consumed : bytes) : Prop :=
  s_deleted s' = s_deleted s ∧ ready_with (λ c _, rc_ok c) s' tt ∧
  owner_looper_ (s_conn s') = owner_looper_ (s_conn s) ∧
  served fs dir (read ++ consumed) (read_buffer_ (s_conn s')) (wire (s_endpoint s')).
Definition batch_dropped (s s' : Session C) (looper : nat) (read consumed : bytes) : Prop :=
  s_deleted s' = s_deleted s ++ [(looper, socket_ (s_conn s))] ∧ rc_ok (s_cache s') ∧
  answered fs dir (read ++ consumed) (wire (s_endpoint s')).

(** What a call that read [data] sends: with what was sent before, it answers the
    stream so far; by itself, the requests that were waiting. *)
Definition batch_answered (s s' : Session C) (read data : bytes) : Prop :=
  settled fs dir (read ++ data) (wire (s_endpoint s')) ∧
  ∃ w, wire (s_endpoint s') = wire (s_endpoint s) ++ w ∧
    settles fs dir (requests (buf_ (read_buffer_ (s_conn s)) ++ data)) w.

(** The connection goes on: everything that arrived is read. *)
Lemma handler_batch_goes_on (s : Session C) looper read pre tail :
  ready_with (λ c _, rc_ok c) s tt → owner_looper_ (s_conn s) = Some looper →
  incoming (s_endpoint s) = pre ++ tail → Forall recv_ok pre → Forall goes_on pre →
  match tail with [] => True | r :: _ => ends r = Some false end →
  served fs dir read (read_buffer_ (s_conn s)) (wire (s_endpoint s)) →
  let data := concat (carried <$> pre) in servable_data fs dir (read ++ data) →
  ∃ s', ParseHttpRequest fs dir clock s = Ok (tt, s') ∧ incoming (s_endpoint s') = drop 1 tail ∧
    batch_answered s s' read data ∧
    (socket_ (s_conn s') = socket_ (s_conn s) ∧ batch_open s s' read data ∨ batch_dropped s s' looper read data).
Proof.
  intros Hrd Hlo Hin Hok Hgo Ht Hserved data [Hsz Hserv].
  destruct (frames_total (buf_ (read_buffer_ (s_conn s)) ++ data)) as (frames & rest & Hf).
  assert (length (buf_ (read_buffer_ (s_conn s))) ≤ length read ∧ frames `suffix_of` requests (read ++ data)) as [Hle Hsuf].
  { destruct Hserved as (f1 & Hf1 & -> & _). split; [rewrite length_app; lia|].
    rewrite <-app_assoc, requests_app, (requests_frames _ _ _ Hf) by done. by eexists. }
  destruct Hsuf as [k Hk]. rewrite Hk in Hserv. apply Forall_app in Hserv as [_ Hserv].
  destruct (ParseHttpRequest_run_with fs dir clock (λ c _, rc_ok c) _ _ (may_answers fs dir clock)
              s tt looper pre tail frames rest Hrd Hlo Hin Hok Hgo Ht)
    as (w & d & left & [] & s' & Hrun & Hs & Hw & Hrd' & Hlo' & Hfd & Hdel & Hleft & Hinc); [|done..|].
  { fold data. clear -Hsz Hle. size_lia. }
  pose proof (served_settled_more fs dir read data _ rest _ w frames left d tt Hserved Hf Hs) as Hset.
  exists s'. unfold batch_answered. rewrite Hw, (requests_frames _ _ _ Hf). split; [done|]. split; [done|].
  split; [split; [done|exists w; split; [done|by eapply serves_settles]]|].
  destruct (decide (d = Closed)) as [Hd|Hd].
  - right. split; [done|]. split; [apply (rd_cache _ _ _ Hrd')|]. rewrite Hw. by apply settled_answered.
  - left. split; [done|]. split; [by rewrite Hdel, app_nil_r|]. split; [done|]. split; [congruence|]. rewrite Hw.
    by apply (served_more fs dir read data _ rest _ w frames left d tt Hserved Hf Hs).
Qed.

Lemma handler_batch (s : Session C) looper read :
  ready_with (λ c _, rc_ok c) s tt → owner_looper_ (s_conn s) = Some looper →
  Forall recv_ok (incoming (s_endpoint s)) →
  served fs dir read (read_buffer_ (s_conn s)) (wire (s_endpoint s)) →
  servable_data fs dir (read ++ concat (carried <$> incoming (s_endpoint s))) →
  ∃ s' now, ParseHttpRequest fs dir clock s = Ok (tt, s') ∧ now `prefix_of` incoming (s_endpoint s) ∧
    ((incoming (s_endpoint s) = now ++ incoming (s_endpoint s') ∧ socket_ (s_conn s') = socket_ (s_conn s) ∧
      batch_open s s' read (concat (carried <$> now))) ∨
     batch_dropped s s' looper read (concat (carried <$> now))) ∧
    (Forall goes_on (incoming (s_endpoint s)) →
       batch_answered s s' read (concat (carried <$> incoming (s_endpoint s)))).
Proof.
  intros Hrd Hlo Hok Hserved Hpl.
  destruct (goes_on_split (incoming (s_endpoint s))) as (pre & tail & exit & Hin & Hgo & Ht).
  rewrite Hin in Hok, Hpl. apply Forall_app in Hok as [Hok _]. rewrite fmap_app, concat_app, app_assoc in Hpl.
  assert (Forall goes_on (incoming (s_endpoint s)) → exit = false ∧ tail = []) as Hall.
  { rewrite Hin. intros [_ Htail]%Forall_app. destruct tail as [|r tail]; [done|].
    apply Forall_cons in Htail as [Hr _]. by destruct (ends_goes_on _ _ Ht). }
  destruct exit.
  { destruct tail as [|r tail]; [done|].
    destruct (ParseHttpRequest_exit fs dir clock s looper pre r tail Hlo Hin Hok Hgo Ht) as (s' & Hrun & Hw & Hc & Hd & _).
    exists s', pre. split; [done|]. split; [by exists (r :: tail)|]. split; [right|by intros []%Hall].
    split; [done|]. split; [rewrite Hc; by apply (rd_cache _ _ _ Hrd)|].
    rewrite Hw. apply answered_app. by eapply settled_answered, served_settled. }
  destruct (handler_batch_goes_on s looper read pre tail Hrd Hlo Hin Hok Hgo) as (s' & Hrun & Hinc & Hset & Hcase);
    [by destruct tail|done|by eapply servable_data_prefix|].
  assert (concat (carried <$> pre ++ take 1 tail) = concat (carried <$> pre)) as Htake.
  { rewrite fmap_app, concat_app. destruct tail as [|r tail]; cbn [take fmap list_fmap concat]; [apply app_nil_r|].
    by rewrite (ends_false_carried r Ht), !app_nil_r. }
  exists s', (pre ++ take 1 tail). split; [done|]. rewrite Htake.
  split; [exists (drop 1 tail); by rewrite Hin, <-app_assoc, take_drop|]. split.
  - destruct Hcase as [[? ?]|?]; [left|by right]. by rewrite Hinc, Hin, <-app_assoc, take_drop.
  - intros [_ ->]%Hall. by rewrite Hin, app_nil_r.
Qed.
End Batch.

(** ** Lemmas: every way the handler can end *)

Section Total.
Context (fs : filesystem) {C : Type} `{CoherentCache fs C} (dir : bytes) (clock : Z).

(** Every file is below 2^31 bytes. *)
Definition small_files : Prop := ∀ path c, fs path = Some (RegularFile c) → (size_of c < 2 ^ 31)%Z.

(** The request [frame] names something the handler stumbles over, and [f] is how. *)
Definition file_fault (frame : bytes) (f : fault) : Prop :=
  ∃ r, Request_ctor frame = Ok r ∧ Request.IsValid r = true ∧ IsCgiRequest (resource dir r) = false ∧
    match fs (resource dir r) with
    | Some (DirectoryEntry _) | Some Inaccessible => f = filesystem_error
    | Some (Unreadable _) => f = AssertionFailed
    | Some (RegularFile []) => f = OutOfRange
    | _ => False
    end.

Definition response_ends (frame : bytes) (res : result (option (bytes * bool) * C)) : Prop :=
  match res with Ok (_, st) => rc_ok st | Fail f => file_fault frame f end.

(** A file of some size that [LoadFile] does not get: unless it is cached the handler
    fails as [LoadFile] does. *)
Lemma make_response_unloaded r m st n f :
  rc_ok st → Request.IsValid r = true → GetMethod r = Some m →
  let path := resource dir r in
  IsCgiRequest path = false → IsFileExist fs path = Ok true → FileSize fs path = Ok n →
  (∀ buffer, LoadFile fs path buffer = Fail f) →
  match make_response fs dir clock r st with Ok (_, st') => rc_ok st' | Fail g => g = f end.
Proof.
  intros Hst Hv Hm path Hcgi Hex Hsize Hload. unfold make_response.
  rewrite Hv. cbn [negb]. fold (resource dir r). fold path. rewrite Hcgi, Hex.
  mstep (eq_refl : lift (Ok true) st = Ok (true, st)). cbn [negb].
  unfold Make200Response, Response_ctor. rewrite Hex. mred. rewrite Hsize. mred. rewrite types_of_eq. mred.
  destruct (co_load clock path [] st Hst) as ([cached buf] & st1 & Hl & Hst1 & _).
  rewrite Hl, Hm. unfold Response.Serialize, SetShouldTransferContent. cbn [url_ should_transfer_content_].
  destruct cached; [by rewrite andb_false_r|].
  cbn [negb]. rewrite andb_true_r. destruct (bool_decide (m ≠ HEAD)); mred; by rewrite Hload.
Qed.

Lemma make_response_total frame r st :
  small_files → splittable frame CRLF → Request_ctor frame = Ok r → rc_ok st →
  response_ends frame (make_response fs dir clock r st).
Proof.
  intros Hsmall Hs Hr Hst. unfold response_ends.
  destruct (Request.IsValid r) eqn:Hv;
    [|by rewrite (make_response_error fs dir clock RESPONSE_BAD_REQUEST) by by left].
  destruct (IsCgiRequest (resource dir r)) eqn:Hcgi; [by rewrite make_response_cgi|].
  destruct (valid_method _ _ Hs Hr Hv) as (m & Hm & _).
  assert (∀ n f, FileSize fs (resource dir r) = Ok n → IsFileExist fs (resource dir r) = Ok true →
            (∀ b, LoadFile fs (resource dir r) b = Fail f) → file_fault frame f →
            match make_response fs dir clock r st with Ok (_, st') => rc_ok st' | Fail g => file_fault frame g end) as Hun.
  { intros n f Hn Hex Hload Hf. pose proof (make_response_unloaded r m st n f Hst Hv Hm Hcgi Hex Hn Hload) as H'.
    destruct (make_response fs dir clock r st) as [[? ?]|g]; [done|by subst g]. }
  assert ((∃ e, fs (resource dir r) = Some (DirectoryEntry e)) ∨ fs (resource dir r) = Some Inaccessible →
    file_fault frame filesystem_error) as Hthrow.
  { intros Hf. exists r. split; [done|]. split; [done|]. split; [done|]. by destruct Hf as [[e ->]| ->]. }
  destruct (fs (resource dir r)) as [[c|e|n|]|] eqn:Hf.
  - destruct (decide (c = [])) as [->|Hne].
    + apply (Hun 0%Z OutOfRange); [by rewrite (FileSize_file _ _ _ Hf)|by eapply IsFileExist_file| |].
      * intros b. unfold LoadFile. rewrite (FileSize_file _ _ _ Hf). mred. rewrite Hf, decide_False; [done|].
        unfold size_of. cbn. lia.
      * exists r. split_and!; [done..|]. by rewrite Hf.
    + destruct (make_response_file_any fs dir clock r m c st Hst Hv Hm Hcgi Hf Hne (Hsmall _ _ Hf))
        as (body & st' & Hst' & _ & ->). done.
  - rewrite unserved_request_throws by (done || left; by exists e). apply Hthrow. left. by exists e.
  - apply (Hun n AssertionFailed).
    + unfold FileSize, IsFileExist. by rewrite Hf.
    + unfold IsFileExist. by rewrite Hf.
    + intros b. unfold LoadFile, FileSize, IsFileExist. by rewrite Hf.
    + exists r. split_and!; [done..|]. by rewrite Hf.
  - rewrite unserved_request_throws by (done || by right). apply Hthrow. by right.
  - by rewrite (make_response_error fs dir clock RESPONSE_NOT_FOUND) by by right.
Qed.

(** How a call that does not return ends: at one of the requests in [data], or in a
    [send]. *)
Definition handler_fault (data : bytes) (plan : list send_ret) (f : fault) : Prop :=
  Exists (λ frame, file_fault frame f) (requests data) ∨ send_fails plan f.

Definition loop_ends (s : Session C) (res : result (option bool * Session C)) : Prop :=
  match res with
  | Ok (_, s') => rc_ok (s_cache s') ∧ owner_looper_ (s_conn s') = owner_looper_ (s_conn s)
  | Fail f => handler_fault (buf_ (read_buffer_ (s_conn s))) (send_plan (s_endpoint s)) f
  end.

Lemma request_loop_total fuel (s : Session C) :
  small_files → rc_ok (s_cache s) → length (buf_ (read_buffer_ (s_conn s))) < fuel →
  (size_of (buf_ (read_buffer_ (s_conn s))) < 2 ^ 31)%Z →
  loop_ends s (request_loop fs dir clock fuel s).
Proof.
  intros Hsmall. revert s. induction fuel as [|fuel IH]; intros s Hc Hlen Hsz; [lia|].
  cbn [request_loop]. mred. unfold on_conn at 1. unfold FindAndPopTill. rewrite FindAndPopTill_eq. mred.
  destruct (index_of HEADER_END (buf_ (read_buffer_ (s_conn s)))) as [n|] eqn:E; [|done].
  destruct (popped_is_frame _ _ E) as [Hfr Hbuf]. pose proof (index_of_Some _ _ _ E) as [_ Hle].
  set (frame := take n _ ++ HEADER_END) in *. set (left := drop _ _) in *.
  assert (requests (buf_ (read_buffer_ (s_conn s))) = frame :: requests left) as Hreq
    by (rewrite Hbuf; by apply requests_cons).
  assert (splittable frame CRLF) as Hspl by (split; [clear -Hsz Hbuf; rewrite Hbuf in Hsz; size_lia|done]).
  destruct (Request_ctor_spec frame Hspl) as (r & Hr & _). rewrite Hr.
  unfold on_cache at 1. mred. cbn [s_cache s_conn s_endpoint s_deleted].
  pose proof (make_response_total frame r (s_cache s) Hsmall Hspl Hr Hc) as Hresp.
  destruct (make_response fs dir clock r (s_cache s)) as [[[[buf close]|] st]|f]; cbn [response_ends] in Hresp;
    [|done|left; rewrite Hreq; by apply Exists_cons_hd].
  unfold on_conn, on_net. mred. cbn [s_cache s_conn s_endpoint s_deleted].
  match goal with |- context [Send (?c1, ?ep1)] => pose proof (Send_total c1 ep1) as Hsend;
    destruct (Send (c1, ep1)) as [[[] [c2 ep2]]|f] end; [|by right].
  destruct Hsend as (-> & _ & [k Hk] & _). destruct close; [done|].
  match goal with |- loop_ends _ (request_loop fs dir clock fuel ?s1) =>
    assert (loop_ends s1 (request_loop fs dir clock fuel s1)) as Hl; [apply (IH s1)|] end.
  - done.
  - cbn. unfold left. rewrite length_drop. simpl in Hle |- *. lia.
  - cbn. clear -Hsz Hbuf. rewrite Hbuf in Hsz. size_lia.
  - unfold loop_ends in *. destruct (request_loop _ _ _ _ _) as [[? ?]|f]; [done|]. cbn in Hl.
    destruct Hl as [Hl|Hl]; [left; rewrite Hreq; by apply Exists_cons_tl|right; rewrite Hk].
    destruct Hl as [[-> Hin]|[-> Hin]]; [left|right]; (split; [done|]); apply elem_of_app; by right.
Qed.
End Total.

(** ** Properties *)

(** C6: the handler's call ends.  Whatever requests the bytes contain, whatever [recv] and
    [send] return and whatever the (coherent) cache answers, a call of
    [ParseHttpRequest] on less than 2^31 buffered bytes and files below 2^31 bytes
    returns, but in these cases, which the theorem tells apart: one of the requests in
    those bytes names a directory or a path whose status cannot be had (an exception is
    thrown), a file that cannot be opened (an assertion fails) or is empty (an index
    out of range); or the peer has broken the connection (SIGPIPE); or the peer has
    stopped reading for good, and only then does the call go on for ever, inside one
    [Send].  The handler's own loop never runs out of fuel. *)
Theorem ParseHttpRequest_terminates (fs : filesystem) {C} `{CoherentCache fs C} dir clock (s : Session C) looper :
  small_files fs → rc_ok (s_cache s) → owner_looper_ (s_conn s) = Some looper →
  Forall recv_ok (incoming (s_endpoint s)) →
  let data := buf_ (read_buffer_ (s_conn s)) ++ concat (carried <$> incoming (s_endpoint s)) in
  (size_of data < 2 ^ 31)%Z →
  match ParseHttpRequest fs dir clock s with
  | Ok (_, s') => rc_ok (s_cache s')
  | Fail f => handler_fault fs dir data (send_plan (s_endpoint s)) f
  end.
Proof.
  intros Hsmall Hc Hlo Hok data Hsz.
  destruct (goes_on_split (incoming (s_endpoint s))) as (pre & tail & exit & Hin & Hgo & Ht).
  assert (data = (buf_ (read_buffer_ (s_conn s)) ++ concat (carried <$> pre)) ++ concat (carried <$> tail)) as Hdata
    by (unfold data; by rewrite Hin, fmap_app, concat_app, app_assoc).
  rewrite Hin in Hok. apply Forall_app in Hok as [Hok _].
  pose proof (Recv_run (s_conn s) (s_endpoint s) pre tail exit Hin Hok Hgo Ht) as Hrecv.
  unfold ParseHttpRequest, on_net. mred. rewrite Hrecv. cbn [s_cache s_conn s_endpoint s_deleted].
  destruct exit.
  { unfold delete_connection, GetLooper. cbn [s_conn with_read_buffer owner_looper_]. by rewrite Hlo. }
  match goal with |- context [request_loop fs dir clock ?k ?s1] =>
    assert (loop_ends fs dir s1 (request_loop fs dir clock k s1)) as Hl;
      [apply (request_loop_total fs dir clock k s1 Hsmall)|destruct (request_loop fs dir clock k s1) as [[r s']|f]] end;
    cbn [loop_ends] in *.
  - done.
  - cbn. lia.
  - cbn. rewrite Hdata in Hsz. clear -Hsz. size_lia.
  - destruct Hl as [Hc' Hlo']. destruct r as [[]|]; [|done..].
    unfold delete_connection, GetLooper. rewrite Hlo'. cbn. by rewrite Hlo.
  - cbn in Hl. destruct Hl as [Hl|Hl]; [left|by right]. rewrite Hdata.
    destruct (requests_prefix (buf_ (read_buffer_ (s_conn s)) ++ concat (carried <$> pre)) (concat (carried <$> tail))) as [k ->].
    apply Exists_app. by left.
Qed.

(** A computation that is seen to return. *)
Definition result_ok {A} (m : result A) : bool := match m with Ok _ => true | Fail _ => false end.

(** A peer that stops reading after five bytes. *)
Definition demo_stuck : Session Cache :=
  mkSession (s_conn demo_session) (mkEndpoint [RecvBytes demo_request] [SendBytes 5; SendStuck] [] EAGAIN)
    (s_cache demo_session) [].

Lemma demo_recv_ok : Forall recv_ok [RecvBytes demo_request].
Proof. apply Forall_singleton. vm_compute. apply Nat.leb_le. reflexivity. Qed.

Lemma ParseHttpRequest_terminates_witness :
  (∃ s', ParseHttpRequest demo_fs (lit "www") 0 demo_session = Ok (tt, s') ∧ rc_ok (fs := demo_fs) (s_cache s')) ∧
  ParseHttpRequest demo_fs (lit "www") 0 demo_stuck = Fail NoReturn ∧
  handler_fault demo_fs (lit "www") demo_request [SendBytes 5; SendStuck] NoReturn.
Proof.
  assert (small_files demo_fs) as Hsmall by (intros path c; unfold demo_fs; case_decide; [intros [= <-]; reflexivity|done]).
  assert (rc_ok (fs := demo_fs) (s_cache demo_session)) as Hc
    by (exists 100%Z, []; split; [apply Cache_ctor_holds; decided|by apply Forall_nil]).
  pose proof (ParseHttpRequest_terminates demo_fs (lit "www") 0 demo_session 3 Hsmall Hc eq_refl demo_recv_ok ltac:(vm_compute; reflexivity)) as H1.
  pose proof (ParseHttpRequest_terminates demo_fs (lit "www") 0 demo_stuck 3 Hsmall Hc eq_refl demo_recv_ok ltac:(vm_compute; reflexivity)) as H2.
  assert (ParseHttpRequest demo_fs (lit "www") 0 demo_stuck = Fail NoReturn) as E by (vm_compute; reflexivity).
  rewrite E in H2. split; [|by split].
  assert (result_ok (ParseHttpRequest demo_fs (lit "www") 0 demo_session) = true) as E1 by (vm_compute; reflexivity).
  revert H1 E1. generalize (ParseHttpRequest demo_fs (lit "www") 0 demo_session). intros [[[] s']|f] H1 E1; [|discriminate E1].
  exists s'. split; [reflexivity|exact H1].
Defined.
