(* ===== verification/NetAddress.v ===== *)
(** * [Icee::NetAddress] (src/include/core/net_address.h, src/core/net_address.cc)

    An IP address and a port, kept as the bytes of a [struct sockaddr].  The model
    keeps the object's memory from [addr_] on: 16 bytes of [addr_], then the 4 bytes
    of [addr_len_], which end the object (Linux layout; the family and the lengths
    are little endian, the port is in network order).  Accesses outside of it are a
    fault.  [inet_pton] and [inet_ntop] belong to the C library and are parameters.

    The theorems: an IPv4 address and port round-trip; text that is not an address
    is silently taken for 0.0.0.0; an IPv6 address does not fit the object. *)

From S2P Require Import Prelude CppString.

Inductive Protocol := Ipv4 | Ipv6.

Record NetAddress := mkNetAddress { protocol_ : Protocol; memory_ : list Z }.

Definition AF_INET : Z := 2.
Definition AF_INET6 : Z := 10.
Definition SOCKADDR_SIZE : nat := 16.

(** A 16-bit value in memory, little endian. *)
Definition le16 (z : Z) : list Z := [(z `mod` 256)%Z; (z `div` 256)%Z].
Definition le32 (z : Z) : list Z :=
  [(z `mod` 256)%Z; ((z `div` 256) `mod` 256)%Z; ((z `div` 65536) `mod` 256)%Z; (z `div` 16777216)%Z].

(** [htons] and [ntohs] on a little-endian host: swap the bytes. *)
Definition htons (z : Z) : Z := ((z `mod` 256) * 256 + z `div` 256)%Z.
Definition ntohs : Z → Z := htons.

(** Writing and reading [n] bytes at an offset of [addr_]. *)
Definition poke (off : nat) (bs : list Z) (m : list Z) : result (list Z) :=
  if decide (off + length bs ≤ length m) then Ok (take off m ++ bs ++ drop (off + length bs) m)
  else Fail OutOfRange.
Definition peek (off n : nat) (m : list Z) : result (list Z) :=
  if decide (off + n ≤ length m) then Ok (take n (drop off m)) else Fail OutOfRange.
Definition peek16 (off : nat) (m : list Z) : result Z :=
  bs ← peek off 2 m; match bs with [a; b] => mret (a + 256 * b)%Z | _ => Fail OutOfRange end.

(** [memset(&addr_, 0, sizeof(addr_)); addr_len_ = sizeof(addr_);] *)
Definition blank_memory : list Z := replicate SOCKADDR_SIZE 0%Z ++ le32 (Z.of_nat SOCKADDR_SIZE).

Definition NetAddress_default : NetAddress := mkNetAddress Ipv4 blank_memory.

Section NetAddress.
(** The C library: text to the bytes of an address, and back. *)
Context (inet_pton4 inet_pton6 : bytes → option (list Z)) (inet_ntop4 inet_ntop6 : list Z → bytes).

(** [inet_pton] writes at its destination only when it succeeds; its result is not
    looked at. *)
Definition inet_pton_at (off : nat) (parsed : option (list Z)) (m : list Z) : result (list Z) :=
  match parsed with Some a => poke off a m | None => mret m end.

Definition NetAddress_ctor (ip : bytes) (port : Z) (protocol : Protocol) : result NetAddress :=
  let m := blank_memory in
  match protocol with
  | Ipv4 =>
      m ← poke 0 (le16 AF_INET) m;
      m ← inet_pton_at 4 (inet_pton4 ip) m;
      m ← poke 2 (le16 (htons port)) m;
      mret (mkNetAddress protocol m)
  | Ipv6 =>
      m ← poke 0 (le16 AF_INET6) m;
      m ← inet_pton_at 8 (inet_pton6 ip) m;
      m ← poke 2 (le16 (htons port)) m;
      mret (mkNetAddress protocol m)
  end.

Definition GetProtocol (a : NetAddress) : Protocol := protocol_ a.
Definition YieldAddr (a : NetAddress) : list Z := take SOCKADDR_SIZE (memory_ a).
Definition YieldAddrlen (a : NetAddress) : list Z := drop SOCKADDR_SIZE (memory_ a).

Definition GetIp (a : NetAddress) : result bytes :=
  match protocol_ a with
  | Ipv4 => bs ← peek 4 4 (memory_ a); mret (inet_ntop4 bs)
  | Ipv6 => bs ← peek 8 16 (memory_ a); mret (inet_ntop6 bs)
  end.

Definition GetPort (a : NetAddress) : result Z :=
  match protocol_ a with
  | Ipv4 => p ← peek16 2 (memory_ a); mret (ntohs p)
  | Ipv6 => p ← peek16 2 (memory_ a); mret (ntohs p)
  end.

Definition ToString (a : NetAddress) : result bytes :=
  ip ← GetIp a; port ← GetPort a; mret (ip ++ lit " @ " ++ to_string (Z.to_nat port)).

(** [operator<<] *)
Definition stream_out (os : bytes) (a : NetAddress) : result bytes :=
  s ← ToString a; mret (os ++ s).

(** ** Lemmas *)

Lemma htons_range port : (0 ≤ port < 65536)%Z → (0 ≤ htons port < 65536)%Z.
Proof.
  intros. unfold htons. pose proof (Z.mod_pos_bound port 256 ltac:(lia)).
  pose proof (Z.div_pos port 256 ltac:(lia) ltac:(lia)).
  assert (port / 256 < 256)%Z by (apply Z.div_lt_upper_bound; lia). lia.
Qed.

Lemma ntohs_htons port : (0 ≤ port < 65536)%Z → ntohs (htons port) = port.
Proof.
  intros Hp. unfold ntohs, htons.
  pose proof (Z.mod_pos_bound port 256 ltac:(lia)). pose proof (Z.div_mod port 256 ltac:(lia)).
  assert (0 ≤ port / 256 < 256)%Z as Hq.
  { split; [apply Z.div_pos; lia|apply Z.div_lt_upper_bound; lia]. }
  rewrite (Z.add_comm (port `mod` 256 * 256)), Z.mod_add, Z.div_add by lia.
  rewrite (Z.mod_small (port / 256)), (Z.div_small (port / 256)) by lia. lia.
Qed.

Lemma le16_value z : (0 ≤ z)%Z → (z `mod` 256 + 256 * (z `div` 256))%Z = z.
Proof. intros. pose proof (Z.div_mod z 256 ltac:(lia)). lia. Qed.

(** The memory of an IPv4 address. *)
Lemma ctor_ipv4 ip port a b c d :
  inet_pton4 ip = Some [a; b; c; d] →
  NetAddress_ctor ip port Ipv4
  = Ok (mkNetAddress Ipv4 ([2%Z; 0%Z] ++ le16 (htons port) ++ [a; b; c; d] ++ replicate 8 0%Z ++ [16; 0; 0; 0]%Z)).
Proof. intros Hip. unfold NetAddress_ctor. rewrite Hip. reflexivity. Qed.

Lemma ctor_ipv4_bad ip port :
  inet_pton4 ip = None →
  NetAddress_ctor ip port Ipv4
  = Ok (mkNetAddress Ipv4 ([2%Z; 0%Z] ++ le16 (htons port) ++ replicate 12 0%Z ++ [16; 0; 0; 0]%Z)).
Proof. intros Hip. unfold NetAddress_ctor. rewrite Hip. reflexivity. Qed.

Lemma port_ipv4 m port :
  (0 ≤ port < 65536)%Z →
  GetPort (mkNetAddress Ipv4 ([2%Z; 0%Z] ++ le16 (htons port) ++ m)) = Ok port.
Proof.
  intros Hp. unfold GetPort, peek16, peek, le16. cbn [protocol_ memory_ app length].
  rewrite decide_True by lia. cbn [drop take]. mred.
  pose proof (htons_range port Hp). rewrite le16_value by lia. f_equal. by apply ntohs_htons.
Qed.

Lemma ip_ipv4 port a b c d :
  GetIp (mkNetAddress Ipv4 ([2%Z; 0%Z] ++ le16 (htons port) ++ [a; b; c; d] ++ replicate 8 0%Z ++ [16; 0; 0; 0]%Z))
  = Ok (inet_ntop4 [a; b; c; d]).
Proof. reflexivity. Qed.

(** ** Properties *)

(** C31: an IPv4 address and port survive the object: for text that [inet_pton]
    accepts and [inet_ntop] prints back, the constructor returns, [GetIp] and
    [GetPort] give the text and the port, [ToString] prints both, and the 16 bytes
    handed to [bind] and [connect] start with the family and the port in network
    order, with the length 16 beside them. *)
Theorem NetAddress_ipv4_roundtrip ip port quad :
  inet_pton4 ip = Some quad → length quad = 4 → inet_ntop4 quad = ip → (0 ≤ port < 65536)%Z →
  ∃ a, NetAddress_ctor ip port Ipv4 = Ok a ∧ GetProtocol a = Ipv4 ∧
    GetIp a = Ok ip ∧ GetPort a = Ok port ∧
    ToString a = Ok (ip ++ lit " @ " ++ to_string (Z.to_nat port)) ∧
    YieldAddr a = [2%Z; 0%Z; (port `div` 256)%Z; (port `mod` 256)%Z] ++ quad ++ replicate 8 0%Z ∧
    YieldAddrlen a = [16; 0; 0; 0]%Z.
Proof.
  intros Hip Hlen Hback Hp. destruct quad as [|a [|b [|c [|d [|]]]]]; try done.
  rewrite (ctor_ipv4 _ port _ _ _ _ Hip). eexists. split; [reflexivity|].
  assert (∀ m, GetPort (mkNetAddress Ipv4 ([2%Z; 0%Z] ++ le16 (htons port) ++ m)) = Ok port) as Hport
    by (intros; by apply port_ipv4).
  unfold ToString. rewrite Hport, ip_ipv4, Hback.
  split_and!; [done..| |done]. unfold YieldAddr. cbn. unfold htons.
  pose proof (Z.mod_pos_bound port 256 ltac:(lia)).
  assert (0 ≤ port / 256 < 256)%Z by (split; [apply Z.div_pos; lia|apply Z.div_lt_upper_bound; lia]).
  rewrite (Z.add_comm (port `mod` 256 * 256)), Z.mod_add, Z.div_add by lia.
  rewrite (Z.mod_small (port / 256)), (Z.div_small (port / 256)) by lia. done.
Qed.

(** text that is not an address is not rejected: the constructor ignores the
    result of [inet_pton] and the object stands for 0.0.0.0, all interfaces. *)
Theorem NetAddress_bad_text_is_any ip port :
  inet_pton4 ip = None → (0 ≤ port < 65536)%Z →
  ∃ a, NetAddress_ctor ip port Ipv4 = Ok a ∧ GetPort a = Ok port ∧
    GetIp a = Ok (inet_ntop4 [0; 0; 0; 0]%Z).
Proof.
  intros Hip Hp. rewrite (ctor_ipv4_bad _ port Hip). eexists. split; [reflexivity|].
  split; [by apply port_ipv4|reflexivity].
Qed.

(** IPv6 does not work: the 16 bytes of an IPv6 address are written 8 bytes into
    the 16-byte [addr_], over [addr_len_] and past the end of the object. *)
Theorem NetAddress_ipv6_overflows ip port a :
  inet_pton6 ip = Some a → length a = 16 → NetAddress_ctor ip port Ipv6 = Fail OutOfRange.
Proof.
  intros Hip Hlen. unfold NetAddress_ctor. rewrite Hip.
  mstep (eq_refl : poke 0 (le16 AF_INET6) blank_memory
                   = Ok ([10; 0]%Z ++ replicate 14 0%Z ++ [16; 0; 0; 0]%Z)).
  assert (poke 8 a ([10; 0]%Z ++ replicate 14 0%Z ++ [16; 0; 0; 0]%Z) = Fail OutOfRange) as E.
  { unfold poke. rewrite decide_False; [done|]. rewrite Hlen. simpl. lia. }
  cbn [inet_pton_at]. by rewrite E.
Qed.
End NetAddress.

(** A C library that knows a few addresses, for the witnesses. *)
Definition demo_pton4 (s : bytes) : option (list Z) :=
  if decide (s = lit "127.0.0.1") then Some [127; 0; 0; 1]%Z
  else if decide (s = lit "0.0.0.0") then Some [0; 0; 0; 0]%Z else None.
Definition demo_ntop4 (a : list Z) : bytes :=
  if decide (a = [127; 0; 0; 1]%Z) then lit "127.0.0.1" else lit "0.0.0.0".
Definition demo_pton6 (s : bytes) : option (list Z) :=
  if decide (s = lit "::1") then Some (replicate 15 0%Z ++ [1%Z]) else None.
Definition demo_ntop6 (a : list Z) : bytes := lit "::1".

Lemma NetAddress_ipv4_roundtrip_witness :
  ∃ a, NetAddress_ctor demo_pton4 demo_pton6 (lit "127.0.0.1") 12138 Ipv4 = Ok a ∧ GetProtocol a = Ipv4 ∧
    GetIp demo_ntop4 demo_ntop6 a = Ok (lit "127.0.0.1") ∧ GetPort a = Ok 12138%Z ∧
    ToString demo_ntop4 demo_ntop6 a = Ok (lit "127.0.0.1" ++ lit " @ " ++ to_string (Z.to_nat 12138)) ∧
    YieldAddr a = [2%Z; 0%Z; (12138 `div` 256)%Z; (12138 `mod` 256)%Z] ++ [127; 0; 0; 1]%Z ++ replicate 8 0%Z ∧
    YieldAddrlen a = [16; 0; 0; 0]%Z.
Proof.
  apply (NetAddress_ipv4_roundtrip demo_pton4 demo_pton6 demo_ntop4 demo_ntop6 (lit "127.0.0.1") 12138 [127; 0; 0; 1]%Z);
    [reflexivity|reflexivity|reflexivity|lia].
Defined.

Lemma NetAddress_bad_text_is_any_witness :
  ∃ a, NetAddress_ctor demo_pton4 demo_pton6 (lit "localhost") 80 Ipv4 = Ok a ∧ GetPort a = Ok 80%Z ∧
    GetIp demo_ntop4 demo_ntop6 a = Ok (lit "0.0.0.0").
Proof.
  apply (NetAddress_bad_text_is_any demo_pton4 demo_pton6 demo_ntop4 demo_ntop6 (lit "localhost") 80);
    [reflexivity|lia].
Defined.

Lemma NetAddress_ipv6_overflows_witness :
  NetAddress_ctor demo_pton4 demo_pton6 (lit "::1") 80 Ipv6 = Fail OutOfRange.
Proof.
  apply (NetAddress_ipv6_overflows demo_pton4 demo_pton6 (lit "::1") 80 (replicate 15 0%Z ++ [1%Z])); reflexivity.
Defined.
