(* ===== verification/Socket.v ===== *)
(** * [Icee::Socket] (src/include/core/socket.h, src/core/socket.cc)

    The owner of one file descriptor.  [Os] is the kernel's side: the descriptors
    open in the process, and the [close] calls made so far.  What a system call
    returns is an argument of the operation that makes it ([None] is -1), so the
    theorems hold for every outcome.

    The theorems are about ownership: what the destructor and the moves close, and
    the double close that move assignment leads to. *)

From S2P Require Import Prelude NetAddress.

Record Os := mkOs { open_fds : gset Z; closes : list Z }.

(** [close(fd)]; closing a descriptor that is not open fails with [EBADF]. *)
Definition sys_close (fd : Z) (os : Os) : Os := mkOs (open_fds os ∖ {[fd]}) (closes os ++ [fd]).
(** The kernel hands out a descriptor. *)
Definition sys_open (fd : Z) (os : Os) : Os := mkOs ({[fd]} ∪ open_fds os) (closes os).

Definition BACK_LOG : Z := 128.

(** An object is its [fd_]; -1 means none. *)
Record Socket := mkSocket { fd_ : Z }.

Definition Socket_default : Socket := mkSocket (-1).
Definition Socket_ctor (fd : Z) : Socket := mkSocket fd.

(** [Socket(Socket &&other)]: the new object and what [other] becomes. *)
Definition Socket_move (other : Socket) : Socket * Socket := (mkSocket (fd_ other), mkSocket (-1)).

(** [operator=(Socket &&other)]: [this] and [other] afterwards. *)
Definition Socket_assign (this other : Socket) (os : Os) : Socket * Socket * Os :=
  let os := if decide (fd_ this ≠ -1)%Z then sys_close (fd_ this) os else os in
  (mkSocket (fd_ other), mkSocket (fd_ this), os).

Definition Socket_dtor (this : Socket) (os : Os) : Os :=
  if decide (fd_ this ≠ -1)%Z then sys_close (fd_ this) os else os.

Definition GetFd (this : Socket) : Z := fd_ this.

(** [sys_socket]: what [socket()] returns. *)
Definition CreateByProtocol (protocol : Protocol) (sys_socket : option Z) (this : Socket) (os : Os)
    : result (Socket * Os) :=
  match sys_socket with
  | Some fd => Ok (mkSocket fd, sys_open fd os)
  | None => Fail (Thrown "Socket: socket() error")
  end.

Definition create_if_needed (address : NetAddress) (sys_socket : option Z) (this : Socket) (os : Os)
    : result (Socket * Os) :=
  if decide (fd_ this = -1)%Z then CreateByProtocol (GetProtocol address) sys_socket this os
  else mret (this, os).

Definition Connect (server_address : NetAddress) (sys_socket : option Z) (connects : bool)
    (this : Socket) (os : Os) : result (Socket * Os) :=
  '(this, os) ← create_if_needed server_address sys_socket this os;
  if connects then mret (this, os) else Fail (Thrown "Socket: connect() error").

(** The assertion reads [fd_ != 1]; the exception for a failing [setsockopt] is
    constructed and dropped. *)
Definition SetReusable (reuse_addr reuse_port : bool) (this : Socket) : result unit :=
  if decide (fd_ this ≠ 1)%Z then
    (if negb reuse_addr || negb reuse_port then mret tt else mret tt)
  else Fail AssertionFailed.

Definition Bind (server_address : NetAddress) (set_reusable : bool)
    (sys_socket : option Z) (reuse_addr reuse_port binds : bool)
    (this : Socket) (os : Os) : result (Socket * Os) :=
  '(this, os) ← create_if_needed server_address sys_socket this os;
  (if set_reusable then SetReusable reuse_addr reuse_port this else mret tt);;
  if binds then mret (this, os) else Fail (Thrown "Socker: bind() error").

(** The result of [listen] is ignored. *)
Definition Listen (this : Socket) : result unit :=
  if decide (fd_ this = -1)%Z then Fail (Thrown "can not listen() with invalid fd") else mret tt.

(** [sys_accept]: the new descriptor; a failure is passed on as -1. *)
Definition Accept (sys_accept : option Z) (this : Socket) (os : Os) : result (Z * Os) :=
  if decide (fd_ this = -1)%Z then Fail (Thrown "can not accept() with invalid fd")
  else match sys_accept with
       | Some client_fd => mret (client_fd, sys_open client_fd os)
       | None => mret (-1, os)%Z
       end.

Definition O_NONBLOCK : Z := 2048.

(** [flags] is what [fcntl(F_GETFL)] returns (-1 on failure), [sets] whether
    [F_SETFL] succeeds; the result is the flags set. *)
Definition SetNonBlocking (flags : Z) (sets : bool) (this : Socket) : result Z :=
  if decide (fd_ this ≠ -1)%Z then
    if sets then mret (Z.lor flags O_NONBLOCK) else Fail (Thrown "Socker: set non blocking error")
  else Fail AssertionFailed.

Definition GetAttrs (flags : Z) (this : Socket) : result Z :=
  if decide (fd_ this ≠ -1)%Z then mret flags else Fail AssertionFailed.

(** ** Properties *)

(** C32: moving a socket by construction keeps single ownership: once the source and
    the new object are both destroyed, in either order, the descriptor was closed
    exactly once and every other descriptor is as before. *)
Theorem Socket_move_closes_once fd os (source_first : bool) :
  fd ≠ (-1)%Z →
  let '(new, source) := Socket_move (Socket_ctor fd) in
  let os' := if source_first then Socket_dtor new (Socket_dtor source os)
             else Socket_dtor source (Socket_dtor new os) in
  GetFd new = fd ∧ closes os' = closes os ++ [fd] ∧ open_fds os' = open_fds os ∖ {[fd]}.
Proof.
  intros Hfd. unfold Socket_move, Socket_ctor, Socket_dtor. cbn [fd_ GetFd].
  destruct source_first; rewrite (decide_False (P := (-1 ≠ -1)%Z)) by (by intros []);
    rewrite decide_True by done; done.
Qed.

Lemma Socket_move_closes_once_witness :
  let '(new, source) := Socket_move (Socket_ctor 5) in
  let os' := Socket_dtor new (Socket_dtor source (mkOs {[5%Z; 6%Z]} [])) in
  GetFd new = 5%Z ∧ closes os' = [] ++ [5%Z] ∧ open_fds os' = {[5%Z; 6%Z]} ∖ {[5%Z]}.
Proof. exact (Socket_move_closes_once 5 (mkOs {[5%Z; 6%Z]} []) true ltac:(lia)). Defined.

(** move assignment onto an open socket leaves the source owning the descriptor
    that was just closed.  If the kernel reuses that number before the source is
    destroyed, its destructor closes a descriptor that belongs to someone else. *)
Theorem Socket_assign_double_close this other os :
  fd_ this ≠ (-1)%Z → fd_ other ≠ (-1)%Z →
  let '(this', other', os1) := Socket_assign this other os in
  let stranger := fd_ this in
  let os2 := Socket_dtor other' (sys_open stranger os1) in
  fd_ this' = fd_ other ∧ closes os2 = closes os ++ [fd_ this; fd_ this] ∧
  stranger ∈ open_fds (sys_open stranger os1) ∧ stranger ∉ open_fds os2.
Proof.
  intros Ht Ho. unfold Socket_assign, Socket_dtor. cbn [fd_]. rewrite !decide_True by done. cbn.
  rewrite <-app_assoc. split_and!; [done|done|set_solver..].
Qed.

Lemma Socket_assign_double_close_witness :
  let '(this', other', os1) := Socket_assign (mkSocket 5) (mkSocket 6) (mkOs {[5%Z; 6%Z]} []) in
  let os2 := Socket_dtor other' (sys_open 5 os1) in
  fd_ this' = 6%Z ∧ closes os2 = [] ++ [5%Z; 5%Z] ∧
  (5%Z ∈ open_fds (sys_open 5 os1)) ∧ (5%Z ∉ open_fds os2).
Proof.
  exact (Socket_assign_double_close (mkSocket 5) (mkSocket 6) (mkOs {[5%Z; 6%Z]} [])
           ltac:(simpl; lia) ltac:(simpl; lia)).
Defined.

(** C33: how a listening socket comes about.  From an empty socket, [Bind] returns
    exactly when the kernel grants a descriptor (other than 1) and the binding,
    whatever [setsockopt] said; the descriptor is then the object's and open, and
    [Listen] accepts it; every failure of [socket] or [bind] is thrown. *)
Theorem Bind_outcome address sys_socket reuse_addr reuse_port binds os :
  (∀ fd, sys_socket = Some fd → (0 ≤ fd)%Z) →
  match Bind address true sys_socket reuse_addr reuse_port binds Socket_default os with
  | Ok (s, os') =>
      sys_socket = Some (fd_ s) ∧ fd_ s ≠ 1%Z ∧ binds = true ∧ os' = sys_open (fd_ s) os ∧ Listen s = Ok tt
  | Fail (Thrown _) => sys_socket = None ∨ binds = false
  | Fail f => f = AssertionFailed ∧ sys_socket = Some 1%Z
  end.
Proof.
  intros Hfd. unfold Bind, create_if_needed, Socket_default. cbn [fd_]. rewrite decide_True by done.
  unfold CreateByProtocol. destruct sys_socket as [fd|]; [|by left].
  specialize (Hfd fd eq_refl). mred. unfold SetReusable. cbn [fd_].
  destruct (decide (fd ≠ 1)%Z) as [Hne|Heq].
  - destruct reuse_addr, reuse_port, binds; simpl; try (by right);
      unfold Listen; cbn [fd_]; rewrite decide_False by lia; done.
  - split; [done|]. f_equal. destruct (decide (fd = 1)%Z); [done|]. by destruct Heq.
Qed.

Lemma Bind_outcome_witness :
  match Bind NetAddress_default true (Some 4%Z) false true true Socket_default (mkOs ∅ []) with
  | Ok (s, os') =>
      Some 4%Z = Some (fd_ s) ∧ fd_ s ≠ 1%Z ∧ true = true ∧ os' = sys_open (fd_ s) (mkOs ∅ []) ∧ Listen s = Ok tt
  | Fail (Thrown _) => Some 4%Z = None ∨ true = false
  | Fail f => f = AssertionFailed ∧ Some 4%Z = Some 1%Z
  end.
Proof. apply (Bind_outcome NetAddress_default (Some 4%Z) false true true (mkOs ∅ [])). intros fd [= <-]. lia. Defined.
