(* ===== verification/Reactor.v ===== *)
(** * Pollers, event loops and the acceptor
      (src/core/poller.cc, src/core/eventLooper.cc, src/core/acceptor.cc and their headers)

    The part of the server that owns connections.  A [World] holds the live
    [Connection] objects by address, the event loops, the acceptor and the kernel's
    open descriptors.  Loop 0 is the listener; the acceptor distributes to the loops
    in [event_loopers_].  The registration and dispatch modelled here are those of
    the kqueue build, the one whose [AddConnection] compiles; Epoll.v has what there
    is of the other.

    Kernel behaviour used: a descriptor handed out by [accept] is not open already;
    adding an event for a registered descriptor replaces it; closing a descriptor
    removes its registrations; only registered descriptors are reported.

    Each operation runs under the loop's [latch_], so operations of different
    threads interleave as the steps of [step].  The theorems show that in every
    reachable state each client connection is owned by exactly one loop, is
    registered there and nowhere else, and that no event is delivered to a
    destroyed connection. *)

From S2P Require Import Prelude Buffer Connection NetAddress Socket.

Abbreviation loc := positive.

(** ** Poller *)

Definition DEFAULT_EVENT_LISTENED : Z := 1024.
Definition EVFILT_READ : Z := -1.
Definition EV_ADD : Z := 1.
Definition EV_CLEAR : Z := 32.
(** [static const unsigned] *)
Definition POLL_ADD : Z := to_uint32 EVFILT_READ.
Definition POLL_READ : Z := EV_ADD.
Definition POLL_ET : Z := EV_CLEAR.

Record kevent := mkKevent { ke_filter : Z; ke_flags : Z; ke_udata : loc }.

(** [poll_events_] only carries one call's results; [registered] is the kernel's
    side of [poll_fd_]. *)
Record Poller := mkPoller { poll_fd_ : Z; poll_size_ : Z; registered : gmap Z kevent }.

Definition Poller_ctor (poll_size : Z) (sys_kqueue : option Z) : result Poller :=
  match sys_kqueue with
  | Some fd => Ok (mkPoller fd poll_size ∅)
  | None => Fail Exited
  end.

(** [~Poller] *)
Definition Poller_dtor (p : Poller) (os : Os) : Poller * Os :=
  if decide (poll_fd_ p ≠ -1)%Z then (mkPoller (-1) (poll_size_ p) ∅, sys_close (poll_fd_ p) os) else (p, os).

Definition GetPollSize (p : Poller) : Z := poll_size_ p.

(** The timeout handed to the kernel, in seconds and nanoseconds: negative values,
    including the default -1, become a poll without waiting. *)
Definition poll_timeout (timeout : Z) : Z * Z :=
  let timeout := Z.max 0 timeout in (Z.quot timeout 1000, (Z.rem timeout 1000 * 1000 * 1000)%Z).

(** ** The world *)

(** A callback of a connection: the acceptor's own, or a user's handler. *)
Inductive Callback (U : Type) := AcceptCallback | UserCallback (u : U).
Arguments AcceptCallback {_}.
Arguments UserCallback {_} _.

Record EventLooper := mkLooper {
  poller_ : Poller;
  connections_ : gmap Z loc;
  exit_ : bool
}.

Record World (U : Type) := mkWorld {
  conns : gmap loc (Connection (Callback U));
  loopers : list EventLooper;
  event_loopers_ : list nat;
  acceptor_conn_ : option loc;
  accept_callback_ : U;
  handle_callback_ : U;
  os_ : Os
}.
Arguments mkWorld {_} _ _ _ _ _ _ _.
Arguments conns {_} _.
Arguments loopers {_} _.
Arguments event_loopers_ {_} _.
Arguments acceptor_conn_ {_} _.
Arguments accept_callback_ {_} _.
Arguments handle_callback_ {_} _.
Arguments os_ {_} _.

Definition TIMEOUT : Z := 3000.

Section Reactor.
Context {U : Type}.
Implicit Types w : World U.

Definition with_conns f w : World U :=
  mkWorld (f (conns w)) (loopers w) (event_loopers_ w) (acceptor_conn_ w) (accept_callback_ w) (handle_callback_ w) (os_ w).
Definition with_loopers f w : World U :=
  mkWorld (conns w) (f (loopers w)) (event_loopers_ w) (acceptor_conn_ w) (accept_callback_ w) (handle_callback_ w) (os_ w).
Definition with_os f w : World U :=
  mkWorld (conns w) (loopers w) (event_loopers_ w) (acceptor_conn_ w) (accept_callback_ w) (handle_callback_ w) (f (os_ w)).

Definition deref_conn (p : loc) : stM (World U) (Connection (Callback U)) := λ w,
  match conns w !! p with Some c => Ok (c, w) | None => Fail DanglingPointer end.
Definition deref_looper (l : nat) : stM (World U) EventLooper := λ w,
  match loopers w !! l with Some x => Ok (x, w) | None => Fail DanglingPointer end.

Definition set_registered (f : gmap Z kevent → gmap Z kevent) (x : EventLooper) : EventLooper :=
  mkLooper (mkPoller (poll_fd_ (poller_ x)) (poll_size_ (poller_ x)) (f (registered (poller_ x))))
    (connections_ x) (exit_ x).
Definition set_connections (f : gmap Z loc → gmap Z loc) (x : EventLooper) : EventLooper :=
  mkLooper (poller_ x) (f (connections_ x)) (exit_ x).

(** [std::make_unique<Connection>] *)
Definition new_connection (c : Connection (Callback U)) : stM (World U) loc := λ w,
  let p := fresh (dom (conns w)) in Ok (p, with_conns (insert p c) w).

(** [~Connection] runs [~Socket], which closes the descriptor; the kernel forgets
    its registrations. *)
Definition destroy_connection (p : loc) : stM (World U) unit :=
  c ← deref_conn p;
  modify (with_conns (delete p));;
  modify (with_os (Socket_dtor (Socket_ctor (Connection.GetFd c))));;
  modify (with_loopers (fmap (set_registered (delete (Connection.GetFd c))))).

(** [Poller::AddConnection]; [adds]: the [kevent] call succeeds. *)
Definition Poller_AddConnection (adds : bool) (l : nat) (p : loc) : stM (World U) unit :=
  c ← deref_conn p;
  ensure AssertionFailed (bool_decide (Connection.GetFd c ≠ (-1)%Z));;
  ensure AssertionFailed adds;;
  deref_looper l;;
  modify (with_loopers (alter (set_registered
    (insert (Connection.GetFd c) (mkKevent (wrap_s 16 POLL_ADD) (wrap_u 16 (GetEvents c)) p))) l)).

(** [Poller::Poll]: [ready] are the reported descriptors ([None]: the call failed).
    Each event's [udata] is dereferenced to set its [revents_]. *)
Definition Poll_one (l : nat) (fd : Z) : stM (World U) loc :=
  x ← deref_looper l;
  match registered (poller_ x) !! fd with
  | None => mthrow OutOfRange
  | Some e =>
      c ← deref_conn (ke_udata e);
      modify (with_conns (insert (ke_udata e) (SetRevents c (to_uint32 (ke_filter e)))));;
      mret (ke_udata e)
  end.

Fixpoint Poll_all (l : nat) (ready : list Z) : stM (World U) (list loc) :=
  match ready with
  | [] => mret []
  | fd :: ready => p ← Poll_one l fd; ps ← Poll_all l ready; mret (p :: ps)
  end.

Definition Poll (l : nat) (ready : option (list Z)) : stM (World U) (list loc) :=
  match ready with None => mthrow Exited | Some fds => Poll_all l fds end.

(** ** EventLooper *)

Definition AddAcceptor (adds : bool) (l : nat) (accept_conn : loc) : stM (World U) unit :=
  Poller_AddConnection adds l accept_conn.

(** [connections_.insert] keeps an existing entry; the new object is then destroyed
    with the pair that was not inserted. *)
Definition AddConnection (adds : bool) (l : nat) (new_conn : loc) : stM (World U) unit :=
  Poller_AddConnection adds l new_conn;;
  c ← deref_conn new_conn;
  x ← deref_looper l;
  match connections_ x !! Connection.GetFd c with
  | Some _ => destroy_connection new_conn
  | None => modify (with_loopers (alter (set_connections (insert (Connection.GetFd c) new_conn)) l))
  end.

Definition DeleteConnection (l : nat) (fd : Z) : stM (World U) bool :=
  x ← deref_looper l;
  match connections_ x !! fd with
  | None => mret false
  | Some p =>
      modify (with_loopers (alter (set_connections (delete fd)) l));;
      destroy_connection p;;
      mret true
  end.

Definition SetExit (l : nat) : stM (World U) unit :=
  deref_looper l;;
  modify (with_loopers (alter (λ x, mkLooper (poller_ x) (connections_ x) true) l)).

(** ** Acceptor *)

(** What the system calls of one accept return. *)
Record accept_env := mkAcceptEnv {
  ae_accept : option Z;
  ae_nonblock : bool;
  ae_rand : Z;
  ae_adds : bool
}.

Definition BaseAcceptCallback (e : accept_env) (server_conn : loc) : stM (World U) unit :=
  s ← deref_conn server_conn;
  w ← get;
  '(accept_fd, os) ← lift (Accept (ae_accept e) (Socket_ctor (Connection.GetFd s)) (os_ w));
  modify (with_os (λ _, os));;
  if decide (accept_fd = -1)%Z then mret tt
  else
    lift (SetNonBlocking 0 (ae_nonblock e) (Socket_ctor accept_fd));;
    w ← get;
    let c := Connection_ctor accept_fd in
    let c := SetEvents c (Z.lor POLL_ET POLL_READ) in
    let c := SetCallback c (UserCallback (handle_callback_ w)) in
    ensure DivisionByZero (bool_decide (event_loopers_ w ≠ []));;
    let index := Z.to_nat (Z.rem (ae_rand e) (size_of (event_loopers_ w))) in
    match event_loopers_ w !! index with
    | None => mthrow OutOfRange
    | Some l =>
        p ← new_connection (SetLooper c l);
        AddConnection (ae_adds e) l p
    end.

Definition SetCustomAcceptCallback (custom_accept_callback : U) : stM (World U) unit :=
  modify (λ w, mkWorld (conns w) (loopers w) (event_loopers_ w) (acceptor_conn_ w) custom_accept_callback
                 (handle_callback_ w) (os_ w));;
  w ← get;
  match acceptor_conn_ w with
  | None => mthrow NullPointer
  | Some p => c ← deref_conn p; modify (with_conns (insert p (SetCallback c AcceptCallback)))
  end.

Definition SetCustomHandleCallback (custom_handle_callback : U) : stM (World U) unit :=
  modify (λ w, mkWorld (conns w) (loopers w) (event_loopers_ w) (acceptor_conn_ w) (accept_callback_ w)
                 custom_handle_callback (os_ w)).

Definition GetCustomAcceptCallback w : U := accept_callback_ w.
Definition GetCustomHandleCallback w : U := handle_callback_ w.
Definition GetAcceptorConnection w : option loc := acceptor_conn_ w.

(** [noop]: the empty lambda the constructor installs. *)
Definition Acceptor_ctor (noop : U) (listener : nat) (reactors : list nat) (server_address : NetAddress)
    (sys_socket : option Z) (reuse_addr reuse_port binds adds : bool) : stM (World U) unit :=
  w ← get;
  '(acceptor_socket, os) ← lift (Bind server_address true sys_socket reuse_addr reuse_port binds Socket_default (os_ w));
  lift (Listen acceptor_socket);;
  p ← new_connection (SetLooper (SetEvents (Connection_ctor (Socket.GetFd acceptor_socket)) POLL_READ) listener);
  modify (λ w, mkWorld (conns w) (loopers w) reactors (Some p) (accept_callback_ w) (handle_callback_ w) os);;
  AddAcceptor adds listener p;;
  SetCustomAcceptCallback noop;;
  SetCustomHandleCallback noop.

(** ** Dispatch *)

(** What a user's handler did with its connection: left it (with other buffers), or
    called [DeleteConnection] for it on its loop, as the handlers of this repository
    do on the last line they touch it. *)
Inductive outcome :=
  | Kept (read write : Buffer)
  | Dropped.

Definition run_handler (o : outcome) (p : loc) : stM (World U) unit :=
  c ← deref_conn p;
  match o with
  | Kept r b => modify (with_conns (insert p (with_write_buffer (with_read_buffer c r) b)))
  | Dropped =>
      match GetLooper c with
      | None => mthrow NullPointer
      | Some l => DeleteConnection l (Connection.GetFd c);; mret tt
      end
  end.

(** [it->GetCallback()()]; calling an empty [std::function] throws.  The acceptor's
    callback accepts a client and then runs the user's accept callback. *)
Definition run_callback (p : loc) (e : accept_env) (o : outcome) : stM (World U) unit :=
  c ← deref_conn p;
  match GetCallback c with
  | None => mthrow (Thrown "std::bad_function_call")
  | Some AcceptCallback => BaseAcceptCallback e p;; run_handler o p
  | Some (UserCallback _) => run_handler o p
  end.

(** ** The threads

    Each loop's thread alternates between [Poll], which yields raw pointers to the
    ready connections, and running their callbacks one by one.  [pending] holds, per
    loop, the pointers still to be run. *)
Record System := mkSystem { world : World U; pending : list (list loc) }.

(** [ready]: what [kevent] reports; [None] where it fails, and the program exits. *)
Definition poll_step (l : nat) (ready : option (list Z)) (s : System) : result System :=
  match loopers (world s) !! l, pending s !! l with
  | Some x, Some [] =>
      if exit_ x then Ok s
      else '(ps, w) ← Poll l ready (world s); mret (mkSystem w (<[l := ps]> (pending s)))
  | _, _ => Ok s
  end.

Definition callback_step (l : nat) (e : accept_env) (o : outcome) (s : System) : result System :=
  match pending s !! l with
  | Some (p :: ps) =>
      '(_, w) ← run_callback p e o (world s); mret (mkSystem w (<[l := ps]> (pending s)))
  | _ => Ok s
  end.

(** What the kernel may report to loop [l]: registered descriptors, once each. *)
Definition may_report (l : nat) (ready : list Z) (s : System) : Prop :=
  NoDup ready ∧ ∀ x, loopers (world s) !! l = Some x → Forall (λ fd, is_Some (registered (poller_ x) !! fd)) ready.

(** What [accept] and the calls after it may return. *)
Definition may_accept (e : accept_env) (s : System) : Prop :=
  (∀ fd, ae_accept e = Some fd → (0 ≤ fd)%Z ∧ fd ∉ open_fds (os_ (world s))) ∧
  ae_nonblock e = true ∧ ae_adds e = true ∧ (0 ≤ ae_rand e)%Z.

Inductive step : System → System → Prop :=
  | step_poll l ready s s' :
      may_report l ready s → poll_step l (Some ready) s = Ok s' → step s s'
  | step_callback l e o s s' :
      may_accept e s → callback_step l e o s = Ok s' → step s s'.

(** ** The ownership invariant *)

(** The loop [l] owns the live connection [p]: it is registered there under its
    descriptor and, unless it is the acceptor's, stored in the loop's map. *)
Record owned (w : World U) (a p : loc) (c : Connection (Callback U)) (l : nat) (x : EventLooper) : Prop := {
  ow_looper : owner_looper_ c = Some l;
  ow_loopers : loopers w !! l = Some x;
  ow_registered : ke_udata <$> registered (poller_ x) !! socket_ c = Some p;
  ow_stored : p ≠ a → connections_ x !! socket_ c = Some p;
  ow_callback : if decide (p = a) then call_back_ c = Some AcceptCallback
                else ∃ u, call_back_ c = Some (UserCallback u)
}.

Record WFw (w : World U) (a : loc) : Prop := {
  ww_acceptor : acceptor_conn_ w = Some a;
  ww_live : is_Some (conns w !! a);
  ww_owned p c : conns w !! p = Some c → ∃ l x, owned w a p c l x;
  ww_stored l x fd p :
    loopers w !! l = Some x → connections_ x !! fd = Some p →
    p ≠ a ∧ ∃ c, conns w !! p = Some c ∧ socket_ c = fd ∧ owner_looper_ c = Some l;
  ww_registered l x fd e :
    loopers w !! l = Some x → registered (poller_ x) !! fd = Some e →
    ∃ c, conns w !! ke_udata e = Some c ∧ socket_ c = fd ∧ owner_looper_ c = Some l;
  ww_open p c : conns w !! p = Some c → socket_ c ∈ open_fds (os_ w) ∧ (0 ≤ socket_ c)%Z;
  ww_distinct p q c d : conns w !! p = Some c → conns w !! q = Some d → socket_ c = socket_ d → p = q;
  ww_targets : event_loopers_ w ≠ [] ∧ Forall (λ l, is_Some (loopers w !! l)) (event_loopers_ w)
}.

(** The pointers a loop's thread still holds are live, its own, and distinct. *)
Definition pending_ok (w : World U) (l : nat) (ps : list loc) : Prop :=
  NoDup ps ∧ Forall (λ p, ∃ c, conns w !! p = Some c ∧ owner_looper_ c = Some l) ps.

Definition WF (s : System) : Prop :=
  (∃ a, WFw (world s) a) ∧ ∀ l ps, pending s !! l = Some ps → pending_ok (world s) l ps.

(** ** Lemmas: changes that keep every connection's identity *)

Definition same_id (c d : Connection (Callback U)) : Prop :=
  socket_ d = socket_ c ∧ owner_looper_ d = owner_looper_ c ∧ call_back_ d = call_back_ c.

(** [w'] is [w] up to the buffers and events of its connections. *)
Record similar (w w' : World U) : Prop := {
  sm_conns p : option_Forall2 same_id (conns w !! p) (conns w' !! p);
  sm_loopers : loopers w' = loopers w;
  sm_targets : event_loopers_ w' = event_loopers_ w;
  sm_acceptor : acceptor_conn_ w' = acceptor_conn_ w;
  sm_os : os_ w' = os_ w
}.

#[local] Instance same_id_refl : Reflexive same_id.
Proof. by intros c. Qed.

#[local] Instance similar_refl : Reflexive similar.
Proof. intros w. split; [|done..]. intros p. destruct (conns w !! p); by constructor. Qed.

#[local] Instance similar_trans : Transitive similar.
Proof.
  intros w1 w2 w3 [C1 L1 T1 A1 O1] [C2 L2 T2 A2 O2]. split; [|congruence..].
  intros p. specialize (C1 p). specialize (C2 p).
  destruct C1 as [c d Hcd|]; inversion C2 as [? e Hde|]; simplify_eq; constructor.
  destruct Hcd as (?&?&?), Hde as (?&?&?). split_and!; congruence.
Qed.

Lemma similar_forth w w' p c :
  similar w w' → conns w !! p = Some c → ∃ c', conns w' !! p = Some c' ∧ same_id c c'.
Proof. intros [C _ _ _ _] Hp. specialize (C p). rewrite Hp in C. inversion C; eauto. Qed.

Lemma similar_back w w' p c' :
  similar w w' → conns w' !! p = Some c' → ∃ c, conns w !! p = Some c ∧ same_id c c'.
Proof. intros [C _ _ _ _] Hp. specialize (C p). rewrite Hp in C. inversion C; eauto. Qed.

Lemma similar_update w p c c' :
  conns w !! p = Some c → same_id c c' → similar w (with_conns (insert p c') w).
Proof.
  intros Hp Hid. split; try done. intros q. cbn. destruct (decide (q = p)) as [->|Hne].
  - rewrite Hp, lookup_insert_eq. by constructor.
  - rewrite lookup_insert_ne by done. destruct (conns w !! q); by constructor.
Qed.

Lemma WFw_similar w w' a : similar w w' → WFw w a → WFw w' a.
Proof.
  intros S [Ha Hl Ho Hs Hr Hop Hd Ht]. pose proof S as [_ L T A O].
  split; rewrite ?L, ?T, ?A, ?O; try done.
  - destruct Hl as [c Hc]. by destruct (similar_forth _ _ _ _ S Hc) as (c' & Hc' & _); eauto.
  - intros p c' (c & Hc & Hsk & Hlo & Hcb)%(similar_back _ _ _ _ S).
    destruct (Ho p c Hc) as (l & x & [H1 H2 H3 H4 H5]). exists l, x.
    split; rewrite ?L, ?Hsk, ?Hlo, ?Hcb; done.
  - intros l x fd p Hx Hp. destruct (Hs l x fd p Hx Hp) as (Hne & c & Hc & Hsk & Hlo). split; [done|].
    destruct (similar_forth _ _ _ _ S Hc) as (c' & Hc' & Hsk' & Hlo' & _). exists c'. by rewrite Hsk', Hlo'.
  - intros l x fd e Hx He. destruct (Hr l x fd e Hx He) as (c & Hc & Hsk & Hlo).
    destruct (similar_forth _ _ _ _ S Hc) as (c' & Hc' & Hsk' & Hlo' & _). exists c'. by rewrite Hsk', Hlo'.
  - intros p c' (c & Hc & Hsk & _)%(similar_back _ _ _ _ S). rewrite Hsk. by apply (Hop p).
  - intros p q c' d' (c & Hc & Hsk & _)%(similar_back _ _ _ _ S) (d & Hd' & Hsk' & _)%(similar_back _ _ _ _ S).
    rewrite Hsk, Hsk'. by apply Hd.
Qed.

(** [w'] is [w] up to the [revents_] of its connections. *)
Record polled (w w' : World U) : Prop := {
  pl_conns p : option_Forall2 (λ c d, ∃ r, d = SetRevents c r) (conns w !! p) (conns w' !! p);
  pl_loopers : loopers w' = loopers w;
  pl_targets : event_loopers_ w' = event_loopers_ w;
  pl_acceptor : acceptor_conn_ w' = acceptor_conn_ w;
  pl_accept : accept_callback_ w' = accept_callback_ w;
  pl_handle : handle_callback_ w' = handle_callback_ w;
  pl_os : os_ w' = os_ w
}.

#[export] Instance polled_refl : Reflexive polled.
Proof.
  intros w. split; [|done..]. intros p. destruct (conns w !! p) as [c|]; constructor.
  exists (revents_ c). by destruct c.
Qed.

#[export] Instance polled_trans : Transitive polled.
Proof.
  intros w1 w2 w3 [C1 L1 T1 A1 B1 D1 O1] [C2 L2 T2 A2 B2 D2 O2]. split; [|congruence..].
  intros p. specialize (C1 p). specialize (C2 p).
  destruct C1 as [c d [r ->]|]; inversion C2 as [? e [r' ->]|]; simplify_eq; constructor. by exists r'.
Qed.

Lemma polled_similar w w' : polled w w' → similar w w'.
Proof.
  intros [C L T A _ _ O]. split; [|done..]. intros p. destruct (C p) as [c d [r ->]|]; by constructor.
Qed.

Lemma polled_update w p c r :
  conns w !! p = Some c → polled w (with_conns (insert p (SetRevents c r)) w).
Proof.
  intros Hp. split; try done. intros q. cbn. destruct (decide (q = p)) as [->|Hne].
  - rewrite Hp, lookup_insert_eq. constructor. by exists r.
  - rewrite lookup_insert_ne by done. destruct (conns w !! q) as [d|]; constructor. exists (revents_ d). by destruct d.
Qed.

Lemma polled_back w w' p c' :
  polled w w' → conns w' !! p = Some c' → ∃ c r, conns w !! p = Some c ∧ c' = SetRevents c r.
Proof. intros [C _ _ _ _ _ _] Hp. specialize (C p). rewrite Hp in C. inversion C as [? ? [r ->]|]; eauto. Qed.

Lemma pending_similar w w' l ps : similar w w' → pending_ok w l ps → pending_ok w' l ps.
Proof.
  intros S [Hnd Hf]. split; [done|]. eapply Forall_impl; [exact Hf|]. intros p (c & Hc & Hlo).
  destruct (similar_forth _ _ _ _ S Hc) as (c' & Hc' & _ & Hlo' & _). exists c'. by rewrite Hlo'.
Qed.

(** ** Lemmas: polling *)

Lemma Poll_one_run w a l x fd e :
  WFw w a → loopers w !! l = Some x → registered (poller_ x) !! fd = Some e →
  ∃ w', Poll_one l fd w = Ok (ke_udata e, w') ∧ polled w w'.
Proof.
  intros WF Hx He. destruct (ww_registered _ _ WF _ _ _ _ Hx He) as (c & Hc & _).
  unfold Poll_one, deref_looper. mred. rewrite Hx, He. unfold deref_conn. rewrite Hc.
  eexists. split; [reflexivity|]. by apply polled_update.
Qed.

Lemma Poll_all_run w a l x ready :
  WFw w a → loopers w !! l = Some x → NoDup ready →
  Forall (λ fd, is_Some (registered (poller_ x) !! fd)) ready →
  ∃ ps w', Poll_all l ready w = Ok (ps, w') ∧ polled w w' ∧ pending_ok w l ps ∧
    Forall2 (λ fd p, ke_udata <$> registered (poller_ x) !! fd = Some p) ready ps.
Proof.
  intros WF Hx Hnd Hreg. revert w WF Hx. induction Hreg as [|fd ready [e He] Hreg IH]; intros w WF Hx.
  { exists [], w. split; [done|]. split; [done|]. split; [|done]. by split; [apply NoDup_nil|]. }
  apply NoDup_cons in Hnd as [Hfd Hnd].
  destruct (Poll_one_run w a l x fd e WF Hx He) as (w1 & H1 & S1).
  pose proof (WFw_similar _ _ _ (polled_similar _ _ S1) WF) as WF1.
  destruct (IH Hnd w1 WF1) as (ps & w2 & H2 & S2 & _ & F2); [by rewrite (pl_loopers _ _ S1)|].
  exists (ke_udata e :: ps), w2. cbn [Poll_all]. mstep H1. mstep H2.
  split; [done|]. split; [by etrans|].
  assert (Forall2 (λ fd p, ke_udata <$> registered (poller_ x) !! fd = Some p) (fd :: ready) (ke_udata e :: ps)) as F.
  { constructor; [by rewrite He|done]. }
  split; [|done].
  assert (∀ fd' p, ke_udata <$> registered (poller_ x) !! fd' = Some p →
            ∃ c, conns w !! p = Some c ∧ socket_ c = fd' ∧ owner_looper_ c = Some l) as Hlive.
  { intros fd' p (e' & He' & ->)%fmap_Some. by apply (ww_registered _ _ WF l x). }
  split.
  - clear -F Hnd Hfd Hlive. assert (NoDup (fd :: ready)) as Hnd' by (by apply NoDup_cons).
    clear Hfd Hnd. remember (fd :: ready) as fds. remember (ke_udata e :: ps) as qs. clear Heqfds Heqqs.
    induction F as [|fd' p fds qs Hp F IH]; [by apply NoDup_nil|].
    apply NoDup_cons in Hnd' as [Hn Hnd]. apply NoDup_cons. split; [|by apply IH].
    intros Hin. apply list_elem_of_lookup in Hin as [i Hi].
    destruct (Forall2_lookup_r _ _ _ _ _ F Hi) as (fd2 & Hfd2 & Hp2).
    destruct (Hlive _ _ Hp) as (c & Hc & Hsk & _), (Hlive _ _ Hp2) as (c2 & Hc2 & Hsk2 & _).
    apply Hn. simplify_eq. by eapply list_elem_of_lookup_2.
  - apply Forall_forall. intros p Hp. apply list_elem_of_lookup in Hp as [i Hi].
    destruct (Forall2_lookup_r _ _ _ _ _ F Hi) as (fd' & _ & Hp').
    destruct (Hlive _ _ Hp') as (c & Hc & _ & Hlo). by exists c.
Qed.
(** ** Lemmas: a client comes and goes *)

Lemma lookup_alter_looper f (l : nat) (ls : list EventLooper) l' x' :
  alter f l ls !! l' = Some x' →
  ∃ x : EventLooper, ls !! l' = Some x ∧ x' = if decide (l' = l) then f x else x.
Proof.
  destruct (decide (l' = l)) as [->|Hne].
  - rewrite list_lookup_alter_eq. intros (x & Hx & ->)%fmap_Some. by exists x.
  - rewrite list_lookup_alter_ne by done. eauto.
Qed.

Lemma lookup_alter_looper_2 f (l : nat) (ls : list EventLooper) l' x :
  ls !! l' = Some x → alter f l ls !! l' = Some (if decide (l' = l) then f x else x).
Proof.
  intros Hx. destruct (decide (l' = l)) as [->|Hne].
  - by rewrite list_lookup_alter_eq, Hx.
  - by rewrite list_lookup_alter_ne.
Qed.

(** A connection [c] at [p] joins the loop [l]. *)
Definition joined (w : World U) (l : nat) (p : loc) (c : Connection (Callback U)) (e : kevent) : World U :=
  mkWorld (<[p := c]> (conns w))
    (alter (λ x, set_connections (insert (socket_ c) p) (set_registered (insert (socket_ c) e) x)) l (loopers w))
    (event_loopers_ w) (acceptor_conn_ w) (accept_callback_ w) (handle_callback_ w) (sys_open (socket_ c) (os_ w)).

Lemma WFw_joined w a l x p c e u :
  WFw w a → loopers w !! l = Some x → conns w !! p = None → owner_looper_ c = Some l →
  call_back_ c = Some (UserCallback u) → ke_udata e = p →
  (0 ≤ socket_ c)%Z → (socket_ c ∉ open_fds (os_ w)) → WFw (joined w l p c e) a.
Proof.
  intros [Ha Hl Ho Hs Hr Hop Hd [Ht1 Ht2]] Hx Hp Hlo Hcb He Hge Hfd.
  assert (∀ q d, conns w !! q = Some d → socket_ d ≠ socket_ c ∧ q ≠ p) as Hother.
  { intros q d Hq. split; [|congruence]. intros E. apply Hfd. rewrite <-E. by apply (Hop q). }
  split; cbn.
  - done.
  - destruct Hl as [ca Hca]. destruct (Hother _ _ Hca) as [_ Hne]. rewrite lookup_insert_ne by done. by exists ca.
  - intros q d [[<- <-]|[Hne Hq]]%lookup_insert_Some.
    + eexists l, _. split; [done|by apply lookup_alter_looper_2|..].
      * rewrite decide_True by done. cbn. by rewrite lookup_insert_eq, <-He.
      * intros _. rewrite decide_True by done. cbn. by rewrite lookup_insert_eq.
      * rewrite decide_False; [by exists u|]. intros ->. destruct Hl as [ca Hca]. congruence.
    + destruct (Ho q d Hq) as (l' & x' & [H1 H2 H3 H4 H5]). destruct (Hother _ _ Hq) as [Hsk _].
      eexists l', _. split; [done|by apply lookup_alter_looper_2| | |done].
      * destruct (decide (l' = l)); [cbn; rewrite lookup_insert_ne by done|]; done.
      * intros Hqa. destruct (decide (l' = l)); [cbn; rewrite lookup_insert_ne by done|]; by apply H4.
  - intros l' x' fd q (x0 & Hx0 & ->)%lookup_alter_looper Hq.
    assert (connections_ x0 !! fd = Some q ∨ (l' = l ∧ fd = socket_ c ∧ q = p)) as [Hold|(-> & -> & ->)].
    { destruct (decide (l' = l)); [|by left]. cbn in Hq. apply lookup_insert_Some in Hq as [[<- <-]|[_ Hq]]; auto. }
    + destruct (Hs _ _ _ _ Hx0 Hold) as (Hqa & d & Hd' & Hsk & Hlo'). split; [done|]. exists d.
      destruct (Hother _ _ Hd') as [_ Hne]. by rewrite lookup_insert_ne.
    + split; [intros ->; destruct Hl; congruence|]. exists c. by rewrite lookup_insert_eq.
  - intros l' x' fd e' (x0 & Hx0 & ->)%lookup_alter_looper He'.
    assert (registered (poller_ x0) !! fd = Some e' ∨ (l' = l ∧ fd = socket_ c ∧ e' = e)) as [Hold|(-> & -> & ->)].
    { destruct (decide (l' = l)); [|by left]. cbn in He'. apply lookup_insert_Some in He' as [[<- <-]|[_ He']]; auto. }
    + destruct (Hr _ _ _ _ Hx0 Hold) as (d & Hd' & Hsk & Hlo'). exists d.
      destruct (Hother _ _ Hd') as [_ Hne]. by rewrite lookup_insert_ne.
    + exists c. by rewrite He, lookup_insert_eq.
  - intros q d [[<- <-]|[Hne Hq]]%lookup_insert_Some; [split; [set_solver|done]|].
    destruct (Hop q d Hq). split; [set_solver|done].
  - intros q1 q2 c1 c2 [[<- <-]|[Hne1 Hq1]]%lookup_insert_Some [[<- <-]|[Hne2 Hq2]]%lookup_insert_Some Hsk.
    + done.
    + by destruct (Hother _ _ Hq2) as [[] _].
    + by destruct (Hother _ _ Hq1) as [[] _].
    + by apply (Hd q1 q2 c1 c2).
  - split; [done|]. eapply Forall_impl; [exact Ht2|]. intros l' [x' Hx']. by rewrite (lookup_alter_looper_2 _ _ _ _ _ Hx').
Qed.

(** The connection [p] of loop [l] is destroyed. *)
Definition parted (w : World U) (l : nat) (p : loc) (fd : Z) : World U :=
  mkWorld (delete p (conns w))
    (set_registered (delete fd) <$> alter (set_connections (delete fd)) l (loopers w))
    (event_loopers_ w) (acceptor_conn_ w) (accept_callback_ w) (handle_callback_ w)
    (Socket_dtor (Socket_ctor fd) (os_ w)).

Lemma lookup_parted_looper w l p fd l' x' :
  loopers (parted w l p fd) !! l' = Some x' →
  ∃ x, loopers w !! l' = Some x ∧ registered (poller_ x') = delete fd (registered (poller_ x)) ∧
    connections_ x' = if decide (l' = l) then delete fd (connections_ x) else connections_ x.
Proof.
  cbn. rewrite list_lookup_fmap. intros (x1 & Hx1 & ->)%fmap_Some.
  apply lookup_alter_looper in Hx1 as (x & Hx & ->). exists x. split; [done|]. by destruct (decide (l' = l)).
Qed.

Lemma WFw_parted w a l x p fd :
  WFw w a → loopers w !! l = Some x → connections_ x !! fd = Some p → WFw (parted w l p fd) a.
Proof.
  intros WF Hx Hp. pose proof WF as [Ha Hl Ho Hs Hr Hop Hd [Ht1 Ht2]].
  destruct (Hs _ _ _ _ Hx Hp) as (Hpa & c & Hc & Hsk & Hlo).
  assert (∀ q d, conns w !! q = Some d → q ≠ p → socket_ d ≠ fd) as Hother.
  { intros q d Hq Hne E. apply Hne. apply (Hd q p d c); congruence. }
  assert (fd ≠ (-1)%Z) as Hfd by (destruct (Hop _ _ Hc); lia).
  split.
  - done.
  - cbn. by rewrite lookup_delete_ne.
  - cbn. intros q d [Hne Hq]%lookup_delete_Some. destruct (Ho q d Hq) as (l' & x' & [H1 H2 H3 H4 H5]).
    pose proof (Hother q d Hq (not_eq_sym Hne)) as Hsk'.
    eexists l', _. split; [done| | | |done].
    + cbn. rewrite list_lookup_fmap. by rewrite (lookup_alter_looper_2 _ _ _ _ _ H2).
    + cbn. destruct (decide (l' = l)); cbn; by rewrite lookup_delete_ne.
    + intros Hqa. destruct (decide (l' = l)); cbn; [rewrite lookup_delete_ne by done|]; by apply H4.
  - intros l' x' fd' q (x0 & Hx0 & _ & Hcn)%lookup_parted_looper Hq. rewrite Hcn in Hq.
    assert (connections_ x0 !! fd' = Some q ∧ (l' = l → fd' ≠ fd)) as [Hq' Hfd'].
    { destruct (decide (l' = l)); [|by split]. apply lookup_delete_Some in Hq as [? ?]. split; [done|congruence]. }
    destruct (Hs _ _ _ _ Hx0 Hq') as (Hqa & d & Hd' & Hsk' & Hlo'). split; [done|]. exists d. cbn.
    rewrite lookup_delete_ne; [done|]. intros <-. simplify_eq. by destruct Hfd'.
  - intros l' x' fd' e (x0 & Hx0 & Hrg & _)%lookup_parted_looper He. rewrite Hrg in He.
    apply lookup_delete_Some in He as [Hne He].
    destruct (Hr _ _ _ _ Hx0 He) as (d & Hd' & Hsk' & Hlo'). exists d. cbn.
    rewrite lookup_delete_ne; [done|]. intros E. rewrite <-E in Hd'. simplify_eq.
  - cbn. intros q d [Hne Hq]%lookup_delete_Some. destruct (Hop q d Hq) as [Hq1 Hq2]. split; [|done].
    unfold Socket_dtor. rewrite decide_True by done. cbn.
    pose proof (Hother q d Hq (not_eq_sym Hne)). set_solver.
  - cbn. intros q1 q2 c1 c2 [_ Hq1]%lookup_delete_Some [_ Hq2]%lookup_delete_Some. by apply Hd.
  - split; [done|]. eapply Forall_impl; [exact Ht2|]. intros l' [x' Hx']. cbn.
    rewrite list_lookup_fmap, (lookup_alter_looper_2 _ _ _ _ _ Hx'). by eexists.
Qed.
(** ** Lemmas: running callbacks *)

Lemma alter_alter_looper f g l (ls : list EventLooper) :
  alter f l (alter g l ls) = alter (λ x, f (g x)) l ls.
Proof.
  apply list_eq. intros i. destruct (decide (i = l)) as [->|Hne].
  - rewrite !list_lookup_alter_eq. by destruct (ls !! l).
  - by rewrite !list_lookup_alter_ne.
Qed.

(** Connections other than [p] survive with the same owner. *)
Definition survives (w w' : World U) (p : loc) : Prop :=
  ∀ q d, q ≠ p → conns w !! q = Some d → ∃ d', conns w' !! q = Some d' ∧ owner_looper_ d' = owner_looper_ d.

Lemma survives_similar w w' p : similar w w' → survives w w' p.
Proof. intros S q d _ Hq. destruct (similar_forth _ _ _ _ S Hq) as (d' & Hd' & _ & Hlo & _). eauto. Qed.

Lemma survives_trans w1 w2 w3 p : survives w1 w2 p → survives w2 w3 p → survives w1 w3 p.
Proof.
  intros H1 H2 q d Hne Hq. destruct (H1 q d Hne Hq) as (d1 & Hd1 & E1).
  destruct (H2 q d1 Hne Hd1) as (d2 & Hd2 & E2). exists d2. split; congruence.
Qed.

(** The descriptors [accept] may hand out. *)
Definition accept_ok (e : accept_env) (w : World U) : Prop :=
  (∀ fd, ae_accept e = Some fd → (0 ≤ fd)%Z ∧ fd ∉ open_fds (os_ w)) ∧
  ae_nonblock e = true ∧ ae_adds e = true ∧ (0 ≤ ae_rand e)%Z.

Lemma AddConnection_run w a l x p c u :
  WFw w a → loopers w !! l = Some x → conns w !! p = None → owner_looper_ c = Some l →
  call_back_ c = Some (UserCallback u) → (0 ≤ socket_ c)%Z → (socket_ c ∉ open_fds (os_ w)) →
  ∃ e, AddConnection true l p (with_conns (insert p c) (with_os (sys_open (socket_ c)) w)) = Ok (tt, joined w l p c e) ∧
    WFw (joined w l p c e) a.
Proof.
  intros WF Hx Hp Hlo Hcb Hge Hfd.
  exists (mkKevent (wrap_s 16 POLL_ADD) (wrap_u 16 (GetEvents c)) p).
  assert (connections_ x !! socket_ c = None) as Hnone.
  { destruct (connections_ x !! socket_ c) as [q|] eqn:E; [|done].
    destruct (ww_stored _ _ WF _ _ _ _ Hx E) as (_ & d & Hd & Hsk & _). exfalso. apply Hfd.
    rewrite <-Hsk. by apply (ww_open _ _ WF q). }
  split; [|by eapply WFw_joined].
  unfold AddConnection, Poller_AddConnection, deref_conn, deref_looper, Connection.GetFd. mred. cbn.
  rewrite lookup_insert_eq. rewrite bool_decide_eq_true_2 by lia. cbn. rewrite Hx. cbn.
  rewrite lookup_insert_eq. cbn. rewrite list_lookup_alter_eq, Hx. cbn. rewrite Hnone.
  unfold joined, with_loopers. cbn. by rewrite alter_alter_looper.
Qed.

(** Accepting hands the new connection to one of the reactors. *)
Lemma BaseAcceptCallback_run e w a c0 :
  WFw w a → conns w !! a = Some c0 → accept_ok e w →
  ∃ w', BaseAcceptCallback e a w = Ok (tt, w') ∧ WFw w' a ∧
    match ae_accept e with
    | None => w' = w
    | Some fd => ∃ l p c k, l ∈ event_loopers_ w ∧ conns w !! p = None ∧ w' = joined w l p c k ∧
        socket_ c = fd ∧ owner_looper_ c = Some l ∧ call_back_ c = Some (UserCallback (handle_callback_ w)) ∧
        read_buffer_ c = mkBuffer [] ∧ write_buffer_ c = mkBuffer []
    end.
Proof.
  intros WF Hc0 (Hfd & Hnb & Hadd & Hrand). unfold BaseAcceptCallback.
  mred. unfold deref_conn at 1. rewrite Hc0.
  destruct (ww_open _ _ WF _ _ Hc0) as [_ Hge].
  unfold Accept, Socket_ctor, Connection.GetFd. cbn [fd_]. rewrite decide_False by lia.
  destruct (ae_accept e) as [fd|].
  - specialize (Hfd fd eq_refl) as [Hfd Hfresh]. rewrite Hnb, Hadd.
    cbn. rewrite decide_False by lia. unfold SetNonBlocking. cbn [fd_]. rewrite decide_True by lia.
    destruct (ww_targets _ _ WF) as [Hne Hall]. cbn. rewrite bool_decide_eq_true_2 by done.
    set (index := Z.to_nat (Z.rem (ae_rand e) (size_of (event_loopers_ w)))).
    assert (index < length (event_loopers_ w)) as Hidx.
    { unfold index, size_of. assert (0 < length (event_loopers_ w)) by (destruct (event_loopers_ w); [done|simpl; lia]).
      pose proof (Z.rem_bound_pos (ae_rand e) (Z.of_nat (length (event_loopers_ w))) Hrand ltac:(lia)). lia. }
    destruct (lookup_lt_is_Some_2 _ _ Hidx) as [l Hl]. cbn. rewrite Hl.
    assert (l ∈ event_loopers_ w) as Hin by (by eapply list_elem_of_lookup_2).
    destruct (proj1 (Forall_forall _ _) Hall l Hin) as [x Hx].
    pose proof (is_fresh (dom (conns w))) as Hp. apply not_elem_of_dom in Hp.
    unfold new_connection. cbn. set (p := fresh (dom (conns w))) in *.
    match goal with |- context [insert p ?d] => set (c := d) end.
    destruct (AddConnection_run w a l x p c (handle_callback_ w)) as (k & Hrun & Hwf); [done..|].
    exists (joined w l p c k). split; [exact Hrun|]. split; [done|].
    exists l, p, c, k. done.
  - exists w. split; [|done]. cbn. rewrite decide_True by done. by destruct w.
Qed.

Lemma DeleteConnection_run w a l x p fd :
  WFw w a → loopers w !! l = Some x → connections_ x !! fd = Some p →
  DeleteConnection l fd w = Ok (true, parted w l p fd).
Proof.
  intros WF Hx Hp. destruct (ww_stored _ _ WF _ _ _ _ Hx Hp) as (_ & c & Hc & Hsk & _).
  unfold DeleteConnection, destroy_connection, deref_looper, deref_conn, Connection.GetFd. mred. rewrite Hx, Hp.
  cbn. rewrite Hc, Hsk. done.
Qed.

(** A user's handler, on any live connection. *)
Lemma run_handler_run o w a p c :
  WFw w a → conns w !! p = Some c →
  ∃ w', run_handler o p w = Ok (tt, w') ∧ WFw w' a ∧ survives w w' p ∧
    (o = Dropped → p ≠ a → conns w' !! p = None).
Proof.
  intros WF Hc. destruct (ww_owned _ _ WF p c Hc) as (l & x & [H1 H2 H3 H4 H5]).
  unfold run_handler. mred. unfold deref_conn at 1. rewrite Hc. destruct o as [r b|].
  - eexists. split; [reflexivity|].
    assert (similar w (with_conns (insert p (with_write_buffer (with_read_buffer c r) b)) w)) as S.
    { by eapply similar_update. }
    split; [by eapply WFw_similar|]. split; [by apply survives_similar|done].
  - unfold GetLooper. rewrite H1. destruct (decide (p = a)) as [->|Hne].
    + exists w. split; [|split; [done|split; [by intros q d _ Hd; exists d|done]]]. unfold DeleteConnection, deref_looper, Connection.GetFd. mred. rewrite H2.
      destruct (connections_ x !! socket_ c) as [q|] eqn:E; [exfalso|done].
      destruct (ww_stored _ _ WF _ _ _ _ H2 E) as (Hqa & d & Hd & Hsk & _). apply Hqa.
      by apply (ww_distinct _ _ WF q a d c).
    + specialize (H4 Hne). unfold Connection.GetFd. rewrite (DeleteConnection_run w a l x p (socket_ c) WF H2 H4).
      eexists. split; [reflexivity|]. split; [by eapply WFw_parted|]. split.
      * intros q d Hq Hd. exists d. cbn. by rewrite lookup_delete_ne.
      * intros _ _. cbn. by rewrite lookup_delete_eq.
Qed.

(** Any callback of a live connection. *)
Lemma run_callback_run e o w a p c :
  WFw w a → conns w !! p = Some c → accept_ok e w →
  ∃ w', run_callback p e o w = Ok (tt, w') ∧ WFw w' a ∧ survives w w' p.
Proof.
  intros WF Hc Hacc. destruct (ww_owned _ _ WF p c Hc) as (l & x & [H1 H2 H3 H4 H5]).
  unfold run_callback. mred. unfold deref_conn at 1. rewrite Hc. unfold GetCallback.
  destruct (decide (p = a)) as [->|Hne].
  - rewrite H5. destruct (BaseAcceptCallback_run e w a c WF Hc Hacc) as (w1 & Hrun1 & WF1 & Hw1).
    rewrite Hrun1.
    assert (survives w w1 a ∧ is_Some (conns w1 !! a)) as [Hs [c1 Hc1]].
    { destruct (ae_accept e) as [fd|].
      - destruct Hw1 as (l' & p' & c' & k & _ & Hp' & -> & _). split.
        + intros q d _ Hd. exists d. cbn. rewrite lookup_insert_ne; [done|congruence].
        + exists c. cbn. rewrite lookup_insert_ne; [done|congruence].
      - subst w1. split; [by intros q d _ Hd; exists d|by exists c]. }
    destruct (run_handler_run o w1 a a c1 WF1 Hc1) as (w2 & Hrun2 & WF2 & Hs2 & _).
    exists w2. split; [done|]. split; [done|]. by eapply survives_trans.
  - destruct H5 as [u Hu]. rewrite Hu.
    destruct (run_handler_run o w a p c WF Hc) as (w2 & Hrun2 & WF2 & Hs2 & _). by exists w2.
Qed.
(** ** Lemmas: steps *)

Lemma lookup_pending_insert (pend : list (list loc)) l ps l' ps' :
  <[l := ps]> pend !! l' = Some ps' → (l' = l ∧ ps' = ps) ∨ (l' ≠ l ∧ pend !! l' = Some ps').
Proof.
  intros Hl. destruct (decide (l' = l)) as [->|Hne].
  - apply list_lookup_insert_Some in Hl as [(_ & -> & _)|[? _]]; [by left|done].
  - rewrite list_lookup_insert_ne in Hl by done. by right.
Qed.

Lemma poll_step_run l ready s :
  WF s → may_report l ready s → ∃ s', poll_step l (Some ready) s = Ok s' ∧ WF s' ∧ polled (world s) (world s').
Proof.
  intros Hwf [Hnd Hrep]. pose proof Hwf as [[a WFa] Hpend]. unfold poll_step.
  destruct (loopers (world s) !! l) as [x|] eqn:Hx; [|by exists s].
  destruct (pending s !! l) as [[|q qs]|] eqn:Hp; [|by exists s..].
  destruct (exit_ x); [by exists s|].
  destruct (Poll_all_run (world s) a l x ready WFa Hx Hnd (Hrep x eq_refl)) as (ps & w' & Hrun & S & Hok & _).
  cbn [Poll]. rewrite Hrun. eexists. split; [reflexivity|]. split; [|done]. apply polled_similar in S. split.
  - exists a. by eapply WFw_similar.
  - cbn. intros l' ps' [[-> ->]|[Hne Hl']]%lookup_pending_insert.
    + by eapply pending_similar.
    + eapply pending_similar; [done|]. by apply Hpend.
Qed.

(** The thread of [l] has run the callback of [p]. *)
Lemma WF_advance s a l p ps w' :
  WF s → pending s !! l = Some (p :: ps) → WFw w' a → survives (world s) w' p →
  WF (mkSystem w' (<[l := ps]> (pending s))).
Proof.
  intros [_ Hpend] Hp WF' Hs. destruct (Hpend l (p :: ps) Hp) as [Hnd Hf].
  apply NoDup_cons in Hnd as [Hnp Hnd]. apply Forall_cons in Hf as [(c & Hc & Hlo) Hf].
  assert (∀ l' ps', pending_ok (world s) l' ps' → (p ∉ ps') → pending_ok w' l' ps') as Hkeep.
  { intros l' ps' [Hnd' Hf'] Hp'. split; [done|]. apply Forall_forall. intros q Hq.
    destruct (proj1 (Forall_forall _ _) Hf' q Hq) as (d & Hd & Hlo').
    destruct (Hs q d) as (d' & Hd' & E); [by intros ->|done|]. exists d'. split; [done|congruence]. }
  split; [by exists a|]. cbn. intros l' ps' [[-> ->]|[Hne Hl']]%lookup_pending_insert.
  - by apply Hkeep.
  - apply Hkeep; [by apply Hpend|]. intros Hin. destruct (Hpend l' ps' Hl') as [_ Hf'].
    destruct (proj1 (Forall_forall _ _) Hf' p Hin) as (d & Hd & Hlo'). congruence.
Qed.

Lemma callback_step_run l e o s :
  WF s → may_accept e s → ∃ s', callback_step l e o s = Ok s' ∧ WF s'.
Proof.
  intros Hwf Hacc. pose proof Hwf as [[a WFa] Hpend]. unfold callback_step.
  destruct (pending s !! l) as [[|p ps]|] eqn:Hp; [by exists s| |by exists s].
  destruct (Hpend l (p :: ps) Hp) as [_ [(c & Hc & _) _]%Forall_cons].
  destruct (run_callback_run e o (world s) a p c WFa Hc Hacc) as (w' & Hrun & WF' & Hs).
  rewrite Hrun. eexists. split; [reflexivity|]. by eapply WF_advance.
Qed.

Lemma step_WF s s' : step s s' → WF s → WF s'.
Proof.
  intros [l ready ? ? Hrep Hrun|l e o ? ? Hacc Hrun] Hwf.
  - destruct (poll_step_run l ready _ Hwf Hrep) as (s1 & H1 & ? & _). congruence.
  - destruct (callback_step_run l e o _ Hwf Hacc) as (s1 & H1 & ?). congruence.
Qed.

Lemma reachable_WF s s' : rtc step s s' → WF s → WF s'.
Proof. intros Hr. apply (invariant_rtc step); [apply step_WF|done]. Qed.

(** ** Properties *)

(** C8: single ownership.  From a well-formed system, after any interleaving of the
    threads' polls and callbacks: a live client connection is stored in the map of
    exactly one loop, and its descriptor is registered with that loop's poller under
    its address; no other loop and no other descriptor stores or reports it, and the
    loop is the one recorded in it; no two connections share a descriptor and every
    one of them is open; every registered event points to a live connection of the
    loop that polls it; and every pointer a thread still has to run is live and
    belongs to its loop. *)
Theorem connection_ownership s s' :
  WF s → rtc step s s' →
  let w := world s' in
  (∀ p c, conns w !! p = Some c → acceptor_conn_ w ≠ Some p →
     (∃ l x, loopers w !! l = Some x ∧ owner_looper_ c = Some l ∧ connections_ x !! socket_ c = Some p ∧
        ke_udata <$> registered (poller_ x) !! socket_ c = Some p) ∧
     (∀ l x fd, loopers w !! l = Some x →
        connections_ x !! fd = Some p ∨ ke_udata <$> registered (poller_ x) !! fd = Some p →
        fd = socket_ c ∧ owner_looper_ c = Some l)) ∧
  (∀ p q c d, conns w !! p = Some c → conns w !! q = Some d → socket_ c = socket_ d → p = q) ∧
  (∀ p c, conns w !! p = Some c → socket_ c ∈ open_fds (os_ w)) ∧
  (∀ l x fd e, loopers w !! l = Some x → registered (poller_ x) !! fd = Some e →
     ∃ c, conns w !! ke_udata e = Some c ∧ socket_ c = fd ∧ owner_looper_ c = Some l) ∧
  (∀ l ps p, pending s' !! l = Some ps → p ∈ ps →
     ∃ c, conns w !! p = Some c ∧ owner_looper_ c = Some l).
Proof.
  intros Hwf Hr w. destruct (reachable_WF _ _ Hr Hwf) as [[a WFa] Hpend]. fold w in WFa, Hpend.
  split_and!.
  - intros p c Hp Hne. assert (p ≠ a) as Hpa by (intros ->; apply Hne, (ww_acceptor _ _ WFa)).
    destruct (ww_owned _ _ WFa p c Hp) as (l & x & [H1 H2 H3 H4 H5]). split; [exists l, x; eauto|].
    intros l' x' fd Hx' [Hfd|(e & He & Hfd)%fmap_Some].
    + destruct (ww_stored _ _ WFa _ _ _ _ Hx' Hfd) as (_ & d & Hd & <- & Hlo). by simplify_eq.
    + destruct (ww_registered _ _ WFa _ _ _ _ Hx' He) as (d & Hd & <- & Hlo). by simplify_eq.
  - apply (ww_distinct _ _ WFa).
  - intros p c Hp. by apply (ww_open _ _ WFa p).
  - apply (ww_registered _ _ WFa).
  - intros l ps p Hl Hin. destruct (Hpend l ps Hl) as [_ Hf]. by apply (proj1 (Forall_forall _ _) Hf).
Qed.

(** C9: no event is ever delivered to a destroyed connection.  In every reachable
    state, polling (for whatever registered descriptors the kernel reports) and
    running the next callback (whatever the handler decides and [accept] returns)
    complete without a fault: no dangling or null pointer, no empty callback, no
    failed assertion.  The [kevent] calls succeed, and what [accept] hands out is a
    new descriptor that [fcntl] can make non-blocking. *)
Theorem dispatch_never_faults s s' :
  WF s → rtc step s s' →
  (∀ l ready, may_report l ready s' → ∃ s'', poll_step l (Some ready) s' = Ok s'') ∧
  (∀ l e o, may_accept e s' → ∃ s'', callback_step l e o s' = Ok s'').
Proof.
  intros Hwf Hr. pose proof (reachable_WF _ _ Hr Hwf) as Hwf'. split.
  - intros l ready Hrep. destruct (poll_step_run l ready s' Hwf' Hrep) as (s'' & H & _). eauto.
  - intros l e o Hacc. destruct (callback_step_run l e o s' Hwf' Hacc) as (s'' & H & _). eauto.
Qed.

(** C24: a handler that drops its connection releases it completely: the connection
    is destroyed, its descriptor closed once more than before and no longer open,
    and no loop stores it or has its descriptor registered. *)
Theorem dropped_connection_released s p c w' :
  WF s → conns (world s) !! p = Some c → acceptor_conn_ (world s) ≠ Some p →
  run_handler Dropped p (world s) = Ok (tt, w') →
  conns w' !! p = None ∧ closes (os_ w') = closes (os_ (world s)) ++ [socket_ c] ∧
  (socket_ c ∉ open_fds (os_ w')) ∧
  (∀ l x fd, loopers w' !! l = Some x → connections_ x !! fd ≠ Some p ∧ registered (poller_ x) !! socket_ c = None).
Proof.
  intros [[a WFa] _] Hc Hne Hrun. assert (p ≠ a) as Hpa by (intros ->; apply Hne, (ww_acceptor _ _ WFa)).
  destruct (ww_owned _ _ WFa p c Hc) as (l & x & [H1 H2 H3 H4 H5]). specialize (H4 Hpa).
  destruct (ww_open _ _ WFa p c Hc) as [_ Hge].
  unfold run_handler in Hrun. mred. unfold deref_conn, GetLooper, Connection.GetFd in Hrun.
  rewrite Hc, H1, (DeleteConnection_run _ _ _ _ _ _ WFa H2 H4) in Hrun. injection Hrun as <-.
  pose proof (WFw_parted _ _ _ _ _ _ WFa H2 H4) as WF'. cbn. rewrite lookup_delete_eq.
  unfold Socket_dtor. cbn [fd_ Socket_ctor]. rewrite decide_True by lia. cbn.
  split_and!; [done|done|set_solver|]. intros l' x' fd Hx'.
  split.
  - intros Hfd. destruct (ww_stored _ _ WF' l' x' fd p Hx' Hfd) as (_ & d & Hd & _). cbn in Hd.
    by rewrite lookup_delete_eq in Hd.
  - destruct (lookup_parted_looper (world s) l p (socket_ c) l' x' Hx') as (x0 & _ & -> & _).
    by rewrite lookup_delete_eq.
Qed.

(** C23: accepting distributes.  With at least one reactor, an accepted descriptor
    becomes a connection of exactly one of the acceptor's reactors, registered and
    stored there with the current user handler; when [accept] fails nothing
    changes. *)
Theorem accept_distributes s e a :
  WF s → acceptor_conn_ (world s) = Some a → may_accept e s →
  ∃ w', BaseAcceptCallback e a (world s) = Ok (tt, w') ∧
    match ae_accept e with
    | None => w' = world s
    | Some fd => ∃ l p c x, l ∈ event_loopers_ (world s) ∧ loopers w' !! l = Some x ∧
        conns (world s) !! p = None ∧ conns w' = <[p := c]> (conns (world s)) ∧ socket_ c = fd ∧
        owner_looper_ c = Some l ∧ call_back_ c = Some (UserCallback (handle_callback_ (world s))) ∧
        connections_ x !! fd = Some p ∧ ke_udata <$> registered (poller_ x) !! fd = Some p
    end.
Proof.
  intros [[a' WFa] _] Ha Hacc. rewrite (ww_acceptor _ _ WFa) in Ha. injection Ha as ->.
  destruct (ww_live _ _ WFa) as [c0 Hc0].
  destruct (BaseAcceptCallback_run e _ _ _ WFa Hc0 Hacc) as (w' & Hrun & WF' & Hw'). exists w'. split; [done|].
  destruct (ae_accept e) as [fd|]; [|done].
  destruct Hw' as (l & p & c & k & Hl & Hp & -> & Hsk & Hlo & Hcb & _).
  assert (conns (joined (world s) l p c k) !! p = Some c) as Hpc by (cbn; by rewrite lookup_insert_eq).
  destruct (ww_owned _ _ WF' p c Hpc) as (l' & x & [H1 H2 H3 H4 H5]).
  rewrite Hlo in H1. injection H1 as <-.
  exists l, p, c, x. rewrite <-Hsk. split_and!; try done. apply H4. intros ->. congruence.
Qed.

(** with no reactor (a single-core machine gives the default pool of zero
    threads) the first accepted client divides by zero. *)
Theorem accept_without_reactors e a (w : World U) c0 fd :
  event_loopers_ w = [] → conns w !! a = Some c0 → socket_ c0 ≠ (-1)%Z →
  ae_accept e = Some fd → (0 ≤ fd)%Z → ae_nonblock e = true →
  BaseAcceptCallback e a w = Fail DivisionByZero.
Proof.
  intros Hel Hc0 Hsk He Hfd Hnb. unfold BaseAcceptCallback. mred. unfold deref_conn at 1. rewrite Hc0.
  unfold Accept, Socket_ctor, Connection.GetFd. cbn [fd_]. rewrite decide_False by done. rewrite He. cbn.
  rewrite decide_False by lia. unfold SetNonBlocking. cbn [fd_]. rewrite decide_True by lia. rewrite Hnb. cbn.
  rewrite Hel. done.
Qed.
End Reactor.
