(* ===== verification/ThreadPool.v ===== *)
(** * The thread pool (src/include/core/threadSafeQueue.h, threadPool.h, joiner.h)

    A queue under a mutex and workers that poll it.  Every queue operation runs
    under [m_mtx], so the operations of different threads interleave as atomic
    steps; [step] is one of them.  [Task] is the type of the submitted functions and
    [terminates] says which of them return.

    The theorems: tasks start in submission order, none twice, and all of them as long
    as the pool runs and has a worker left; tasks still queued when the pool stops are
    never run; a task that does not return keeps the destructor waiting forever. *)

From S2P Require Import Prelude.

(** ** [ThreadSafeQueue] *)

Section Queue.
Context {T : Type}.

Definition Push (new_value : T) (m_queue : list T) : list T := m_queue ++ [new_value].

(** [TryPop(T &value)]: whether a value was popped, the value, the queue. *)
Definition TryPop (m_queue : list T) : bool * option T * list T :=
  match m_queue with
  | [] => (false, None, [])
  | front :: rest => (true, Some front, rest)
  end.

(** [TryPop()] returns a pointer, null when there is nothing. *)
Definition TryPop_ptr (m_queue : list T) : option T * list T :=
  match m_queue with [] => (None, []) | front :: rest => (Some front, rest) end.

(** Both [WaitAndPop]s: [None] while the condition variable keeps them waiting. *)
Definition WaitAndPop (m_queue : list T) : option (T * list T) :=
  match m_queue with [] => None | front :: rest => Some (front, rest) end.

Definition Empty (m_queue : list T) : bool :=
  match m_queue with [] => true | _ => false end.
End Queue.

(** ** [ThreadPool] *)

Section Pool.
Context {Task : Type} (terminates : Task → Prop).

(** A worker thread: at the head of its loop, inside a task, or returned. *)
Inductive worker := AtLoop | Running (task : Task) | Returned.

Record ThreadPool := mkPool {
  done_ : bool;
  queue_ : list Task;
  threads_ : list worker;
  (** History: the tasks submitted and those handed to a worker, in order. *)
  submitted : list Task;
  started : list Task
}.

(** [fails_at]: the thread whose creation throws, if any.  The counter is an [int]
    compared with a [uint32_t]. *)
Definition ThreadPool_ctor (thread_num : Z) (fails_at : option Z) : result ThreadPool :=
  match fails_at with
  | Some i => if (i <? thread_num)%Z && (i <? 2 ^ 31)%Z then Fail (Thrown "add thread error")
              else if (2 ^ 31 <=? thread_num)%Z then Fail SignedOverflow
              else Ok (mkPool false [] (replicate (Z.to_nat thread_num) AtLoop) [] [])
  | None => if (2 ^ 31 <=? thread_num)%Z then Fail SignedOverflow
            else Ok (mkPool false [] (replicate (Z.to_nat thread_num) AtLoop) [] [])
  end.

Definition submit (func : Task) (p : ThreadPool) : ThreadPool :=
  mkPool (done_ p) (Push func (queue_ p)) (threads_ p) (submitted p ++ [func]) (started p).

Definition GetSize (p : ThreadPool) : Z := to_int (size_of (threads_ p)).

(** The body of [~ThreadPool]; [~Joiner] then joins every thread. *)
Definition ThreadPool_dtor (p : ThreadPool) : ThreadPool :=
  mkPool true (queue_ p) (threads_ p) (submitted p) (started p).

(** [~Joiner] has returned: every thread is joined. *)
Definition joined (p : ThreadPool) : Prop := Forall (λ t, t = Returned) (threads_ p).

(** One turn of [worker_thread] for a worker at the head of its loop: leave when
    done, else pop a task or yield. *)
Definition worker_turn (i : nat) (p : ThreadPool) : ThreadPool :=
  match threads_ p !! i with
  | Some AtLoop =>
      if done_ p then mkPool (done_ p) (queue_ p) (<[i := Returned]> (threads_ p)) (submitted p) (started p)
      else match TryPop (queue_ p) with
           | (true, Some task, queue) =>
               mkPool (done_ p) queue (<[i := Running task]> (threads_ p)) (submitted p) (started p ++ [task])
           | _ => p
           end
  | _ => p
  end.

(** The task returns and the loop goes on. *)
Definition task_returns (i : nat) (p : ThreadPool) : ThreadPool :=
  match threads_ p !! i with
  | Some (Running _) => mkPool (done_ p) (queue_ p) (<[i := AtLoop]> (threads_ p)) (submitted p) (started p)
  | _ => p
  end.

Inductive step : ThreadPool → ThreadPool → Prop :=
  | step_submit func p : step p (submit func p)
  | step_dtor p : step p (ThreadPool_dtor p)
  | step_turn i p : step p (worker_turn i p)
  | step_return i task p :
      threads_ p !! i = Some (Running task) → terminates task → step p (task_returns i p).

(** ** Lemmas *)

(** Nothing is lost, repeated or overtaken. *)
Definition fifo (p : ThreadPool) : Prop := submitted p = started p ++ queue_ p.

Lemma fifo_step p p' : step p p' → fifo p → fifo p'.
Proof.
  unfold fifo. intros [func q|q|i q|i task q _ _] Hf; simpl; [|done| |].
  - unfold Push. by rewrite Hf, app_assoc.
  - unfold worker_turn. destruct (threads_ q !! i) as [[|t|]|]; [|done..].
    destruct (done_ q); [done|]. unfold TryPop. destruct (queue_ q) as [|t ts] eqn:E; [by rewrite E|].
    simpl. by rewrite Hf, <-app_assoc.
  - unfold task_returns. destruct (threads_ q !! i) as [[|t|]|]; done.
Qed.

(** Once every thread returned, no step touches the queue's head again. *)
Lemma joined_step p p' :
  step p p' → joined p ∧ done_ p = true → (joined p' ∧ done_ p' = true) ∧ started p' = started p ∧ queue_ p `prefix_of` queue_ p'.
Proof.
  intros [func q|q|i q|i task q Hi _] [Hj Hd]; simpl.
  - split_and!; [done..|]. unfold Push. by apply prefix_app_r.
  - done.
  - assert (∀ t, threads_ q !! i = Some t → t = Returned) as Hret.
    { intros t Ht. by apply (Forall_lookup_1 _ _ _ _ Hj Ht). }
    unfold worker_turn. destruct (threads_ q !! i) as [t|] eqn:E; [|done]. by rewrite (Hret t eq_refl).
  - by pose proof (Forall_lookup_1 _ _ _ _ Hj Hi).
Qed.

(** A worker inside a task that does not return stays there. *)
Lemma stuck_step p p' i task :
  ¬ terminates task → step p p' → threads_ p !! i = Some (Running task) → threads_ p' !! i = Some (Running task).
Proof.
  intros Ht [func q|q|j q|j t q Hj Htj] Hi; simpl; [done|done| |].
  - unfold worker_turn. destruct (threads_ q !! j) as [[|t|]|] eqn:Hj; [|done..].
    assert (i ≠ j) by congruence.
    destruct (done_ q); [simpl; by rewrite list_lookup_insert_ne|].
    unfold TryPop. destruct (queue_ q); simpl; [done|by rewrite list_lookup_insert_ne].
  - unfold task_returns. rewrite Hj. simpl. assert (i ≠ j) by (intros ->; congruence).
    by rewrite list_lookup_insert_ne.
Qed.

(** *** The workers empty the queue *)

(** A worker does something: it takes a task, or its task returns. *)
Inductive worker_step : ThreadPool → ThreadPool → Prop :=
  | worker_takes i p :
      done_ p = false → threads_ p !! i = Some AtLoop → queue_ p ≠ [] → worker_step p (worker_turn i p)
  | worker_finishes i task p :
      threads_ p !! i = Some (Running task) → terminates task → worker_step p (task_returns i p).

Definition busy (t : worker) : nat := match t with Running _ => 1 | _ => 0 end.

(** What is left to do: each queued task is to start and to return. *)
Definition work_left (p : ThreadPool) : nat := 2 * length (queue_ p) + sum_list_with busy (threads_ p).

Lemma busy_insert i t u ts :
  ts !! i = Some t → sum_list_with busy (<[i := u]> ts) + busy t = sum_list_with busy ts + busy u.
Proof.
  revert i. induction ts as [|t' ts IH]; intros [|i]; cbn; [done..|by intros [= ->]; lia|].
  intros Hi. rewrite <-!Nat.add_assoc. f_equal. exact (IH i Hi).
Qed.

Lemma worker_step_work p p' :
  worker_step p p' → submitted p' = submitted p ∧ done_ p' = done_ p ∧ work_left p' < work_left p.
Proof.
  unfold work_left. intros [i q Hd Hi Hq|i task q Hi _].
  - unfold worker_turn. rewrite Hi, Hd. destruct (queue_ q) as [|t ts]; [done|]. cbn.
    pose proof (busy_insert i AtLoop (Running t) (threads_ q) Hi) as E. cbn in E. split_and!; [done|done|lia].
  - unfold task_returns. rewrite Hi. cbn. pose proof (busy_insert i (Running task) AtLoop (threads_ q) Hi) as E.
    cbn in E. split_and!; [done|done|lia].
Qed.

Lemma worker_step_step p p' : worker_step p p' → step p p'.
Proof. intros [i q _ _ _|i task q Hi Ht]; [apply step_turn|by eapply step_return]. Qed.

Lemma worker_steps_work n p p' :
  nsteps worker_step n p p' → submitted p' = submitted p ∧ done_ p' = done_ p ∧ n + work_left p' ≤ work_left p.
Proof.
  induction 1 as [q|n q1 q2 q3 Hs _ (Hsub & Hd & Hw)]; [done|].
  destruct (worker_step_work _ _ Hs) as (Hsub' & Hd' & Hw'). split_and!; [congruence..|lia].
Qed.

(** While the pool runs no worker has left. *)
Definition manned (p : ThreadPool) : Prop := done_ p = false → Forall (λ t, t ≠ Returned) (threads_ p).

Lemma manned_step p p' : step p p' → manned p → manned p'.
Proof.
  unfold manned. intros [func q|q|i q|i task q _ _] Hm; simpl; [done|done| |].
  - unfold worker_turn. destruct (threads_ q !! i) as [[|t|]|]; [|done..].
    destruct (done_ q) eqn:Hd; [done|]. unfold TryPop. destruct (queue_ q); cbn; intros; [by apply Hm|].
    apply Forall_insert; [by apply Hm|done].
  - unfold task_returns. destruct (threads_ q !! i) as [[|t|]|]; [done| |done..]. cbn. intros Hd.
    apply Forall_insert; [by apply Hm|done].
Qed.

(** No worker can do anything: then there is nothing to do, or none of them comes
    back. *)
Lemma workers_stop p :
  manned p → done_ p = false → (∀ p', ¬ worker_step p p') →
  queue_ p = [] ∨ Forall (λ t, ∃ task, t = Running task ∧ ¬ terminates task) (threads_ p).
Proof.
  intros Hm Hd Hstop. destruct (queue_ p) as [|t ts] eqn:Hq; [by left|right]. apply Forall_lookup. intros i u Hu.
  destruct u as [|task|].
  - exfalso. eapply Hstop, worker_takes; [done|exact Hu|by rewrite Hq].
  - exists task. split; [done|]. intros Ht. eapply Hstop, worker_finishes; [exact Hu|done].
  - exfalso. by apply (Forall_lookup_1 _ _ _ _ (Hm Hd) Hu).
Qed.

(** ** Properties *)

(** C26: tasks start first-in first-out, none of them twice, and all of them if workers
    are left to start them.  In every state reachable from the constructor, the tasks
    submitted so far are the tasks started so far, in the same order, followed by
    those still queued.  And while the pool is not being stopped, what the workers do
    from there on comes to an end after at most [work_left] of their steps, and when
    it does every submitted task has been started, or else every worker is inside a
    task that never returns.  (For a pool that is stopped with tasks in its queue see
    [ThreadPool_drops_queued].) *)
Theorem ThreadPool_fifo thread_num p0 p :
  ThreadPool_ctor thread_num None = Ok p0 → rtc step p0 p →
  submitted p = started p ++ queue_ p ∧
  (done_ p = false →
     (∀ n p', nsteps worker_step n p p' → n ≤ work_left p) ∧
     (∀ p', rtc worker_step p p' → (∀ p'', ¬ worker_step p' p'') →
        started p' = submitted p ∨ Forall (λ t, ∃ task, t = Running task ∧ ¬ terminates task) (threads_ p'))).
Proof.
  intros Hc Hr.
  assert (fifo p0 ∧ manned p0) as [Hf0 Hm0].
  { unfold ThreadPool_ctor in Hc. case_match; [done|]. injection Hc as <-. split; [done|]. intros _.
    apply Forall_replicate. done. }
  pose proof (invariant_rtc step fifo p0 p fifo_step Hr Hf0) as Hf.
  pose proof (invariant_rtc step manned p0 p manned_step Hr Hm0) as Hm. split; [done|]. intros Hd. split.
  - intros n p' (_ & _ & Hw)%worker_steps_work. lia.
  - intros p' Hrw Hstop. pose proof Hrw as [n (Hsub & Hd' & _)%worker_steps_work]%rtc_nsteps.
    assert (rtc step p p') as Hr' by (eapply rtc_subrel; [|exact Hrw]; intros ??; apply worker_step_step).
    pose proof (invariant_rtc step fifo p p' fifo_step Hr' Hf) as Hf'.
    pose proof (invariant_rtc step manned p p' manned_step Hr' Hm) as Hm'.
    destruct (workers_stop p' Hm') as [Hq|?]; [congruence|done| |by right]. left.
    unfold fifo in Hf'. rewrite Hq, app_nil_r in Hf'. congruence.
Qed.

(** stopping the pool drops what is queued: after the destructor joined the
    threads, whatever is still in the queue stays there and nothing is started any
    more. *)
Theorem ThreadPool_drops_queued p p' :
  done_ p = true → joined p → rtc step p p' → started p' = started p ∧ queue_ p `prefix_of` queue_ p'.
Proof.
  intros Hd Hj Hr. assert (joined p ∧ done_ p = true) as H by done. clear Hd Hj.
  induction Hr as [q|q1 q2 q3 Hs _ IH]; [done|].
  destruct (joined_step q1 q2 Hs H) as (H' & Hst & Hq). destruct (IH H') as [Hst' Hq'].
  split; [congruence|by etrans].
Qed.

(** a task that does not return blocks the destructor: while some worker runs
    such a task, no state in which all threads are joined is reachable. *)
Theorem ThreadPool_stuck_task p p' i task :
  ¬ terminates task → threads_ p !! i = Some (Running task) → rtc step p p' → ¬ joined p'.
Proof.
  intros Ht Hi Hr Hj.
  assert (threads_ p' !! i = Some (Running task)) as Hi'.
  { induction Hr as [q|q1 q2 q3 Hs _ IH]; [done|]. apply IH; [|done]. by eapply stuck_step. }
  by pose proof (Forall_lookup_1 _ _ _ _ Hj Hi').
Qed.
End Pool.

(** One worker, two tasks. *)
Definition demo_pool : ThreadPool := submit 8 (submit 7 (mkPool false [] [AtLoop] [] [])).
Definition demo_pool_end : ThreadPool := task_returns 0 (worker_turn 0 (task_returns 0 (worker_turn 0 demo_pool))).

Lemma ThreadPool_fifo_witness :
  ∃ p0, ThreadPool_ctor 1 None = Ok p0 ∧ rtc (step (λ t : nat, True)) p0 demo_pool ∧
    queue_ demo_pool = [7; 8] ∧ submitted demo_pool = started demo_pool ++ queue_ demo_pool ∧
    nsteps (worker_step (λ t : nat, True)) 4 demo_pool demo_pool_end ∧ 4 ≤ work_left demo_pool ∧
    started demo_pool_end = submitted demo_pool.
Proof.
  exists (mkPool false [] [AtLoop] [] []).
  assert (rtc (step (λ t : nat, True)) (mkPool false [] [AtLoop] [] []) demo_pool) as Hr.
  { do 2 (eapply rtc_l; [apply step_submit|]). apply rtc_refl. }
  assert (nsteps (worker_step (λ t : nat, True)) 4 demo_pool demo_pool_end) as Hw.
  { do 2 (eapply nsteps_l; [apply (worker_takes _ 0); [reflexivity|reflexivity|discriminate]|];
          eapply nsteps_l; [eapply (worker_finishes _ 0); [reflexivity|exact I]|]). apply nsteps_O. }
  destruct (ThreadPool_fifo (λ t : nat, True) 1 _ _ eq_refl Hr) as [Hf Hp]. destruct (Hp eq_refl) as [Hbound Hend].
  split; [reflexivity|]. split; [exact Hr|]. split; [reflexivity|]. split; [exact Hf|]. split; [exact Hw|].
  split; [exact (Hbound 4 _ Hw)|].
  destruct (Hend demo_pool_end) as [H|H]; [by apply rtc_nsteps; exists 4| |exact H|].
  - intros p' Hs. inversion Hs as [i q Hd Hi Hq|i task q Hi Ht]; subst; [by apply Hq|].
    destruct i; cbn in Hi; [discriminate Hi|discriminate Hi].
  - exfalso. apply Forall_cons in H as [(task & Ht & _) _]. discriminate Ht.
Defined.

Lemma ThreadPool_drops_queued_witness :
  let p := mkPool true [5] [Returned] [5] [] in
  started (submit 6 p) = started p ∧ queue_ p `prefix_of` queue_ (submit 6 p).
Proof.
  apply (ThreadPool_drops_queued (λ t : nat, True) (mkPool true [5] [Returned] [5] []) (submit 6 (mkPool true [5] [Returned] [5] []))).
  - reflexivity.
  - by apply Forall_singleton.
  - eapply rtc_l; [apply step_submit|apply rtc_refl].
Defined.

(** The task is the endless loop of a reactor. *)
Lemma ThreadPool_stuck_task_witness :
  ¬ joined (ThreadPool_dtor (mkPool false [] [Running 0] [0] [0])).
Proof.
  apply (ThreadPool_stuck_task (λ t : nat, t ≠ 0) (mkPool false [] [Running 0] [0] [0])
           (ThreadPool_dtor (mkPool false [] [Running 0] [0] [0])) 0 0).
  - by intros [].
  - reflexivity.
  - eapply rtc_l; [apply step_dtor|apply rtc_refl].
Defined.
