(* ===== verification/Server.v ===== *)
(** * [Icee::IceeServer] and the program's entry (src/include/core/icee_server.h,
      [main] of src/http/http_server.cc)

    The server builds the listener loop, one reactor loop per pool thread, submits
    each reactor's [loop] to the pool and creates the acceptor.  The constructor here
    produces the [World] of Reactor.v and the pool of ThreadPool.v; [server_system]
    adds the threads, none of which has polled yet.

    [main] is modelled up to the server's start: the command line decides the
    address and the directory. *)

From S2P Require Import Prelude CppString HttpUtils Buffer Connection NetAddress Socket Reactor ThreadPool.

(** ** The number of threads *)

(** [static_cast<int>(std::thread::hardware_concurrency() - 1)], in [unsigned]. *)
Definition default_concurrency (hardware_concurrency : Z) : Z :=
  to_int (to_uint32 (hardware_concurrency - 1)).

(** [std::make_unique<ThreadPool>(concurrent_number)]: an [int] becomes a [uint32_t]. *)
Definition pool_threads (concurrent_number : Z) : Z := to_uint32 concurrent_number.

Lemma default_concurrency_cores n :
  (0 ≤ n)%Z → (n + 1 < 2 ^ 31)%Z → default_concurrency (n + 1) = n.
Proof.
  intros. unfold default_concurrency. rewrite wrap_u_id by lia. rewrite to_int_id; unfold in_int; lia.
Qed.

(** ** Construction *)

Record IceeServer (U : Type) := mkServer {
  seted_On_handle_ : bool;
  server_world : World U;
  (** The pool's tasks: the index of the reactor whose [loop] is to run. *)
  thread_pool_ : ThreadPool (Task := nat)
}.
Arguments mkServer {_} _ _ _.
Arguments seted_On_handle_ {_} _.
Arguments server_world {_} _.
Arguments thread_pool_ {_} _.

(** What the system calls of the constructor return. *)
Record server_env := mkServerEnv {
  se_listener_poll : option Z;
  se_thread_fails : option Z;
  se_reactor_polls : list (option Z);
  se_socket : option Z;
  se_reuse_addr : bool;
  se_reuse_port : bool;
  se_binds : bool;
  se_adds : bool;
  se_os : Os
}.

(** [EventLooper()] *)
Definition EventLooper_ctor (sys_poll : option Z) : result EventLooper :=
  p ← Poller_ctor DEFAULT_EVENT_LISTENED sys_poll; mret (mkLooper p ∅ false).

Fixpoint make_reactors (polls : list (option Z)) (n : nat) {struct n} : result (list EventLooper) :=
  match n with
  | 0 => mret []
  | S n =>
      match polls with
      | [] => Fail Exited
      | sys_poll :: polls =>
          x ← EventLooper_ctor sys_poll; xs ← make_reactors polls n; mret (x :: xs)
      end
  end.

Section Server.
Context {U : Type} (noop : U).

(** The loops: the listener is loop 0, reactor [i] is loop [S i]. *)
Definition IceeServer_ctor (server_address : NetAddress) (concurrent_number : Z) (e : server_env)
    : result (IceeServer U) :=
  listener ← EventLooper_ctor (se_listener_poll e);
  pool ← ThreadPool_ctor (pool_threads concurrent_number) (se_thread_fails e);
  let n := Z.to_nat (GetSize pool) in
  reactors ← make_reactors (se_reactor_polls e) n;
  let pool := foldl (λ p i, submit i p) pool (seq 1 n) in
  '(_, w) ← Acceptor_ctor noop 0 (seq 1 n) server_address (se_socket e) (se_reuse_addr e) (se_reuse_port e)
              (se_binds e) (se_adds e)
              (mkWorld ∅ (listener :: reactors) [] None noop noop (se_os e));
  mret (mkServer false w pool).

Definition OnAccept (on_accept : U) (s : IceeServer U) : result (IceeServer U) :=
  '(_, w) ← SetCustomAcceptCallback on_accept (server_world s);
  mret (mkServer (seted_On_handle_ s) w (thread_pool_ s)).

Definition OnHandle (on_handle : U) (s : IceeServer U) : result (IceeServer U) :=
  '(_, w) ← SetCustomHandleCallback on_handle (server_world s);
  mret (mkServer true w (thread_pool_ s)).

(** [Begin]: the threads of the loops, with nothing polled yet. *)
Definition Begin (s : IceeServer U) : result (System (U := U)) :=
  if seted_On_handle_ s then
    mret (mkSystem (server_world s) (replicate (length (loopers (server_world s))) []))
  else Fail (Thrown "Should specify onHandle callback function before starts").

(** ** Lemmas *)

Lemma make_reactors_run polls n :
  n ≤ length polls → Forall is_Some polls →
  ∃ xs, make_reactors polls n = Ok xs ∧ length xs = n ∧
    Forall (λ x, registered (poller_ x) = ∅ ∧ connections_ x = ∅) xs.
Proof.
  revert polls. induction n as [|n IH]; intros polls Hl Hp; [exists []; split_and!; [done|done|by apply Forall_nil]|].
  destruct polls as [|y polls]; [simpl in Hl; lia|]. apply Forall_cons in Hp as [[fd ->] Hp].
  destruct (IH polls) as (xs & Hxs & Hlen & Hf); [simpl in Hl; lia|done|].
  cbn [make_reactors]. unfold EventLooper_ctor, Poller_ctor. mred. rewrite Hxs.
  eexists. split; [reflexivity|]. split; [by simpl; rewrite Hlen|]. constructor; [by split|done].
Qed.

(** The acceptor's constructor on a world of fresh loops. *)
Lemma Acceptor_ctor_run address fd ra rp n listener reactors os :
  (0 ≤ fd)%Z → fd ≠ 1%Z → (fd ∉ open_fds os) → 0 < n → length reactors = n →
  Forall (λ x, registered (poller_ x) = ∅ ∧ connections_ x = ∅) (listener :: reactors) →
  ∃ w a, Acceptor_ctor noop 0 (seq 1 n) address (Some fd) ra rp true true
           (mkWorld ∅ (listener :: reactors) [] None noop noop os) = Ok (tt, w) ∧
    WFw w a ∧ loopers w !! 0 = Some (set_registered (insert fd (mkKevent (wrap_s 16 POLL_ADD) (wrap_u 16 POLL_READ) a)) listener) ∧
    length (loopers w) = S n ∧ event_loopers_ w = seq 1 n ∧
    (∀ p c, conns w !! p = Some c → acceptor_conn_ w = Some p) ∧ accept_callback_ w = noop.
Proof.
  intros Hfd Hne Hfresh Hn Hlen Hempty.
  set (w0 := mkWorld ∅ (listener :: reactors) [] None noop noop os).
  assert (Bind address true (Some fd) ra rp true Socket_default os = Ok (mkSocket fd, sys_open fd os)) as Hbind.
  { unfold Bind, create_if_needed, Socket_default. cbn [fd_]. rewrite decide_True by done.
    cbn. unfold SetReusable. cbn [fd_]. rewrite decide_True by done. by destruct ra, rp. }
  set (a := fresh (dom (∅ : gmap loc (Connection (Callback U))))).
  set (c := SetCallback (SetLooper (SetEvents (Connection_ctor (Callback := Callback U) fd) POLL_READ) 0) AcceptCallback).
  set (k := mkKevent (wrap_s 16 POLL_ADD) (wrap_u 16 POLL_READ) a).
  set (w := mkWorld {[ a := c ]} (set_registered (insert fd k) listener :: reactors) (seq 1 n) (Some a) noop noop (sys_open fd os)).
  assert (Acceptor_ctor noop 0 (seq 1 n) address (Some fd) ra rp true true w0 = Ok (tt, w)) as Hrun.
  { unfold Acceptor_ctor. mstep (eq_refl : get w0 = Ok (w0, w0)). cbn [os_ w0].
    rewrite Hbind. unfold Listen. mred. cbn [fd_]. rewrite decide_False by lia.
    unfold new_connection, AddAcceptor, Poller_AddConnection, deref_conn, deref_looper, SetCustomAcceptCallback,
      SetCustomHandleCallback, Connection.GetFd. mred. cbn. fold a.
    rewrite insert_empty, lookup_singleton_eq. cbn. rewrite bool_decide_eq_true_2 by lia. cbn.
    unfold deref_conn. cbn. rewrite lookup_singleton_eq. cbn. unfold with_conns, with_loopers. cbn. rewrite insert_singleton_eq. done. }
  assert (∀ p d, conns w !! p = Some d → p = a ∧ d = c) as Hconns.
  { intros p d Hp. cbn in Hp. by apply lookup_singleton_Some in Hp as [<- <-]. }
  exists w, a. split; [exact Hrun|].
  split; [|split_and!; [done|simpl; by rewrite Hlen|done|by intros p d [-> _]%Hconns|done]].
  assert (∀ l x, loopers w !! l = Some x →
            connections_ x = ∅ ∧ registered (poller_ x) = if decide (l = 0) then {[ fd := k ]} else ∅) as Hls.
  { apply Forall_cons in Hempty as [[Hr0 Hc0] Hempty]. intros [|l] x Hx; cbn in Hx.
    - injection Hx as <-. cbn. rewrite Hr0. by rewrite insert_empty.
    - destruct (Forall_lookup_1 _ _ _ _ Hempty Hx) as [Hr Hc]. done. }
  split.
  - done.
  - cbn. rewrite lookup_singleton_eq. by eexists.
  - intros p d [-> ->]%Hconns. exists 0, (set_registered (insert fd k) listener). split; try done.
    cbn. by rewrite lookup_insert_eq.
  - intros l x fd' p Hx Hp. destruct (Hls l x Hx) as [Hc _]. by rewrite Hc in Hp.
  - intros l x fd' e Hx He. destruct (Hls l x Hx) as [_ Hreg]. rewrite Hreg in He.
    case_decide as Hl; [|done]. apply lookup_singleton_Some in He as [<- <-]. subst l.
    exists c. cbn. by rewrite lookup_singleton_eq.
  - intros p d [-> ->]%Hconns. cbn. split; [set_solver|done].
  - intros p q d d' [-> ->]%Hconns [-> ->]%Hconns. done.
  - cbn. split; [destruct n; [lia|done]|]. apply Forall_forall. intros l Hl%elem_of_seq.
    apply lookup_lt_is_Some_2. cbn. rewrite Hlen. lia.
Qed.
(** The system calls the constructor makes all succeed. *)
Record env_ok (n : nat) (e : server_env) : Prop := {
  eo_listener : is_Some (se_listener_poll e);
  eo_threads : se_thread_fails e = None;
  eo_reactors : n ≤ length (se_reactor_polls e) ∧ Forall is_Some (se_reactor_polls e);
  eo_socket : ∃ fd, se_socket e = Some fd ∧ (0 ≤ fd)%Z ∧ fd ≠ 1%Z ∧ (fd ∉ open_fds (se_os e));
  eo_binds : se_binds e = true;
  eo_adds : se_adds e = true
}.

Lemma submit_all (p : ThreadPool) (ts : list nat) :
  let q := foldl (λ p i, submit i p) p ts in
  queue_ q = queue_ p ++ ts ∧ submitted q = submitted p ++ ts ∧ threads_ q = threads_ p ∧ started q = started p.
Proof.
  revert p. induction ts as [|t ts IH]; intros p q; [by rewrite !app_nil_r|].
  destruct (IH (submit t p)) as (Hq & Hs & Ht & Hst). subst q. cbn [foldl]. rewrite Hq, Hs, Ht, Hst.
  unfold submit, Push. cbn. by rewrite <-!app_assoc.
Qed.

Lemma IceeServer_ctor_run address n e :
  0 < n → (Z.of_nat n < 2 ^ 31)%Z → env_ok n e →
  ∃ s, IceeServer_ctor address (Z.of_nat n) e = Ok s ∧ seted_On_handle_ s = false ∧
    (∃ a, WFw (server_world s) a) ∧ event_loopers_ (server_world s) = seq 1 n ∧
    length (loopers (server_world s)) = S n ∧
    queue_ (thread_pool_ s) = seq 1 n ∧ threads_ (thread_pool_ s) = replicate n AtLoop ∧
    (∀ p c, conns (server_world s) !! p = Some c → acceptor_conn_ (server_world s) = Some p) ∧
    accept_callback_ (server_world s) = noop.
Proof.
  intros Hn Hlt [[lp Hlp] Htf [Hrl Hrp] (fd & Hfd & Hge & Hne & Hfr) Hb Ha].
  destruct (make_reactors_run (se_reactor_polls e) n Hrl Hrp) as (xs & Hxs & Hlen & Hempty).
  assert (pool_threads (Z.of_nat n) = Z.of_nat n) as Hpt by (apply wrap_u_id; lia).
  unfold IceeServer_ctor, EventLooper_ctor, Poller_ctor. rewrite Hlp, Htf, Hpt, Hfd, Hb, Ha.
  unfold ThreadPool_ctor. rewrite (proj2 (Z.leb_gt _ _)) by lia.
  set (pool := mkPool false [] (replicate (Z.to_nat (Z.of_nat n)) AtLoop) [] []).
  assert (Z.to_nat (GetSize pool) = n) as Hsz.
  { unfold GetSize, pool, size_of. cbn. rewrite length_replicate, Nat2Z.id.
    rewrite to_int_id by (unfold in_int; lia). apply Nat2Z.id. }
  mred. fold pool. rewrite Hsz, Hxs.
  destruct (Acceptor_ctor_run address fd (se_reuse_addr e) (se_reuse_port e) n
              (mkLooper (mkPoller lp DEFAULT_EVENT_LISTENED ∅) ∅ false) xs (se_os e))
    as (w & a & Hrun & Hwf & _ & Hlo & Hev & Hconns & Hacc); [done..|by constructor|].
  rewrite Hrun. eexists. split; [reflexivity|]. cbn [seted_On_handle_ server_world thread_pool_].
  destruct (submit_all pool (seq 1 n)) as (Hq & _ & Ht & _). rewrite Hq, Ht.
  split_and!; try done; [by exists a|]. cbn. by rewrite Nat2Z.id.
Qed.

Lemma Begin_WF (s : IceeServer U) a :
  WFw (server_world s) a → WF (mkSystem (server_world s) (replicate (length (loopers (server_world s))) [])).
Proof.
  intros Hwf. split; [by exists a|]. intros l ps [-> _]%lookup_replicate.
  split; [by apply NoDup_nil|by apply Forall_nil].
Qed.

Lemma OnHandle_WF h (s : IceeServer U) a :
  WFw (server_world s) a →
  ∃ s', OnHandle h s = Ok s' ∧ WFw (server_world s') a ∧ seted_On_handle_ s' = true ∧
    handle_callback_ (server_world s') = h ∧ loopers (server_world s') = loopers (server_world s) ∧
    event_loopers_ (server_world s') = event_loopers_ (server_world s) ∧
    conns (server_world s') = conns (server_world s) ∧
    acceptor_conn_ (server_world s') = acceptor_conn_ (server_world s) ∧
    accept_callback_ (server_world s') = accept_callback_ (server_world s).
Proof.
  intros Hwf. eexists. split; [reflexivity|]. split; [|done]. cbn [server_world].
  eapply WFw_similar; [|exact Hwf]. split; try done. intros p. cbn. destruct (conns (server_world s) !! p); by constructor.
Qed.

(** From construction to [Begin], for [server_starts] and for the programs' [main]s. *)
Lemma server_run address n e h :
  0 < n → (Z.of_nat n < 2 ^ 31)%Z → env_ok n e →
  ∃ s s' sys,
    IceeServer_ctor address (Z.of_nat n) e = Ok s ∧
    Begin s = Fail (Thrown "Should specify onHandle callback function before starts") ∧
    OnHandle h s = Ok s' ∧ Begin s' = Ok sys ∧ WF sys ∧
    handle_callback_ (world sys) = h ∧ length (loopers (world sys)) = S n ∧
    event_loopers_ (world sys) = seq 1 n ∧
    (queue_ (thread_pool_ s) = seq 1 n ∧ threads_ (thread_pool_ s) = replicate n AtLoop) ∧
    (∀ p c, conns (world sys) !! p = Some c → acceptor_conn_ (world sys) = Some p) ∧ accept_callback_ (world sys) = noop.
Proof.
  intros Hn Hlt He.
  destruct (IceeServer_ctor_run address n e Hn Hlt He) as (s & Hs & Hset & (a & Hwf) & Hev & Hlo & Hq & Ht & Hco & Hac).
  destruct (OnHandle_WF h s a Hwf) as (s' & Hs' & Hwf' & Hset' & Hh & Hlo' & Hev' & Hc' & Ha' & Hac').
  exists s, s', (mkSystem (server_world s') (replicate (length (loopers (server_world s'))) [])).
  unfold Begin. rewrite Hset, Hset'. cbn [world]. rewrite Hlo', Hev', Hlo, Hc', Ha', Hac'.
  split_and!; try done. rewrite <-Hlo, <-Hlo'. by eapply Begin_WF.
Qed.

(** ** Properties *)

(** the server starts in order.  When the system calls succeed, constructing it
    with [n > 0] threads and setting a handler gives, at [Begin], a well-formed
    system with one listener and [n] reactor loops, each reactor's [loop] queued
    once for one of the [n] workers, the acceptor distributing to exactly those
    reactors; without a handler [Begin] throws. *)
Theorem server_starts address n e h :
  0 < n → (Z.of_nat n < 2 ^ 31)%Z → env_ok n e →
  ∃ s s' sys,
    IceeServer_ctor address (Z.of_nat n) e = Ok s ∧
    Begin s = Fail (Thrown "Should specify onHandle callback function before starts") ∧
    OnHandle h s = Ok s' ∧ Begin s' = Ok sys ∧ WF sys ∧
    handle_callback_ (world sys) = h ∧ length (loopers (world sys)) = S n ∧
    event_loopers_ (world sys) = seq 1 n ∧
    queue_ (thread_pool_ s) = seq 1 n ∧ threads_ (thread_pool_ s) = replicate n AtLoop.
Proof.
  intros Hn Hlt He. destruct (server_run address n e h Hn Hlt He) as (s & s' & sys & H). exists s, s', sys. naive_solver.
Qed.
End Server.

(** the default number of reactors.  On a machine with [c] cores, 2 to 2^31, the
    pool has [c - 1] threads; with one core it has none; and where the number of
    cores is unknown (0) it would have 2^32 - 1, which no constructor survives. *)
Theorem default_threads c :
  ((2 ≤ c < 2 ^ 31)%Z → pool_threads (default_concurrency c) = (c - 1)%Z) ∧
  pool_threads (default_concurrency 1) = 0%Z ∧
  pool_threads (default_concurrency 0) = (2 ^ 32 - 1)%Z ∧
  (∀ fails_at, ¬ is_ok (ThreadPool_ctor (Task := nat) (pool_threads (default_concurrency 0)) fails_at)).
Proof.
  split_and!.
  - intros Hc. unfold pool_threads, default_concurrency.
    rewrite (wrap_u_id 32 (c - 1)) by lia. rewrite to_int_id by (unfold in_int; lia).
    apply wrap_u_id. lia.
  - reflexivity.
  - reflexivity.
  - change (pool_threads (default_concurrency 0)) with 4294967295%Z. unfold ThreadPool_ctor.
    change (2 ^ 31 <=? 4294967295)%Z with true.
    intros [i|] [p Hp]; [|done]. by destruct (_ && _).
Qed.

(** ** The command line *)

Definition is_space (c : ascii) : bool :=
  bool_decide (c = " "%char) || ((9 <=? nat_of_ascii c) && (nat_of_ascii c <=? 13)).
Definition is_digit (c : ascii) : bool := (48 <=? nat_of_ascii c) && (nat_of_ascii c <=? 57).

Fixpoint skip_spaces (s : bytes) : bytes :=
  match s with c :: s' => if is_space c then skip_spaces s' else s | [] => [] end.

Fixpoint leading_digits (s : bytes) : bytes :=
  match s with c :: s' => if is_digit c then c :: leading_digits s' else [] | [] => [] end.

(** [std::strtol(s, nullptr, 10)]: leading spaces, a sign, digits; clipped to [long]. *)
Definition strtol10 (s : bytes) : Z :=
  let s := skip_spaces s in
  let '(sign, s) :=
    match s with
    | c :: s' => if decide (c = "-"%char) then ((-1)%Z, s') else if decide (c = "+"%char) then (1%Z, s') else (1%Z, s)
    | [] => (1%Z, [])
    end in
  Z.max (- 2 ^ 63) (Z.min (2 ^ 63 - 1) (sign * Z.of_nat (numeral_value (leading_digits s)))).

(** What [main] does with its arguments: print the usage and exit, or start.  The
    check of the directory given may throw. *)
Inductive main_outcome :=
  | UsageExit (message : bytes)
  | StartServer (ip : bytes) (port : Z) (directory : bytes).

(** [args] are the arguments after the program's name. *)
Definition main (fs : filesystem) (args : list bytes) : result main_outcome :=
  let directory := lit "../http_dir/" in
  match args with
  | [] => mret (StartServer (lit "127.0.0.1") 12138 directory)
  | arg1 :: rest =>
      match rest with
      | _ :: _ :: _ => mret (UsageExit (lit "The number of argument error"))
      | _ =>
          let port := to_uint16 (strtol10 arg1) in
          if decide (port = 0)%Z then mret (UsageExit (lit "port error"))
          else match rest with
               | [arg2] =>
                   exist ← IsDirectoryExists fs arg2;
                   mret (if (exist : bool) then StartServer (lit "0.0.0.0") port arg2
                         else UsageExit (lit "directory error"))
               | _ => mret (StartServer (lit "0.0.0.0") port directory)
               end
      end
  end.

Lemma leading_digits_all s : Forall (λ c, 48 ≤ nat_of_ascii c < 58) s → leading_digits s = s.
Proof.
  induction 1 as [|c s Hc _ IH]; [done|]. cbn [leading_digits]. unfold is_digit.
  rewrite (proj2 (Nat.leb_le _ _)), (proj2 (Nat.leb_le _ _)) by lia. simpl. by rewrite IH.
Qed.

Lemma strtol10_to_string n : (Z.of_nat n < 2 ^ 63)%Z → strtol10 (to_string n) = Z.of_nat n.
Proof.
  intros Hn. pose proof (to_string_digits n) as Hd. pose proof (to_string_value n) as Hv. unfold strtol10.
  destruct (to_string n) as [|c s] eqn:E.
  { cbn in Hv. subst n. reflexivity. }
  pose proof Hd as [Hc _]%Forall_cons.
  assert (is_space c = false) as Hsp.
  { unfold is_space. apply orb_false_iff. split.
    - apply bool_decide_eq_false_2. intros ->. vm_compute in Hc. lia.
    - apply andb_false_iff. right. apply Nat.leb_gt. lia. }
  cbn [skip_spaces]. rewrite Hsp.
  rewrite decide_False by (intros ->; vm_compute in Hc; lia).
  rewrite decide_False by (intros ->; vm_compute in Hc; lia).
  rewrite leading_digits_all by done. rewrite Hv. lia.
Qed.

(** the port given on the command line is taken modulo 2^16: a numeral in the
    range 1 to 65535 starts the server on that port, on all interfaces, and any
    larger one on its remainder unless that is 0. *)
Theorem main_port fs n :
  (Z.of_nat n < 2 ^ 63)%Z →
  main fs [to_string n] =
    Ok (if decide (Z.of_nat n `mod` 65536 = 0)%Z then UsageExit (lit "port error")
        else StartServer (lit "0.0.0.0") (Z.of_nat n `mod` 65536) (lit "../http_dir/")).
Proof.
  intros Hn. unfold main. rewrite strtol10_to_string by done.
  change (to_uint16 (Z.of_nat n)) with (Z.of_nat n `mod` 65536)%Z. by case_decide.
Qed.

Lemma main_port_witness :
  main (λ _, None) [to_string (Z.to_nat 65537)] =
    Ok (if decide (Z.of_nat (Z.to_nat 65537) `mod` 65536 = 0)%Z then UsageExit (lit "port error")
        else StartServer (lit "0.0.0.0") (Z.of_nat (Z.to_nat 65537) `mod` 65536) (lit "../http_dir/")).
Proof. apply (main_port (λ _, None) (Z.to_nat 65537)). rewrite Z2Nat.id; lia. Defined.

(** ** A server of two reactors, and one client *)

Definition demo_env : server_env :=
  mkServerEnv (Some 3%Z) None [Some 4%Z; Some 5%Z] (Some 6%Z) true true true true (mkOs ∅ []).

Lemma demo_env_ok : env_ok 2 demo_env.
Proof.
  split; cbn; [by eexists|done|split; [lia|by repeat constructor; eexists]|exists 6%Z; split_and!; [done|lia|lia|set_solver]|done|done].
Qed.

Lemma server_starts_witness :
  ∃ s s' sys,
    IceeServer_ctor (U := nat) 0 NetAddress_default (Z.of_nat 2) demo_env = Ok s ∧
    Begin s = Fail (Thrown "Should specify onHandle callback function before starts") ∧
    OnHandle 7 s = Ok s' ∧ Begin s' = Ok sys ∧ WF sys ∧
    handle_callback_ (world sys) = 7 ∧ length (loopers (world sys)) = 3 ∧
    event_loopers_ (world sys) = seq 1 2 ∧
    queue_ (thread_pool_ s) = seq 1 2 ∧ threads_ (thread_pool_ s) = replicate 2 AtLoop.
Proof. apply (server_starts 0 NetAddress_default 2 demo_env 7); [lia|lia|exact demo_env_ok]. Defined.

(** The system of [server_starts], for the witnesses of Reactor.v's theorems. *)
Lemma demo_system :
  ∃ sys : System (U := nat), WF sys ∧ ∃ a c, acceptor_conn_ (world sys) = Some a ∧
    conns (world sys) !! a = Some c ∧ open_fds (os_ (world sys)) = {[6%Z]} ∧ (9%Z ∉ open_fds (os_ (world sys))).
Proof.
  destruct (IceeServer_ctor_run 0 NetAddress_default 2 demo_env) as (s & Hs & _ & (a & Hwf) & _);
    [lia|lia|exact demo_env_ok|].
  exists (mkSystem (server_world s) (replicate (length (loopers (server_world s))) [])).
  split; [by eapply Begin_WF|]. destruct (ww_live _ _ Hwf) as [c Hc]. exists a, c.
  split; [apply (ww_acceptor _ _ Hwf)|]. split; [done|].
  assert (open_fds (os_ (server_world s)) = {[6%Z]}) as Hos.
  { destruct (IceeServer_ctor 0 NetAddress_default (Z.of_nat 2) demo_env) as [s0|] eqn:E; [|done].
    injection Hs as <-. vm_compute in E. injection E as <-. vm_compute. reflexivity. }
  cbn [world]. rewrite Hos. split; [done|]. set_solver.
Qed.

Definition demo_accept : accept_env := mkAcceptEnv (Some 9%Z) true 5 true.

(** The demo server after it accepted descriptor 9. *)
Lemma demo_client :
  ∃ (sys : System (U := nat)) p c, WF sys ∧ conns (world sys) !! p = Some c ∧ acceptor_conn_ (world sys) ≠ Some p ∧
    socket_ c = 9%Z.
Proof.
  destruct demo_system as (sys & [[a' Hwf] _] & a & c0 & Ha & Hc0 & _ & H9).
  rewrite (ww_acceptor _ _ Hwf) in Ha. injection Ha as ->.
  destruct (BaseAcceptCallback_run demo_accept (world sys) a c0 Hwf Hc0) as (w' & _ & Hwf' & Hw').
  { split_and!; [|done|done|done]. intros fd [= <-]. split; [lia|done]. }
  destruct Hw' as (l & p & c & k & _ & Hp & -> & Hsk & _).
  exists (mkSystem (Reactor.joined (world sys) l p c k) []), p, c. cbn [world]. split_and!.
  - split; [by exists a|]. done.
  - cbn. by rewrite lookup_insert_eq.
  - cbn. rewrite (ww_acceptor _ _ Hwf). intros [= ->]. congruence.
  - done.
Qed.

(** A run of the demo server: the client's loop polls it and its callback runs. *)
Lemma demo_run :
  ∃ (s s1 s2 : System (U := nat)) l e o ready, WF s ∧ may_report l ready s ∧ ready ≠ [] ∧
    poll_step l (Some ready) s = Ok s1 ∧ callback_step l e o s1 = Ok s2 ∧ rtc Reactor.step s s2.
Proof.
  destruct demo_client as (sys & p & c & Hsys & Hp & _). pose proof Hsys as [[a Hwf] _].
  destruct (ww_owned _ _ Hwf p c Hp) as (l & x & [H1 H2 H3 H4 H5]).
  assert (may_report l [socket_ c] sys) as Hrep.
  { split; [apply NoDup_singleton|]. intros x' Hx'. simplify_eq. apply Forall_singleton.
    apply fmap_Some in H3 as (e & He & _). by exists e. }
  destruct (poll_step_run l [socket_ c] sys Hsys Hrep) as (s1 & Hs1 & Hwf1 & _).
  assert (may_accept (mkAcceptEnv None true 0 true) s1) as Hacc by (by split_and!).
  destruct (callback_step_run l (mkAcceptEnv None true 0 true) Dropped s1 Hwf1 Hacc) as (s2 & Hs2 & _).
  exists sys, s1, s2, l, (mkAcceptEnv None true 0 true), Dropped, [socket_ c].
  split_and!; [done..|]. eapply rtc_l; [by eapply step_poll|]. eapply rtc_l; [by eapply step_callback|]. apply rtc_refl.
Qed.

Lemma connection_ownership_witness :
  ∃ s' : System (U := nat), let w := world s' in
  (∀ p c, conns w !! p = Some c → acceptor_conn_ w ≠ Some p →
     (∃ l x, loopers w !! l = Some x ∧ owner_looper_ c = Some l ∧ connections_ x !! socket_ c = Some p ∧
        ke_udata <$> registered (poller_ x) !! socket_ c = Some p) ∧
     (∀ l x fd, loopers w !! l = Some x →
        connections_ x !! fd = Some p ∨ ke_udata <$> registered (poller_ x) !! fd = Some p →
        fd = socket_ c ∧ owner_looper_ c = Some l)) ∧
  (∀ p q c d, conns w !! p = Some c → conns w !! q = Some d → socket_ c = socket_ d → p = q) ∧
  (∀ p c, conns w !! p = Some c → socket_ c ∈ open_fds (os_ w)) ∧
  (∀ l x fd e, loopers w !! l = Some x → registered (poller_ x) !! fd = Some e →
     ∃ c, conns w !! ke_udata e = Some c ∧ socket_ c = fd ∧ owner_looper_ c = Some l) ∧
  (∀ l ps p, pending s' !! l = Some ps → p ∈ ps →
     ∃ c, conns w !! p = Some c ∧ owner_looper_ c = Some l).
Proof.
  destruct demo_run as (s & s1 & s2 & l & e & o & ready & Hwf & _ & _ & _ & _ & Hr). exists s2.
  exact (connection_ownership s s2 Hwf Hr).
Defined.

Lemma dispatch_never_faults_witness :
  ∃ s' : System (U := nat),
  (∀ l ready, may_report l ready s' → ∃ s'', poll_step l (Some ready) s' = Ok s'') ∧
  (∀ l e o, may_accept e s' → ∃ s'', callback_step l e o s' = Ok s'').
Proof.
  destruct demo_run as (s & s1 & s2 & l & e & o & ready & Hwf & _ & _ & _ & _ & Hr). exists s2.
  exact (dispatch_never_faults s s2 Hwf Hr).
Defined.

Lemma dropped_connection_released_witness :
  ∃ (s : System (U := nat)) p (c : Connection (Callback nat)) w',
  run_handler Dropped p (world s) = Ok (tt, w') ∧ socket_ c = 9%Z ∧
  conns w' !! p = None ∧ closes (os_ w') = closes (os_ (world s)) ++ [socket_ c] ∧
  (socket_ c ∉ open_fds (os_ w')) ∧
  (∀ l x fd, loopers w' !! l = Some x → connections_ x !! fd ≠ Some p ∧ registered (poller_ x) !! socket_ c = None).
Proof.
  destruct demo_client as (s & p & c & Hwf & Hp & Hne & Hsk). pose proof Hwf as [[a Hwfa] _].
  destruct (run_handler_run Dropped (world s) a p c Hwfa Hp) as (w' & Hrun & _).
  exists s, p, c, w'. split; [exact Hrun|]. split; [exact Hsk|].
  exact (dropped_connection_released s p c w' Hwf Hp Hne Hrun).
Defined.

Lemma accept_distributes_witness :
  ∃ (s : System (U := nat)) a w', BaseAcceptCallback demo_accept a (world s) = Ok (tt, w') ∧
    ∃ l p c x, l ∈ event_loopers_ (world s) ∧ loopers w' !! l = Some x ∧
        conns (world s) !! p = None ∧ conns w' = <[p := c]> (conns (world s)) ∧ socket_ c = 9%Z ∧
        owner_looper_ c = Some l ∧ call_back_ c = Some (UserCallback (handle_callback_ (world s))) ∧
        connections_ x !! 9%Z = Some p ∧ ke_udata <$> registered (poller_ x) !! 9%Z = Some p.
Proof.
  destruct demo_system as (sys & Hwf & a & c0 & Ha & Hc0 & _ & H9). exists sys, a.
  apply (accept_distributes sys demo_accept a Hwf Ha).
  split_and!; [|reflexivity|reflexivity|done]. intros fd [= <-]. split; [lia|exact H9].
Defined.

Lemma accept_without_reactors_witness :
  BaseAcceptCallback demo_accept 1%positive
    (mkWorld {[ 1%positive := Connection_ctor (Callback := Callback nat) 6 ]} [] [] (Some 1%positive) 0 0 (mkOs {[6%Z]} []))
  = Fail DivisionByZero.
Proof.
  apply (accept_without_reactors demo_accept 1%positive
    (mkWorld {[ 1%positive := Connection_ctor (Callback := Callback nat) 6 ]} [] [] (Some 1%positive) 0 0 (mkOs {[6%Z]} []))
    (Connection_ctor 6) 9);
    [reflexivity|reflexivity|simpl; lia|reflexivity|lia|reflexivity].
Defined.
