(* ===== verification/WebServer.v ===== *)
(** * The whole web server

    HttpServer.v has the handler for one connection, Reactor.v the threads that own
    the connections.  Here they are put together: the state of the process and of the
    network is a [Node]: the loops and connections, the kernel's side of every client
    socket, and the one cache all handlers share.  A step of [node_step] is data
    arriving at a socket, a loop's poll, or a loop's next callback: the acceptor's, or
    [ParseHttpRequest] on the connection.  Between two cache operations of a handler
    the other threads may use the cache ([Shared]); a handler itself inserts nothing
    but contents of files, which is what [CoherentCache] asks of its client.

    The theorems: [main] sets such a node up; every client is answered from its own
    bytes and the file system alone, whatever the other clients do and however
    the threads interleave; and no step of the server faults.  They are about the
    environment that [may_deliver], [may_report] and [may_run] describe: requests for
    what is missing or can be served, peers that take what is sent, system calls that
    succeed. *)

From S2P Require Import Prelude CppString Buffer HttpUtils Request Response Cache CacheSpec ResourceCache Connection HttpServer Serving NetAddress Socket Reactor Server.

(** ** State *)

(** The handlers: the acceptor's empty lambda, and the one of [main]. *)
Inductive WebCallback := Noop | HttpHandler.

(** A client's socket: the kernel's side, and all that was delivered to it. *)
Record Link := mkLink { lk_endpoint : Endpoint; lk_delivered : list recv_ret }.

Record Node (C : Type) := mkNode {
  n_system : System (U := WebCallback);
  n_links : gmap Z Link;
  n_cache : C
}.
Arguments mkNode {_} _ _ _.
Arguments n_system {_} _.
Arguments n_links {_} _.
Arguments n_cache {_} _.

(** The connection without its callback, as the handler's session has it. *)
Definition as_session_conn {A} (c : Connection A) : Connection unit :=
  mkConnection (owner_looper_ c) (socket_ c) (read_buffer_ c) (write_buffer_ c) (events_ c) (revents_ c) None.

Section Node.
Context {C : Type} `{CacheOps C} (fs : filesystem) (dir : bytes).

Definition n_world (n : Node C) : World WebCallback := world (n_system n).

Fixpoint delete_all (ds : list (nat * Z)) : stM (World WebCallback) unit :=
  match ds with [] => mret tt | (l, fd) :: ds => DeleteConnection l fd;; delete_all ds end.

(** The lambda of [main] on the connection [p]: the handler runs on the connection,
    its socket and the cache; then what it did takes effect. *)
Definition on_handle (clock : Z) (others : list (list cache_action)) (p : loc) (n : Node C) : result (Node C) :=
  match conns (n_world n) !! p with
  | None => Fail DanglingPointer
  | Some c =>
      match n_links n !! socket_ c with
      | None => Fail OutOfRange
      | Some lk =>
          '(_, s) ← ParseHttpRequest fs dir clock
                      (mkSession (as_session_conn c) (lk_endpoint lk) (mkShared (n_cache n) others) []);
          let c := with_write_buffer (with_read_buffer c (read_buffer_ (s_conn s))) (write_buffer_ (s_conn s)) in
          '(_, w) ← delete_all (s_deleted s) (with_conns (insert p c) (n_world n));
          mret (mkNode (mkSystem w (pending (n_system n)))
                  (<[socket_ c := mkLink (s_endpoint s) (lk_delivered lk)]> (n_links n)) (sh_cache (s_cache s)))
      end
  end.

Definition run_user (u : WebCallback) (clock : Z) (others : list (list cache_action)) (p : loc) (n : Node C)
    : result (Node C) :=
  match u with Noop => Ok n | HttpHandler => on_handle clock others p n end.

(** The callback of [p].  An accepted descriptor comes with a socket of its own:
    [plan] is what its [send] calls will return. *)
Definition node_callback (clock : Z) (e : accept_env) (plan : list send_ret) (others : list (list cache_action))
    (p : loc) (n : Node C) : result (Node C) :=
  match conns (n_world n) !! p with
  | None => Fail DanglingPointer
  | Some c =>
      match GetCallback c with
      | None => Fail (Thrown "std::bad_function_call")
      | Some AcceptCallback =>
          '(_, w) ← BaseAcceptCallback e p (n_world n);
          let links := match ae_accept e with
                       | Some fd => <[fd := mkLink (mkEndpoint [] plan [] EAGAIN) []]> (n_links n)
                       | None => n_links n
                       end in
          run_user (accept_callback_ w) clock others p (mkNode (mkSystem w (pending (n_system n))) links (n_cache n))
      | Some (UserCallback u) => run_user u clock others p n
      end
  end.

(** The [for] loop of the thread of [l]: its next callback. *)
Definition node_run (l : nat) (clock : Z) (e : accept_env) (plan : list send_ret) (others : list (list cache_action))
    (n : Node C) : result (Node C) :=
  match pending (n_system n) !! l with
  | Some (p :: ps) =>
      n' ← node_callback clock e plan others p n;
      mret (mkNode (mkSystem (n_world n') (<[l := ps]> (pending (n_system n')))) (n_links n') (n_cache n'))
  | _ => Ok n
  end.

Definition node_poll (l : nat) (ready : option (list Z)) (n : Node C) : result (Node C) :=
  s ← poll_step l ready (n_system n); mret (mkNode s (n_links n) (n_cache n)).

(** Something arrives at the socket [fd]. *)
Definition deliver (fd : Z) (r : recv_ret) (n : Node C) : Node C :=
  mkNode (n_system n)
    (alter (λ lk, mkLink (mkEndpoint (incoming (lk_endpoint lk) ++ [r]) (send_plan (lk_endpoint lk))
                            (wire (lk_endpoint lk)) (errno_ (lk_endpoint lk)))
                    (lk_delivered lk ++ [r])) fd (n_links n)) (n_cache n).

Definition data_of (rs : list recv_ret) : bytes := concat (carried <$> rs).

(** The kernel reads no more than asked, and what clients ask for is missing or a
    file the handler is meant for. *)
Definition may_deliver (fd : Z) (r : recv_ret) (n : Node C) : Prop :=
  recv_ok r ∧ ∀ lk, n_links n !! fd = Some lk → servable_data fs dir (data_of (lk_delivered lk ++ [r])).

(** The environment of a callback: what [accept] may return, a peer that takes what
    is sent, and other threads that insert only contents of files. *)
Definition may_run (e : accept_env) (plan : list send_ret) (others : list (list cache_action)) (n : Node C) : Prop :=
  may_accept e (n_system n) ∧ Forall sends_on plan ∧ Forall (Forall (action_ok fs)) others.

Inductive node_step : Node C → Node C → Prop :=
  | node_step_deliver fd r n :
      may_deliver fd r n → node_step n (deliver fd r n)
  | node_step_poll l ready n n' :
      may_report l ready (n_system n) → node_poll l (Some ready) n = Ok n' → node_step n n'
  | node_step_run l clock e plan others n n' :
      may_run e plan others n → node_run l clock e plan others n = Ok n' → node_step n n'.
End Node.

(** ** [main] *)

Section Main.
Context (inet_pton4 inet_pton6 : bytes → option (list Z)).

(** The node at the start, and the directory served. *)
Definition http_server_main (fs : filesystem) (args : list bytes) (hardware_concurrency clock : Z) (e : server_env)
    : result (Node Cache * bytes) :=
  outcome ← main fs args;
  match outcome with
  | UsageExit _ => Fail Exited
  | StartServer ip port directory =>
      address ← NetAddress_ctor inet_pton4 inet_pton6 ip port Ipv4;
      http_server ← IceeServer_ctor Noop address (default_concurrency hardware_concurrency) e;
      let cache := Cache_ctor clock INIT_CACHE_SIZE in
      http_server ← OnHandle HttpHandler http_server;
      sys ← Begin http_server;
      mret (mkNode sys ∅ cache, directory)
  end.
End Main.

(** ** The invariant *)

Section Invariant.
Context (fs : filesystem) {C : Type} `{CoherentCache fs C} (dir : bytes).
Implicit Types n : Node C.

(** A live client: everything it has been delivered was read and served, or is
    still waiting at the socket. *)
Record client_ok (links : gmap Z Link) (c : Connection (Callback WebCallback)) : Prop := {
  co_callback : call_back_ c = Some (UserCallback HttpHandler);
  co_unsent : buf_ (write_buffer_ c) = [];
  co_link : ∃ lk now, links !! socket_ c = Some lk ∧ lk_delivered lk = now ++ incoming (lk_endpoint lk) ∧
    served fs dir (data_of now) (read_buffer_ c) (wire (lk_endpoint lk)) ∧
    Forall sends_on (send_plan (lk_endpoint lk)) ∧ Forall recv_ok (lk_delivered lk) ∧
    servable_data fs dir (data_of (lk_delivered lk))
}.

(** Any socket: what was sent on it answers some of what was delivered. *)
Definition link_ok (lk : Link) : Prop :=
  answered fs dir (data_of (lk_delivered lk)) (wire (lk_endpoint lk)).

Record NodeData n : Prop := {
  ni_handle : handle_callback_ (n_world n) = HttpHandler;
  ni_accept : accept_callback_ (n_world n) = Noop;
  ni_cache : rc_ok (n_cache n);
  ni_clients p c : conns (n_world n) !! p = Some c → acceptor_conn_ (n_world n) ≠ Some p → client_ok (n_links n) c;
  ni_links fd lk : n_links n !! fd = Some lk → link_ok lk
}.

Definition NodeInv n : Prop := WF (n_system n) ∧ NodeData n.

(** A server that has accepted nobody yet. *)
Record web_start n : Prop := {
  ws_wf : WF (n_system n);
  ws_handle : handle_callback_ (n_world n) = HttpHandler;
  ws_accept : accept_callback_ (n_world n) = Noop;
  ws_cache : rc_ok (n_cache n);
  ws_conns p c : conns (n_world n) !! p = Some c → acceptor_conn_ (n_world n) = Some p;
  ws_links : n_links n = ∅
}.

Lemma web_start_inv n : web_start n → NodeInv n.
Proof.
  intros [Hwf Hh Ha Hc Hco Hl]. split; [done|]. split; try done.
  - intros p c Hp Hne. destruct Hne. by eapply Hco.
  - intros fd lk. by rewrite Hl.
Qed.

(** ** Lemmas: clients and links *)

Lemma data_of_app rs1 rs2 : data_of (rs1 ++ rs2) = data_of rs1 ++ data_of rs2.
Proof. unfold data_of. by rewrite fmap_app, concat_app. Qed.

Lemma data_of_prefix rs1 rs2 : rs1 `prefix_of` rs2 → data_of rs1 `prefix_of` data_of rs2.
Proof. intros [k ->]. rewrite data_of_app. by exists (data_of k). Qed.

(** A client only depends on the link of its own descriptor. *)
Lemma client_ok_links links links' c :
  links' !! socket_ c = links !! socket_ c → client_ok links c → client_ok links' c.
Proof. intros E [H1 H2 H3]. split; [done|done|]. by rewrite E. Qed.

Lemma client_ok_revents links c r : client_ok links c → client_ok links (SetRevents c r).
Proof. intros [H1 H2 H3]. by split. Qed.

Lemma link_ok_fresh plan : link_ok (mkLink (mkEndpoint [] plan [] EAGAIN) []).
Proof. apply answered_nil. Qed.

(** A link read further is as good as before. *)
Lemma link_ok_deliver lk r :
  link_ok lk →
  link_ok (mkLink (mkEndpoint (incoming (lk_endpoint lk) ++ [r]) (send_plan (lk_endpoint lk))
                            (wire (lk_endpoint lk)) (errno_ (lk_endpoint lk))) (lk_delivered lk ++ [r])).
Proof. intros Hlk. unfold link_ok. cbn [lk_delivered]. rewrite data_of_app. by apply answered_app. Qed.

(** ** Lemmas: the steps *)

Lemma deliver_inv fd r n : NodeInv n → may_deliver fs dir fd r n → NodeInv (deliver fd r n).
Proof.
  intros [Hwf [Hh Ha Hc Hcl Hl]] [Hr Hpl]. split; [done|]. split; try done; cbn.
  - intros p c Hp Hne. specialize (Hcl p c Hp Hne).
    destruct (decide (socket_ c = fd)) as [<-|Hfd];
      [|by eapply client_ok_links, Hcl; cbn; rewrite lookup_alter_ne].
    destruct Hcl as [H1 H2 (lk & now & Hlk & Hdel & Hserved & Hplan & Hok & _)]. split; [done|done|].
    eexists _, now. rewrite lookup_alter_eq, Hlk. split; [reflexivity|]. cbn.
    split; [by rewrite Hdel, app_assoc|]. split; [done|]. split; [done|].
    split; [by apply Forall_app; split; [|apply Forall_singleton]|]. by apply Hpl.
  - intros fd' lk. destruct (decide (fd' = fd)) as [->|Hfd]; [|rewrite lookup_alter_ne by done; apply Hl].
    rewrite lookup_alter_eq. intros (lk0 & Hlk & ->)%fmap_Some. by apply link_ok_deliver, (Hl fd).
Qed.

Lemma node_poll_run l ready n :
  NodeInv n → may_report l ready (n_system n) → ∃ n', node_poll l (Some ready) n = Ok n' ∧ NodeInv n'.
Proof.
  intros [Hwf [Hh Ha Hc Hcl Hl]] Hrep.
  destruct (poll_step_run l ready (n_system n) Hwf Hrep) as (s' & Hrun & Hwf' & P).
  exists (mkNode s' (n_links n) (n_cache n)). split; [unfold node_poll; by rewrite Hrun|].
  split; [done|]. split; try done; unfold n_world in *; cbn.
  - by rewrite (pl_handle _ _ P).
  - by rewrite (pl_accept _ _ P).
  - intros p c' Hp Hne. rewrite (pl_acceptor _ _ P) in Hne.
    destruct (polled_back _ _ _ _ P Hp) as (c & r & Hc' & ->). apply client_ok_revents. by apply (Hcl p).
Qed.

(** Acceptance: a new client with a socket of its own. *)
Lemma accept_run e plan n a w' fd l p c k :
  NodeData n → WFw (n_world n) a → w' = joined (n_world n) l p c k →
  may_accept e (n_system n) → Forall sends_on plan → ae_accept e = Some fd → conns (n_world n) !! p = None →
  socket_ c = fd → call_back_ c = Some (UserCallback HttpHandler) →
  read_buffer_ c = mkBuffer [] → write_buffer_ c = mkBuffer [] →
  let links := <[fd := mkLink (mkEndpoint [] plan [] EAGAIN) []]> (n_links n) in
  (∀ q d, conns w' !! q = Some d → acceptor_conn_ w' ≠ Some q → client_ok links d) ∧
  (∀ fd' lk, links !! fd' = Some lk → link_ok lk).
Proof.
  intros [Hh Ha Hc Hcl Hl] WFa -> [Hacc _] Hplan Hfd Hp Hsk Hcb Hrb Hwb links.
  destruct (Hacc fd Hfd) as [_ Hfresh]. split.
  - cbn [joined conns acceptor_conn_]. intros q d [[<- <-]|[Hne Hq]]%lookup_insert_Some Hna.
    + split; [done|by rewrite Hwb|]. eexists _, []. rewrite Hsk. unfold links. rewrite lookup_insert_eq.
      split; [reflexivity|]. cbn. rewrite Hrb. split; [done|]. split; [apply served_start|].
      split; [done|]. split; [by apply Forall_nil|]. apply servable_data_nil.
    + assert (fd ≠ socket_ d) as Hneq.
      { intros ->. by destruct (ww_open _ _ WFa q d Hq). }
      eapply client_ok_links; [|exact (Hcl q d Hq Hna)]. unfold links. by rewrite lookup_insert_ne.
  - intros fd' lk [[<- <-]|[Hne Hlk]]%lookup_insert_Some; [apply link_ok_fresh|by eapply Hl].
Qed.

(** The links of the other clients are left alone. *)
Lemma other_clients n links' a p c :
  NodeData n → WFw (n_world n) a → conns (n_world n) !! p = Some c →
  (∀ fd, fd ≠ socket_ c → links' !! fd = n_links n !! fd) →
  ∀ q d, q ≠ p → conns (n_world n) !! q = Some d → acceptor_conn_ (n_world n) ≠ Some q → client_ok links' d.
Proof.
  intros D WFa Hp Hlinks q d Hne Hq Hna. eapply client_ok_links; [|by apply (ni_clients _ D q)].
  apply Hlinks. intros E. apply Hne. by apply (ww_distinct _ _ WFa q p d c).
Qed.

(** The connection and the node the handler leaves when its session ended as [s]. *)
Definition handled_conn (c : Connection (Callback WebCallback)) (s : Session (Shared C)) :
    Connection (Callback WebCallback) :=
  with_write_buffer (with_read_buffer c (read_buffer_ (s_conn s))) (write_buffer_ (s_conn s)).

Definition handled_node n (c : Connection (Callback WebCallback)) (lk : Link) (s : Session (Shared C))
    (w : World WebCallback) : Node C :=
  mkNode (mkSystem w (pending (n_system n)))
    (<[socket_ c := mkLink (s_endpoint s) (lk_delivered lk)]> (n_links n)) (sh_cache (s_cache s)).

Lemma handled_others n a p c lk s w :
  NodeData n → WFw (n_world n) a → conns (n_world n) !! p = Some c →
  ∀ q d, q ≠ p → conns (n_world n) !! q = Some d → acceptor_conn_ (n_world n) ≠ Some q →
    client_ok (n_links (handled_node n c lk s w)) d.
Proof.
  intros D WFa Hp. apply (other_clients n _ a p c D WFa Hp). intros fd Hfd. cbn. by rewrite lookup_insert_ne.
Qed.

(** A handler that keeps its client. *)
Lemma handled_open n a p c lk now now' s s' :
  NodeData n → WFw (n_world n) a → conns (n_world n) !! p = Some c → p ≠ a →
  lk_delivered lk = now ++ now' ++ incoming (s_endpoint s') →
  Forall recv_ok (lk_delivered lk) → servable_data fs dir (data_of (lk_delivered lk)) →
  batch_open fs dir s s' (data_of now) (data_of now') →
  let n' := handled_node n c lk s' (with_conns (insert p (handled_conn c s')) (n_world n)) in
  WFw (n_world n') a ∧ NodeData n' ∧ survives (n_world n) (n_world n') p.
Proof.
  intros D WFa Hp Hpa Hdel Hok Hpl Hopen n'. pose proof D as [Hh Ha Hc Hcl Hl].
  destruct Hopen as (Hd & [Hc' Hw' Hp'] & _ & Hserved').
  assert (acceptor_conn_ (n_world n) ≠ Some p) as Hna by (rewrite (ww_acceptor _ _ WFa); congruence).
  assert (similar (n_world n) (n_world n')) as S by (by eapply similar_update).
  split; [by eapply WFw_similar|]. split; [|by apply survives_similar].
  split; unfold n', n_world in *; cbn; [done|done|by destruct Hc'| |].
  - intros q d [[<- <-]|[Hne Hq]]%lookup_insert_Some Hqa; [|by apply (handled_others n a p c lk s' (n_world n) D WFa Hp q d)].
    split; [by apply (ni_clients _ D p c)|done|]. eexists _, (now ++ now'). cbn. rewrite lookup_insert_eq.
    split; [reflexivity|]. cbn [lk_delivered lk_endpoint].
    split; [by rewrite Hdel, app_assoc|]. by rewrite data_of_app.
  - intros fd lk' [[<- <-]|[Hne Hlk']]%lookup_insert_Some; [|by eapply Hl].
    apply (answered_prefix fs dir (data_of (now ++ now'))).
    + apply data_of_prefix. rewrite Hdel, app_assoc. by apply prefix_app_r.
    + rewrite data_of_app. by eapply settled_answered, served_settled.
Qed.

(** A handler that drops its client. *)
Lemma handled_dropped n a p c lk now now' s s' l x :
  NodeData n → WFw (n_world n) a → conns (n_world n) !! p = Some c → p ≠ a →
  loopers (n_world n) !! l = Some x → connections_ x !! socket_ c = Some p →
  now ++ now' `prefix_of` lk_delivered lk →
  batch_dropped fs dir s s' l (data_of now) (data_of now') →
  let w := parted (with_conns (insert p (handled_conn c s')) (n_world n)) l p (socket_ c) in
  let n' := handled_node n c lk s' w in
  WFw (n_world n') a ∧ NodeData n' ∧ survives (n_world n) (n_world n') p.
Proof.
  intros D WFa Hp Hpa Hx Hst Hdel (_ & Hc' & Hans) w n'. pose proof D as [Hh Ha Hc Hcl Hl].
  assert (similar (n_world n) (with_conns (insert p (handled_conn c s')) (n_world n))) as S
    by (by eapply similar_update).
  split; [|split].
  - unfold n', handled_node, n_world in *. cbn [n_system world]. eapply WFw_parted; [by eapply WFw_similar|done|done].
  - split; unfold n', w, n_world in *; cbn; [done|done|by destruct Hc'| |].
    + intros q d [Hne Hq]%lookup_delete_Some Hqa. rewrite lookup_insert_ne in Hq by done.
      by apply (handled_others n a p c lk s' w D WFa Hp q d (not_eq_sym Hne)).
    + intros fd lk' [[<- <-]|[Hne Hlk']]%lookup_insert_Some; [|by eapply Hl].
      apply (answered_prefix fs dir (data_of (now ++ now'))); [by apply data_of_prefix|by rewrite data_of_app].
  - intros q d Hne Hq. exists d. cbn. by rewrite lookup_delete_ne, lookup_insert_ne.
Qed.

(** The requests that wait for the handler of [c]: in its read buffer, left there when
    it stopped before, and at its socket. *)
Definition waiting {A} (c : Connection A) (lk : Link) : list bytes :=
  requests (buf_ (read_buffer_ c) ++ data_of (incoming (lk_endpoint lk))).

Lemma on_handle_run clock others n a p c :
  NodeData n → WFw (n_world n) a → conns (n_world n) !! p = Some c → p ≠ a →
  Forall (Forall (action_ok fs)) others →
  ∃ n', on_handle fs dir clock others p n = Ok n' ∧ WFw (n_world n') a ∧ NodeData n' ∧
    survives (n_world n) (n_world n') p ∧ pending (n_system n') = pending (n_system n) ∧
    (∀ lk, n_links n !! socket_ c = Some lk → Forall goes_on (incoming (lk_endpoint lk)) →
       ∃ lk', n_links n' !! socket_ c = Some lk' ∧ lk_delivered lk' = lk_delivered lk ∧
         settled fs dir (data_of (lk_delivered lk)) (wire (lk_endpoint lk')) ∧
         ∃ w, wire (lk_endpoint lk') = wire (lk_endpoint lk) ++ w ∧ settles fs dir (waiting c lk) w).
Proof.
  intros D WFa Hp Hpa Hothers.
  assert (acceptor_conn_ (n_world n) ≠ Some p) as Hna by (rewrite (ww_acceptor _ _ WFa); congruence).
  destruct (ni_clients _ D p c Hp Hna) as [_ Hun (lk & now & Hlk & Hdel & Hserved & Hplan & Hok & Hpl)].
  destruct (ww_owned _ _ WFa p c Hp) as (l & x & [Hlo Hx _ Hst _]). specialize (Hst Hpa).
  set (s := mkSession (as_session_conn c) (lk_endpoint lk) (mkShared (n_cache n) others) []).
  destruct (handler_batch fs dir clock s l (data_of now)) as (s' & now' & Hrun & Hnow & Hcase & Hall).
  { split; [by split; [apply (ni_cache _ D)|]|done|done]. }
  { done. }
  { rewrite Hdel in Hok. by apply Forall_app in Hok as [_ ?]. }
  { done. }
  { rewrite Hdel, data_of_app in Hpl. exact Hpl. }
  change (s_endpoint s) with (lk_endpoint lk) in Hnow, Hcase, Hall.
  assert (∀ w lk0, Some lk = Some lk0 → Forall goes_on (incoming (lk_endpoint lk0)) →
    ∃ lk', n_links (handled_node n c lk s' w) !! socket_ c = Some lk' ∧ lk_delivered lk' = lk_delivered lk0 ∧
      settled fs dir (data_of (lk_delivered lk0)) (wire (lk_endpoint lk')) ∧
      ∃ w', wire (lk_endpoint lk') = wire (lk_endpoint lk0) ++ w' ∧ settles fs dir (waiting c lk0) w') as Hanswer.
  { intros w lk0 [= <-] Hgo. cbn. rewrite lookup_insert_eq.
    eexists. split; [reflexivity|]. split; [done|]. cbn. rewrite Hdel, data_of_app. by apply Hall. }
  unfold on_handle. rewrite Hp, Hlk. fold s. rewrite Hrun. mred.
  destruct Hcase as [(Hinc & _ & Hopen)|Hdrop].
  - destruct (handled_open n a p c lk now now' s s' D WFa Hp Hpa) as (? & ? & ?); [by rewrite Hdel, Hinc|done..|].
    rewrite (proj1 Hopen). eexists. split; [reflexivity|split_and!; [done..|apply Hanswer]].
  - destruct (handled_dropped n a p c lk now now' s s' l x D WFa Hp Hpa Hx Hst) as (HWF & ? & ?);
      [rewrite Hdel; by apply prefix_app|done|].
    rewrite (proj1 Hdrop). cbn [s s_deleted app delete_all s_conn as_session_conn socket_].
    assert (similar (n_world n) (with_conns (insert p (handled_conn c s')) (n_world n))) as S by (by eapply similar_update).
    erewrite stM_bind_ok by exact (DeleteConnection_run _ a l x p (socket_ c) (WFw_similar _ _ _ S WFa) Hx Hst).
    eexists. split; [reflexivity|split_and!; [done..|apply Hanswer]].
Qed.

Lemma accept_callback_run clock e plan others n a c :
  NodeData n → WFw (n_world n) a → conns (n_world n) !! a = Some c →
  may_run fs e plan others n →
  ∃ n', node_callback fs dir clock e plan others a n = Ok n' ∧ WFw (n_world n') a ∧ NodeData n' ∧
    survives (n_world n) (n_world n') a ∧ pending (n_system n') = pending (n_system n).
Proof.
  intros D WFa Hca (Hacc & Hplan & _). pose proof D as [Hh Ha Hc Hcl Hl].
  destruct (ww_owned _ _ WFa a c Hca) as (l0 & x0 & [_ _ _ _ Hcb]). rewrite decide_True in Hcb by done.
  destruct (BaseAcceptCallback_run e _ a c WFa Hca Hacc) as (w' & Hrun & WF' & Hw').
  unfold node_callback. rewrite Hca. unfold GetCallback. rewrite Hcb, Hrun. mred.
  destruct (ae_accept e) as [fd|] eqn:Hfd.
  - destruct Hw' as (l & p & d & k & _ & Hp & Hw' & Hsk & _ & Hcbd & Hrb & Hwb). rewrite Hh in Hcbd.
    destruct (accept_run e plan n a w' fd l p d k D WFa Hw' Hacc Hplan Hfd Hp Hsk Hcbd Hrb Hwb) as [Hcl' Hl'].
    subst w'. eexists. split; [cbn [joined accept_callback_]; rewrite Ha; reflexivity|].
    split; [exact WF'|]. split; [by split|]. split; [|done].
    intros q d' _ Hq. exists d'. cbn. rewrite lookup_insert_ne; [done|congruence].
  - subst w'. eexists. split; [rewrite Ha; reflexivity|]. split; [done|]. split; [by split|].
    split; [|done]. intros q d' _ Hq. by exists d'.
Qed.

Lemma node_callback_run clock e plan others n a p c :
  NodeData n → WFw (n_world n) a → conns (n_world n) !! p = Some c → may_run fs e plan others n →
  ∃ n', node_callback fs dir clock e plan others p n = Ok n' ∧ WFw (n_world n') a ∧ NodeData n' ∧
    survives (n_world n) (n_world n') p ∧ pending (n_system n') = pending (n_system n).
Proof.
  intros D WFa Hp Hrun. destruct (decide (p = a)) as [->|Hne]; [by eapply accept_callback_run|].
  assert (acceptor_conn_ (n_world n) ≠ Some p) as Hna by (rewrite (ww_acceptor _ _ WFa); congruence).
  unfold node_callback. rewrite Hp. unfold GetCallback. rewrite (co_callback _ _ (ni_clients _ D p c Hp Hna)).
  destruct (on_handle_run clock others n a p c D WFa Hp Hne) as (n' & ? & ? & ? & ? & ? & _); [apply Hrun|by exists n'].
Qed.

Lemma node_run_run l clock e plan others n :
  NodeInv n → may_run fs e plan others n → ∃ n', node_run fs dir l clock e plan others n = Ok n' ∧ NodeInv n'.
Proof.
  intros Hinv Hrun. pose proof Hinv as [Hwf D]. pose proof Hwf as [[a WFa] Hpend]. unfold node_run.
  destruct (pending (n_system n) !! l) as [[|p ps]|] eqn:Hp; [by exists n| |by exists n].
  destruct (Hpend l (p :: ps) Hp) as [_ [(c & Hc & _) _]%Forall_cons].
  destruct (node_callback_run clock e plan others n a p c D WFa Hc Hrun) as (n' & Hn' & WF' & D' & Hs & Hpe).
  rewrite Hn'. eexists. split; [reflexivity|]. split.
  - cbn [n_system]. rewrite Hpe. by eapply WF_advance.
  - destruct D' as [? ? ? ? ?]. by split.
Qed.

Lemma node_step_inv n n' : node_step fs dir n n' → NodeInv n → NodeInv n'.
Proof.
  intros [fd r m Hd|l ready m m' Hrep Hrun|l clock e plan others m m' He Hrun] Hinv.
  - by apply deliver_inv.
  - destruct (node_poll_run l ready m Hinv Hrep) as (m1 & H1 & ?). congruence.
  - destruct (node_run_run l clock e plan others m Hinv He) as (m1 & H1 & ?). congruence.
Qed.

Lemma reachable_inv n n' : rtc (node_step fs dir) n n' → web_start n → NodeInv n'.
Proof. intros Hr Hs. eapply (invariant_rtc (node_step fs dir)); [apply node_step_inv|done|by apply web_start_inv]. Qed.

(** What the theorems below say of a state. *)
Definition isolated n : Prop :=
  (∀ fd lk, n_links n !! fd = Some lk →
     answered fs dir (data_of (lk_delivered lk)) (wire (lk_endpoint lk)) ∧
     (Forall (plain dir) (requests (data_of (lk_delivered lk))) →
        ∃ read, read `prefix_of` data_of (lk_delivered lk) ∧ wire (lk_endpoint lk) = web_reply fs dir read)) ∧
  (∀ p c, conns (n_world n) !! p = Some c → acceptor_conn_ (n_world n) ≠ Some p →
     ∃ lk read, n_links n !! socket_ c = Some lk ∧
       data_of (lk_delivered lk) = read ++ data_of (incoming (lk_endpoint lk)) ∧
       served fs dir read (read_buffer_ c) (wire (lk_endpoint lk)) ∧
       (Forall (plain dir) (requests read) → wire (lk_endpoint lk) = web_reply fs dir read)).

Definition keeps_running n : Prop :=
  (∀ l ready, may_report l ready (n_system n) → is_ok (node_poll l (Some ready) n)) ∧
  (∀ l clock e plan others, may_run fs e plan others n → is_ok (node_run fs dir l clock e plan others n)).

Lemma NodeInv_isolated n : NodeInv n → isolated n.
Proof.
  intros [_ [_ _ _ Hcl Hl]]. split.
  { intros fd lk Hlk. split; [by eapply Hl|]. apply answered_plain. by eapply Hl. }
  intros p c Hp Hna. destruct (Hcl p c Hp Hna) as [_ _ (lk & now & Hlk & Hdel & Hserved & _)].
  exists lk, (data_of now). split; [done|]. split; [by rewrite Hdel, data_of_app|]. split; [done|].
  apply settled_plain. by eapply served_settled.
Qed.

Lemma NodeInv_keeps_running n : NodeInv n → keeps_running n.
Proof.
  intros Hinv. split.
  - intros l ready Hrep. destruct (node_poll_run l ready n Hinv Hrep) as (m & Hm & _). by exists m.
  - intros l clock e plan others He. destruct (node_run_run l clock e plan others n Hinv He) as (m & Hm & _). by exists m.
Qed.

(** ** Properties *)

(** C1: every client is served in isolation.  From a server that has accepted nobody,
    after any interleaving of deliveries, accepts, polls and handlers on all the loops,
    with other threads using the cache in the middle of a handler: what was sent on
    a socket answers, from the first one on, requests delivered to that socket, each
    answer being one the file system allows to that request; and for a client still
    connected these are all the requests read (those after a request for a CGI
    program may wait), the rest being in its read buffer or at the socket.  Where no
    request is a HEAD or for a CGI program the bytes sent are determined. *)
Theorem clients_served_in_isolation n n' :
  web_start n → rtc (node_step fs dir) n n' →
  (∀ fd lk, n_links n' !! fd = Some lk →
     answered fs dir (data_of (lk_delivered lk)) (wire (lk_endpoint lk)) ∧
     (Forall (plain dir) (requests (data_of (lk_delivered lk))) →
        ∃ read, read `prefix_of` data_of (lk_delivered lk) ∧ wire (lk_endpoint lk) = web_reply fs dir read)) ∧
  (∀ p c, conns (n_world n') !! p = Some c → acceptor_conn_ (n_world n') ≠ Some p →
     ∃ lk read, n_links n' !! socket_ c = Some lk ∧
       data_of (lk_delivered lk) = read ++ data_of (incoming (lk_endpoint lk)) ∧
       served fs dir read (read_buffer_ c) (wire (lk_endpoint lk)) ∧
       (Forall (plain dir) (requests read) → wire (lk_endpoint lk) = web_reply fs dir read)).
Proof.
  intros Hs Hr. apply NodeInv_isolated. by apply (reachable_inv n).
Qed.

(** C2: a client is answered as soon as its callback has run.  In every reachable state, when
    the callback of a client comes up on its loop and data wait at its socket (no end
    of stream, no error), the callback gets to its end, and what it sends answers the
    requests that wait, in its read buffer and at the socket, from the first one on:
    all of them, or all up to one whose answer closes the connection, or all up to
    one for a CGI program, which gets no answer and at which the handler stops.  What
    has been sent in all then answers the requests ever delivered, from the first one
    on, up to such a point; and where no request is a HEAD or for a CGI program it is
    the one reply to them that the file system determines, [web_reply]. *)
Theorem client_answered n n' l clock e plan others p ps c lk :
  web_start n → rtc (node_step fs dir) n n' →
  pending (n_system n') !! l = Some (p :: ps) → conns (n_world n') !! p = Some c →
  acceptor_conn_ (n_world n') ≠ Some p → n_links n' !! socket_ c = Some lk →
  Forall goes_on (incoming (lk_endpoint lk)) → may_run fs e plan others n' →
  ∃ n'' lk'', node_run fs dir l clock e plan others n' = Ok n'' ∧ n_links n'' !! socket_ c = Some lk'' ∧
    lk_delivered lk'' = lk_delivered lk ∧
    (∃ w, wire (lk_endpoint lk'') = wire (lk_endpoint lk) ++ w ∧ settles fs dir (waiting c lk) w) ∧
    settled fs dir (data_of (lk_delivered lk'')) (wire (lk_endpoint lk'')) ∧
    (Forall (plain dir) (requests (data_of (lk_delivered lk''))) →
       wire (lk_endpoint lk'') = web_reply fs dir (data_of (lk_delivered lk''))).
Proof.
  intros Hs Hr Hpe Hp Hna Hlk Hgo Hrun. destruct (reachable_inv _ _ Hr Hs) as [[[a WFa] _] D].
  assert (p ≠ a) as Hpa by (intros ->; apply Hna, (ww_acceptor _ _ WFa)).
  destruct (on_handle_run clock others n' a p c D WFa Hp Hpa) as (m & Hm & _ & _ & _ & _ & Hans); [apply Hrun|].
  destruct (Hans lk Hlk Hgo) as (lk' & Hlk' & Hdel & Hset & Hmore).
  unfold node_run, node_callback. rewrite Hpe, Hp. unfold GetCallback.
  rewrite (co_callback _ _ (ni_clients _ D p c Hp Hna)). cbn [run_user]. rewrite Hm.
  eexists _, lk'. split; [reflexivity|]. cbn [n_links]. rewrite Hdel. split_and!; [done..|]. by apply settled_plain.
Qed.

(** C3: the server never faults while its environment behaves.  The conditions: clients
    ask only for paths that name nothing or a readable, non-empty regular file below
    2^31 bytes; peers take what is sent to them, in whatever pieces; [accept] fails or
    hands out a new descriptor, and [fcntl] and [kevent] succeed; what other threads
    do to the cache happens between the cache operations of this one (WebRace.v is
    about the rest).  Then, in every state the server can reach, whatever registered
    descriptors a loop's poll reports, the poll completes; and whatever callback comes
    next on whatever loop, it completes: no dangling or null pointer, no failed
    assertion, no exception, no missing socket. *)
Theorem web_server_never_faults n n' :
  web_start n → rtc (node_step fs dir) n n' →
  (∀ l ready, may_report l ready (n_system n') → is_ok (node_poll l (Some ready) n')) ∧
  (∀ l clock e plan others, may_run fs e plan others n' → is_ok (node_run fs dir l clock e plan others n')).
Proof.
  intros Hs Hr. apply NodeInv_keeps_running. by apply (reachable_inv n).
Qed.
End Invariant.

(** ** Starting *)

Lemma http_server_run inet_pton4 inet_pton6 fs args clock e n ip port directory a b c d :
  main fs args = Ok (StartServer ip port directory) → inet_pton4 ip = Some [a; b; c; d] →
  0 < n → (Z.of_nat n + 1 < 2 ^ 31)%Z → env_ok n e →
  ∃ node, http_server_main inet_pton4 inet_pton6 fs args (Z.of_nat n + 1) clock e = Ok (node, directory) ∧
    web_start fs node ∧ length (loopers (n_world node)) = S n ∧ event_loopers_ (n_world node) = seq 1 n ∧
    n_cache node = Cache_ctor clock INIT_CACHE_SIZE.
Proof.
  intros Hmain Hip Hn Hlt He. unfold http_server_main. rewrite Hmain. mred.
  rewrite (ctor_ipv4 inet_pton4 inet_pton6 _ _ _ _ _ _ Hip). rewrite default_concurrency_cores by lia.
  set (address := mkNetAddress Ipv4 _).
  destruct (server_run Noop address n e HttpHandler Hn ltac:(lia) He)
    as (s & s' & sys & Hs & _ & Hs' & Hsys & Hwf & Hh & Hlo & Hev & _ & Hco & Hac).
  mred. rewrite Hs, Hs', Hsys. eexists. split; [reflexivity|]. split; [|done].
  split; unfold n_world; cbn; try done.
  exists INIT_CACHE_SIZE, []. split; [apply Cache_ctor_holds; decided|by apply Forall_nil].
Qed.

(** C22: [main] sets up a server that can be run: when the arguments are accepted, the
    address is one, the machine has [n + 1] cores and the system calls succeed, it
    gets to its event loops with one listener, [n] reactors, the HTTP handler, an
    empty cache and no client. *)
Theorem http_server_starts inet_pton4 inet_pton6 fs args clock e n ip port directory a b c d :
  main fs args = Ok (StartServer ip port directory) → inet_pton4 ip = Some [a; b; c; d] →
  0 < n → (Z.of_nat n + 1 < 2 ^ 31)%Z → env_ok n e →
  ∃ node, http_server_main inet_pton4 inet_pton6 fs args (Z.of_nat n + 1) clock e = Ok (node, directory) ∧
    web_start fs node ∧ length (loopers (n_world node)) = S n ∧ event_loopers_ (n_world node) = seq 1 n ∧
    n_cache node = Cache_ctor clock INIT_CACHE_SIZE.
Proof. apply http_server_run. Qed.

(** ** A run of the server: one client, whose request comes in two pieces *)

Definition demo_args : list bytes := [lit "8080"; lit "www"].
Definition demo_files : filesystem := λ p,
  if decide (p = lit "www") then Some (DirectoryEntry true) else demo_fs p.
Definition demo_plan : list send_ret := [SendBytes 5; SendError EAGAIN].
Definition demo_pieces : recv_ret * recv_ret := (RecvBytes (take 9 demo_request), RecvBytes (drop 9 demo_request)).
Definition demo_others : list (list cache_action) := [[ActInsert 0 (lit "www/a.html") (lit "hi")]].

Lemma http_server_starts_witness :
  ∃ node, http_server_main demo_pton4 demo_pton6 demo_files demo_args 3 0 demo_env = Ok (node, lit "www") ∧
    web_start demo_files node ∧ length (loopers (n_world node)) = 3 ∧ event_loopers_ (n_world node) = [1; 2] ∧
    n_cache node = Cache_ctor 0 INIT_CACHE_SIZE.
Proof.
  apply (http_server_starts demo_pton4 demo_pton6 demo_files demo_args 0 demo_env 2 (lit "0.0.0.0") 8080 (lit "www") 0 0 0 0).
  - reflexivity.
  - reflexivity.
  - lia.
  - lia.
  - exact demo_env_ok.
Defined.

Lemma demo_servable_data :
  servable_data demo_files (lit "www") (take 9 demo_request) ∧ servable_data demo_files (lit "www") demo_request.
Proof.
  assert (requests (take 9 demo_request) = [] ∧ requests demo_request = [demo_request]) as [H1 H2]
    by (split; vm_compute; reflexivity).
  split; (split; [reflexivity|]); rewrite ?H1, ?H2; [by apply Forall_nil|]. apply Forall_singleton.
  intros r Hr. vm_compute in Hr. injection Hr as <-. intros _ _. vm_compute. split; [discriminate|reflexivity].
Qed.

Definition demo_start : Node Cache :=
  match http_server_main demo_pton4 demo_pton6 demo_files demo_args 3 0 demo_env with
  | Ok (n, _) => n
  | Fail _ => mkNode (mkSystem (mkWorld ∅ [] [] None Noop Noop (mkOs ∅ [])) []) ∅ (Cache_ctor 0 0)
  end.

Lemma demo_web_start : web_start demo_files demo_start.
Proof.
  destruct (http_server_run demo_pton4 demo_pton6 demo_files demo_args 0 demo_env 2 (lit "0.0.0.0") 8080 (lit "www") 0 0 0 0)
    as (node & Hrun & Hws & _); [done|done|lia|lia|exact demo_env_ok|].
  unfold demo_start. change (Z.of_nat 2 + 1)%Z with 3%Z in Hrun. by rewrite Hrun.
Qed.

Definition demo_after_accept : result (Node Cache) :=
  n ← node_poll 0 (Some [6%Z]) demo_start;
  node_run demo_files (lit "www") 0 0 demo_accept demo_plan [] n.

(** What a goal about a computed node asks of its environment. *)
Ltac demo_report :=
  split; [apply NoDup_singleton|];
  let x := fresh in let Hx := fresh in
  intros x Hx; vm_compute in Hx; injection Hx as <-; apply Forall_singleton; eexists; vm_compute; reflexivity.

Lemma demo_may_run {C} (n : Node C) :
  (9%Z ∉ open_fds (os_ (n_world n))) → may_run demo_files demo_accept demo_plan demo_others n.
Proof.
  intros H9. split; [|split].
  - split_and!; [|done|done|simpl; lia]. intros fd [= <-]. split; [lia|exact H9].
  - repeat constructor; simpl; lia.
  - repeat constructor.
Qed.

Lemma demo_may_run_again {C} (n : Node C) :
  may_run demo_files (mkAcceptEnv None true 0 true) [] demo_others n.
Proof. split; [by split_and!|]. split; [by apply Forall_nil|]. repeat constructor. Qed.

Lemma demo_may_deliver {C} r data (n : Node C) :
  servable_data demo_files (lit "www") data →
  (match r with RecvBytes d => length d <=? TEMP_BUF_SIZE | RecvError _ => true end) = true →
  (match n_links n !! 9%Z with Some lk => data_of (lk_delivered lk ++ [r]) = data | None => True end) →
  may_deliver demo_files (lit "www") 9 r n.
Proof.
  intros Hp Hr Hd. split; [destruct r; [by apply Nat.leb_le|done]|].
  intros lk Hlk. rewrite Hlk in Hd. by rewrite Hd.
Qed.

(** Up to the poll that reports the second piece. *)
Lemma demo_web_run :
  ∃ n c lk, rtc (node_step demo_files (lit "www")) demo_start n ∧
    pending (n_system n) !! 2 = Some [2%positive] ∧ conns (n_world n) !! 2%positive = Some c ∧
    acceptor_conn_ (n_world n) = Some 1%positive ∧ socket_ c = 9%Z ∧ n_links n !! 9%Z = Some lk ∧
    incoming (lk_endpoint lk) = [demo_pieces.2] ∧ data_of (lk_delivered lk) = demo_request.
Proof.
  eexists _, _, _. split.
  - eapply rtc_l; [eapply (node_step_poll _ _ 0 [6%Z]); [demo_report|vm_compute; reflexivity]|].
    eapply rtc_l; [eapply (node_step_run _ _ 0 0 demo_accept demo_plan demo_others);
                   [apply demo_may_run; vm_compute; intros H; discriminate H|vm_compute; reflexivity]|].
    eapply rtc_l; [apply (node_step_deliver _ _ 9 demo_pieces.1)|].
    { by apply (demo_may_deliver demo_pieces.1 (take 9 demo_request)); [exact (proj1 demo_servable_data)|..]; vm_compute. }
    eapply rtc_l; [eapply (node_step_poll _ _ 2 [9%Z]); [demo_report|vm_compute; reflexivity]|].
    eapply rtc_l; [eapply (node_step_run _ _ 2 0); [apply demo_may_run_again|vm_compute; reflexivity]|].
    eapply rtc_l; [apply (node_step_deliver _ _ 9 demo_pieces.2)|].
    { by apply (demo_may_deliver demo_pieces.2 demo_request); [exact (proj2 demo_servable_data)|..]; vm_compute. }
    eapply rtc_l; [eapply (node_step_poll _ _ 2 [9%Z]); [demo_report|vm_compute; reflexivity]|].
    apply rtc_refl.
  - split_and!; vm_compute; reflexivity.
Qed.

Lemma demo_plain : Forall (plain (lit "www")) (requests demo_request).
Proof.
  assert (requests demo_request = [demo_request]) as -> by (vm_compute; reflexivity).
  apply Forall_singleton. intros r Hr. vm_compute in Hr. injection Hr as <-. intros _. split; [reflexivity|discriminate].
Qed.

Lemma demo_web_answer :
  ∃ n lk, rtc (node_step demo_files (lit "www")) demo_start n ∧ n_links n !! 9%Z = Some lk ∧
    wire (lk_endpoint lk) ≠ [].
Proof.
  destruct demo_web_run as (n & c & lk & Hr & Hpe & Hp & Ha & Hsk & Hlk & Hin & Hdata).
  destruct (reachable_inv _ _ _ _ Hr demo_web_start) as [[[a WFa] _] D].
  pose proof (ww_acceptor _ _ WFa) as Ha'. change (acceptor_conn_ (n_world n) = Some a) in Ha'. rewrite Ha in Ha'. injection Ha' as <-.
  destruct (on_handle_run demo_files (lit "www") 0 demo_others n 1%positive 2%positive c D WFa Hp)
    as (m & Hm & _ & _ & _ & _ & Hans); [done|repeat constructor|].
  destruct (Hans lk) as (lk' & Hlk' & _ & Hset & _); [by rewrite Hsk|by rewrite Hin; apply Forall_singleton|].
  rewrite Hdata in Hset. pose proof (settled_plain _ _ _ _ Hset demo_plain) as Hw. rewrite Hsk in Hlk'.
  assert (acceptor_conn_ (n_world n) ≠ Some 2%positive) as Hna by (rewrite Ha; discriminate).
  eexists _, lk'. split; [|split; [|rewrite Hw; vm_compute; discriminate]].
  - eapply rtc_r; [exact Hr|]. eapply (node_step_run _ _ 2 0 (mkAcceptEnv None true 0 true) [] demo_others);
      [apply demo_may_run_again|]. unfold node_run, node_callback. rewrite Hpe, Hp. unfold GetCallback.
    rewrite (co_callback _ _ _ _ (ni_clients _ _ _ D 2%positive c Hp Hna)).
    cbn [run_user]. rewrite Hm. reflexivity.
  - exact Hlk'.
Qed.

Lemma clients_served_in_isolation_witness :
  ∃ (n : Node Cache) lk, n_links n !! 9%Z = Some lk ∧ wire (lk_endpoint lk) ≠ [] ∧
  (∀ fd lk, n_links n !! fd = Some lk →
     answered demo_files (lit "www") (data_of (lk_delivered lk)) (wire (lk_endpoint lk)) ∧
     (Forall (plain (lit "www")) (requests (data_of (lk_delivered lk))) →
        ∃ read, read `prefix_of` data_of (lk_delivered lk) ∧
          wire (lk_endpoint lk) = web_reply demo_files (lit "www") read)) ∧
  (∀ p c, conns (n_world n) !! p = Some c → acceptor_conn_ (n_world n) ≠ Some p →
     ∃ lk read, n_links n !! socket_ c = Some lk ∧
       data_of (lk_delivered lk) = read ++ data_of (incoming (lk_endpoint lk)) ∧
       served demo_files (lit "www") read (read_buffer_ c) (wire (lk_endpoint lk)) ∧
       (Forall (plain (lit "www")) (requests read) → wire (lk_endpoint lk) = web_reply demo_files (lit "www") read)).
Proof.
  destruct demo_web_answer as (n & lk & Hr & Hlk & Hw). exists n, lk. split; [exact Hlk|]. split; [exact Hw|].
  exact (clients_served_in_isolation demo_files (lit "www") demo_start n demo_web_start Hr).
Defined.

Lemma client_answered_witness :
  ∃ (n n' : Node Cache) p c lk0 lk, conns (n_world n) !! p = Some c ∧ n_links n !! 9%Z = Some lk0 ∧ incoming (lk_endpoint lk0) = [demo_pieces.2] ∧
    node_run demo_files (lit "www") 2 0 (mkAcceptEnv None true 0 true) [] demo_others n = Ok n' ∧
    n_links n' !! 9%Z = Some lk ∧ data_of (lk_delivered lk) = demo_request ∧
    (∃ w, wire (lk_endpoint lk) = wire (lk_endpoint lk0) ++ w ∧ settles demo_files (lit "www") (waiting c lk0) w) ∧
    settled demo_files (lit "www") demo_request (wire (lk_endpoint lk)) ∧
    wire (lk_endpoint lk) = web_reply demo_files (lit "www") demo_request.
Proof.
  destruct demo_web_run as (n & c & lk & Hr & Hpe & Hp & Ha & Hsk & Hlk & Hin & Hdata).
  assert (acceptor_conn_ (n_world n) ≠ Some 2%positive) as Hna by (rewrite Ha; discriminate).
  rewrite <-Hsk in Hlk.
  assert (Forall goes_on (incoming (lk_endpoint lk))) as Hgo by (rewrite Hin; by apply Forall_singleton).
  destruct (client_answered demo_files (lit "www") demo_start n 2 0 (mkAcceptEnv None true 0 true) [] demo_others
              2%positive [] c lk demo_web_start Hr Hpe Hp Hna Hlk Hgo (demo_may_run_again n))
    as (n' & lk' & Hrun & Hlk' & Hdel & Hmore & Hset & Hw).
  exists n, n', 2%positive, c, lk, lk'. rewrite Hsk in Hlk, Hlk'. rewrite Hdel, Hdata in *. split_and!; try done. apply Hw, demo_plain.
Defined.

Lemma web_server_never_faults_witness :
  ∃ (n : Node Cache) lk, n_links n !! 9%Z = Some lk ∧ wire (lk_endpoint lk) ≠ [] ∧
  (∀ l ready, may_report l ready (n_system n) → is_ok (node_poll l (Some ready) n)) ∧
  (∀ l clock e plan others, may_run demo_files e plan others n →
     is_ok (node_run demo_files (lit "www") l clock e plan others n)).
Proof.
  destruct demo_web_answer as (n & lk & Hr & Hlk & Hw). exists n, lk. split; [exact Hlk|]. split; [exact Hw|].
  exact (web_server_never_faults demo_files (lit "www") demo_start n demo_web_start Hr).
Defined.
