(* ===== verification/NamedFiles.v ===== *)
(** * A server that is asked for certain names only

    The cache is keyed by the path as the request spells it, so what it may come to
    hold depends on the spellings clients use: [//a] and [/./a] are two entries for
    one file.  Here the spellings are given, [names]; [named_step] is a step of the
    server in which clients ask for nothing else and other threads cache nothing
    else.  To the program this is the same as running on the file system [only], in
    which every other path is out of reach ([named_steps_only]); there the files that
    can be cached are finitely many, and fit the cache when [names_size] does. *)

From S2P Require Import Prelude CppString Buffer HttpUtils Request Connection Response Cache CacheSpec ResourceCache RacingCache HttpServer Serving NetAddress Socket Reactor Server WebServer.

(** ** Two file systems that agree on what is asked for *)

Section Agree.
Context {C : Type} `{CacheOps C} (fs fs' : filesystem) (dir : bytes) (clock : Z).

(** They have the same at the path that [frame] names. *)
Definition agree_on (frame : bytes) : Prop :=
  ∀ r, Request_ctor frame = Ok r → Request.IsValid r = true → IsCgiRequest (resource dir r) = false →
  fs (resource dir r) = fs' (resource dir r).

Section Path.
Context (path : bytes) (Hpath : fs path = fs' path).

Lemma IsFileExist_agree : IsFileExist fs path = IsFileExist fs' path.
Proof. unfold IsFileExist. by rewrite Hpath. Qed.

Lemma LoadFile_agree buffer : LoadFile fs path buffer = LoadFile fs' path buffer.
Proof. unfold LoadFile, FileSize, IsFileExist. by rewrite Hpath. Qed.

Lemma Response_ctor_agree status close :
  Response_ctor fs status close (Some path) = Response_ctor fs' status close (Some path).
Proof. unfold Response_ctor, FileSize, IsFileExist. by rewrite Hpath. Qed.

Lemma Serialize_agree r buffer :
  url_ r = None ∨ url_ r = Some path → Response.Serialize fs r buffer = Response.Serialize fs' r buffer.
Proof. unfold Response.Serialize. intros [->| ->]; [done|]. by rewrite LoadFile_agree. Qed.
End Path.

(** A response is about the path it was made for, if any. *)
Lemma Response_ctor_url status close path r :
  Response_ctor fs' status close (Some path) = Ok r → url_ r = None ∨ url_ r = Some path.
Proof.
  unfold Response_ctor. destruct (IsFileExist fs' path) as [[]|]; [|by intros [= <-]; left|done].
  mred. destruct (FileSize fs' path); [|done]. destruct (type_header path); [|done]. intros [= <-]. by right.
Qed.

Lemma make_response_agree frame r st :
  agree_on frame → Request_ctor frame = Ok r → make_response fs dir clock r st = make_response fs' dir clock r st.
Proof.
  intros Ha Hr. destruct (Request.IsValid r) eqn:Hv;
    [|by rewrite !(make_response_error _ _ _ RESPONSE_BAD_REQUEST) by by left].
  destruct (IsCgiRequest (resource dir r)) eqn:Hcgi; [by rewrite !make_response_cgi|].
  specialize (Ha r Hr Hv Hcgi). unfold make_response. rewrite Hv. cbn [negb]. fold (resource dir r). rewrite Hcgi.
  rewrite (IsFileExist_agree _ Ha). destruct (IsFileExist fs' (resource dir r)) as [[]|]; mred; cbn [negb]; [|done..].
  unfold Make200Response. rewrite (Response_ctor_agree _ Ha).
  destruct (Response_ctor fs' _ _ _) as [resp|] eqn:E; [|done]. apply Response_ctor_url in E.
  destruct (rc_load _ _ _ _) as [[[cached buf] st1]|]; [|done]. destruct (GetMethod r); [|done].
  rewrite (Serialize_agree _ Ha) by done. destruct (Response.Serialize fs' _ _); [|done].
  destruct cached; [done|]. by rewrite (LoadFile_agree _ Ha).
Qed.

Lemma request_loop_agree fuel (s : Session C) :
  Forall agree_on (requests (buf_ (read_buffer_ (s_conn s)))) →
  request_loop fs dir clock fuel s = request_loop fs' dir clock fuel s.
Proof.
  revert s. induction fuel as [|fuel IH]; intros s Ha; [done|].
  cbn [request_loop]. mred. unfold on_conn at 1 3. unfold FindAndPopTill. rewrite FindAndPopTill_eq. mred.
  destruct (index_of HEADER_END (buf_ (read_buffer_ (s_conn s)))) as [n|] eqn:E; [|done].
  destruct (popped_is_frame _ _ E) as [Hfr Hbuf]. set (frame := take n _ ++ HEADER_END) in *. set (left := drop _ _) in *.
  rewrite Hbuf, requests_cons in Ha by done. apply Forall_cons in Ha as [Hf Ha].
  destruct (Request_ctor frame) as [r|] eqn:Hr; [|done].
  unfold on_cache at 1 2. mred. cbn [s_cache s_conn s_endpoint s_deleted].
  rewrite (make_response_agree frame r (s_cache s) Hf Hr).
  destruct (make_response fs' dir clock r (s_cache s)) as [[[[buf close]|] st]|f]; [|done..].
  unfold on_conn, on_net. mred. cbn [s_cache s_conn s_endpoint s_deleted].
  match goal with |- context [Send (?c1, ?ep1)] => pose proof (Send_total c1 ep1) as Hsend;
    destruct (Send (c1, ep1)) as [[[] [c2 ep2]]|f] end; [|done].
  destruct Hsend as (-> & _). destruct close; [done|]. by apply IH.
Qed.

Lemma ParseHttpRequest_agree (s : Session C) :
  Forall recv_ok (incoming (s_endpoint s)) →
  Forall agree_on (requests (buf_ (read_buffer_ (s_conn s)) ++ data_of (incoming (s_endpoint s)))) →
  ParseHttpRequest fs dir clock s = ParseHttpRequest fs' dir clock s.
Proof.
  intros Hok Ha. destruct (goes_on_split (incoming (s_endpoint s))) as (pre & tail & exit & Hin & Hgo & Ht).
  rewrite Hin in Hok. apply Forall_app in Hok as [Hok _].
  pose proof (Recv_run (s_conn s) (s_endpoint s) pre tail exit Hin Hok Hgo Ht) as Hrecv.
  unfold ParseHttpRequest, on_net. mred. rewrite Hrecv. destruct exit; [done|].
  cbn [s_cache s_conn s_endpoint s_deleted]. rewrite request_loop_agree; [done|].
  rewrite Hin in Ha. unfold data_of in Ha. rewrite fmap_app, concat_app, app_assoc in Ha.
  match goal with |- Forall _ (requests ?b) => destruct (requests_prefix b (concat (carried <$> tail))) as [k Hk] end.
  cbn in Hk. rewrite Hk in Ha. by apply Forall_app in Ha as [Ha _].
Qed.
End Agree.

(** ** The server on the names asked for *)

Section Names.
Context (fs : filesystem) (names : list bytes) (dir : bytes).

(** The file system as far as it is asked for: the rest is out of reach. *)
Definition only : filesystem := λ p, if decide (p ∈ names) then fs p else Some Inaccessible.

(** The requests in [data] for files ask for [names] only. *)
Definition asks (data : bytes) : Prop :=
  Forall (λ frame, ∀ r, Request_ctor frame = Ok r → Request.IsValid r = true →
    IsCgiRequest (resource dir r) = false → resource dir r ∈ names) (requests data).

(** What the other threads cache is named. *)
Definition caches_named (a : cache_action) : Prop :=
  match a with ActLoad _ _ => True | ActInsert _ id _ => id ∈ names end.

(** The bytes of all the files named, one that is named twice counted twice. *)
Definition contents (path : bytes) : bytes :=
  match fs path with Some (RegularFile c) => c | _ => [] end.
Definition names_size : Z := total ((λ p, (p, contents p)) <$> names).

Lemma only_file p c : only p = Some (RegularFile c) → p ∈ names ∧ fs p = Some (RegularFile c).
Proof. unfold only. by case_decide. Qed.

Lemma only_files_fit capacity : (names_size ≤ capacity)%Z → files_fit only capacity.
Proof.
  intros Hcap es Hes Hnd. assert (es ⊆+ (λ p, (p, contents p)) <$> names) as [k Hk]%submseteq_Permutation.
  { apply NoDup_submseteq; [by eapply NoDup_fmap_1|]. intros [p c] Hin.
    destruct (only_file p c) as [Hp Hf]; [by apply (proj1 (Forall_forall _ _) Hes (p, c))|].
    apply list_elem_of_fmap. exists p. unfold contents. by rewrite Hf. }
  pose proof (total_nonneg k). unfold names_size in Hcap. rewrite Hk, total_app in Hcap. lia.
Qed.

(** A request [only] can serve is for a name. *)
Lemma servable_only frame : servable only dir frame → agree_on fs only dir frame.
Proof.
  intros Hs r Hr Hv Hc. specialize (Hs r Hr Hv Hc). fold (resource dir r) in Hs. unfold only in *. by case_decide.
Qed.

Lemma servable_data_only data : servable_data fs dir data → asks data → servable_data only dir data.
Proof.
  intros [Hsz Hs] Ha. split; [done|]. apply Forall_forall. intros f Hf r Hr Hv Hc.
  pose proof (proj1 (Forall_forall _ _) Ha f Hf r Hr Hv Hc) as Hn. fold (resource dir r).
  pose proof (proj1 (Forall_forall _ _) Hs f Hf r Hr Hv Hc) as H. fold (resource dir r) in H.
  unfold only. by rewrite decide_True.
Qed.

Section Node.
Context {C : Type} `{CacheOps C}.
Implicit Types n : Node C.

(** A step of the server in which nothing but [names] is asked for. *)
Inductive named_step : Node C → Node C → Prop :=
  | named_step_deliver fd r n :
      may_deliver fs dir fd r n →
      (∀ lk, n_links n !! fd = Some lk → asks (data_of (lk_delivered lk ++ [r]))) →
      named_step n (deliver fd r n)
  | named_step_poll l ready n n' :
      may_report l ready (n_system n) → node_poll l (Some ready) n = Ok n' → named_step n n'
  | named_step_run l clock e plan others n n' :
      may_run fs e plan others n → Forall (Forall caches_named) others →
      node_run fs dir l clock e plan others n = Ok n' → named_step n n'.

(** No next step of that kind faults. *)
Definition keeps_running_on_names n : Prop :=
  (∀ l ready, may_report l ready (n_system n) → is_ok (node_poll l (Some ready) n)) ∧
  (∀ l clock e plan others, may_run fs e plan others n → Forall (Forall caches_named) others →
     is_ok (node_run fs dir l clock e plan others n)).

Lemma named_step_step n n' : named_step n n' → node_step fs dir n n'.
Proof.
  intros [fd r m Hd _|l ready m m' Hrep Hrun|l clock e plan others m m' He _ Hrun].
  - by apply node_step_deliver.
  - by eapply node_step_poll.
  - by eapply node_step_run.
Qed.

Lemma may_run_only e plan others n :
  may_run fs e plan others n → Forall (Forall caches_named) others → may_run only e plan others n.
Proof.
  intros (He & Hp & Ho) Hn. split; [done|]. split; [done|].
  apply Forall_forall. intros acts Hacts. apply Forall_forall. intros [clock id|clock id source] Hin; [done|].
  pose proof (proj1 (Forall_forall _ _) (proj1 (Forall_forall _ _) Ho _ Hacts) _ Hin) as Hok.
  pose proof (proj1 (Forall_forall _ _) (proj1 (Forall_forall _ _) Hn _ Hacts) _ Hin) as Hid.
  cbn in *. unfold only. by rewrite decide_True.
Qed.
End Node.

Section Run.
Context {C : Type} `{CoherentCache only C}.
Implicit Types n : Node C.

(** What is read of a client's data, and what waits, is asked of [only]. *)
Lemma client_agrees {A} (c : Connection A) lk now :
  lk_delivered lk = now ++ incoming (lk_endpoint lk) →
  served only dir (data_of now) (read_buffer_ c) (wire (lk_endpoint lk)) →
  servable_data only dir (data_of (lk_delivered lk)) →
  Forall (agree_on fs only dir) (waiting c lk).
Proof.
  intros Hdel (frames & Hf & Hnow & _) [_ Hs]. rewrite Hdel, data_of_app, Hnow, <-app_assoc, requests_app in Hs by done.
  apply Forall_app in Hs as [_ Hs]. eapply Forall_impl; [exact Hs|]. apply servable_only.
Qed.

Lemma on_handle_only clock others p n c :
  NodeData only dir n → conns (n_world n) !! p = Some c → acceptor_conn_ (n_world n) ≠ Some p →
  on_handle fs dir clock others p n = on_handle only dir clock others p n.
Proof.
  intros D Hp Hna. destruct (ni_clients _ _ _ D p c Hp Hna) as [_ _ (lk & now & Hlk & Hdel & Hserved & _ & Hok & Hs)].
  unfold on_handle. rewrite Hp, Hlk.
  rewrite (ParseHttpRequest_agree fs only); [done| |by apply (client_agrees c lk now)].
  rewrite Hdel in Hok. by apply Forall_app in Hok as [_ ?].
Qed.

Lemma node_run_only l clock e plan others n :
  NodeInv only dir n → may_run only e plan others n →
  node_run fs dir l clock e plan others n = node_run only dir l clock e plan others n.
Proof.
  intros [[[a WFa] _] D] (Hacc & _). change (WFw (n_world n) a) in WFa. unfold node_run.
  destruct (pending (n_system n) !! l) as [[|p ps]|]; [done| |done]. f_equal.
  unfold node_callback. destruct (conns (n_world n) !! p) as [c|] eqn:Hp; [|done].
  destruct (decide (p = a)) as [->|Hpa].
  - destruct (GetCallback c) as [[|u]|] eqn:Hcb; [| |done].
    + destruct (BaseAcceptCallback_run e (n_world n) a c WFa Hp Hacc) as (w' & Hrun & _ & Hw'). rewrite Hrun. mred.
      assert (accept_callback_ w' = Noop) as ->; [|done].
      rewrite <-(ni_accept _ _ _ D). destruct (ae_accept e); [|by subst w'].
      by destruct Hw' as (? & ? & ? & ? & _ & _ & -> & _).
    + exfalso. destruct (ww_owned _ _ WFa a c Hp) as (l0 & x0 & [_ _ _ _ Hc]). rewrite decide_True in Hc by done.
      unfold GetCallback in Hcb. congruence.
  - assert (acceptor_conn_ (n_world n) ≠ Some p) as Hna by (rewrite (ww_acceptor _ _ WFa); congruence).
    unfold GetCallback. rewrite (co_callback _ _ _ _ (ni_clients _ _ _ D p c Hp Hna)). by eapply on_handle_only.
Qed.

Lemma named_step_only n n' : NodeInv only dir n → named_step n n' → node_step only dir n n'.
Proof.
  intros Hinv Hstep. destruct Hstep as [fd r m [Hr Hs] Ha|l ready m m' Hrep Hrun|l clock e plan others m m' He Hn Hrun].
  - apply node_step_deliver. split; [done|]. intros lk Hlk. apply servable_data_only; auto.
  - by eapply node_step_poll.
  - pose proof (may_run_only _ _ _ _ He Hn) as He'. eapply node_step_run; [exact He'|]. by rewrite <-node_run_only.
Qed.

Lemma named_steps_only n n' : web_start only n → rtc named_step n n' → NodeInv only dir n'.
Proof.
  intros Hs Hr. eapply (invariant_rtc named_step); [|exact Hr|by apply web_start_inv].
  intros m m' Hstep Hinv. eapply node_step_inv; [by apply named_step_only|exact Hinv].
Qed.

Lemma named_keeps_running n : NodeInv only dir n → keeps_running_on_names n.
Proof.
  intros Hinv. destruct (NodeInv_keeps_running only dir n Hinv) as [Hpoll Hrun]. split; [exact Hpoll|].
  intros l clock e plan others He Hn. pose proof (may_run_only _ _ _ _ He Hn) as He'.
  rewrite node_run_only by done. by apply Hrun.
Qed.
End Run.
End Names.
