(* ===== verification/Surviving.v ===== *)
(** * Handlers on a cache that may fail

    The handler and the server are proved correct against a cache that always
    returns ([CoherentCache]).  This file transfers what is proved to a cache that
    may fault: [Surviving C] is [C] made total, a cache that after its first fault
    knows nothing and stores nothing.  Wherever the program returns on [C] it does the
    same on [Surviving C] ([Embeds], [ParseHttpRequest_follows], [node_step_follows]),
    so that what holds of every run on the one holds of every run without a fault on
    the other. *)

From S2P Require Import Prelude CppString Buffer HttpUtils Request Response Cache CacheSpec ResourceCache Connection HttpServer Reactor WebServer.

(** [emb] turns a cache of one kind into one of another that does the same. *)
Class Embeds {C C' : Type} `{CacheOps C} `{CacheOps C'} (emb : C → C') := {
  em_load clock id destination :
    follows emb (rc_load (C := C) clock id destination) (rc_load clock id destination);
  em_insert clock id source :
    follows emb (rc_insert (C := C) clock id source) (rc_insert clock id source)
}.

(** ** The total cache *)

Definition Surviving (C : Type) : Type := option C.

(** The operation, or, once it faults, [a] and a cache that is gone. *)
Definition survive {C A} (m : stM C A) (a : A) : stM (Surviving C) A := λ s,
  match s ≫= λ c, match m c with Ok r => Some r | Fail _ => None end with
  | Some (r, c) => Ok (r, Some c)
  | None => Ok (a, None)
  end.

#[export] Instance Surviving_ops C `{CacheOps C} : CacheOps (Surviving C) := {|
  rc_load clock id destination := survive (rc_load clock id destination) (false, destination);
  rc_insert clock id source := survive (rc_insert clock id source) false
|}.

Lemma survive_follows {C A} (m : stM C A) a : follows Some m (survive m a).
Proof. intros c r c' E. unfold survive. cbn. by rewrite E. Qed.

#[export] Instance Surviving_embeds C `{CacheOps C} : Embeds (C' := Surviving C) Some.
Proof. split; intros; apply survive_follows. Qed.

(** ** The handler *)

Section Handler.
Context {C C' : Type} `{CacheOps C} `{CacheOps C'} (emb : C → C') `{!Embeds emb}.
Context (fs : filesystem) (dir : bytes) (clock : Z).

Definition emb_session (s : Session C) : Session C' :=
  mkSession (s_conn s) (s_endpoint s) (emb (s_cache s)) (s_deleted s).

Lemma on_net_follows {A} (m : stM (Connection unit * Endpoint) A) : follows emb_session (on_net m) (on_net m).
Proof.
  intros s a s'. unfold on_net. cbn [emb_session s_conn s_endpoint].
  destruct (m _) as [[a' [c ep]]|]; [|done]. by intros [= <- <-].
Qed.

Lemma on_conn_follows {A} (f : Connection unit → result (A * Connection unit)) :
  follows emb_session (on_conn f) (on_conn f).
Proof.
  intros s a s'. unfold on_conn. cbn [emb_session s_conn].
  destruct (f _) as [[a' c]|]; [|done]. by intros [= <- <-].
Qed.

Lemma on_cache_follows {A} (m : stM C A) (m' : stM C' A) :
  follows emb m m' → follows emb_session (on_cache m) (on_cache m').
Proof.
  intros Hm s a s'. unfold on_cache. cbn [emb_session s_cache].
  destruct (m _) as [[a' c]|] eqn:E; [|done]. rewrite (Hm _ _ _ E). by intros [= <- <-].
Qed.

Lemma delete_connection_follows fd : follows emb_session (delete_connection fd) (delete_connection fd).
Proof.
  intros s a s'. unfold delete_connection. cbn [emb_session s_conn].
  destruct (GetLooper _); [|done]. by intros [= <- <-].
Qed.

#[local] Hint Resolve on_net_follows on_conn_follows on_cache_follows delete_connection_follows em_load em_insert : icee.

(** Both sides in step, through binds and case distinctions. *)
Ltac follow :=
  first
    [ solve [auto with icee]
    | apply follows_bind; [follow|intros; follow]
    | match goal with |- follows _ (match ?x with _ => _ end) _ => destruct x; follow end ].

Lemma make_response_follows r :
  follows emb (make_response fs dir clock r) (make_response fs dir clock r).
Proof. unfold make_response. follow. Qed.

Lemma request_loop_follows fuel :
  follows emb_session (request_loop fs dir clock fuel) (request_loop fs dir clock fuel).
Proof.
  pose proof make_response_follows. induction fuel as [|fuel IH]; cbn [request_loop]; follow.
Qed.

Lemma ParseHttpRequest_follows :
  follows emb_session (ParseHttpRequest fs dir clock) (ParseHttpRequest fs dir clock).
Proof.
  pose proof request_loop_follows. unfold ParseHttpRequest.
  apply follows_bind; [by apply follows_gets|intros fd]. apply follows_bind; [follow|intros [size exit]].
  destruct exit; [follow|]. apply follows_bind; [by apply follows_gets|intros fuel]. follow.
Qed.
End Handler.

(** ** The server *)

Section Node.
Context {C C' : Type} `{CacheOps C} `{CacheOps C'} (emb : C → C') `{!Embeds emb}.
Context (fs : filesystem) (dir : bytes).

Definition emb_shared (s : Shared C) : Shared C' := mkShared (emb (sh_cache s)) (sh_others s).

Lemma run_actions_follows acts : follows emb (run_actions acts) (run_actions acts).
Proof.
  induction acts as [|[clock id|clock id source] acts IH]; cbn [run_actions run_action]; [auto with icee|..];
    (apply follows_bind; [apply follows_bind; [apply em_load || apply em_insert|auto with icee]|done]).
Qed.

Lemma shared_op_follows {A} (m : stM C A) (m' : stM C' A) :
  follows emb m m' → follows emb_shared (shared_op m) (shared_op m').
Proof.
  intros Hm s a s'. unfold shared_op. cbn [emb_shared sh_cache sh_others].
  destruct (run_actions _ _) as [[[] c1]|] eqn:E1; [|done]. rewrite (run_actions_follows _ _ _ _ E1). mred.
  destruct (m c1) as [[b c2]|] eqn:E2; [|done]. rewrite (Hm _ _ _ E2). by intros [= <- <-].
Qed.

#[export] Instance shared_embeds : Embeds emb_shared.
Proof. split; intros; apply shared_op_follows; [apply em_load|apply em_insert]. Qed.

Definition emb_node (n : Node C) : Node C' := mkNode (n_system n) (n_links n) (emb (n_cache n)).

Lemma on_handle_follows clock others p n n' :
  on_handle fs dir clock others p n = Ok n' → on_handle fs dir clock others p (emb_node n) = Ok (emb_node n').
Proof.
  unfold on_handle. change (n_world (emb_node n)) with (n_world n). cbn [emb_node n_links n_cache n_system].
  destruct (conns (n_world n) !! p) as [c|]; [|done]. destruct (n_links n !! socket_ c) as [lk|]; [|done].
  set (s0 := mkSession _ _ (mkShared (n_cache n) others) _).
  destruct (ParseHttpRequest fs dir clock s0) as [[[] s]|] eqn:E; [|done].
  pose proof (ParseHttpRequest_follows emb_shared fs dir clock s0 tt s E) as E'.
  unfold emb_session, emb_shared in E'. cbn [s0 s_conn s_endpoint s_cache s_deleted sh_cache sh_others] in E'.
  rewrite E'. mred. cbn [s_conn s_endpoint s_cache s_deleted sh_cache].
  destruct (delete_all _ _) as [[[] w]|]; [|done]. by intros [= <-].
Qed.

Lemma run_user_follows u clock others p n n' :
  run_user fs dir u clock others p n = Ok n' → run_user fs dir u clock others p (emb_node n) = Ok (emb_node n').
Proof. destruct u; [by intros [= <-]|apply on_handle_follows]. Qed.

Lemma node_callback_follows clock e plan others p n n' :
  node_callback fs dir clock e plan others p n = Ok n' →
  node_callback fs dir clock e plan others p (emb_node n) = Ok (emb_node n').
Proof.
  unfold node_callback. change (n_world (emb_node n)) with (n_world n). cbn [emb_node n_links n_cache n_system].
  destruct (conns (n_world n) !! p) as [c|]; [|done]. destruct (GetCallback c) as [[|u]|]; [|apply run_user_follows|done].
  destruct (BaseAcceptCallback e p (n_world n)) as [[[] w]|]; [|done].
  apply (run_user_follows _ _ _ _ (mkNode _ _ _)).
Qed.

Lemma node_run_follows l clock e plan others n n' :
  node_run fs dir l clock e plan others n = Ok n' →
  node_run fs dir l clock e plan others (emb_node n) = Ok (emb_node n').
Proof.
  unfold node_run. cbn [emb_node n_system]. destruct (pending (n_system n) !! l) as [[|p ps]|]; [by intros [= <-]| |by intros [= <-]].
  destruct (node_callback _ _ _ _ _ _ _ n) as [m|] eqn:E; [|done].
  rewrite (node_callback_follows _ _ _ _ _ _ _ E). by intros [= <-].
Qed.

Lemma node_step_follows n n' : node_step fs dir n n' → node_step fs dir (emb_node n) (emb_node n').
Proof.
  intros [fd r m Hd|l ready m m' Hrep Hrun|l clock e plan others m m' He Hrun].
  - exact (node_step_deliver fs dir fd r (emb_node m) Hd).
  - apply (node_step_poll fs dir l ready (emb_node m) (emb_node m') Hrep). revert Hrun. unfold node_poll.
    cbn [emb_node n_system n_links n_cache]. destruct (poll_step _ _ _); [|done]. by intros [= <-].
  - apply (node_step_run fs dir l clock e plan others (emb_node m) (emb_node m') He). by apply node_run_follows.
Qed.

Lemma node_steps_follow n n' : rtc (node_step fs dir) n n' → rtc (node_step fs dir) (emb_node n) (emb_node n').
Proof. induction 1 as [|n m n' Hs _ IH]; [done|]. eapply rtc_l; [by apply node_step_follows|exact IH]. Qed.
End Node.
