(* ===== verification/WebRace.v ===== *)
(** * The web server with the race inside

    WebServer.v takes the cache's operations as atomic.  Here the cache is the one of
    RacingCache.v: every lookup a handler makes is taken apart into its memory
    accesses, among those of lookups other threads have under way.

    Whatever the race does to the list, no client is ever sent anything but answers
    to its own requests: a step of the server either goes as if the cache were
    sound, or faults (through [Surviving], whose laws follow from HonestCache.v).
    Where the files clients name, each as often as they spell it differently, fit its
    ten megabytes together, no step faults (NamedFiles.v); beyond that the race may
    end the server ([TryLoad_race], [race_use_after_free]). *)

From S2P Require Import Prelude CppString Buffer HttpUtils Request Response Cache CacheSpec CacheRace ResourceCache RacingCache HonestCache Connection HttpServer Serving NetAddress Socket Reactor Server WebServer NamedFiles Surviving.

(** The server of [main], on a cache in which lookups run together as in [script]. *)
Definition with_races (script : list (list load_call * list nat)) (n : Node Cache) : Node RacingCache :=
  mkNode (n_system n) (n_links n) (mkRacing (n_cache n) [] script).

Lemma with_races_start fs fs' n clock script :
  web_start fs n → n_cache n = Cache_ctor clock INIT_CACHE_SIZE → files_fit fs' INIT_CACHE_SIZE →
  web_start fs' (with_races script n).
Proof.
  intros [Hwf Hh Ha _ Hco Hl] Hc Hfit. split; [exact Hwf|exact Hh|exact Ha| |exact Hco|exact Hl].
  cbn [with_races n_cache]. rewrite Hc. by apply racing_start; [decided|].
Qed.

(** The racing cache, made total: what it finds before its first fault is the file
    asked for, and after it nothing is found. *)
Section Surviving.
Context (fs : filesystem).

#[export] Program Instance Surviving_coherent : CoherentCache fs (Surviving RacingCache) := {|
  rc_ok s := ∀ c, s = Some c → racing_honest fs c
|}.
Next Obligation.
  intros clock id destination s Hs. unfold rc_load, Surviving_ops, survive.
  destruct (s ≫= _) as [[r c']|] eqn:E; [|exists (false, destination), None; split_and!; [done|done|by left]].
  apply bind_Some in E as (c & -> & E). destruct (racing_load clock id destination c) as [[r1 c1]|] eqn:Hrun;
    unfold rc_load, RacingCache_ops in E; rewrite Hrun in E; [|done]. injection E as -> ->.
  destruct (racing_load_honest fs _ _ _ _ _ _ (Hs c eq_refl) Hrun) as [Hc Hr].
  exists r, (Some c'). split_and!; [done|by intros ? [= <-]|done].
Qed.
Next Obligation.
  intros clock id source s Hs Hf _. unfold rc_insert, Surviving_ops, survive.
  destruct (s ≫= _) as [[b c']|] eqn:E; [|by exists false, None].
  apply bind_Some in E as (c & -> & E). destruct (racing_insert clock id source c) as [[b1 c1]|] eqn:Hrun;
    unfold rc_insert, RacingCache_ops in E; rewrite Hrun in E; [|done]. injection E as -> ->.
  exists b, (Some c'). split; [done|]. intros ? [= <-]. eapply racing_insert_honest; [by apply Hs|exact Hf|exact Hrun].
Qed.

Lemma surviving_start n clock script :
  web_start fs n → n_cache n = Cache_ctor clock INIT_CACHE_SIZE →
  web_start (C := Surviving RacingCache) fs (emb_node Some (with_races script n)).
Proof.
  intros [Hwf Hh Ha _ Hco Hl] Hc. split; [exact Hwf|exact Hh|exact Ha| |exact Hco|exact Hl].
  cbn [emb_node with_races n_cache]. rewrite Hc. intros c [= <-]. apply honest_start.
Qed.
End Surviving.

(** C4: The race on the cache never reaches a client.  From [main] on, under every
    interleaving of deliveries, accepts, polls and handlers, and of the memory
    accesses of all lookups under the shared lock, with evictions or without: as long
    as the server runs, what each client is sent are answers to its own requests, as
    the file system has them.  And where clients spell the paths they ask for in
    finitely many ways, [names], and the files so named, each counted once per
    spelling, fit the cache together, it does run: no poll and no callback faults.
    Both parts are under the conditions of [node_step]: requests are for paths that
    name nothing or a readable, non-empty regular file below 2^31 bytes, peers take
    what they are sent, and [accept], [fcntl] and [kevent] behave. *)
Theorem races_spare_clients inet_pton4 inet_pton6 fs args clock e n ip port directory a b c d :
  main fs args = Ok (StartServer ip port directory) → inet_pton4 ip = Some [a; b; c; d] →
  0 < n → (Z.of_nat n + 1 < 2 ^ 31)%Z → env_ok n e →
  ∃ node, http_server_main inet_pton4 inet_pton6 fs args (Z.of_nat n + 1) clock e = Ok (node, directory) ∧
    ∀ script,
      (∀ n', rtc (node_step fs directory) (with_races script node) n' → isolated fs directory n') ∧
      (∀ names n', (names_size fs names ≤ INIT_CACHE_SIZE)%Z →
         rtc (named_step fs names directory) (with_races script node) n' →
         keeps_running_on_names fs names directory n').
Proof.
  intros Hmain Hip Hn Hlt He.
  destruct (http_server_run inet_pton4 inet_pton6 fs args clock e n ip port directory a b c d Hmain Hip Hn Hlt He)
    as (node & Hrun & Hws & _ & _ & Hcache).
  exists node. split; [exact Hrun|]. intros script. split.
  - intros n' Hr. apply (node_steps_follow Some) in Hr.
    exact (NodeInv_isolated _ _ _ (reachable_inv fs directory _ _ Hr (surviving_start fs node clock script Hws Hcache))).
  - intros names n' Hfit%only_files_fit Hr.
    pose proof (with_races_start fs (only fs names) node clock script Hws Hcache Hfit) as Hstart.
    exact (named_keeps_running fs names directory n' (named_steps_only fs names directory _ _ Hstart Hr)).
Qed.

(** ** A run: while the handler looks up its file, two other threads do, and their
    accesses fall in the middle of its own *)

Definition demo_names : list bytes := [lit "www/a.html"; lit "www//a.html"].

Definition demo_call : load_call := mkCall 0 (lit "www/a.html") [].
Definition demo_script : list (list load_call * list nat) :=
  [([], []); ([demo_call; demo_call], replicate 7 0 ++ replicate 6 2 ++ replicate 3 1 ++ replicate 5 0)].

Definition race_start : Node RacingCache := with_races demo_script demo_start.

Lemma demo_asks : asks demo_names (lit "www") demo_request.
Proof.
  unfold asks. assert (requests demo_request = [demo_request]) as -> by (vm_compute; reflexivity).
  apply Forall_singleton. intros r Hr _ _. vm_compute in Hr. injection Hr as <-. left.
Qed.

Lemma demo_race_run :
  ∃ n, rtc (named_step demo_files demo_names (lit "www")) race_start n ∧
    (wire ∘ lk_endpoint) <$> n_links n !! 9%Z = Some (web_reply demo_files (lit "www") demo_request) ∧
    length (ra_readers (n_cache n)) = 2 ∧ ra_script (n_cache n) = [].
Proof.
  eexists. split.
  - eapply rtc_l; [eapply (named_step_poll _ _ _ 0 [6%Z]); [demo_report|vm_compute; reflexivity]|].
    eapply rtc_l; [eapply (named_step_run _ _ _ 0 0 demo_accept demo_plan demo_others);
                   [apply demo_may_run; vm_compute; intros H; discriminate H|repeat constructor|vm_compute; reflexivity]|].
    eapply rtc_l; [apply (named_step_deliver _ _ _ 9 (RecvBytes demo_request))|].
    { by apply (demo_may_deliver (RecvBytes demo_request) demo_request); [exact (proj2 demo_servable_data)|..]; vm_compute. }
    { intros lk Hlk. vm_compute in Hlk. injection Hlk as <-. exact demo_asks. }
    eapply rtc_l; [eapply (named_step_poll _ _ _ 2 [9%Z]); [demo_report|vm_compute; reflexivity]|].
    eapply rtc_l; [eapply (named_step_run _ _ _ 2 0);
                   [apply demo_may_run_again|repeat constructor|vm_compute; reflexivity]|].
    apply rtc_refl.
  - split_and!; vm_compute; reflexivity.
Qed.

Lemma races_spare_clients_witness :
  ∃ n : Node RacingCache,
    (wire ∘ lk_endpoint) <$> n_links n !! 9%Z = Some (web_reply demo_files (lit "www") demo_request) ∧
    length (ra_readers (n_cache n)) = 2 ∧
    isolated demo_files (lit "www") n ∧ keeps_running_on_names demo_files demo_names (lit "www") n.
Proof.
  destruct demo_race_run as (n & Hr & Hw & Hl & _).
  destruct (races_spare_clients demo_pton4 demo_pton6 demo_files demo_args 0 demo_env 2 (lit "0.0.0.0") 8080 (lit "www")
              0 0 0 0 eq_refl eq_refl ltac:(lia) ltac:(lia) demo_env_ok) as (node & Hrun & Hall).
  exists n. split; [exact Hw|]. split; [exact Hl|].
  assert (node = demo_start) as -> by (unfold demo_start; change (Z.of_nat 2 + 1)%Z with 3%Z in Hrun; by rewrite Hrun).
  destruct (Hall demo_script) as [Hiso Hrun']. split.
  - apply Hiso. eapply rtc_subrel; [|exact Hr]. intros m m'. apply named_step_step.
  - apply (Hrun' demo_names); [vm_compute; discriminate|exact Hr].
Defined.
