(* ===== verification/Epoll.v ===== *)
(** * The poller's event array, and its epoll back end
      (src/core/poller.cc, src/include/core/poller.h)

    Reactor.v models what the kqueue build registers and dispatches.  Here is the
    rest of the class: the array [poll_events_] that both constructors allocate and
    clear, as bytes, and [Poll] of the epoll build, which reads the kernel's answers
    out of that array.  The epoll [AddConnection] is not valid C++ and has no
    model; what the kernel reports for a descriptor is taken from the registration
    of Reactor.v.

    The theorem: the epoll constructor clears exactly its array, while the kqueue one
    leaves most of its own uncleared and writes past the end of an array of one
    entry.  The lemma on [Epoll_collect]: given events whose pointers are those
    registered, the loop hands out those connections in order. *)

From S2P Require Import Prelude Buffer Connection Socket Reactor.

(** ** The array *)

(** [sizeof(struct epoll_event)] (packed, x86-64) and [sizeof(struct kevent)]. *)
Definition sizeof_epoll_event : Z := 12.
Definition sizeof_kevent : Z := 32.

(** A block of memory: its bytes, [None] where nothing was written yet. *)
Abbreviation block := (list (option Z)).

Definition new_block (n : Z) : block := replicate (Z.to_nat n) None.

(** [memset(b, 0, n)] *)
Definition memset_zero (b : block) (n : Z) : result block :=
  if (size_of b <? n)%Z then Fail OutOfRange
  else Ok (replicate (Z.to_nat n) (Some 0%Z) ++ drop (Z.to_nat n) b).

(** The two constructors' allocation and [memset]. *)
Definition epoll_events (poll_size : Z) : result block :=
  memset_zero (new_block (poll_size * sizeof_epoll_event)) (to_size_t (poll_size * sizeof_epoll_event)).
Definition kqueue_events (poll_size : Z) : result block :=
  memset_zero (new_block (poll_size * sizeof_kevent)) (to_size_t (poll_size + sizeof_kevent)).

(** ** The epoll back end *)

Definition EPOLL_CTL_ADD : Z := 1.
Definition EPOLLIN : Z := 1.
Definition EPOLLET : Z := 2 ^ 31.
Definition POLL_ADD : Z := EPOLL_CTL_ADD.
Definition POLL_READ : Z := EPOLLIN.
Definition POLL_ET : Z := EPOLLET.

(** [data] is used as a pointer; a cleared event holds a null one. *)
Record epoll_event := mkEpollEvent { ee_events : Z; ee_ptr : option loc }.

Record EpollPoller := mkEpollPoller { ep_fd : Z; ep_size : Z; ep_events : list epoll_event }.

Definition EpollPoller_ctor (poll_size : Z) (sys_epoll_create : option Z) : result EpollPoller :=
  match sys_epoll_create with
  | Some fd => Ok (mkEpollPoller fd poll_size (replicate (Z.to_nat poll_size) (mkEpollEvent 0 None)))
  | None => Fail Exited
  end.

Section Epoll.
Context {U : Type}.

(** The [for] loop of [Poll]: [k] events from index [i] on. *)
Fixpoint Epoll_collect (k i : nat) (poll_events : list epoll_event) : stM (World U) (list loc) :=
  match k with
  | 0 => mret []
  | S k =>
      match poll_events !! i with
      | None => mthrow OutOfRange
      | Some ev =>
          match ee_ptr ev with
          | None => mthrow NullPointer
          | Some ready_connection =>
              c ← deref_conn ready_connection;
              modify (with_conns (insert ready_connection (SetRevents c (to_uint32 (ee_events ev)))));;
              events_happen ← Epoll_collect k (S i) poll_events;
              mret (ready_connection :: events_happen)
          end
      end
  end.

(** [Poll]: [epoll_wait] writes what it reports, at most [poll_size_] events, to the
    start of the array ([None]: the call failed). *)
Definition Epoll_Poll (sys_epoll_wait : option (list epoll_event)) (poller : EpollPoller)
    : stM (World U) (list loc * EpollPoller) :=
  match sys_epoll_wait with
  | None => mthrow Exited
  | Some reported =>
      ensure OutOfRange (length reported <=? length (ep_events poller));;
      let poll_events := reported ++ drop (length reported) (ep_events poller) in
      events_happen ← Epoll_collect (length reported) 0 poll_events;
      mret (events_happen, mkEpollPoller (ep_fd poller) (ep_size poller) poll_events)
  end.

(** ** Lemmas *)

(** The loop over the reported events, as a recursion on them. *)
Lemma Epoll_collect_run (w : World U) a l x ready reported before after :
  WFw w a → loopers w !! l = Some x →
  Forall2 (λ fd ev, ∃ e, registered (poller_ x) !! fd = Some e ∧ ee_ptr ev = Some (ke_udata e)) ready reported →
  ∃ ps w', Epoll_collect (length reported) (length before) (before ++ reported ++ after) w = Ok (ps, w') ∧
    polled w w' ∧ Forall2 (λ fd p, ke_udata <$> registered (poller_ x) !! fd = Some p) ready ps.
Proof.
  intros WF Hx F. revert w before WF Hx.
  induction F as [|fd ev ready reported (e & He & Hptr) F IH]; intros w before WF Hx.
  { by exists [], w. }
  destruct (ww_registered _ _ WF _ _ _ _ Hx He) as (c & Hc & _).
  set (w1 := with_conns (insert (ke_udata e) (SetRevents c (to_uint32 (ee_events ev)))) w).
  assert (polled w w1) as P1 by (by apply polled_update).
  destruct (IH w1 (before ++ [ev])) as (ps & w2 & H2 & P2 & F2).
  { by eapply WFw_similar, WF; apply polled_similar. }
  { done. }
  exists (ke_udata e :: ps), w2. split_and!; [|by etrans|by constructor; [rewrite He|]].
  rewrite length_app, <-app_assoc in H2. cbn [length app] in H2. rewrite Nat.add_1_r in H2.
  cbn [Epoll_collect length app]. rewrite list_lookup_middle by done. rewrite Hptr. mred.
  unfold deref_conn. rewrite Hc. fold w1. rewrite H2. done.
Qed.
End Epoll.

(** ** Properties *)

(** C34: clearing the array.  The epoll constructor clears all of its array and nothing
    else.  The kqueue constructor adds where it means to multiply: from two entries
    on it clears the first [poll_size + 32] bytes only; with one entry (or none) it
    writes past the end of the allocation. *)
Theorem poll_events_cleared poll_size :
  (0 ≤ poll_size < 2 ^ 32)%Z →
  epoll_events poll_size = Ok (replicate (Z.to_nat (poll_size * sizeof_epoll_event)) (Some 0%Z)) ∧
  kqueue_events poll_size =
    if (2 <=? poll_size)%Z then
      Ok (replicate (Z.to_nat (poll_size + sizeof_kevent)) (Some 0%Z) ++
          replicate (Z.to_nat (poll_size * sizeof_kevent - (poll_size + sizeof_kevent))) None)
    else Fail OutOfRange.
Proof.
  intros Hp. unfold epoll_events, kqueue_events, memset_zero, sizeof_epoll_event, sizeof_kevent, new_block, size_of.
  rewrite !wrap_u_id by lia. rewrite !length_replicate, !Z2Nat.id, Z.ltb_irrefl by lia. split.
  - by rewrite drop_replicate, Nat.sub_diag, app_nil_r.
  - destruct (Z.leb_spec 2 poll_size) as [H2|H2].
    + rewrite (proj2 (Z.ltb_ge _ _)) by lia. rewrite drop_replicate. do 3 f_equal. lia.
    + by rewrite (proj2 (Z.ltb_lt _ _)) by lia.
Qed.

Lemma poll_events_cleared_witness :
  epoll_events 1 = Ok (replicate (Z.to_nat (1 * sizeof_epoll_event)) (Some 0%Z)) ∧
  kqueue_events 1 =
    if (2 <=? 1)%Z then
      Ok (replicate (Z.to_nat (1 + sizeof_kevent)) (Some 0%Z) ++
          replicate (Z.to_nat (1 * sizeof_kevent - (1 + sizeof_kevent))) None)
    else Fail OutOfRange.
Proof. apply (poll_events_cleared 1). lia. Defined.
