(* ===== verification/Logger.v ===== *)
(** * [Icee::Logger] (src/include/log/logger.h, src/log/logger.cc)

    The asynchronous logger: threads push stamped messages into a front buffer, a
    background thread swaps it out and writes it to a file.  The model is a state
    machine with one event per critical section of the code: a push, a
    [notify_one], and the points of the background thread's loop (evaluating the
    wait's predicate, blocking, flushing).  Clock readings and local times come
    with the events; what [std::put_time] makes of them is modelled.  The destructor sets [done_] and notifies without taking [latch_].

    The theorems: no message is repeated or reordered on its way to the flushing
    function, and none is left behind while the logger lives; each day has a file of its own, which,
    though, only ever holds the last batch; and the ways the shutdown goes wrong. *)

From S2P Require Import Prelude CppString.

Inductive LogLevel := INFO | WARNING | ERROR | FATAL | DEBUG.

Definition FILE_PATH : bytes := lit "IceeLog".
Definition COUNT_THRESHOLD : Z := 1000.
(** In microseconds. *)
Definition TIME_THRESHOLD : Z := 3000.

(** ** Time *)

(** [GetCurrentTime]: the system clock, in nanoseconds since the epoch, truncated to
    microseconds by [duration_cast]. *)
Definition GetCurrentTime (system_clock_now : Z) : Z := Z.quot system_clock_now 1000.

(** The members of [std::tm] that are printed; [tm_year] counts from 1900,
    [tm_mon] from 0. *)
Record tm := mkTm { tm_sec : Z; tm_min : Z; tm_hour : Z; tm_mday : Z; tm_mon : Z; tm_year : Z }.

(** What [std::localtime] returns, for the years 0 to 9999. *)
Definition tm_ok (t : tm) : Prop :=
  (0 ≤ tm_sec t ≤ 60)%Z ∧ (0 ≤ tm_min t < 60)%Z ∧ (0 ≤ tm_hour t < 24)%Z ∧
  (1 ≤ tm_mday t ≤ 31)%Z ∧ (0 ≤ tm_mon t < 12)%Z ∧ (-1900 ≤ tm_year t < 8100)%Z.

(** [std::put_time] in the "C" locale: two digits, [%b], [%Y]. *)
Definition two_digits (n : Z) : bytes := [digit (Z.to_nat (n / 10)); digit (Z.to_nat (n mod 10))].
Definition month_names : list bytes :=
  [lit "Jan"; lit "Feb"; lit "Mar"; lit "Apr"; lit "May"; lit "Jun";
   lit "Jul"; lit "Aug"; lit "Sep"; lit "Oct"; lit "Nov"; lit "Dec"].
Definition month_name (t : tm) : bytes := default (lit "?") (month_names !! Z.to_nat (tm_mon t)).
Definition year_text (t : tm) : bytes := to_string (Z.to_nat (1900 + tm_year t)).

(** "%d%b%Y" *)
Definition GetCurrentDate (t : tm) : bytes := two_digits (tm_mday t) ++ month_name t ++ year_text t.

(** "[%Y-%m-%d %H:%M:%S]" *)
Definition stamp (t : tm) : bytes :=
  lit "[" ++ year_text t ++ lit "-" ++ two_digits (tm_mon t + 1) ++ lit "-" ++ two_digits (tm_mday t) ++ lit " " ++
  two_digits (tm_hour t) ++ lit ":" ++ two_digits (tm_min t) ++ lit ":" ++ two_digits (tm_sec t) ++ lit "]".

(** ** Log entries *)

(** A log entry: its stamped message. *)
Record Log := mkLog { stamped_message_ : bytes }.

(** The level is not used. *)
Definition Log_ctor (t : tm) (log_level : LogLevel) (message : bytes) : Log :=
  mkLog (stamp t ++ message ++ ["010"%char]).

(** [operator<<] of a log entry. *)
Definition Log_stream_out (os : bytes) (log : Log) : bytes := os ++ stamped_message_ log.

(** ** Writing a batch to the day's file *)

(** [fstream_]: the file it is open on, if any, and what was written and not
    flushed.  Opening is taken to succeed. *)
Record StreamWriter := mkWriter { open_on : option bytes; unflushed : bytes }.

(** The constructor opens with [trunc], so the file is emptied first. *)
Definition StreamWriter_ctor (filename : bytes) (t : tm) (d : gmap bytes bytes) : StreamWriter * gmap bytes bytes :=
  let name := filename ++ lit "_" ++ GetCurrentDate t in
  (mkWriter (Some name) [], <[name := []]> d).

(** [std::fstream::flush]: what is buffered goes to the end of the file. *)
Definition fstream_flush (w : StreamWriter) (d : gmap bytes bytes) : StreamWriter * gmap bytes bytes :=
  match open_on w with
  | Some name => (mkWriter (Some name) [], alter (λ old, old ++ unflushed w) name d)
  | None => (w, d)
  end.

Definition WriteLogsToFile (logs : list Log) (w : StreamWriter) (d : gmap bytes bytes) : StreamWriter * gmap bytes bytes :=
  fstream_flush (mkWriter (open_on w) (foldl Log_stream_out (unflushed w) logs)) d.

(** [~StreamWriter]: flush and close if open. *)
Definition StreamWriter_dtor (w : StreamWriter) (d : gmap bytes bytes) : StreamWriter * gmap bytes bytes :=
  match open_on w with
  | Some _ => let '(w, d) := fstream_flush w d in (mkWriter None (unflushed w), d)
  | None => (w, d)
  end.

Definition FlushToFile (t : tm) (logs : list Log) (d : gmap bytes bytes) : gmap bytes bytes :=
  let '(stream_writer, d) := StreamWriter_ctor FILE_PATH t d in
  let '(stream_writer, d) := WriteLogsToFile logs stream_writer d in
  (StreamWriter_dtor stream_writer d).2.

(** ** The logger *)

(** Where the background thread stands: about to evaluate the wait's predicate;
    found it false and not yet blocked (it still holds [latch_]); blocked; writing
    out a batch; returned. *)
Inductive writer := Checking | Falling | Asleep | Flushing (batch : list Log) | Exited.

Record Logger := mkLogger {
  done_ : bool;
  front_log_entries_ : list Log;
  last_flush_ : Z;
  background_ : writer;
  (** [notify_one] calls a thread is about to make. *)
  owed : nat;
  (** The files of the working directory, by name. *)
  disk : gmap bytes bytes;
  (** History: everything pushed, and the batches given to [log_strategy_]. *)
  pushed : list Log;
  flushed : list (list Log)
}.

(** The constructor, at time [now]: the thread starts. *)
Definition Logger_ctor (now : Z) (d : gmap bytes bytes) : Logger :=
  mkLogger false [] now Checking 0 d [] [].

(** The condition of both the wait and the notification, [done_] apart. *)
Definition over_threshold (now : Z) (front : list Log) (last_flush : Z) : bool :=
  (TIME_THRESHOLD <? now - last_flush)%Z || (COUNT_THRESHOLD <=? size_of front)%Z.

(** [PushNewLog]: the critical section; a notification may follow. *)
Definition PushNewLog (now : Z) (log : Log) (s : Logger) : Logger :=
  let front := front_log_entries_ s ++ [log] in
  mkLogger (done_ s) front (last_flush_ s) (background_ s)
    (owed s + if over_threshold now front (last_flush_ s) then 1 else 0)
    (disk s) (pushed s ++ [log]) (flushed s).

(** [GetInstance]: the function's static object, constructed by the first call. *)
Definition GetInstance (now : Z) (d : gmap bytes bytes) (singleton_logger : option Logger) : Logger :=
  match singleton_logger with Some s => s | None => Logger_ctor now d end.

(** The static object after the call, which reads the clock at [now] in
    [GetInstance] and at [later] in [PushNewLog]. *)
Definition DoLog (t : tm) (now later : Z) (d : gmap bytes bytes) (log_level : LogLevel) (message : bytes)
    (singleton_logger : option Logger) : option Logger :=
  Some (PushNewLog later (Log_ctor t log_level message) (GetInstance now d singleton_logger)).

(** The macros [LOG_INFO], [LOG_ERROR], ...: nothing in a build with [NOLOG]. *)
Definition LOG (nolog : bool) (log_level : LogLevel) (t : tm) (now later : Z) (d : gmap bytes bytes) (x : bytes)
    (singleton_logger : option Logger) : option Logger :=
  if nolog then singleton_logger else DoLog t now later d log_level x singleton_logger.

Definition with_background (b : writer) (s : Logger) : Logger :=
  mkLogger (done_ s) (front_log_entries_ s) (last_flush_ s) b (owed s) (disk s) (pushed s) (flushed s).

(** [notify_one] wakes the thread if it is blocked, and is lost otherwise. *)
Definition notify_one (s : Logger) : Logger :=
  let b := match background_ s with Asleep => Checking | b => b end in
  mkLogger (done_ s) (front_log_entries_ s) (last_flush_ s) b (Nat.pred (owed s)) (disk s) (pushed s) (flushed s).

(** [~Logger] up to the join. *)
Definition Logger_dtor (s : Logger) : Logger :=
  mkLogger true (front_log_entries_ s) (last_flush_ s) (background_ s) (S (owed s)) (disk s) (pushed s) (flushed s).

(** [LogWrite], from the wait's predicate to the swap. *)
Definition LogWrite_check (now : Z) (s : Logger) : Logger :=
  if done_ s || over_threshold now (front_log_entries_ s) (last_flush_ s) then
    match front_log_entries_ s with
    | [] => with_background (if done_ s then Exited else Checking) s
    | front => mkLogger (done_ s) [] (last_flush_ s) (Flushing front) (owed s) (disk s) (pushed s) (flushed s)
    end
  else with_background Falling s.

(** [LogWrite], from the flush to the end of the iteration. *)
Definition LogWrite_flush (now : Z) (t : tm) (batch : list Log) (s : Logger) : Logger :=
  mkLogger (done_ s) (front_log_entries_ s) now (if done_ s then Exited else Checking) (owed s)
    (FlushToFile t batch (disk s)) (pushed s) (flushed s ++ [batch]).

Inductive event :=
  | Push (now : Z) (log : Log)
  | Notify
  | Check (now : Z)
  | Fall
  | Flush (now : Z) (t : tm)
  | Destroy.

(** One event, when it can happen: a push needs [latch_], which the background
    thread holds while [Falling]. *)
Definition run_event (e : event) (s : Logger) : option Logger :=
  match e, background_ s with
  | Push now log, Falling => None
  | Push now log, _ => Some (PushNewLog now log s)
  | Notify, _ => match owed s with 0 => None | S _ => Some (notify_one s) end
  | Check now, Checking => Some (LogWrite_check now s)
  | Fall, Falling => Some (with_background Asleep s)
  | Flush now t, Flushing batch => Some (LogWrite_flush now t batch s)
  | Destroy, _ => if done_ s then None else Some (Logger_dtor s)
  | _, _ => None
  end.

Fixpoint run (es : list event) (s : Logger) : option Logger :=
  match es with
  | [] => Some s
  | e :: es => s' ← run_event e s; run es s'
  end.

(** The batch in the background thread's hands. *)
Definition in_flight (s : Logger) : list Log :=
  match background_ s with Flushing batch => batch | _ => [] end.

(** ** Lemmas *)

Definition conserved (s : Logger) : Prop :=
  pushed s = concat (flushed s) ++ in_flight s ++ front_log_entries_ s.

Lemma conserved_event e s s' : run_event e s = Some s' → conserved s → conserved s'.
Proof.
  unfold conserved. intros He Hs. destruct e as [now log| |now| |now t|]; cbn [run_event] in He.
  - assert (s' = PushNewLog now log s) as -> by (destruct (background_ s); congruence).
    unfold in_flight in *. cbn. rewrite Hs. by rewrite !app_assoc.
  - destruct (owed s); [done|]. injection He as <-. unfold in_flight in *. cbn.
    rewrite Hs. by destruct (background_ s).
  - destruct (background_ s) eqn:Hb; [|done..]. injection He as <-. unfold in_flight in *. rewrite Hb in Hs.
    unfold LogWrite_check. destruct (done_ s || _); [|cbn; done].
    destruct (front_log_entries_ s) eqn:Hf.
    + cbn. rewrite Hf. rewrite Hs. by destruct (done_ s).
    + cbn. rewrite Hs. cbn. by rewrite app_nil_r.
  - destruct (background_ s) eqn:Hb; [done| |done..]. injection He as <-. unfold in_flight in *. rewrite Hb in Hs. done.
  - destruct (background_ s) as [| | |batch|] eqn:Hb; [done..| |done]. injection He as <-.
    unfold in_flight in *. rewrite Hb in Hs. cbn. rewrite Hs, concat_app. cbn. rewrite app_nil_r.
    destruct (done_ s); by rewrite <-!app_assoc.
  - destruct (done_ s); [done|]. injection He as <-. done.
Qed.

Lemma run_app es1 es2 s s1 : run es1 s = Some s1 → run (es1 ++ es2) s = run es2 s1.
Proof.
  revert s. induction es1 as [|e es1 IH]; intros s; cbn [run app]; [by intros [= ->]|].
  destruct (run_event e s) as [s'|]; [|done]. cbn. apply IH.
Qed.

Lemma run_invariant (Inv : Logger → Prop) es s s' :
  (∀ e s s', run_event e s = Some s' → Inv s → Inv s') → run es s = Some s' → Inv s → Inv s'.
Proof.
  intros Hstep. revert s. induction es as [|e es IH]; intros s; cbn [run]; [by intros [= ->]|].
  destruct (run_event e s) as [s1|] eqn:E; [|done]. cbn. intros Hr Hs. eauto.
Qed.

Lemma Log_stream_out_all os logs :
  foldl Log_stream_out os logs = os ++ concat (stamped_message_ <$> logs).
Proof.
  revert os. induction logs as [|log logs IH]; intros os; cbn; [by rewrite app_nil_r|].
  rewrite IH. unfold Log_stream_out. by rewrite <-app_assoc.
Qed.

(** The name of the file for the day of [t]. *)
Definition log_file (t : tm) : bytes := FILE_PATH ++ lit "_" ++ GetCurrentDate t.

Lemma FlushToFile_contents t logs d :
  FlushToFile t logs d !! log_file t = Some (concat (stamped_message_ <$> logs)).
Proof.
  unfold FlushToFile, StreamWriter_ctor, WriteLogsToFile, StreamWriter_dtor, fstream_flush.
  cbn [open_on unflushed snd]. fold (log_file t). rewrite Log_stream_out_all, !lookup_alter_eq, lookup_insert_eq. cbn.
  by rewrite app_nil_r.
Qed.

Lemma FlushToFile_other t logs d name :
  name ≠ log_file t → FlushToFile t logs d !! name = d !! name.
Proof.
  intros Hne. unfold FlushToFile, StreamWriter_ctor, WriteLogsToFile, StreamWriter_dtor, fstream_flush.
  cbn [open_on unflushed snd]. fold (log_file t).
  by rewrite !lookup_alter_ne, lookup_insert_ne by done.
Qed.

(** ** Lemmas: dates *)

Lemma two_digits_inj a b :
  (0 ≤ a < 100)%Z → (0 ≤ b < 100)%Z → two_digits a = two_digits b → a = b.
Proof.
  intros Ha Hb [= H1 H2].
  assert (∀ n, (0 ≤ n < 100)%Z → (0 ≤ n / 10 < 10 ∧ 0 ≤ n mod 10 < 10 ∧ n = 10 * (n / 10) + n mod 10)%Z) as Hdm.
  { intros n Hn. pose proof (Z.div_mod n 10 ltac:(lia)). pose proof (Z.mod_pos_bound n 10 ltac:(lia)). lia. }
  pose proof (Hdm a Ha). pose proof (Hdm b Hb).
  assert (∀ n m, n < 10 → m < 10 → digit n = digit m → n = m) as Hdig.
  { intros n m Hn Hm E. pose proof (digit_code n Hn). pose proof (digit_code m Hm). rewrite E in *. lia. }
  apply Hdig in H1, H2; lia.
Qed.

Lemma month_name_known t :
  tm_ok t → ∃ m, month_names !! Z.to_nat (tm_mon t) = Some m ∧ month_name t = m ∧ length m = 3.
Proof.
  intros (_ & _ & _ & _ & Hm & _). unfold month_name.
  destruct (lookup_lt_is_Some_2 month_names (Z.to_nat (tm_mon t))) as [m Hl]; [simpl; lia|].
  exists m. rewrite Hl. split_and!; [done|done|].
  apply (Forall_lookup_1 (λ m, length m = 3) month_names _ _) in Hl; [done|]. decided.
Qed.

Lemma month_name_inj a b : tm_ok a → tm_ok b → month_name a = month_name b → tm_mon a = tm_mon b.
Proof.
  intros Ha Hb E. destruct (month_name_known a Ha) as (m & H1 & Em & _), (month_name_known b Hb) as (m' & H2 & Em' & _).
  assert (NoDup month_names) as Hnd by decided.
  rewrite Em, Em' in E. subst m'. pose proof (NoDup_lookup _ _ _ _ Hnd H1 H2).
  destruct Ha as (_ & _ & _ & _ & ? & _), Hb as (_ & _ & _ & _ & ? & _). lia.
Qed.

Lemma year_text_inj a b : tm_ok a → tm_ok b → year_text a = year_text b → tm_year a = tm_year b.
Proof.
  intros (_ & _ & _ & _ & _ & ?) (_ & _ & _ & _ & _ & ?) E.
  apply (f_equal numeral_value) in E. unfold year_text in E. rewrite !to_string_value in E. lia.
Qed.

(** A background thread that sleeps with no notification to come, in a logger that
    is being destroyed. *)
Definition abandoned (s : Logger) : Prop := done_ s = true ∧ background_ s = Asleep ∧ owed s = 0.

Definition is_push (e : event) : bool := match e with Push _ _ => true | _ => false end.

Lemma abandoned_event e s s' :
  is_push e = false → run_event e s = Some s' → abandoned s → abandoned s'.
Proof.
  intros Hp He (Hd & Hb & Ho). destruct e; cbn [run_event is_push] in *; rewrite ?Hd, ?Hb, ?Ho in He; done.
Qed.

(** ** Lemmas: the background thread gets everything out *)

(** What the background thread does, and the notifications of pushes past, not
    before [now]: no new message, no destructor. *)
Definition writer_event (now : Z) (e : event) : Prop :=
  match e with Notify | Fall | Flush _ _ => True | Check now' => (now ≤ now')%Z | Push _ _ | Destroy => False end.

(** Nothing is left to flush. *)
Definition all_flushed (s : Logger) : Prop :=
  done_ s = false ∧ front_log_entries_ s = [] ∧ in_flight s = [].

(** Something is left to flush, and the thread is on its way. *)
Definition due (now : Z) (s : Logger) : Prop :=
  done_ s = false ∧
  match background_ s with
  | Asleep => 0 < owed s ∧ over_threshold now (front_log_entries_ s) (last_flush_ s) = true ∧ front_log_entries_ s ≠ []
  | Checking => over_threshold now (front_log_entries_ s) (last_flush_ s) = true ∧ front_log_entries_ s ≠ []
  | Flushing _ => front_log_entries_ s = []
  | Falling | Exited => False
  end.

(** At most so many events away from the flush. *)
Definition flush_distance (s : Logger) : nat :=
  owed s + match background_ s with Flushing _ => 1 | _ => 2 end.

Lemma over_threshold_later now now' front last_flush :
  (now ≤ now')%Z → over_threshold now front last_flush = true → over_threshold now' front last_flush = true.
Proof. unfold over_threshold. rewrite !orb_true_iff, !Z.ltb_lt. lia. Qed.

Lemma writer_event_pushed now e s s' : writer_event now e → run_event e s = Some s' → pushed s' = pushed s.
Proof.
  destruct e; cbn [writer_event run_event]; try done; intros _ He.
  - destruct (owed s); [done|]. by injection He as <-.
  - destruct (background_ s); [|done..]. injection He as <-. unfold LogWrite_check.
    destruct (_ || _); [|done]. by destruct (front_log_entries_ s).
  - destruct (background_ s); [done| |done..]. by injection He as <-.
  - destruct (background_ s); [done..| |done]. by injection He as <-.
Qed.

Lemma all_flushed_event now e s s' :
  writer_event now e → run_event e s = Some s' → all_flushed s → all_flushed s'.
Proof.
  unfold all_flushed, in_flight. destruct e; cbn [writer_event run_event]; try done; intros _ He (Hd & Hf & Hb).
  - destruct (owed s); [done|]. injection He as <-. cbn. by destruct (background_ s).
  - destruct (background_ s); [|done..]. injection He as <-. unfold LogWrite_check. rewrite Hd, Hf.
    by destruct (_ || _).
  - destruct (background_ s); [done| |done..]. by injection He as <-.
  - destruct (background_ s); [done..| |done]. injection He as <-. cbn. by rewrite Hd.
Qed.

Lemma due_event now e s s' :
  writer_event now e → run_event e s = Some s' → due now s →
  all_flushed s' ∨ due now s' ∧ flush_distance s' < flush_distance s.
Proof.
  unfold due, flush_distance. destruct e as [| |now'| |now' t|]; cbn [writer_event run_event]; try done; intros Hw He [Hd Hb].
  - right. destruct (owed s) as [|k] eqn:Ho; [done|]. injection He as <-. cbn. rewrite Ho.
    destruct (background_ s); cbn; (split; [|lia]); naive_solver.
  - right. destruct (background_ s); [|done..]. injection He as <-. destruct Hb as [Hover Hne].
    unfold LogWrite_check. rewrite (over_threshold_later _ _ _ _ Hw Hover), orb_true_r.
    destruct (front_log_entries_ s) as [|x l]; [done|]. cbn. split; [done|lia].
  - by destruct (background_ s).
  - left. destruct (background_ s); [done..| |done]. injection He as <-. unfold all_flushed, in_flight. cbn. by rewrite Hd.
Qed.

Lemma due_enabled now s : due now s → ∃ e, writer_event now e ∧ is_Some (run_event e s).
Proof.
  intros [_ Hb]. destruct (background_ s) eqn:E.
  - exists (Check now). cbn. rewrite E. split; [lia|by eexists].
  - done.
  - exists Notify. cbn. destruct Hb as [Ho _]. destruct (owed s); [lia|]. split; [done|by eexists].
  - exists (Flush now (mkTm 0 0 0 1 0 0)). cbn. rewrite E. split; [done|by eexists].
  - done.
Qed.

Lemma all_flushed_run now es s s' :
  Forall (writer_event now) es → run es s = Some s' → all_flushed s → pushed s' = pushed s ∧ all_flushed s'.
Proof.
  intros Hes. revert s. induction Hes as [|e es He _ IH]; intros s; cbn [run]; [by intros [= ->]|].
  destruct (run_event e s) as [s1|] eqn:E; [|done]. cbn. intros Hr Hs.
  rewrite <-(writer_event_pushed now e s s1 He E). apply (IH s1 Hr). by eapply all_flushed_event.
Qed.

(** However those events are ordered, all is flushed when they are over. *)
Lemma due_run now es s s' :
  Forall (writer_event now) es → run es s = Some s' → due now s →
  pushed s' = pushed s ∧ (all_flushed s' ∨ due now s' ∧ length es + flush_distance s' ≤ flush_distance s).
Proof.
  intros Hes. revert s. induction Hes as [|e es He Hes IH]; intros s; cbn [run length].
  { intros [= ->] Hs. split; [done|]. by right. }
  destruct (run_event e s) as [s1|] eqn:E; [|done]. cbn. intros Hr Hs.
  rewrite <-(writer_event_pushed now e s s1 He E).
  destruct (due_event now e s s1 He E Hs) as [Hs1|[Hs1 Hd]].
  - destruct (all_flushed_run now es s1 s' Hes Hr Hs1). auto.
  - destruct (IH s1 Hr Hs1) as [Hp [?|[? ?]]]; split; auto. right. split; [done|lia].
Qed.

(** A push that finds the thread at its wait and the threshold passed. *)
Lemma push_due now log s s' :
  done_ s = false → background_ s = Checking ∨ background_ s = Asleep →
  over_threshold now (front_log_entries_ s ++ [log]) (last_flush_ s) = true →
  run_event (Push now log) s = Some s' →
  due now s' ∧ flush_distance s' = owed s + 3 ∧ pushed s' = pushed s ++ [log].
Proof.
  intros Hd Hb Hover Hr.
  assert (s' = PushNewLog now log s) as -> by (cbn in Hr; destruct (background_ s); congruence).
  unfold due, flush_distance. cbn. rewrite Hover.
  assert (front_log_entries_ s ++ [log] ≠ []) by (by destruct (front_log_entries_ s)).
  destruct Hb as [-> | ->]; (split; [split; [done|]|split; [lia|done]]); [done|]. split; [lia|done].
Qed.

(** *** Every flush takes the whole front buffer *)

(** [target] was pushed when [n] batches had been flushed: the batch after the next
    one completes it. *)
Definition completes (n : nat) (target : list Log) (s : Logger) : Prop :=
  conserved s ∧ target `prefix_of` pushed s ∧ n ≤ length (flushed s) ∧
  (length (flushed s) = S n → ∀ batch, background_ s = Flushing batch → target `prefix_of` concat (flushed s) ++ batch) ∧
  (S (S n) ≤ length (flushed s) → target `prefix_of` concat (flushed s)).

Lemma completes_event n target e s s' :
  run_event e s = Some s' → completes n target s → completes n target s'.
Proof.
  intros He (Hc & Hp & Hn & H1 & H2). pose proof (conserved_event e s s' He Hc) as Hc'. split; [done|].
  destruct e as [now log| |now| |now t|]; cbn [run_event] in He.
  - assert (s' = PushNewLog now log s) as -> by (destruct (background_ s); congruence).
    cbn. split_and!; [by apply prefix_app_r|done..].
  - destruct (owed s); [done|]. injection He as <-. cbn. split_and!; [done..| |done].
    intros Hl batch. destruct (background_ s); naive_solver.
  - destruct (background_ s) eqn:Hb; [|done..]. injection He as <-. unfold conserved, in_flight in Hc. rewrite Hb in Hc.
    unfold LogWrite_check. destruct (_ || _); [|cbn; naive_solver].
    destruct (front_log_entries_ s) as [|x l] eqn:Hf; cbn; split_and!; try done; [by destruct (done_ s)|].
    intros _ batch [= <-]. by rewrite Hc in Hp.
  - destruct (background_ s); [done| |done..]. injection He as <-. cbn. naive_solver.
  - destruct (background_ s) as [| | |batch|] eqn:Hb; [done..| |done]. injection He as <-.
    cbn. rewrite length_app, concat_app, Nat.add_1_r. cbn. rewrite app_nil_r. split_and!; [done|lia|by destruct (done_ s)|].
    intros Hl. destruct (decide (length (flushed s) = S n)) as [E|]; [by apply H1|].
    apply prefix_app_r, H2. lia.
  - destruct (done_ s); [done|]. injection He as <-. done.
Qed.

Lemma flushed_after es s s' :
  conserved s → run es s = Some s' → length (flushed s) + 2 ≤ length (flushed s') →
  pushed s `prefix_of` concat (flushed s').
Proof.
  intros Hs Hr Hl.
  assert (completes (length (flushed s)) (pushed s) s') as (_ & _ & _ & _ & H); [|apply H; lia].
  apply (run_invariant _ es s s' (completes_event _ _) Hr). split_and!; [done|done|lia..].
Qed.

(** ** Properties *)

(** C25: messages reach the flushing function in order and none twice, and while the
    logger lives they do reach it.  After any sequence of events, what was pushed is
    what was flushed, then the batch being flushed, then the front buffer.  From
    there: whatever happens, once two more batches are flushed everything pushed until
    now has been; and if the destructor has not run, a push that finds the background
    thread at its wait and a threshold passed brings everything out: in whatever order
    the thread's next events and the pending notifications come, everything has been
    flushed after at most [owed s + 3] of them, and until then one of them is always
    possible.  (A message that passes no threshold, or comes during a flush, waits for
    a later push; for what is buffered at destruction see
    [Logger_exit_loses_messages].) *)
Theorem Logger_conserves now d es s :
  run es (Logger_ctor now d) = Some s →
  pushed s = concat (flushed s) ++ in_flight s ++ front_log_entries_ s ∧
  (∀ es' s', run es' s = Some s' → length (flushed s) + 2 ≤ length (flushed s') →
     pushed s `prefix_of` concat (flushed s')) ∧
  (∀ later log, done_ s = false → background_ s = Checking ∨ background_ s = Asleep →
     over_threshold later (front_log_entries_ s ++ [log]) (last_flush_ s) = true →
     ∀ es' s', Forall (writer_event later) es' → run (Push later log :: es') s = Some s' →
       pushed s' = pushed s ++ [log] ∧
       (concat (flushed s') = pushed s' ∨
        length es' < owed s + 3 ∧ ∃ e, writer_event later e ∧ is_Some (run_event e s'))).
Proof.
  intros Hr. assert (conserved s) as Hs by by apply (run_invariant conserved es (Logger_ctor now d) s conserved_event Hr).
  split; [done|]. split; [intros es' s'; by apply flushed_after|]. intros later log Hd Hb Hover es' s' Hes Hrun.
  assert (conserved s') as Hs' by (by eapply (run_invariant conserved); [apply conserved_event|exact Hrun|]).
  cbn [run] in Hrun. destruct (run_event (Push later log) s) as [s1|] eqn:E; [|done]. cbn in Hrun.
  destruct (push_due later log s s1 Hd Hb Hover E) as (Hdue & Hdist & Hp).
  destruct (due_run later es' s1 s' Hes Hrun Hdue) as [Hp' Hcase]. split; [by rewrite Hp', Hp|].
  destruct Hcase as [(_ & Hf & Hi)|[Hdue' Hlen]]; [left|right].
  - unfold conserved in Hs'. by rewrite Hf, Hi, !app_nil_r in Hs'.
  - split; [|by apply due_enabled]. rewrite Hdist in Hlen. unfold flush_distance in Hlen. destruct (background_ s'); lia.
Qed.

Definition demo_tm : tm := mkTm 5 4 3 1 0 124.
Definition demo_log (m : string) : Log := Log_ctor demo_tm INFO (lit m).

(** Two messages are flushed while a third comes; then the thread falls asleep. *)
Definition demo_events : list event :=
  [Push 5000 (demo_log "a"); Push 5001 (demo_log "b"); Check 5002; Push 5003 (demo_log "c");
   Flush 5004 demo_tm; Notify; Notify; Notify; Check 5005; Fall].
(** A fourth message wakes it up. *)
Definition demo_wakeup : list event := [Notify; Check 9001; Flush 9002 demo_tm].

Definition demo_asleep : Logger := default (Logger_ctor 0 ∅) (run demo_events (Logger_ctor 0 ∅)).
Definition demo_awake : Logger :=
  default (Logger_ctor 0 ∅) (run (Push 9000 (demo_log "d") :: demo_wakeup) demo_asleep).

Lemma Logger_conserves_witness :
  run demo_events (Logger_ctor 0 ∅) = Some demo_asleep ∧ background_ demo_asleep = Asleep ∧
  front_log_entries_ demo_asleep = [demo_log "c"] ∧
  run (Push 9000 (demo_log "d") :: demo_wakeup) demo_asleep = Some demo_awake ∧
  pushed demo_asleep = concat (flushed demo_asleep) ++ in_flight demo_asleep ++ front_log_entries_ demo_asleep ∧
  pushed demo_awake = pushed demo_asleep ++ [demo_log "d"] ∧ concat (flushed demo_awake) = pushed demo_awake.
Proof.
  assert (run demo_events (Logger_ctor 0 ∅) = Some demo_asleep) as Hr by (vm_compute; reflexivity).
  assert (run (Push 9000 (demo_log "d") :: demo_wakeup) demo_asleep = Some demo_awake) as Hr' by (vm_compute; reflexivity).
  destruct (Logger_conserves 0 ∅ demo_events demo_asleep Hr) as (H1 & _ & H3).
  split; [exact Hr|]. split; [vm_compute; reflexivity|]. split; [vm_compute; reflexivity|].
  split; [exact Hr'|]. split; [exact H1|].
  destruct (H3 9000%Z (demo_log "d")) with (es' := demo_wakeup) (s' := demo_awake) as [Hp [Hf|[Hl _]]].
  - vm_compute. reflexivity.
  - right. vm_compute. reflexivity.
  - vm_compute. reflexivity.
  - unfold demo_wakeup. repeat (apply Forall_cons; split; [first [exact I|cbn; lia]|]). apply Forall_nil_2.
  - exact Hr'.
  - split; [exact Hp|exact Hf].
  - exfalso. vm_compute in Hl. lia.
Defined.

(** C40: each flush erases the file first.  After a flush the day's log file holds
    exactly the batch just written, whatever it held before, and no other file has
    changed: of everything flushed on a day only the last batch survives. *)
Theorem Logger_file_is_last_batch now t s s' :
  run_event (Flush now t) s = Some s' →
  ∃ batch, background_ s = Flushing batch ∧ flushed s' = flushed s ++ [batch] ∧
    disk s' !! log_file t = Some (concat (stamped_message_ <$> batch)) ∧
    ∀ name, name ≠ log_file t → disk s' !! name = disk s !! name.
Proof.
  cbn [run_event]. destruct (background_ s) as [| | |batch|]; [done..| |done]. intros [= <-].
  exists batch. split_and!; [done|done|apply FlushToFile_contents|]. intros name. apply FlushToFile_other.
Qed.

Lemma Logger_file_is_last_batch_witness :
  let s := mkLogger false [] 0 (Flushing [demo_log "new"]) 0 {[ log_file demo_tm := lit "old" ]} [] [] in
  ∃ s', run_event (Flush 9 demo_tm) s = Some s' ∧
  ∃ batch, background_ s = Flushing batch ∧ flushed s' = flushed s ++ [batch] ∧
    disk s' !! log_file demo_tm = Some (concat (stamped_message_ <$> batch)) ∧
    ∀ name, name ≠ log_file demo_tm → disk s' !! name = disk s !! name.
Proof.
  intros s. exists (LogWrite_flush 9 demo_tm [demo_log "new"] s). split; [reflexivity|].
  apply (Logger_file_is_last_batch 9 demo_tm s). reflexivity.
Defined.

(** each calendar day has a log file of its own: two local times name the same file
    exactly when they fall on the same day. *)
Theorem log_file_per_day a b :
  tm_ok a → tm_ok b →
  log_file a = log_file b ↔ tm_mday a = tm_mday b ∧ tm_mon a = tm_mon b ∧ tm_year a = tm_year b.
Proof.
  intros Ha Hb. unfold log_file, GetCurrentDate. split.
  - intros E. do 2 apply app_inv_head in E. apply app_inj_1 in E as [Hd E]; [|done].
    destruct (month_name_known a Ha) as (_ & _ & <- & La), (month_name_known b Hb) as (_ & _ & <- & Lb).
    apply app_inj_1 in E as [Hm Hy]; [|congruence].
    pose proof Ha as (_ & _ & _ & ? & _). pose proof Hb as (_ & _ & _ & ? & _).
    split_and!; [by apply two_digits_inj; [lia..|]|by apply month_name_inj|by apply year_text_inj].
  - intros (Hd & Hm & Hy). unfold month_name, year_text. by rewrite Hd, Hm, Hy.
Qed.

Definition demo_tm_next : tm := mkTm 0 0 0 2 0 124.

Lemma log_file_per_day_witness :
  log_file demo_tm = log_file demo_tm_next ↔
  tm_mday demo_tm = tm_mday demo_tm_next ∧ tm_mon demo_tm = tm_mon demo_tm_next ∧ tm_year demo_tm = tm_year demo_tm_next.
Proof. apply (log_file_per_day demo_tm demo_tm_next); repeat split; simpl; lia. Defined.

(** an idle logger spins.  Once 3 ms have passed since the last flush and there
    is nothing to write, the wait returns at once, the iteration changes nothing
    (not even the time of the last flush), and the thread is back at the wait. *)
Theorem Logger_idle_spins now s :
  background_ s = Checking → done_ s = false → front_log_entries_ s = [] →
  (last_flush_ s + 3000 < now)%Z →
  run_event (Check now) s = Some s.
Proof.
  intros Hb Hd Hf Hn. cbn [run_event]. rewrite Hb. f_equal. unfold LogWrite_check, over_threshold.
  rewrite Hd, Hf. cbn [orb]. unfold TIME_THRESHOLD. rewrite (proj2 (Z.ltb_lt _ _)) by lia.
  destruct s. simpl in *. by subst.
Qed.

Lemma Logger_idle_spins_witness : run_event (Check 3001) (Logger_ctor 0 ∅) = Some (Logger_ctor 0 ∅).
Proof. apply (Logger_idle_spins 3001 (Logger_ctor 0 ∅)); [reflexivity|reflexivity|reflexivity|simpl; lia]. Defined.

(** C39: the destructor can hang.  It sets [done_] and notifies without [latch_], so
    both can fall between the background thread's test and its blocking: the
    notification is lost, and from then on, as long as nobody logs, no sequence of
    events ends the thread that the destructor joins. *)
Theorem Logger_dtor_lost_wakeup :
  ∃ es s, run es (Logger_ctor 0 ∅) = Some s ∧ done_ s = true ∧
    ∀ es' s', forallb (λ e, negb (is_push e)) es' = true → run es' s = Some s' → background_ s' ≠ Exited.
Proof.
  exists [Check 1; Destroy; Notify; Fall]. eexists. split; [vm_compute; reflexivity|]. split; [done|].
  match goal with |- ∀ _ _, _ → run _ ?s0 = _ → _ => set (s := s0) end.
  assert (abandoned s) as Hs by done. clearbody s. intros es'. revert s Hs.
  induction es' as [|e es' IH]; intros s Hs s'; cbn [run forallb].
  - intros _ [= <-]. destruct Hs as (_ & Hb & _). congruence.
  - intros [He Hes]%andb_true_iff. destruct (run_event e s) as [s1|] eqn:E; [|done]. cbn.
    apply IH; [|done]. eapply abandoned_event; [|exact E|exact Hs]. by destruct (is_push e).
Qed.

(** a message logged while the last batch is being written is lost: the
    background thread checks [done_] after the flush without looking at the buffer
    again. *)
Theorem Logger_exit_loses_messages :
  ∃ es s, run es (Logger_ctor 0 ∅) = Some s ∧ background_ s = Exited ∧
    pushed s = [demo_log "first"; demo_log "second"] ∧ flushed s = [[demo_log "first"]].
Proof.
  exists [Push 5000 (demo_log "first"); Check 5001; Push 5002 (demo_log "second"); Destroy; Flush 5003 demo_tm].
  eexists. split; [vm_compute; reflexivity|]. done.
Qed.
