(* ===== verification/Echo.v ===== *)
(** * The echo demo and the timer
      (simple_demo/echo_server.cc, simple_demo/echo_client.cc, src/Timer)

    The echo server's handler uses the same connection interface as the HTTP
    handler.  Its theorem is end to end over a whole conversation: whatever the
    batches in which bytes arrive, they come back in order.

    The timer classes are a start that nothing uses yet; they are at the end. *)

From S2P Require Import Prelude CppString Buffer NetAddress Socket Reactor ThreadPool Server Connection.

(** ** The server's handler *)

(** A connection being echoed: its socket, the kernel's side, and the
    [DeleteConnection] calls made. *)
Record EchoSession := mkEcho {
  e_conn : Connection unit;
  e_endpoint : Endpoint;
  e_deleted : list (nat * Z)
}.

Definition e_net {A} (m : stM (Connection unit * Endpoint) A) : stM EchoSession A := λ s,
  '(a, (c, ep)) ← m (e_conn s, e_endpoint s); mret (a, mkEcho c ep (e_deleted s)).

(** [client_conn->GetLooper()->DeleteConnection(from_fd)] *)
Definition e_delete (from_fd : Z) : stM EchoSession unit := λ s,
  match GetLooper (e_conn s) with
  | None => Fail NullPointer
  | Some l => Ok (tt, mkEcho (e_conn s) (e_endpoint s) (e_deleted s ++ [(l, from_fd)]))
  end.

(** [client_conn->WriteToWriteBuffer(client_conn->ReadAsString())] *)
Definition e_copy : stM EchoSession unit := λ s,
  c ← WriteToWriteBuffer_string (e_conn s) (ReadAsString (e_conn s));
  mret (tt, mkEcho c (e_endpoint s) (e_deleted s)).

(** The lambda given to [OnHandle]. *)
Definition echo_handler : stM EchoSession unit :=
  from_fd ← gets (λ s, GetFd (e_conn s));
  '(read, exit) ← e_net Recv;
  if (exit : bool) then e_delete from_fd
  else if (read =? 0)%Z then mret tt
  else
    e_copy;;
    e_net Send;;
    modify (λ s, mkEcho (ClearReadBuffer (e_conn s)) (e_endpoint s) (e_deleted s)).

(** New data at the socket. *)
Definition arrive (data : list recv_ret) (s : EchoSession) : EchoSession :=
  mkEcho (e_conn s) (mkEndpoint data (send_plan (e_endpoint s)) (wire (e_endpoint s)) (errno_ (e_endpoint s)))
    (e_deleted s).

(** A conversation: batches of data, each followed by the handler. *)
Fixpoint echo_conversation (batches : list (list recv_ret)) (s : EchoSession) : result EchoSession :=
  match batches with
  | [] => mret s
  | b :: batches => '(_, s) ← echo_handler (arrive b s); echo_conversation batches s
  end.

(** ** The server's [main] *)

(** The handlers of the program: the acceptor's empty lambda, and the one above. *)
Inductive EchoCallback := Noop | EchoHandler.

Section Mains.
Context (inet_pton4 inet_pton6 : bytes → option (list Z)).

Definition echo_server_main (hardware_concurrency : Z) (e : server_env) : result (System (U := EchoCallback)) :=
  local_address ← NetAddress_ctor inet_pton4 inet_pton6 (lit "0.0.0.0") 20080 Ipv4;
  echo_server ← IceeServer_ctor Noop local_address (default_concurrency hardware_concurrency) e;
  echo_server ← OnHandle EchoHandler echo_server;
  Begin echo_server.

(** ** The client *)

Definition BUF_SIZE : nat := 2048.

(** [EchoClient]'s constructor: the connection it keeps. *)
Definition EchoClient_ctor (server_address : NetAddress) (sys_socket : option Z) (connects : bool) (os : Os)
    : result (Connection unit * Os) :=
  '(client_socket, os) ← Connect server_address sys_socket connects Socket_default os;
  mret (Connection_ctor (Socket.GetFd client_socket), os).

(** What the calls of one iteration of [Begin] return: [read] and [recv] ([None] is
    -1), and how many bytes [send] takes. *)
Record round := mkRound { typed : option bytes; taken : nat; received : option bytes }.

(** One iteration: what goes out and what is printed.  A length of -1 becomes the
    largest [size_t], far more than the buffer holds; the result of [send] is not
    looked at. *)
Definition client_round (r : round) : result (bytes * bytes) :=
  match typed r with
  | None => Fail OutOfRange
  | Some text =>
      match received r with
      | None => Fail OutOfRange
      | Some answer => mret (take (taken r) (take BUF_SIZE text), take BUF_SIZE answer)
      end
  end.

(** [Begin], for as many iterations as are given; the loop has no exit. *)
Fixpoint EchoClient_Begin (rounds : list round) : result (bytes * bytes) :=
  match rounds with
  | [] => mret ([], [])
  | r :: rounds =>
      '(out, shown) ← client_round r;
      '(out', shown') ← EchoClient_Begin rounds;
      mret (out ++ out', shown ++ shown')
  end.

(** [main]; the two log lines after [Begin] are never reached. *)
Definition echo_client_main (sys_socket : option Z) (connects : bool) (os : Os) (rounds : list round)
    : result (bytes * bytes) :=
  local_address ← NetAddress_ctor inet_pton4 inet_pton6 (lit "0.0.0.0") 20080 Ipv4;
  '(client_connection, os) ← EchoClient_ctor local_address sys_socket connects os;
  EchoClient_Begin rounds.
End Mains.

(** ** The timer *)

(** Times in nanoseconds of the steady clock, the interval in milliseconds.
    [Action] is the type of the callback. *)
Record Timer (Action : Type) := mkTimer {
  expire_time_ : Z;
  interval_ : Z;
  call_back_ : Action;
  repeat_ : bool
}.
Arguments mkTimer {_} _ _ _ _.
Arguments expire_time_ {_} _.
Arguments interval_ {_} _.
Arguments call_back_ {_} _.
Arguments repeat_ {_} _.

Definition Timer_ctor {A} (callback : A) (expire_time interval : Z) : Timer A :=
  mkTimer expire_time interval callback false.
Definition expireTime {A} (t : Timer A) : Z := expire_time_ t.
(** [Run] calls the callback, here a state transformer. *)
Definition Run {S} (t : Timer (S → S)) (s : S) : S := call_back_ t s.
(** [clock] is [steady_clock::now()]; the argument [now] is not used. *)
Definition Restart {A} (clock now : Z) (t : Timer A) : Timer A :=
  mkTimer (clock + interval_ t * 1000000) (interval_ t) (call_back_ t) (repeat_ t).

(** [TimerQueue]: the constructor leaves both members indeterminate. *)
Record TimerQueue := mkTimerQueue { owner_looper_ : option nat; timerfd_ : option Z }.
Definition TimerQueue_ctor (eventlooper : nat) : TimerQueue := mkTimerQueue None None.

(** ** Lemmas *)

(** Ready for the next batch. *)
Record echo_ready (s : EchoSession) : Prop := {
  er_read : buf_ (read_buffer_ (e_conn s)) = [];
  er_write : buf_ (write_buffer_ (e_conn s)) = [];
  er_plan : Forall sends_on (send_plan (e_endpoint s))
}.

Lemma echo_handler_run s batch :
  echo_ready s → Forall recv_ok batch → Forall goes_on batch →
  ∃ s', echo_handler (arrive batch s) = Ok (tt, s') ∧ echo_ready s' ∧ e_deleted s' = e_deleted s ∧
    wire (e_endpoint s') = wire (e_endpoint s) ++ concat (carried <$> batch).
Proof.
  intros [Hr Hw Hp] Hok Hgo. destruct s as [c ep del]. cbn [e_conn e_endpoint e_deleted] in *.
  set (ep1 := mkEndpoint batch (send_plan ep) (wire ep) (errno_ ep)).
  assert (incoming ep1 = batch ++ []) as Hin by (by rewrite app_nil_r).
  pose proof (Recv_run c ep1 batch [] false Hin Hok Hgo eq_refl) as Hrecv.
  set (data := concat (carried <$> batch)) in *.
  unfold echo_handler, arrive, e_net, e_copy. mred. cbn [e_conn e_endpoint e_deleted].
  change (mkEndpoint batch (send_plan ep) (wire ep) (errno_ ep)) with ep1. rewrite Hrecv, Hr. cbn [app].
  destruct (Z.eqb_spec (size_of data) 0) as [Hz|Hz].
  - assert (data = []) as -> by (destruct data; [done|unfold size_of in Hz; cbn [length] in Hz; lia]).
    eexists. split; [reflexivity|]. split; [by split|]. split; [done|]. cbn. by rewrite app_nil_r.
  - cbn [e_conn e_endpoint e_deleted]. unfold WriteToWriteBuffer_string. rewrite Append_string_eq. mred.
    cbn [e_conn e_endpoint e_deleted].
    match goal with |- context [Send (?c1, ?ep2)] => destruct (Send_run c1 ep2 Hp) as (plan & e & Hs & Hplan); rewrite Hs end.
    eexists. split; [reflexivity|]. split; [by split|]. split; [done|]. cbn. by rewrite Hw.
Qed.

(** [Connect] on an empty socket. *)
Lemma EchoClient_ctor_run address fd os :
  EchoClient_ctor address (Some fd) true os = Ok (Connection_ctor fd, sys_open fd os).
Proof. reflexivity. Qed.

(** ** Properties *)

(** the echo server's [main] gets to its event loops: on a machine of [n + 1] cores,
    when the system calls succeed, it starts one listener and [n] reactors whose
    connections run the echo handler. *)
Theorem echo_server_starts inet_pton4 inet_pton6 n e :
  0 < n → (Z.of_nat n + 1 < 2 ^ 31)%Z → env_ok n e → inet_pton4 (lit "0.0.0.0") = Some [0; 0; 0; 0]%Z →
  ∃ sys, echo_server_main inet_pton4 inet_pton6 (Z.of_nat n + 1) e = Ok sys ∧ WF sys ∧
    handle_callback_ (world sys) = EchoHandler ∧ length (loopers (world sys)) = S n ∧
    event_loopers_ (world sys) = seq 1 n.
Proof.
  intros Hn Hlt He Hip. unfold echo_server_main. rewrite (ctor_ipv4 inet_pton4 inet_pton6 _ _ _ _ _ _ Hip).
  set (address := mkNetAddress Ipv4 _).
  rewrite default_concurrency_cores by lia.
  destruct (server_run Noop address n e EchoHandler Hn ltac:(lia) He)
    as (s & s' & sys & Hs & _ & Hs' & Hsys & Hwf & Hh & Hlo & Hev & _).
  mred. rewrite Hs, Hs'. by exists sys.
Qed.

(** the client shows nothing the server did not send, in order; but it shows all
    of it, and all that was typed went out, only while every call moves everything at
    once: [recv] is called once per line typed, and the rest of a short [send] is
    dropped. *)
Theorem client_shows rounds :
  Forall (λ r, ∃ text answer, typed r = Some text ∧ received r = Some answer ∧
                 length text ≤ BUF_SIZE ∧ length answer ≤ BUF_SIZE) rounds →
  ∃ out shown, EchoClient_Begin rounds = Ok (out, shown) ∧
    shown = concat ((λ r, default [] (received r)) <$> rounds) ∧
    (Forall (λ r, length (default [] (typed r)) ≤ taken r) rounds →
       out = concat ((λ r, default [] (typed r)) <$> rounds)) ∧
    length out ≤ length (concat ((λ r, default [] (typed r)) <$> rounds)).
Proof.
  induction 1 as [|r rounds (text & answer & Ht & Ha & Hlt & Hla) _ (out & shown & Hrun & Hs & Ho & Hle)].
  { by exists [], []. }
  cbn [EchoClient_Begin]. unfold client_round. rewrite Ht, Ha. mred. rewrite Hrun.
  eexists _, _. split; [reflexivity|]. cbn. rewrite Ht, Ha, (take_ge text), (take_ge answer) by done. cbn.
  split; [by rewrite Hs|]. split.
  - intros [Hr Hall]%Forall_cons. rewrite Ht in Hr. cbn in Hr. by rewrite take_ge, (Ho Hall).
  - rewrite !length_app, length_take. lia.
Qed.

Lemma client_shows_witness :
  let rounds := [mkRound (Some (lit "hello")) 5 (Some (lit "hel")); mkRound (Some (lit "you")) 1 (Some (lit "loy"))] in
  ∃ out shown, EchoClient_Begin rounds = Ok (out, shown) ∧
    shown = concat ((λ r, default [] (received r)) <$> rounds) ∧
    (Forall (λ r, length (default [] (typed r)) ≤ taken r) rounds →
       out = concat ((λ r, default [] (typed r)) <$> rounds)) ∧
    length out ≤ length (concat ((λ r, default [] (typed r)) <$> rounds)).
Proof.
  apply (client_shows [mkRound (Some (lit "hello")) 5 (Some (lit "hel")); mkRound (Some (lit "you")) 1 (Some (lit "loy"))]).
  rewrite !Forall_cons. unfold BUF_SIZE. cbn.
  split_and!; [exists (lit "hello"), (lit "hel")|exists (lit "you"), (lit "loy")|by apply Forall_nil];
    split_and!; done || (simpl; lia).
Defined.

(** C27: the echo server returns every byte, in order: over any conversation whose
    peer stays connected, what it sends is exactly what it received, however the
    bytes were batched, segmented and interrupted, and it never closes. *)
Theorem echo_returns_everything s batches :
  echo_ready s → Forall (Forall recv_ok) batches → Forall (Forall goes_on) batches →
  ∃ s', echo_conversation batches s = Ok s' ∧ e_deleted s' = e_deleted s ∧
    wire (e_endpoint s') = wire (e_endpoint s) ++ concat (carried <$> concat batches).
Proof.
  intros Hr Hok Hgo. revert s Hr. induction batches as [|b batches IH]; intros s Hr.
  { exists s. split_and!; [done|done|]. cbn. by rewrite app_nil_r. }
  apply Forall_cons in Hok as [Hb Hok], Hgo as [Hg Hgo].
  destruct (echo_handler_run s b Hr Hb Hg) as (s1 & H1 & Hr1 & Hd1 & Hw1).
  destruct (IH Hok Hgo s1 Hr1) as (s2 & H2 & Hd2 & Hw2).
  exists s2. cbn [echo_conversation]. rewrite H1. mred. rewrite H2. split; [done|]. split; [congruence|].
  rewrite Hw2, Hw1. cbn [concat]. by rewrite fmap_app, concat_app, app_assoc.
Qed.

Definition echo_start : EchoSession :=
  mkEcho (Connection_ctor 4) (mkEndpoint [] [SendBytes 2; SendError EINTR] [] EAGAIN) [].

Lemma echo_returns_everything_witness :
  ∃ s', echo_conversation [[RecvBytes (lit "hel"); RecvError EINTR]; [RecvBytes (lit "lo")]] echo_start = Ok s' ∧
    e_deleted s' = [] ∧
    wire (e_endpoint s') = [] ++ concat (carried <$> concat [[RecvBytes (lit "hel"); RecvError EINTR]; [RecvBytes (lit "lo")]]).
Proof.
  apply (echo_returns_everything echo_start [[RecvBytes (lit "hel"); RecvError EINTR]; [RecvBytes (lit "lo")]]).
  - split; [reflexivity|reflexivity|]. cbn. rewrite !Forall_cons. split_and!; [simpl; lia|done|by apply Forall_nil].
  - rewrite !Forall_cons. unfold recv_ok, TEMP_BUF_SIZE. cbn.
    split_and!; try (by apply Forall_nil); try done; lia.
  - rewrite !Forall_cons. split_and!; try (by apply Forall_nil); done.
Defined.
