(* ===== verification/Classes.v ===== *)
(** * Special members of the program's classes (src/include/core/utils.h and the headers)

    Which objects may be copied and moved is decided by the compiler, from what a
    class declares and from its members.  [member], [class_decl] and [usable] are
    those rules of C++; the macros of utils.h are functions on declarations, and
    each class of the program is its declaration, with one entry per data member in
    the order of the source.

    The laws proved of the macros: they forbid what their names say and more;
    NON_COPYABLE in a class that declares no move leaves no way to move it either. *)

From S2P Require Import Prelude CppString.

(** ** The rules *)

(** How a special member is declared: not at all, [= default], [= delete], or with
    a body. *)
Inductive declaration := Implicit | Defaulted | Deleted | Provided.

(** The type of a data member, as far as copying and moving go: [Value] numbers,
    strings, raw and shared pointers, functions and containers of them; [MoveOnly]
    unique pointers, threads, streams and containers of them; [Fixed] mutexes,
    condition variables and atomics; [Reference] and [Const] members;
    [Nested] an object of a class; [Vector] a [std::vector] of objects. *)
Inductive member :=
  | Value | MoveOnly | Fixed | Reference | Const
  | Nested (c : class_decl)
  | Vector (c : class_decl)
with class_decl :=
  mkClass (copy_ctor copy_assign move_ctor move_assign dtor : declaration) (members : list member).

Inductive operation := CopyCtor | CopyAssign | MoveCtor | MoveAssign.
#[export] Instance declaration_eq_dec : EqDecision declaration.
Proof. solve_decision. Defined.
#[export] Instance operation_eq_dec : EqDecision operation.
Proof. solve_decision. Defined.

Definition operations : list operation := [CopyCtor; CopyAssign; MoveCtor; MoveAssign].

Definition declared (o : operation) (c : class_decl) : declaration :=
  let '(mkClass cc ca mc ma _ _) := c in
  match o with CopyCtor => cc | CopyAssign => ca | MoveCtor => mc | MoveAssign => ma end.

Definition dtor (c : class_decl) : declaration := let '(mkClass _ _ _ _ d _) := c in d.

Definition is_move (o : operation) : bool :=
  match o with MoveCtor | MoveAssign => true | _ => false end.

Definition is_ctor (o : operation) : bool :=
  match o with CopyCtor | MoveCtor => true | _ => false end.

(** The copy that overload resolution falls back on for a move. *)
Definition copy_of (o : operation) : operation :=
  match o with MoveCtor => CopyCtor | MoveAssign => CopyAssign | _ => o end.

Definition user_declared (d : declaration) : bool := bool_decide (d ≠ Implicit).

(** A copy that is not declared is deleted when a move is declared; a move that is
    not declared exists only when no other special member is declared. *)
Definition implicitly_available (o : operation) (cc ca mc ma d : declaration) : bool :=
  if is_move o then negb (existsb user_declared [cc; ca; mc; ma; d])
  else negb (existsb user_declared [mc; ma]).

(** [o] resolved on a class whose memberwise operations are [memberwise]: a
    provided member is used as it is; a defaulted one needs its members; a move
    that is defaulted as deleted, or not declared, gives way to the copy. *)
Definition resolve_copy (o : operation) (cc ca mc ma d : declaration)
    (memberwise : operation → bool) : bool :=
  match (match o with CopyCtor => cc | _ => ca end) with
  | Provided => true
  | Deleted => false
  | Defaulted => memberwise o
  | Implicit => implicitly_available o cc ca mc ma d && memberwise o
  end.

Definition resolve (o : operation) (cc ca mc ma d : declaration)
    (memberwise : operation → bool) : bool :=
  let copy := resolve_copy (copy_of o) cc ca mc ma d memberwise in
  if is_move o then
    match (match o with MoveCtor => mc | _ => ma end) with
    | Provided => true
    | Deleted => false
    | Defaulted => memberwise o || copy
    | Implicit => (implicitly_available o cc ca mc ma d && memberwise o) || copy
    end
  else copy.

(** Whether the expression that performs [o] on an object of the class compiles. *)
Fixpoint usable (c : class_decl) (o : operation) {struct c} : bool :=
  let '(mkClass cc ca mc ma d ms) := c in
  resolve o cc ca mc ma d (λ o, forallb (λ m, member_usable m o) ms)
with member_usable (m : member) (o : operation) {struct m} : bool :=
  match m with
  | Value => true
  | MoveOnly => is_move o
  | Fixed => false
  | Reference | Const => is_ctor o
  | Nested c => usable c o
  | Vector c => is_move o || usable c CopyCtor && (is_ctor o || usable c CopyAssign)
  end.

(** ** utils.h *)

Definition NON_COPYABLE (c : class_decl) : class_decl :=
  let '(mkClass _ _ mc ma d ms) := c in mkClass Deleted Deleted mc ma d ms.

Definition NON_MOVEABLE (c : class_decl) : class_decl :=
  let '(mkClass cc ca _ _ d ms) := c in mkClass cc ca Deleted Deleted d ms.

Definition NON_COPYABLE_AND_MOVEABLE (c : class_decl) : class_decl :=
  NON_MOVEABLE (NON_COPYABLE c).

(** ** The classes

    [plain d ms]: a class that declares at most its destructor. *)
Definition plain (d : declaration) (ms : list member) : class_decl :=
  mkClass Implicit Implicit Implicit Implicit d ms.

(** [buf_] *)
Definition Buffer_class : class_decl :=
  NON_MOVEABLE (mkClass Defaulted Defaulted Implicit Implicit Defaulted [Value]).

(** [protocol_], [addr_], [addr_len_] *)
Definition NetAddress_class : class_decl := plain Defaulted [Value; Value; Value].

(** [fd_] *)
Definition Socket_class : class_decl :=
  NON_COPYABLE (mkClass Implicit Implicit Provided Provided Provided [Value]).

(** [owner_looper_], [socket_], the two buffers, [events_], [revents_], [call_back_] *)
Definition Connection_class : class_decl :=
  NON_COPYABLE (plain Defaulted [Value; MoveOnly; MoveOnly; MoveOnly; Value; Value; Value]).

(** [poll_fd_], [poll_size_], [poll_events_] *)
Definition Poller_class : class_decl := NON_COPYABLE (plain Provided [Value; Value; Value]).

(** [poller_], [latch_], [connections_], [exit_] *)
Definition EventLooper_class : class_decl :=
  NON_COPYABLE (plain Defaulted [MoveOnly; Fixed; MoveOnly; Fixed]).

(** [event_loopers_], [acceptor_conn_], the two callbacks *)
Definition Acceptor_class : class_decl :=
  NON_COPYABLE (plain Defaulted [Value; MoveOnly; Value; Value]).

(** [identifier_], [last_access_time_], [data_], [prev_], [next_] *)
Definition CacheNode_class : class_decl := plain Implicit [Value; Value; Value; Value; Value].

(** [latch_], [mapping_], [capacity_], [current_size_], the two dummies *)
Definition Cache_class : class_decl :=
  NON_COPYABLE_AND_MOVEABLE (plain Implicit [Fixed; Value; Const; Value; Value; Value]).

(** [m_mtx], [m_queue], [m_cond] *)
Definition ThreadSafeQueue_class : class_decl := plain Implicit [Fixed; Value; Fixed].

(** [threads_] *)
Definition Joiner_class : class_decl := plain Provided [Reference].

(** [done_], [queue_], [threads_], [joiner_] *)
Definition ThreadPool_class : class_decl :=
  plain Provided [Fixed; Nested ThreadSafeQueue_class; MoveOnly; Nested Joiner_class].

(** [seted_On_handle_], [reactors_], [acceptor_], [listener_], [thread_pool_] *)
Definition IceeServer_class : class_decl :=
  plain Defaulted [Value; MoveOnly; MoveOnly; MoveOnly; MoveOnly].

(** [key_], [value_], [valid_] *)
Definition Header_class : class_decl :=
  mkClass Defaulted Defaulted Provided Provided Defaulted [Value; Value; Value].

(** [method_], [version_], [url_], [headers_], [is_valid_], [should_close_],
    [invalid_reason_] *)
Definition Request_class : class_decl :=
  NON_COPYABLE (plain Implicit
    [Value; Value; Value; Vector Header_class; Value; Value; Value]).

(** [status_line_], [headers_], [should_close_], [should_transfer_content_], [url_],
    [body_] *)
Definition Response_class : class_decl :=
  plain Implicit [Value; Vector Header_class; Value; Value; Value; Value].

(** [cgi_program_path_], [cgi_arguments_], [valid_] *)
Definition Cgier_class : class_decl := plain Implicit [Value; Value; Value].

(** [stamped_message_] *)
Definition Log_class : class_decl := plain Implicit [Value].

(** [fstream_] *)
Definition StreamWriter_class : class_decl := plain Provided [MoveOnly].

(** [done_], [latch_], [cond_], [front_log_entries_], [last_flush_],
    [log_strategy_], [background_flush_thread_] *)
Definition Logger_class : class_decl :=
  NON_COPYABLE_AND_MOVEABLE
    (plain Provided [Fixed; Fixed; Fixed; Vector Log_class; Value; Value; MoveOnly]).

(** [expire_time_], [interval_], [call_back_], [repeat_] *)
Definition Timer_class : class_decl := NON_COPYABLE (plain Defaulted [Value; Value; Value; Value]).

(** [owner_looper_], [timerfd_] *)
Definition TimerQueue_class : class_decl := plain Implicit [Value; Value].

(** [client_connection] *)
Definition EchoClient_class : class_decl := plain Implicit [MoveOnly].

Definition classes : list (bytes * class_decl) :=
  [(lit "Buffer", Buffer_class); (lit "NetAddress", NetAddress_class);
   (lit "Socket", Socket_class); (lit "Connection", Connection_class);
   (lit "Poller", Poller_class); (lit "EventLooper", EventLooper_class);
   (lit "Acceptor", Acceptor_class); (lit "CacheNode", CacheNode_class);
   (lit "Cache", Cache_class); (lit "ThreadSafeQueue", ThreadSafeQueue_class);
   (lit "Joiner", Joiner_class); (lit "ThreadPool", ThreadPool_class);
   (lit "IceeServer", IceeServer_class); (lit "Header", Header_class);
   (lit "Request", Request_class); (lit "Response", Response_class);
   (lit "Cgier", Cgier_class); (lit "Log", Log_class);
   (lit "StreamWriter", StreamWriter_class); (lit "Logger", Logger_class);
   (lit "Timer", Timer_class); (lit "TimerQueue", TimerQueue_class);
   (lit "EchoClient", EchoClient_class)].

(** ** Their laws *)

Lemma NON_COPYABLE_copy c o : is_move o = false → usable (NON_COPYABLE c) o = false.
Proof. by destruct c, o. Qed.

Lemma NON_MOVEABLE_move c o : is_move o = true → usable (NON_MOVEABLE c) o = false.
Proof. by destruct c, o. Qed.

(** A move that is not declared beside deleted copies is neither generated nor
    replaced. *)
Lemma NON_COPYABLE_pins c o :
  declared MoveCtor c = Implicit → declared MoveAssign c = Implicit →
  usable (NON_COPYABLE c) o = false.
Proof. destruct c as [cc ca mc ma d ms]; cbn. intros -> ->. by destruct o. Qed.

Lemma NON_COPYABLE_AND_MOVEABLE_pins c o : usable (NON_COPYABLE_AND_MOVEABLE c) o = false.
Proof.
  destruct (is_move o) eqn:Ho; [by apply NON_MOVEABLE_move|].
  by destruct c, o.
Qed.

(** What copies a class, copies its members: a class that declares nothing but its
    destructor is copyable exactly when all its members are. *)
Lemma plain_copies d ms o :
  is_move o = false → usable (plain d ms) o = forallb (λ m, member_usable m o) ms.
Proof. by destruct o. Qed.
