(* ===== verification/Tests.v ===== *)
(** * The repository's unit tests, run on the model (src/test)

    Each test case of src/test is a definition that performs its calls on the model
    and collects its checks; what the test leaves to the network and the kernel is
    what they would return.  The theorem: every check holds, in the model as in the
    program.  The exception is the IPv6 half of the address test, whose constructor
    writes past the object (see NetAddress.v); what is timing only ([sleep],
    [detach]) has no counterpart, and the logging of the cache test asserts nothing. *)

From S2P Require Import Prelude CppString Buffer HttpUtils Header Request Connection Response NetAddress Socket Reactor ThreadPool Server.

(** All checks of a test case hold. *)
Definition checks (bs : list bool) : bool := forallb id bs.

Definition same {A} `{EqDecision A} (x y : A) : bool := bool_decide (x = y).

(** ** core/buffer_test.cc *)

Definition buffer_test : result bool :=
  let buf := Buffer_ctor INITIAL_BUFFER_SIZE in
  let empty := same (Size buf) 0%Z in
  let msg1 := lit "pending the content form the beginning!" in
  let msg2 := lit "filling the content to the tail of buffer!" in
  buf ← AppendHead_string buf msg1;
  buf ← Append_string buf msg2;
  let c_strings := same (take (length (msg1 ++ msg2)) (Data buf)) (msg1 ++ msg2) in
  let buf := Clear buf in
  let cleared := same (Size buf) 0%Z in
  let msg1 := lit "Greeting from beginning!" in
  let msg2 := lit "Farewell from end~" in
  buf ← AppendHead_string buf msg1;
  buf ← Append_string buf msg2;
  let strings := same (ToStringView buf) (msg1 ++ msg2) in
  let buf := Clear buf in
  let cleared_again := same (Size buf) 0%Z in
  let msg := lit "GET / HTTP/1.1" ++ CRLF ++ lit "Connection: Keep-Alive" ++ CRLF ++
    lit "User-Agent: Mozilla/4.0 (compatible; MSIE5.01; Windows NT)" ++ CRLF ++
    lit "Accept-Language: en-us" ++ CRLF ++ CRLF in
  let next_msg := lit "Something belongs to next message" in
  buf ← Append_string buf msg;
  buf ← Append_string buf next_msg;
  '(op_str, buf) ← Buffer.FindAndPopTill buf (CRLF ++ CRLF);
  mret (checks [empty; c_strings; cleared; strings; cleared_again;
                same op_str (Some msg); same (ToStringView buf) next_msg]).

(** ** core/net_address_test.cc *)

Definition net_address_test (protocol : Protocol) (ip : bytes) (port : Z) (address : list Z) : result bool :=
  let pton s := if decide (s = ip) then Some address else None in
  let ntop a := if decide (a = address) then ip else [] in
  a ← NetAddress_ctor pton pton ip port protocol;
  got_ip ← GetIp ntop ntop a;
  got_port ← GetPort a;
  text ← ToString ntop ntop a;
  mret (checks [match GetProtocol a, protocol with Ipv4, Ipv4 | Ipv6, Ipv6 => true | _, _ => false end;
                same got_ip ip; same got_port port; same text (ip ++ lit " @ " ++ to_string (Z.to_nat port))]).

Definition net_address_ipv4_test : result bool :=
  net_address_test Ipv4 (lit "127.0.0.1") 20080 [127; 0; 0; 1]%Z.
Definition net_address_ipv6_test : result bool :=
  net_address_test Ipv6 (lit "2001:db8:3333:4444:5555:6666:7777:8888") 40080
    [32; 1; 13; 184; 51; 51; 68; 68; 85; 85; 102; 102; 119; 119; 136; 136]%Z.

(** ** core/threadPool_test.cc *)

Definition thread_pool_test : result bool :=
  let thread_pool_size := 8%Z in
  pool ← (ThreadPool_ctor thread_pool_size None : result (ThreadPool (Task := unit)));
  local_pool ← ThreadPool_ctor thread_pool_size None;
  let local_pool := Nat.iter 24 (submit tt) local_pool in
  mret (checks [same (GetSize pool) thread_pool_size; same (length (queue_ local_pool)) 24]).

(** ** core/socket_test.cc *)

Definition socket_test (server_fd other_fd client_fd : Z) (local_host : NetAddress) : result bool :=
  let os := mkOs ∅ [] in
  '(server_sock, os) ← Bind local_host true (Some server_fd) true true true Socket_default os;
  Listen server_sock;;
  let bound := same (Socket.GetFd server_sock) server_fd in
  (* move operations & switch fd *)
  let orig_fd := Socket.GetFd server_sock in
  let another_sock := Socket_ctor 123 in
  let '(server_sock, another_sock, os) := Socket_assign server_sock another_sock os in
  let assigned := same (Socket.GetFd server_sock) 123%Z && same (Socket.GetFd another_sock) orig_fd in
  let '(second_sock, another_sock) := Socket_move another_sock in
  let moved := same (Socket.GetFd second_sock) orig_fd && same (Socket.GetFd another_sock) (-1)%Z in
  (* non-blocking mode setting for socket *)
  '(sock, os) ← Bind local_host true (Some other_fd) true true true Socket_default os;
  blocking ← GetAttrs 2 sock;
  flags ← SetNonBlocking 2 true sock;
  nonblocking ← GetAttrs flags sock;
  (* interaction between server and client socket *)
  '(accepted, os) ← Accept (Some client_fd) server_sock os;
  mret (checks [bound; assigned; moved; same (Z.land blocking O_NONBLOCK) 0%Z;
                negb (same (Z.land nonblocking O_NONBLOCK) 0%Z); negb (same accepted (-1)%Z)]).

(** ** http/request_test.cc *)

Definition request_lines (ls : list bytes) : bytes := concat ((λ l, l ++ CRLF) <$> ls).

Definition request_test : result bool :=
  let user_agent := lit "User-Agent: Mozilla/4.0" in
  let host := lit "Host: www.tutorialspoint.com" in
  let keep := lit "Connection: Keep-Alive" in
  request0 ← Request_ctor (request_lines [lit "GET /hello.html HTTP/1.1"; user_agent; host; keep]);
  request_1 ← Request_ctor (request_lines [user_agent; lit "GET /hello.html HTTP/1.1"; host; keep; []]);
  request_2 ← Request_ctor (request_lines [lit "PUNCH /hello.html HTTP/1.1"; user_agent; host; keep; []]);
  request_3 ← Request_ctor (request_lines [lit "GET /hello.html HTTP/2.0"; user_agent; host; keep; []]);
  request_4 ← Request_ctor (request_lines [lit "GET /hello.html HTTP/1.1"; []]);
  request_5 ← Request_ctor (request_lines [lit "HEAD /hello.html HTTP/1.1"; user_agent; host; lit "Connection: close"; []]);
  request_6 ← Request_ctor (request_lines [lit "GET /hello.html HTTP/1.1"; user_agent; host; keep; []]);
  mret (checks [negb (Request.IsValid request0); negb (Request.IsValid request_1);
                negb (Request.IsValid request_2); negb (Request.IsValid request_3);
                Request.IsValid request_4; same (GetMethod request_4) (Some GET);
                same (GetVersion request_4) (Some HTTP_1_1);
                Request.IsValid request_5; same (GetMethod request_5) (Some HEAD); ShouldClose request_5;
                negb (ShouldClose request_6)]).

(** ** http/responses_test.cc *)

Definition response_test : result bool :=
  response ← Response_ctor (λ _, None) RESPONSE_OK false (Some (lit "nonexistent-file.txt"));
  let is_length h := same (GetKey h) HEADER_CONTENT_LENGTH in
  let found := existsb is_length (Response.GetHeaders response) in
  let '(changed, response) := ChangeHeader response HEADER_CONTENT_LENGTH (lit "1024") in
  let headers := base.filter (λ h, is_length h) (Response.GetHeaders response) in
  mret (checks [found; changed; negb (same headers []); same (GetValue <$> last headers) (Some (lit "1024"))]).

(** ** core/connection_test.cc *)

Definition connection_events_test : result bool :=
  let server_conn : Connection nat := Connection_ctor 3 in
  let server_conn := SetEvents server_conn (Z.lor POLL_ADD POLL_ET) in
  let focus := negb (same (Z.land (GetEvents server_conn) POLL_ADD) 0%Z) &&
               negb (same (Z.land (GetEvents server_conn) POLL_ET) 0%Z) in
  let server_conn := SetRevents server_conn POLL_READ in
  mret (checks [focus; negb (same (Z.land (GetRevents server_conn) POLL_READ) 0%Z)]).

(** A callback is what it adds to the counter; the second one replaces the first. *)
Definition connection_callback_test : result bool :=
  let server_conn : Connection nat := Connection_ctor 3 in
  let server_conn := SetCallback (SetCallback server_conn 0) 1 in
  mret (checks [same ((λ k, 1 + k) <$> GetCallback server_conn) (Some 2)]).

Definition connection_message_test : result bool :=
  let client_message := lit "from client！client was finish" in
  let server_message := lit "hello from server" in
  let client_conn : Connection unit := Connection_ctor 5 in
  client_conn ← WriteToWriteBuffer_string client_conn client_message;
  let queued := same (GetWriteBufferSize client_conn) (size_of client_message) in
  '(_, (client_conn, client_end)) ← Send (client_conn, mkEndpoint [] [] [] EAGAIN);
  (* the server reads what the client sent, and nothing more *)
  let connected_conn : Connection unit := Connection_ctor 6 in
  '((read, exit), (connected_conn, server_end)) ←
    Recv (connected_conn, mkEndpoint [RecvBytes (wire client_end); RecvError EAGAIN] [] [] EAGAIN);
  let received := same read (size_of client_message) && negb exit &&
                  same (GetReadBufferSize connected_conn) (size_of client_message) in
  connected_conn ← WriteToWriteBuffer_string connected_conn server_message;
  '(_, (connected_conn, server_end)) ← Send (connected_conn, server_end);
  (* the server's connection goes away; the client reads its answer *)
  '((read, exit), (client_conn, client_end)) ←
    Recv (client_conn, mkEndpoint [RecvBytes (wire server_end); RecvBytes []] [] (wire client_end) EAGAIN);
  mret (checks [queued; received; same read (size_of server_message); exit;
                same (ReadAsString client_conn) server_message]).

(** ** core/poller_test.cc and core/looper_test.cc

    A loop of its own with [n] accepted clients, on the descriptors from 10 on. *)

Definition test_world : World nat :=
  mkWorld ∅ [mkLooper (mkPoller 4 DEFAULT_EVENT_LISTENED ∅) ∅ false] [0] None 0 0 (mkOs ∅ []).

Fixpoint add_clients (n : nat) (i : nat) : stM (World nat) unit :=
  match n with
  | 0 => mret tt
  | S n =>
      w ← get;
      '(fd, os) ← lift (Accept (Some (10 + Z.of_nat i)%Z) (Socket_ctor 3) (os_ w));
      modify (with_os (λ _, os));;
      let c := SetCallback (SetEvents (Connection_ctor fd) POLL_READ) (UserCallback i) in
      p ← new_connection c;
      AddConnection true 0 p;;
      add_clients n (S i)
  end.

Definition client_fds (n : nat) : list Z := (λ i, 10 + Z.of_nat i)%Z <$> seq 0 n.

Definition poller_test : result bool :=
  let client_num := 4 in
  '(_, w) ← add_clients client_num 0 test_world;
  '(ready_conns, w) ← Poll 0 (Some (client_fds client_num)) w;
  mret (checks [same (length ready_conns) client_num]).

(** The callbacks of a list of polled connections, in order. *)
Definition callbacks_of (w : World nat) (ps : list loc) : list (option (Callback nat)) :=
  (λ p, conns w !! p ≫= GetCallback) <$> ps.

(** The loop runs each client's callback: client [i]'s sets [reach[i]]. *)
Definition looper_test : result bool :=
  let client_num := 3 in
  '(_, w) ← add_clients client_num 0 test_world;
  s ← poll_step 0 (Some (client_fds client_num)) (mkSystem w [[]]);
  let reached := callbacks_of (world s) (concat (pending s)) in
  let env := mkAcceptEnv None true 0 true in
  let ran := Kept (mkBuffer []) (mkBuffer []) in
  s ← callback_step 0 env ran s;
  s ← callback_step 0 env ran s;
  s ← callback_step 0 env ran s;
  '(_, w) ← SetExit 0 (world s);
  s' ← poll_step 0 (Some (client_fds client_num)) (mkSystem w (pending s));
  mret (checks [bool_decide (length reached = client_num);
                forallb (λ i, match reached !! i with Some (Some (UserCallback j)) => same i j | _ => false end) (seq 0 client_num);
                same (pending s) [[]]; same (pending s') [[]]]).

(** ** core/acceptor_test.cc

    One loop that listens and serves.  Callbacks are numbered: 0 is the acceptor's
    default, 1 and 2 the ones the test sets. *)

Fixpoint accept_clients (n : nat) (i : nat) (s : System (U := nat)) : result (System (U := nat)) :=
  match n with
  | 0 => mret s
  | S n =>
      s ← poll_step 0 (Some [3%Z]) s;
      s ← callback_step 0 (mkAcceptEnv (Some (10 + Z.of_nat i)%Z) true (Z.of_nat i) true)
            (Kept (mkBuffer []) (mkBuffer [])) s;
      accept_clients n (S i) s
  end.

Definition acceptor_test (local_host : NetAddress) : result bool :=
  let client_num := 3 in
  '(_, w) ← Acceptor_ctor 0 0 [0] local_host (Some 3%Z) true true true true test_world;
  let listening := match GetAcceptorConnection w ≫= (λ p, conns w !! p) with
                   | Some c => negb (same (Connection.GetFd c) (-1)%Z)
                   | None => false
                   end in
  '(_, w) ← SetCustomAcceptCallback 1 w;
  '(_, w) ← SetCustomHandleCallback 2 w;
  s ← accept_clients client_num 0 (mkSystem w [[]]);
  let accepted := size (connections_ (default (mkLooper (mkPoller 0 0 ∅) ∅ false) (loopers (world s) !! 0))) in
  s ← poll_step 0 (Some (client_fds client_num)) s;
  let handled := callbacks_of (world s) (concat (pending s)) in
  mret (checks [listening; same (GetCustomAcceptCallback (world s)) 1; same accepted client_num;
                bool_decide (client_num ≤ length handled);
                forallb (λ c, match c with Some (UserCallback 2) => true | _ => false end) handled]).

(** ** The test suite *)

(** every check of the unit tests holds on the model. *)
Theorem unit_tests_pass :
  buffer_test = Ok true ∧ net_address_ipv4_test = Ok true ∧ thread_pool_test = Ok true ∧
  socket_test 3 4 5 (mkNetAddress Ipv4 blank_memory) = Ok true ∧ request_test = Ok true ∧ response_test = Ok true ∧
  connection_events_test = Ok true ∧ connection_callback_test = Ok true ∧ connection_message_test = Ok true ∧
  poller_test = Ok true ∧ looper_test = Ok true ∧ acceptor_test (mkNetAddress Ipv4 blank_memory) = Ok true.
Proof. split_and!; vm_compute; reflexivity. Qed.

(** the IPv6 half of the address test writes past the end of its object. *)
Theorem ipv6_test_overflows : net_address_ipv6_test = Fail OutOfRange.
Proof. vm_compute. reflexivity. Qed.
