(* ===== verification/CompilerId.v ===== *)
(** * The programs CMake compiles to identify the compilers

    Four programs are built into the tree, CMakeCCompilerId.c and
    CMakeCXXCompilerId.cpp of CMake 3.22.2 (under src/build/) and of CMake 3.24.2
    (under src/cmake-build-debug/): the compiler's predefined macros select, by one long chain of conditional
    directives, the macros that name the compiler, its version and the platform; the
    program stores them in [INFO:...] strings that the build reads out of the object
    file, and its [main] keeps the strings alive by summing one character of each.

    A macro environment is a map, a group of directives a function on it.  [#if]
    reads an undefined name as 0; the numbers a compiler predefines are [Number]s.
    An expansion that names an undefined macro outside of [#if] does not compile and
    is [Undeclared].

    The groups of directives here are those of CMakeCCompilerId.c of CMake 3.22.2;
    where the other programs have the same text but for a name, the name is a
    parameter.  What they do not share is in CompilerIds.v, which makes each of the
    four a [program]; [Identification] is what the theorems ask of its directives. *)

From stdpp Require Import pretty.
From S2P Require Import Prelude.

Local Open Scope Z_scope.

(** ** The preprocessor *)

(** The body of a macro: a number, a string literal, the character initialisers
    that [DEC] and [HEX] expand to, or tokens that do not compile. *)
Inductive body :=
  | Number (n : Z)
  | Text (s : string)
  | Chars (cs : list Z)
  | Undeclared.

Abbreviation macros := (gmap string body).
Abbreviation condition := (macros → bool).
Abbreviation block := (macros → macros).

Definition defined (x : string) : condition := λ m, bool_decide (is_Some (m !! x)).
Definition any_defined (xs : list string) : condition := λ m, existsb (λ x, defined x m) xs.
Definition number (m : macros) (x : string) : Z :=
  match m !! x with Some (Number n) => n | _ => 0 end.
Definition test (x : string) (p : Z → bool) : condition := λ m, p (number m x).
Definition both (c d : condition) : condition := λ m, c m && d m.
Definition without (c : condition) : condition := λ m, negb (c m).

Definition define (x : string) (b : macros → body) : block := λ m, <[x := b m]> m.
Definition text (s : string) : macros → body := λ _, Text s.
Definition copy_of (x : string) : macros → body := λ m, default Undeclared (m !! x).

Fixpoint blocks (bs : list block) : block :=
  match bs with [] => id | b :: bs => λ m, blocks bs (b m) end.

Definition when (c : condition) (b : block) : block := λ m, if c m then b m else m.

(** [#if] ... [#elif] ... [#else] ... [#endif] *)
Fixpoint branches (bs : list (condition * block)) (otherwise : block) : block :=
  match bs with
  | [] => otherwise
  | (c, b) :: bs => λ m, if c m then b m else branches bs otherwise m
  end.

(** ** Numbers as characters *)

Definition DEC (n : Z) : list Z :=
  [48 + Z.rem (n ÷ 10000000) 10; 48 + Z.rem (n ÷ 1000000) 10;
   48 + Z.rem (n ÷ 100000) 10; 48 + Z.rem (n ÷ 10000) 10;
   48 + Z.rem (n ÷ 1000) 10; 48 + Z.rem (n ÷ 100) 10;
   48 + Z.rem (n ÷ 10) 10; 48 + Z.rem n 10].

Definition HEX (n : Z) : list Z :=
  [48 + Z.land (Z.shiftr n 28) 15; 48 + Z.land (Z.shiftr n 24) 15;
   48 + Z.land (Z.shiftr n 20) 15; 48 + Z.land (Z.shiftr n 16) 15;
   48 + Z.land (Z.shiftr n 12) 15; 48 + Z.land (Z.shiftr n 8) 15;
   48 + Z.land (Z.shiftr n 4) 15; 48 + Z.land n 15].

(** [DEC(...)] and [HEX(...)] of an expression over one macro. *)
Definition expand (digits : Z → list Z) (x : string) (f : Z → Z) : macros → body := λ m,
  match m !! x with Some (Number n) => Chars (digits (f n)) | _ => Undeclared end.
Abbreviation dec x := (expand DEC x id).
Abbreviation dec_of := (expand DEC).
Abbreviation hex_of := (expand HEX).

(** [#define <what>_VERSION_MAJOR], [_MINOR], [_PATCH] and [_TWEAK], as many as given. *)
Definition parts : list string :=
  ["_VERSION_MAJOR"; "_VERSION_MINOR"; "_VERSION_PATCH"; "_VERSION_TWEAK"].
Definition version (what : string) (ds : list (macros → body)) : block :=
  blocks (zip_with (λ part d, define (what +:+ part) d) parts ds).

Abbreviation ID s := (define "COMPILER_ID" (text s)).
Abbreviation SIM s := (define "SIMULATE_ID" (text s)).
Abbreviation PATCH := (define "COMPILER_VERSION_PATCH").
Abbreviation TWEAK := (define "COMPILER_VERSION_TWEAK").
Abbreviation INTERNAL := (define "COMPILER_VERSION_INTERNAL").

(** ** The compilers *)

(** What a compiler that also passes for another says about the other. *)
Definition simulate_MSVC : block :=
  when (defined "_MSC_VER")
    (version "SIMULATE" [dec_of "_MSC_VER" (λ n, n ÷ 100); dec_of "_MSC_VER" (λ n, Z.rem n 100)]).
Definition simulate_ids : block :=
  blocks [when (defined "_MSC_VER") (SIM "MSVC"); when (defined "__GNUC__") (SIM "GNU")].
Definition simulate_versions : block :=
  blocks [simulate_MSVC;
          branches [(defined "__GNUC__", define "SIMULATE_VERSION_MAJOR" (dec "__GNUC__"));
                    (defined "__GNUG__", define "SIMULATE_VERSION_MAJOR" (dec "__GNUG__"))] id;
          when (defined "__GNUC_MINOR__") (define "SIMULATE_VERSION_MINOR" (dec "__GNUC_MINOR__"));
          when (defined "__GNUC_PATCHLEVEL__")
            (define "SIMULATE_VERSION_PATCH" (dec "__GNUC_PATCHLEVEL__"))].

(** A version in one number: major, minor and patch are
    [n/a], [n/b % c] and [n % d]. *)
Definition packed (x : string) (a b c d : Z) : block :=
  version "COMPILER"
    [dec_of x (λ n, n ÷ a); dec_of x (λ n, Z.rem (n ÷ b) c); dec_of x (λ n, Z.rem n d)].

Definition old_Intel (n : Z) : bool := (n <? 2021) || (n =? 202110) || (n =? 202111).

Definition Intel : block :=
  blocks [ID "Intel"; simulate_ids;
    branches
      [(test "__INTEL_COMPILER" old_Intel,
        blocks [version "COMPILER" [dec_of "__INTEL_COMPILER" (λ n, n ÷ 100);
                                    dec_of "__INTEL_COMPILER" (λ n, Z.rem (n ÷ 10) 10)];
                branches [(defined "__INTEL_COMPILER_UPDATE", PATCH (dec "__INTEL_COMPILER_UPDATE"))]
                         (PATCH (dec_of "__INTEL_COMPILER" (λ n, Z.rem n 10)))])]
      (version "COMPILER" [dec "__INTEL_COMPILER"; dec "__INTEL_COMPILER_UPDATE";
                           λ _, Chars (DEC 0)]);
    when (defined "__INTEL_COMPILER_BUILD_DATE") (TWEAK (dec "__INTEL_COMPILER_BUILD_DATE"));
    simulate_versions].

Definition IntelLLVM : block :=
  blocks [ID "IntelLLVM"; simulate_ids;
    branches [(test "__INTEL_LLVM_COMPILER" (λ n, n <? 1000000),
               packed "__INTEL_LLVM_COMPILER" 100 10 10 10)]
             (packed "__INTEL_LLVM_COMPILER" 10000 100 100 100);
    simulate_versions].

(** Major, minor and, where the compiler defines it, the patch level, in a macro each. *)
Definition separate (major minor patch : string) : block :=
  blocks [version "COMPILER" [dec major; dec minor]; when (defined patch) (PATCH (dec patch))].

Definition byte_of (n : Z) (shift : Z) : Z := Z.land (Z.shiftr n shift) 255.

Definition Watcom (name : string) (excess : Z) : block :=
  blocks [ID name;
    version "COMPILER" [dec_of "__WATCOMC__" (λ n, (n - excess) ÷ 100);
                        dec_of "__WATCOMC__" (λ n, Z.rem (n ÷ 10) 10)];
    when (test "__WATCOMC__" (λ n, 0 <? Z.rem n 10)) (PATCH (dec_of "__WATCOMC__" (λ n, Z.rem n 10)))].

Definition SunPro (cc : string) : block :=
  blocks [ID "SunPro";
    branches
      [(test cc (λ n, 20736 <=? n),
        version "COMPILER" [hex_of cc (λ n, Z.shiftr n 12);
                            hex_of cc (λ n, byte_of n 4);
                            hex_of cc (λ n, Z.land n 15)])]
      (version "COMPILER" [hex_of cc (λ n, Z.shiftr n 8);
                           hex_of cc (λ n, Z.land (Z.shiftr n 4) 15);
                           hex_of cc (λ n, Z.land n 15)])].

(** The names that differ between C and C++ are parameters. *)
Definition intel_to_sun (cc : string) : list (condition * block) :=
  [(any_defined ["__INTEL_COMPILER"; "__ICC"], Intel);
   (λ m, (defined "__clang__" m && defined "__INTEL_CLANG_COMPILER" m)
         || defined "__INTEL_LLVM_COMPILER" m, IntelLLVM);
   (defined "__PATHCC__",
    blocks [ID "PathScale"; separate "__PATHCC__" "__PATHCC_MINOR__" "__PATHCC_PATCHLEVEL__"]);
   (both (defined "__BORLANDC__") (defined "__CODEGEARC_VERSION__"),
    blocks [ID "Embarcadero";
      version "COMPILER" [hex_of "__CODEGEARC_VERSION__" (λ n, byte_of n 24);
                          hex_of "__CODEGEARC_VERSION__" (λ n, byte_of n 16);
                          dec_of "__CODEGEARC_VERSION__" (λ n, Z.land n 65535)]]);
   (defined "__BORLANDC__",
    blocks [ID "Borland";
      version "COMPILER" [hex_of "__BORLANDC__" (λ n, Z.shiftr n 8);
                          hex_of "__BORLANDC__" (λ n, Z.land n 255)]]);
   (both (defined "__WATCOMC__") (test "__WATCOMC__" (λ n, n <? 1200)), Watcom "Watcom" 0);
   (defined "__WATCOMC__", Watcom "OpenWatcom" 1100);
   (defined cc, SunPro cc)].

Definition XL (ibm name : string) : block :=
  blocks [ID name; packed ibm 100 10 10 10].
Definition IBMC (ibm : string) (p : Z → bool) : condition :=
  both (defined ibm) (both (without (defined "__COMPILER_VER__")) (test ibm p)).

Definition hp_to_zos (hp dec_cc dec_ver ibm : string) : list (condition * block) :=
  [(defined hp, blocks [ID "HP"; packed hp 10000 100 100 100]);
   (defined dec_cc, blocks [ID "Compaq"; packed dec_ver 10000000 100000 100 10000]);
   (both (defined ibm) (defined "__COMPILER_VER__"), XL ibm "zOS")].

Definition ibmxl_to_fujitsu (ibm : string) : list (condition * block) :=
  [(both (defined "__ibmxl__") (defined "__clang__"),
    blocks [ID "XLClang";
      version "COMPILER" [dec "__ibmxl_version__"; dec "__ibmxl_release__";
                          dec "__ibmxl_modification__"; dec "__ibmxl_ptf_fix_level__"]]);
   (IBMC ibm (λ n, 800 <=? n), XL ibm "XL");
   (IBMC ibm (λ n, n <? 800), XL ibm "VisualAge");
   (defined "__NVCOMPILER",
    blocks [ID "NVHPC"; separate "__NVCOMPILER_MAJOR__" "__NVCOMPILER_MINOR__" "__NVCOMPILER_PATCHLEVEL__"]);
   (defined "__PGI",
    blocks [ID "PGI"; separate "__PGIC__" "__PGIC_MINOR__" "__PGIC_PATCHLEVEL__"]);
   (defined "_CRAYC",
    blocks [ID "Cray"; version "COMPILER" [dec "_RELEASE_MAJOR"; dec "_RELEASE_MINOR"]]);
   (defined "__TI_COMPILER_VERSION__",
    blocks [ID "TI"; packed "__TI_COMPILER_VERSION__" 1000000 1000 1000 1000]);
   (defined "__CLANG_FUJITSU",
    blocks [ID "FujitsuClang";
      version "COMPILER" [dec "__FCC_major__"; dec "__FCC_minor__"; dec "__FCC_patchlevel__"];
      define "COMPILER_VERSION_INTERNAL_STR" (copy_of "__clang_version__")]);
   (defined "__FUJITSU",
    blocks [ID "Fujitsu";
      branches
        [(defined "__FCC_version__", define "COMPILER_VERSION" (copy_of "__FCC_version__"));
         (defined "__FCC_major__",
          version "COMPILER" [dec "__FCC_major__"; dec "__FCC_minor__"; dec "__FCC_patchlevel__"])] id;
      branches [(defined "__fcc_version", INTERNAL (dec "__fcc_version"));
                (defined "__FCC_VERSION", INTERNAL (dec "__FCC_VERSION"))] id])].

Definition clang_version : list (macros → body) :=
  [dec "__clang_major__"; dec "__clang_minor__"; dec "__clang_patchlevel__"].
Definition if_MSC (b : block) : block := when (defined "_MSC_VER") b.
Definition GHS : block :=
  blocks [ID "GHS"; when (defined "__GHS_VERSION_NUMBER") (packed "__GHS_VERSION_NUMBER" 100 10 10 10)].

(** Compilers of C alone. *)
Definition tiny_and_bruce : list (condition * block) :=
  [(defined "__TINYC__", ID "TinyCC"); (defined "__BCC__", ID "Bruce")].

Definition sco_to_clang : list (condition * block) :=
  [(defined "__SCO_VERSION__", ID "SCO");
   (both (defined "__ARMCC_VERSION") (without (defined "__clang__")),
    blocks [ID "ARMCC";
      branches [(test "__ARMCC_VERSION" (λ n, 1000000 <=? n), packed "__ARMCC_VERSION" 1000000 10000 100 10000)]
               (packed "__ARMCC_VERSION" 100000 10000 10 10000)]);
   (both (defined "__clang__") (defined "__apple_build_version__"),
    blocks [ID "AppleClang"; if_MSC (SIM "MSVC"); version "COMPILER" clang_version; simulate_MSVC;
            TWEAK (dec "__apple_build_version__")]);
   (both (defined "__clang__") (defined "__ARMCOMPILER_VERSION"),
    blocks [ID "ARMClang"; packed "__ARMCOMPILER_VERSION" 1000000 10000 100 10000;
            INTERNAL (dec "__ARMCOMPILER_VERSION")]);
   (defined "__clang__",
    blocks [ID "Clang"; if_MSC (SIM "MSVC"); version "COMPILER" clang_version; simulate_MSVC])].

Definition GNU : block :=
  blocks [ID "GNU"; version "COMPILER" [dec "__GNUC__"];
          when (defined "__GNUC_MINOR__") (define "COMPILER_VERSION_MINOR" (dec "__GNUC_MINOR__"));
          when (defined "__GNUC_PATCHLEVEL__") (PATCH (dec "__GNUC_PATCHLEVEL__"))].

Definition MSVC : block :=
  blocks [ID "MSVC";
    version "COMPILER" [dec_of "_MSC_VER" (λ n, n ÷ 100); dec_of "_MSC_VER" (λ n, Z.rem n 100)];
    when (defined "_MSC_FULL_VER")
      (branches [(test "_MSC_VER" (λ n, 1400 <=? n), PATCH (dec_of "_MSC_FULL_VER" (λ n, Z.rem n 100000)))]
                (PATCH (dec_of "_MSC_FULL_VER" (λ n, Z.rem n 10000))));
    when (defined "_MSC_BUILD") (TWEAK (dec "_MSC_BUILD"))].

Definition ADSP : block :=
  blocks [ID "ADSP";
    when (defined "__VISUALDSPVERSION__")
      (version "COMPILER" [hex_of "__VISUALDSPVERSION__" (λ n, Z.shiftr n 24);
                           hex_of "__VISUALDSPVERSION__" (λ n, byte_of n 16);
                           hex_of "__VISUALDSPVERSION__" (λ n, byte_of n 8)])].

Definition IAR : block :=
  blocks [ID "IAR";
    branches
      [(both (defined "__VER__") (defined "__ICCARM__"),
        blocks [packed "__VER__" 1000000 1000 1000 1000; INTERNAL (dec "__IAR_SYSTEMS_ICC__")]);
       (both (defined "__VER__")
             (any_defined ["__ICCAVR__"; "__ICCRX__"; "__ICCRH850__"; "__ICCRL78__"; "__ICC430__";
                           "__ICCRISCV__"; "__ICCV850__"; "__ICC8051__"; "__ICCSTM8__"]),
        blocks [version "COMPILER" [dec_of "__VER__" (λ n, n ÷ 100);
                                    dec_of "__VER__" (λ n, n - n ÷ 100 * 100);
                                    dec "__SUBVERSION__"];
                INTERNAL (dec "__IAR_SYSTEMS_ICC__")])] id].

Definition SDCC : block :=
  blocks [ID "SDCC";
    branches
      [(defined "__SDCC_VERSION_MAJOR",
        version "COMPILER" [dec "__SDCC_VERSION_MAJOR"; dec "__SDCC_VERSION_MINOR"; dec "__SDCC_VERSION_PATCH"])]
      (packed "SDCC" 100 10 10 10)].

Definition adsp : condition * block :=
  (any_defined ["__VISUALDSPVERSION__"; "__ADSPBLACKFIN__"; "__ADSPTS__"; "__ADSP21000__"], ADSP).
Definition msvc_to_iar (adsp : condition * block) : list (condition * block) :=
  [(defined "_MSC_VER", MSVC); adsp;
   (any_defined ["__IAR_SYSTEMS_ICC__"; "__IAR_SYSTEMS_ICC"], IAR)].
Definition sdcc : condition * block := (any_defined ["__SDCC_VERSION_MAJOR"; "SDCC"], SDCC).
Definition hpux : condition * block := (any_defined ["__hpux"; "__hpua"], ID "HP").

(** ** The platform and the architecture *)

Abbreviation PLATFORM s := (define "PLATFORM_ID" (text s)).

Definition linux_to_tru64 : list (condition * block) :=
  [(any_defined ["__linux"; "__linux__"; "linux"], PLATFORM "Linux");
   (defined "__MSYS__", PLATFORM "MSYS");
   (defined "__CYGWIN__", PLATFORM "Cygwin");
   (defined "__MINGW32__", PLATFORM "MinGW");
   (defined "__APPLE__", PLATFORM "Darwin");
   (any_defined ["_WIN32"; "__WIN32__"; "WIN32"], PLATFORM "Windows");
   (any_defined ["__FreeBSD__"; "__FreeBSD"], PLATFORM "FreeBSD");
   (any_defined ["__NetBSD__"; "__NetBSD"], PLATFORM "NetBSD");
   (any_defined ["__OpenBSD__"; "__OPENBSD"], PLATFORM "OpenBSD");
   (any_defined ["__sun"; "sun"], PLATFORM "SunOS");
   (any_defined ["_AIX"; "__AIX"; "__AIX__"; "__aix"; "__aix__"], PLATFORM "AIX");
   (any_defined ["__hpux"; "__hpux__"], PLATFORM "HP-UX");
   (defined "__HAIKU__", PLATFORM "Haiku");
   (any_defined ["__BeOS"; "__BEOS__"; "_BEOS"], PLATFORM "BeOS");
   (any_defined ["__QNX__"; "__QNXNTO__"], PLATFORM "QNX");
   (any_defined ["__tru64"; "_tru64"; "__TRU64__"], PLATFORM "Tru64")].

Definition riscos_to_xenix : list (condition * block) :=
  [(any_defined ["__riscos"; "__riscos__"], PLATFORM "RISCos");
   (any_defined ["__sinix"; "__sinix__"; "__SINIX__"], PLATFORM "SINIX");
   (defined "__UNIX_SV__", PLATFORM "UNIX_SV");
   (defined "__bsdos__", PLATFORM "BSDOS");
   (any_defined ["_MPRAS"; "MPRAS"], PLATFORM "MP-RAS");
   (any_defined ["__osf"; "__osf__"], PLATFORM "OSF1");
   (any_defined ["_SCO_SV"; "SCO_SV"; "sco_sv"], PLATFORM "SCO_SV");
   (any_defined ["__ultrix"; "__ultrix__"; "_ULTRIX"], PLATFORM "ULTRIX");
   (any_defined ["__XENIX__"; "_XENIX"; "XENIX"], PLATFORM "Xenix")].

Definition embedded : list (condition * block) :=
  [(defined "__WATCOMC__",
    branches [(defined "__LINUX__", PLATFORM "Linux"); (defined "__DOS__", PLATFORM "DOS");
              (defined "__OS2__", PLATFORM "OS2"); (defined "__WINDOWS__", PLATFORM "Windows3x");
              (defined "__VXWORKS__", PLATFORM "VxWorks")] (PLATFORM ""));
   (defined "__INTEGRITY",
    branches [(defined "INT_178B", PLATFORM "Integrity178")] (PLATFORM "Integrity"))].

Definition PLATFORM_ID : block :=
  branches (linux_to_tru64 ++ riscos_to_xenix ++ embedded) (PLATFORM "").

Abbreviation ARCH s := (define "ARCHITECTURE_ID" (text s)).

(** [#x] after expansion: the number as the compiler spells it, in decimal. *)
Definition STRINGIFY (m : macros) (x : string) : option string :=
  match m !! x with Some (Number n) => Some (pretty n) | _ => None end.

Definition MSVC_architecture : block :=
  branches
    [(defined "_M_IA64", ARCH "IA64"); (defined "_M_ARM64EC", ARCH "ARM64EC");
     (any_defined ["_M_X64"; "_M_AMD64"], ARCH "x64"); (defined "_M_IX86", ARCH "X86");
     (defined "_M_ARM64", ARCH "ARM64");
     (defined "_M_ARM",
      branches [(test "_M_ARM" (Z.eqb 4), ARCH "ARMV4I"); (test "_M_ARM" (Z.eqb 5), ARCH "ARMV5I")]
        (define "ARCHITECTURE_ID" (λ m, match STRINGIFY m "_M_ARM" with
                                        | Some s => Text ("ARMV" +:+ s)
                                        | None => Undeclared
                                        end)));
     (defined "_M_MIPS", ARCH "MIPS"); (defined "_M_SH", ARCH "SHx")] (ARCH "").

Definition architectures : list (condition * block) :=
  [(both (defined "_WIN32") (defined "_MSC_VER"), MSVC_architecture);
   (defined "__WATCOMC__",
    branches [(defined "_M_I86", ARCH "I86"); (defined "_M_IX86", ARCH "X86")] (ARCH ""));
   (any_defined ["__IAR_SYSTEMS_ICC__"; "__IAR_SYSTEMS_ICC"],
    branches
      [(defined "__ICCARM__", ARCH "ARM"); (defined "__ICCRX__", ARCH "RX");
       (defined "__ICCRH850__", ARCH "RH850"); (defined "__ICCRL78__", ARCH "RL78");
       (defined "__ICCRISCV__", ARCH "RISCV"); (defined "__ICCAVR__", ARCH "AVR");
       (defined "__ICC430__", ARCH "MSP430"); (defined "__ICCV850__", ARCH "V850");
       (defined "__ICC8051__", ARCH "8051"); (defined "__ICCSTM8__", ARCH "STM8")] (ARCH ""));
   (defined "__ghs__",
    branches
      [(defined "__PPC64__", ARCH "PPC64"); (defined "__ppc__", ARCH "PPC");
       (defined "__ARM__", ARCH "ARM"); (defined "__x86_64__", ARCH "x64");
       (defined "__i386__", ARCH "X86")] (ARCH ""));
   (defined "__TI_COMPILER_VERSION__",
    branches
      [(defined "__TI_ARM__", ARCH "ARM"); (defined "__MSP430__", ARCH "MSP430");
       (defined "__TMS320C28XX__", ARCH "TMS320C28x");
       (any_defined ["__TMS320C6X__"; "_TMS320C6X"], ARCH "TMS320C6x")] (ARCH ""))].

Definition ARCHITECTURE_ID : block := branches architectures (ARCH "").

(** ** The language standard *)

Abbreviation STANDARD s := (define "C_VERSION" (text s)).

Definition C_VERSION : block :=
  branches
    [(both (without (defined "__STDC__")) (without (defined "__clang__")),
      branches [(any_defined ["_MSC_VER"; "__ibmxl__"; "__IBMC__"], STANDARD "90")] (STANDARD ""));
     (test "__STDC_VERSION__" (λ n, 201710 <? n), STANDARD "23");
     (test "__STDC_VERSION__" (λ n, 201710 <=? n), STANDARD "17");
     (test "__STDC_VERSION__" (λ n, 201000 <=? n), STANDARD "11");
     (test "__STDC_VERSION__" (λ n, 199901 <=? n), STANDARD "99")] (STANDARD "90").

Definition extensions : condition :=
  both (any_defined ["__clang__"; "__GNUC__"; "__xlC__"; "__TI_COMPILER_VERSION__"])
       (both (without (defined "__STRICT_ANSI__")) (without (defined "_MSC_VER"))).

(** ** The strings *)

(** The [char]s of a literal, and the array with its terminator. *)
Definition chars (s : string) : list Z := (λ c, wrap_s 8 (Z.of_N (N_of_ascii c))) <$> lit s.
Definition array (cs : list Z) : list Z := cs ++ [0].

(** A string assembled from literals; [None] where the expansion of the macro is
    not a literal, which does not compile. *)
Definition literal (x : string) (m : macros) : option string :=
  match m !! x with Some (Text s) => Some s | _ => None end.
Definition INFO (tag s : string) : list Z := array (chars ("INFO:" +:+ tag +:+ "[" +:+ s +:+ "]")).

(** The initialisers of the version components, up to the first undefined one. *)
Definition initialisers (x : string) (m : macros) : option (list Z) :=
  match m !! x with Some (Chars cs) => Some cs | _ => None end.
Fixpoint further_components (what : string) (ps : list string) (m : macros) : option (list Z) :=
  match ps with
  | [] => Some []
  | p :: ps => if defined (what +:+ p) m then
                 cs ← initialisers (what +:+ p) m;
                 rest ← further_components what ps m;
                 Some (chars "." ++ cs ++ rest)
               else Some []
  end.
Definition components (tag what : string) (m : macros) : option (list Z) :=
  major ← initialisers (what +:+ "_VERSION_MAJOR") m;
  rest ← further_components what (drop 1 parts) m;
  Some (array (chars ("INFO:" +:+ tag +:+ "[") ++ major ++ rest ++ chars "]")).

Definition info_compiler (m : macros) : option (list Z) := INFO "compiler" <$> literal "COMPILER_ID" m.
Definition info_simulate (m : macros) : option (list Z) := INFO "simulate" <$> literal "SIMULATE_ID" m.
Definition info_cray : list Z := INFO "compiler_wrapper" "CrayPrgEnv".
Definition info_platform (m : macros) : option (list Z) := INFO "platform" <$> literal "PLATFORM_ID" m.
Definition info_arch (m : macros) : option (list Z) := INFO "arch" <$> literal "ARCHITECTURE_ID" m.

Definition info_version (m : macros) : option (list Z) :=
  if defined "COMPILER_VERSION" m then INFO "compiler_version" <$> literal "COMPILER_VERSION" m
  else components "compiler_version" "COMPILER" m.
Definition info_version_internal (m : macros) : option (list Z) :=
  if defined "COMPILER_VERSION_INTERNAL" m then
    cs ← initialisers "COMPILER_VERSION_INTERNAL" m;
    Some (array (chars "INFO:compiler_version_internal[" ++ cs ++ chars "]"))
  else INFO "compiler_version_internal" <$> literal "COMPILER_VERSION_INTERNAL_STR" m.
Definition info_simulate_version (m : macros) : option (list Z) :=
  components "simulate_version" "SIMULATE" m.

(** ** The program *)

(** What the four programs differ in: the directives, up to, with and after those of
    GCC; the name of the default standard, and when extensions are on by default;
    what stops the compilation; a [main] without a value; whether [main] reads
    [info_arch]. *)
Record program := mkProgram {
  before_GNU : list (condition * block);
  for_GNU : condition * block;
  after_GNU : list (condition * block);
  platform_part : block;
  architecture_part : block;
  standard_part : block;
  standard_default : macros → option string;
  extensions_default : condition;
  stops : condition;
  void_main : condition;
  reads_arch : bool
}.

Definition compiler_part (p : program) : block :=
  branches (before_GNU p ++ for_GNU p :: after_GNU p) (ID "").

(** The macros after the directives. *)
Definition identified (p : program) : block :=
  blocks [compiler_part p; platform_part p; architecture_part p; standard_part p].

Definition info_language_standard_default (p : program) (m : macros) : option (list Z) :=
  INFO "standard_default" <$> standard_default p m.
Definition info_language_extensions_default (p : program) (m : macros) : list Z :=
  INFO "extensions_default" (if extensions_default p m then "ON" else "OFF").

(** The strings the directives declare; the program compiles when all of them do.
    ([qnxnto] and [info_cray] always do.) *)
Definition declared (p : program) (m : macros) : list (option (list Z)) :=
  [info_compiler m] ++
  (if defined "SIMULATE_ID" m then [info_simulate m] else []) ++
  (if any_defined ["COMPILER_VERSION"; "COMPILER_VERSION_MAJOR"] m then [info_version m] else []) ++
  (if any_defined ["COMPILER_VERSION_INTERNAL"; "COMPILER_VERSION_INTERNAL_STR"] m
   then [info_version_internal m] else []) ++
  (if defined "SIMULATE_VERSION_MAJOR" m then [info_simulate_version m] else []) ++
  [info_platform m; info_arch m; info_language_standard_default p m].

(** The strings [main] reads, in its order. *)
Definition required (p : program) (m : macros) : list (option (list Z)) :=
  [info_compiler m; info_platform m] ++
  (if reads_arch p then [info_arch m] else []) ++
  (if defined "COMPILER_VERSION_MAJOR" m then [info_version m] else []) ++
  (if defined "COMPILER_VERSION_INTERNAL" m then [info_version_internal m] else []) ++
  (if defined "SIMULATE_ID" m then [info_simulate m] else []) ++
  (if defined "SIMULATE_VERSION_MAJOR" m then [info_simulate_version m] else []) ++
  (if defined "__CRAYXT_COMPUTE_LINUX_TARGET" m then [Some info_cray] else []) ++
  [info_language_standard_default p m; Some (info_language_extensions_default p m)].

(** [require += info[argc]] for each: past the terminator the read is out of range. *)
Fixpoint require_all (infos : list (list Z)) (argc require : Z) : result Z :=
  match infos with
  | [] => Ok require
  | info :: infos =>
      if decide (0 ≤ argc) then
        match info !! Z.to_nat argc with
        | Some c => require ← int_add require c; require_all infos argc require
        | None => Fail OutOfRange
        end
      else Fail OutOfRange
  end.

(** [None]: the program does not compile.  Where [main] is [void] it reads nothing
    and has no value. *)
Definition main (p : program) (predefined : macros) (argc : Z) : option (result (option Z)) :=
  if stops p predefined then None
  else
    let m := identified p predefined in
    _ ← mapM id (declared p m);
    if void_main p predefined then Some (Ok None)
    else infos ← mapM id (required p m); Some (Some <$> require_all infos argc 0).

(** ** What a group of directives does to the environment

    [related R b]: [b] takes every environment to one that [R] relates it to.  For a
    preorder the groups inherit this from their definitions, whatever the conditions. *)

Definition related (R : macros → macros → Prop) (b : block) : Prop := ∀ m, R m (b m).

Section Related.
Context (R : macros → macros → Prop) `{!PreOrder R}.

Lemma related_id : related R id.
Proof. intros m. reflexivity. Qed.

Lemma related_nil : related R (blocks []).
Proof. apply related_id. Qed.

Lemma related_cons b bs : related R b → related R (blocks bs) → related R (blocks (b :: bs)).
Proof. intros Hb Hbs m. simpl. etrans; [apply Hb|apply Hbs]. Qed.

Lemma related_when c b : related R b → related R (when c b).
Proof. intros Hb m. unfold when. destruct (c m); [apply Hb|reflexivity]. Qed.

Lemma related_otherwise o : related R o → related R (branches [] o).
Proof. done. Qed.

Lemma related_branch c b bs o :
  related R b → related R (branches bs o) → related R (branches ((c, b) :: bs) o).
Proof. intros Hb Hbs m. simpl. destruct (c m); auto. Qed.
End Related.

(** Splits [related R b] into the definitions [b] consists of. *)
Ltac directives :=
  lazymatch goal with
  | |- related _ id => apply related_id; exact _
  | |- related _ (define _ _) => idtac
  | |- related _ (when _ _) => apply related_when; [exact _|directives]
  | |- related _ (blocks []) => apply related_nil; exact _
  | |- related _ (blocks (_ :: _)) => apply related_cons; [exact _|directives|directives]
  | |- related _ (branches [] _) => apply related_otherwise; directives
  | |- related _ (branches ((_, _) :: _) _) => apply related_branch; directives
  | |- related ?R (branches (?cb :: ?l) ?o) =>
      let cb' := eval hnf in cb in change (related R (branches (cb' :: l) o)); directives
  | |- related ?R (branches ?l ?o) =>
      let l' := eval hnf in l in change (related R (branches l' o)); directives
  | |- related ?R (blocks ?l) =>
      let l' := eval hnf in l in change (related R (blocks l')); directives
  | |- related ?R ?b =>
      let h := lazymatch b with ?f _ _ _ _ _ => f | ?f _ _ _ => f | ?f _ _ => f | ?f _ => f | _ => b end in
      unfold h; directives
  end.

(** [b] writes only the names in [xs]. *)
Definition writes (xs : list string) (m m' : macros) : Prop := ∀ x, x ∉ xs → m' !! x = m !! x.

#[export] Instance writes_preorder xs : PreOrder (writes xs).
Proof. split; [by intros ? ?|intros m1 m2 m3 H12 H23 x Hx; by rewrite H23, H12]. Qed.

Lemma writes_define xs x b : x ∈ xs → related (writes xs) (define x b).
Proof. intros Hx m y Hy. apply lookup_insert_ne. set_solver. Qed.

Definition version_names (what : string) : list string := (λ p, what +:+ p) <$> parts.
Definition compiler_names : list string :=
  ["COMPILER_ID"; "SIMULATE_ID"; "COMPILER_VERSION"; "COMPILER_VERSION_INTERNAL";
   "COMPILER_VERSION_INTERNAL_STR"] ++ version_names "COMPILER" ++ version_names "SIMULATE".

(** ** Every compiler, platform and language standard gets a name *)

(** [b] leaves [x] defined as a literal, in environments that satisfy [Q]. *)
Definition naming (Q : macros → Prop) (x : string) (b : block) : Prop :=
  ∀ m, Q m → ∃ s, literal x (b m) = Some s.

Definition keeps_name (x : string) (m m' : macros) : Prop :=
  (∃ s, literal x m = Some s) → ∃ s, literal x m' = Some s.

#[export] Instance keeps_name_preorder x : PreOrder (keeps_name x).
Proof. split; unfold keeps_name; [by intros m|intros m1 m2 m3; auto]. Qed.

Lemma keeps_name_define x y b : x ≠ y → related (keeps_name x) (define y b).
Proof. intros Hne m [s Hs]. exists s. unfold literal, define. by rewrite lookup_insert_ne. Qed.

Lemma naming_define Q x s : naming Q x (define x (text s)).
Proof. intros m _. exists s. unfold literal, define. by rewrite lookup_insert_eq. Qed.

Lemma naming_first Q x b bs :
  naming Q x b → related (keeps_name x) (blocks bs) → naming Q x (blocks (b :: bs)).
Proof. intros Hb Hbs m HQ. apply Hbs, Hb, HQ. Qed.

Lemma naming_otherwise Q x o : naming Q x o → naming Q x (branches [] o).
Proof. done. Qed.

Lemma naming_branch (Q : macros → Prop) x (c : condition) b bs o :
  naming (λ m, Q m ∧ c m = true) x b → naming Q x (branches bs o) →
  naming Q x (branches ((c, b) :: bs) o).
Proof. intros Hb Hbs m HQ. simpl. destruct (c m) eqn:E; auto. Qed.

Ltac named :=
  lazymatch goal with
  | |- naming _ _ (define _ (text _)) => apply naming_define
  | |- naming _ _ (define _ _) => idtac
  | |- naming _ _ (blocks (_ :: _)) =>
      apply naming_first; [named|directives; apply keeps_name_define; discriminate]
  | |- naming _ _ (branches [] _) => apply naming_otherwise; named
  | |- naming _ _ (branches ((_, _) :: _) _) => apply naming_branch; named
  | |- naming ?Q ?x (branches (?cb :: ?l) ?o) =>
      let cb' := eval hnf in cb in change (naming Q x (branches (cb' :: l) o)); named
  | |- naming ?Q ?x (branches ?l ?o) =>
      let l' := eval hnf in l in change (naming Q x (branches l' o)); named
  | |- naming _ _ ?b => let h := lazymatch b with ?f _ _ => f | ?f _ => f | _ => b end in unfold h; named
  end.

(** [_M_ARM], where a compiler defines it, is a number. *)
Definition numeric_ARM (m : macros) : Prop := defined "_M_ARM" m = true → ∃ n, m !! "_M_ARM" = Some (Number n).

Lemma literal_writes xs m m' x : writes xs m m' → x ∉ xs → literal x m' = literal x m.
Proof. intros Hw Hx. unfold literal. by rewrite (Hw x Hx). Qed.

(** ** Characters *)

Definition char_sized (cs : list Z) : Prop := Forall (λ c, -128 ≤ c < 128) cs.
Definition body_sized (b : body) : Prop := match b with Chars cs => char_sized cs | _ => True end.
Definition sized (m : macros) : Prop := map_Forall (λ _ b, body_sized b) m.
Definition keeps_sized (m m' : macros) : Prop := sized m → sized m'.

#[export] Instance keeps_sized_preorder : PreOrder keeps_sized.
Proof. split; unfold keeps_sized; [by intros m|intros m1 m2 m3; auto]. Qed.

Lemma DEC_sized n : char_sized (DEC n).
Proof.
  assert (∀ k, -128 ≤ 48 + Z.rem k 10 < 128) as H by (intros k; pose proof (Z.rem_bound_abs k 10); lia).
  repeat constructor; apply H.
Qed.

Lemma HEX_sized n : char_sized (HEX n).
Proof.
  assert (∀ k, -128 ≤ 48 + Z.land k 15 < 128) as H.
  { intros k. change 15 with (Z.ones 4). rewrite Z.land_ones by lia. pose proof (Z.mod_pos_bound k (2 ^ 4)). lia. }
  repeat constructor; apply H.
Qed.

Lemma sized_define x b : (∀ m, sized m → body_sized (b m)) → related keeps_sized (define x b).
Proof. intros Hb m Hm. apply map_Forall_insert_2; auto. Qed.

Lemma expand_sized digits x f m : (∀ n, char_sized (digits n)) → body_sized (expand digits x f m).
Proof. intros Hd. unfold expand. destruct (m !! x) as [[]|]; simpl; auto. Qed.

Lemma copy_sized x m : sized m → body_sized (copy_of x m).
Proof. intros Hm. unfold copy_of. destruct (m !! x) eqn:E; [exact (Hm _ _ E)|done]. Qed.

#[export] Hint Resolve DEC_sized HEX_sized expand_sized copy_sized : icee.

Lemma chars_sized s : char_sized (chars s).
Proof.
  unfold char_sized, chars. apply Forall_fmap, Forall_true. intros c.
  exact (wrap_s_range 8 (Z.of_N (N_of_ascii c)) ltac:(lia)).
Qed.

Lemma app_sized cs ds : char_sized cs → char_sized ds → char_sized (cs ++ ds).
Proof. apply Forall_app_2. Qed.

Lemma array_sized cs : char_sized cs → char_sized (array cs).
Proof. intros H. apply Forall_app. split; [done|]. repeat constructor; lia. Qed.

Lemma length_chars s t : length (chars (s +:+ t)) = (length (chars s) + length (chars t))%nat.
Proof.
  unfold chars. rewrite !length_fmap. unfold lit. induction s as [|c s IH]; [done|].
  simpl. by rewrite IH.
Qed.

(** A string [main] may read: its characters are [char]s, its indices go below [k]. *)
Definition readable (k : nat) (info : list Z) : Prop := char_sized info ∧ (k ≤ length info)%nat.

Lemma INFO_readable k tag s : (k ≤ 8 + length (chars tag))%nat → readable k (INFO tag s).
Proof.
  intros Ht. split; [apply array_sized, chars_sized|]. unfold INFO, array.
  rewrite length_app, !length_chars. cbn. lia.
Qed.

Lemma literal_readable k tag o info :
  (k ≤ 8 + length (chars tag))%nat → INFO tag <$> o = Some info → readable k info.
Proof. intros Ht. destruct o as [s|]; [|done]. intros [= <-]. by apply INFO_readable. Qed.

Lemma initialisers_sized x m cs : sized m → initialisers x m = Some cs → char_sized cs.
Proof.
  intros Hm. unfold initialisers. destruct (m !! x) as [[]|] eqn:E; try done. intros [= <-].
  exact (Hm _ _ E).
Qed.

Lemma further_sized what ps m cs :
  sized m → further_components what ps m = Some cs → char_sized cs.
Proof.
  intros Hm. revert cs. induction ps as [|p ps IH]; intros cs; cbn [further_components]; [intros [= <-]; constructor|].
  destruct (defined _ m); [|intros [= <-]; constructor].
  intros (ds & Hds & (rest & Hr & Hcs)%bind_Some)%bind_Some. apply (inj Some) in Hcs as <-.
  repeat apply app_sized; [apply chars_sized|by eapply initialisers_sized|by apply IH].
Qed.

Lemma components_readable k tag what m info :
  sized m → (k ≤ 8 + length (chars tag))%nat → components tag what m = Some info → readable k info.
Proof.
  intros Hm Ht (ds & Hds & (rest & Hr & Hcs)%bind_Some)%bind_Some.
  apply (inj Some) in Hcs as <-. split.
  - apply array_sized. repeat apply app_sized; try apply chars_sized;
      [by eapply initialisers_sized|by eapply further_sized].
  - unfold array. rewrite !length_app, !length_chars. cbn. lia.
Qed.

Lemma info_version_readable m info : sized m → info_version m = Some info → readable 16 info.
Proof.
  intros Hm. unfold info_version. case_match; [apply literal_readable; cbn; lia|].
  by apply components_readable; [|cbn; lia].
Qed.

Lemma info_version_internal_readable m info :
  sized m → info_version_internal m = Some info → readable 16 info.
Proof.
  intros Hm. unfold info_version_internal. case_match; [|apply literal_readable; cbn; lia].
  intros (cs & Hcs & E)%bind_Some. apply (inj Some) in E as <-. split.
  - apply array_sized. repeat apply app_sized; [apply chars_sized|by eapply initialisers_sized|apply chars_sized].
  - unfold array. rewrite !length_app. cbn. lia.
Qed.

Lemma readable_le k l info : (k ≤ l)%nat → readable l info → readable k info.
Proof. intros Hk [Hs Hl]. split; [done|lia]. Qed.

(** The sum is defined exactly when the index is inside every string. *)
Lemma require_all_run infos argc sum :
  Forall char_sized infos → Z.abs sum + 128 * size_of infos < 2 ^ 31 →
  (Forall (λ info, 0 ≤ argc < size_of info) infos → ∃ v, require_all infos argc sum = Ok v) ∧
  (Exists (λ info, ¬ 0 ≤ argc < size_of info) infos → require_all infos argc sum = Fail OutOfRange).
Proof.
  intros Hs. revert sum. induction Hs as [|info infos Hi Hs IH]; intros sum Hb.
  { split; [eexists; done|intros H%Exists_nil; done]. }
  assert (0 ≤ argc < size_of info → ∃ c, info !! Z.to_nat argc = Some c ∧ -128 ≤ c < 128) as Hin.
  { intros Hr. destruct (lookup_lt_is_Some_2 info (Z.to_nat argc)) as [c Hc]; [unfold size_of in Hr; lia|].
    exists c. split; [done|]. exact (Forall_lookup_1 _ _ _ _ Hi Hc). }
  cbn [require_all]. destruct (decide (0 ≤ argc < size_of info)) as [Hr|Hr].
  - destruct (Hin Hr) as (c & Hc & Hrange). rewrite decide_True, Hc by lia.
    unfold int_add. unfold size_of in Hb. cbn [length] in Hb.
    assert (in_int (sum + c)) as Hint by (unfold in_int; lia).
    rewrite (result_bind_ok _ _ _ (checked_int_ok _ Hint)).
    destruct (IH (sum + c)) as [IHok IHout]; [unfold size_of; lia|]. split.
    + intros [_ H]%Forall_cons. by apply IHok.
    + intros [H|H]%Exists_cons; [done|]. by apply IHout.
  - split; [intros [H _]%Forall_cons; done|intros _]. case_decide; [|done].
    rewrite lookup_ge_None_2 by (unfold size_of in Hr; lia). done.
Qed.

(** A compiler predefines numbers and literals only. *)
Definition predefines (m : macros) : Prop := ∀ x cs, m !! x ≠ Some (Chars cs).

Lemma predefines_sized m : predefines m → sized m.
Proof. intros Hm x [] E; try done. by destruct (Hm x cs). Qed.

Lemma mapM_id_elem {A} (l : list (option A)) k o x : mapM id l = Some k → o ∈ l → o = Some x → x ∈ k.
Proof.
  intros H%mapM_Some [i Hi]%list_elem_of_lookup ->.
  destruct (Forall2_lookup_l _ _ _ _ _ H Hi) as (y & Hy & [= ->]). by eapply list_elem_of_lookup_2.
Qed.

Definition numeral_or_text (b : body) : bool := match b with Chars _ => false | _ => true end.

Lemma predefines_forallb m : forallb (numeral_or_text ∘ snd) (map_to_list m) = true → predefines m.
Proof.
  intros H x cs E%elem_of_map_to_list. rewrite forallb_forall in H.
  apply list_elem_of_In, H in E. discriminate E.
Qed.

(** ** What the build reads back *)

(** The value of a numeral in base [b], and the numerals of a version string: what
    is between the brackets, cut at the dots. *)
Definition value (b : Z) (cs : list Z) : Z := foldl (λ v c, b * v + (c - 48)) 0 cs.

Fixpoint cut (c : Z) (l : list Z) : list (list Z) :=
  match l with
  | [] => [[]]
  | x :: l => if x =? c then [] :: cut c l
              else match cut c l with p :: ps => (x :: p) :: ps | [] => [[x]] end
  end.
Fixpoint until (c : Z) (l : list Z) : list Z :=
  match l with [] => [] | x :: l => if x =? c then [] else x :: until c l end.

Definition read_version (tag : string) (info : list Z) : list Z :=
  value 10 <$> cut 46 (until 93 (drop (length (chars ("INFO:" +:+ tag +:+ "["))) info)).

Lemma DEC_value n : 0 ≤ n < 10 ^ 8 → value 10 (DEC n) = n.
Proof.
  intros Hn. unfold value, DEC. cbn [foldl].
  rewrite !Z.rem_mod_nonneg, !Z.quot_div_nonneg by (try apply Z.quot_pos; lia).
  Z.div_mod_to_equations. lia.
Qed.

Lemma HEX_value n : 0 ≤ n < 2 ^ 32 → value 16 (HEX n) = n.
Proof.
  intros Hn. unfold value, HEX. cbn [foldl]. change 15 with (Z.ones 4).
  rewrite !Z.land_ones, !Z.shiftr_div_pow2 by lia.
  change (2 ^ 4) with 16. Z.div_mod_to_equations. lia.
Qed.

Lemma cut_separated c l rest : c ∉ l → cut c (l ++ c :: rest) = l :: cut c rest.
Proof.
  induction l as [|x l IH]; intros Hc; simpl; [by rewrite Z.eqb_refl|].
  apply not_elem_of_cons in Hc as [Hx Hl]. by rewrite (proj2 (Z.eqb_neq x c)), IH.
Qed.

Lemma cut_whole c l : c ∉ l → cut c l = [l].
Proof.
  induction l as [|x l IH]; intros Hc; simpl; [done|].
  apply not_elem_of_cons in Hc as [Hx Hl]. by rewrite (proj2 (Z.eqb_neq x c)), IH.
Qed.

Lemma until_end c l rest : c ∉ l → until c (l ++ c :: rest) = l.
Proof.
  induction l as [|x l IH]; intros Hc; simpl; [by rewrite Z.eqb_refl|].
  apply not_elem_of_cons in Hc as [Hx Hl]. by rewrite (proj2 (Z.eqb_neq x c)), IH.
Qed.

Lemma DEC_digits n : 0 ≤ n → Forall (λ c, 48 ≤ c < 58) (DEC n).
Proof.
  intros Hn. assert (∀ k, 0 < k → 48 ≤ 48 + Z.rem (n ÷ k) 10 < 58) as H.
  { intros k Hk. pose proof (Z.rem_bound_pos (n ÷ k) 10 (Z.quot_pos n k Hn Hk)). lia. }
  pose proof (Z.rem_bound_pos n 10 Hn). repeat constructor; first [apply H; lia|lia].
Qed.

(** The components that follow the first, as they appear between the brackets. *)
Definition dotted (ns : list Z) : list Z := concat ((λ n, 46 :: DEC n) <$> ns).

Lemma not_in_digits c l : ¬ 48 ≤ c < 58 → Forall (λ c, 48 ≤ c < 58) l → c ∉ l.
Proof. intros Hc Hl Hin. rewrite Forall_forall in Hl. by apply Hc, Hl. Qed.

Lemma not_in_dotted c ns : ¬ 48 ≤ c < 58 → c ≠ 46 → Forall (λ n, 0 ≤ n) ns → c ∉ dotted ns.
Proof.
  intros Hc Hd Hn. induction Hn as [|n ns Hn Hns IH]; [apply not_elem_of_nil|].
  intros [->|[H|H]%elem_of_app]%elem_of_cons; [done| |by apply IH].
  by eapply not_in_digits; [exact Hc|apply DEC_digits|].
Qed.

Lemma cut_dotted n ns : Forall (λ n, 0 ≤ n) (n :: ns) → cut 46 (DEC n ++ dotted ns) = DEC <$> n :: ns.
Proof.
  revert n. induction ns as [|n' ns IH]; intros n [Hn Hns]%Forall_cons.
  - change (dotted []) with (@nil Z). rewrite app_nil_r, cut_whole; [done|].
    apply not_in_digits; [lia|by apply DEC_digits].
  - change (dotted (n' :: ns)) with (46 :: DEC n' ++ dotted ns).
    rewrite cut_separated, (IH n' Hns); [done|]. apply not_in_digits; [lia|by apply DEC_digits].
Qed.

(** The names [what ++ p] for [p] in [ps] hold the version numbers [ns], in order, and
    the one after them is not defined. *)
Fixpoint holds (what : string) (ps : list string) (ns : list Z) (m : macros) : Prop :=
  match ns, ps with
  | [], [] => True
  | [], p :: _ => m !! (what +:+ p) = None
  | n :: ns, p :: ps => m !! (what +:+ p) = Some (Chars (DEC n)) ∧ holds what ps ns m
  | _ :: _, [] => False
  end.

Lemma further_components_holds what ps ns m :
  holds what ps ns m → further_components what ps m = Some (dotted ns).
Proof.
  revert ns. induction ps as [|p ps IH]; intros [|n ns]; cbn [holds further_components]; try done.
  - intros E. unfold defined. by rewrite E.
  - intros [E H]. unfold defined, initialisers. rewrite E, (IH ns H). done.
Qed.

Lemma components_read tag what n ns m :
  holds what parts (n :: ns) m → Forall (λ n, 0 ≤ n < 10 ^ 8) (n :: ns) →
  ∃ info, components tag what m = Some info ∧ read_version tag info = n :: ns.
Proof.
  intros [E H] Hr. assert (Forall (λ n, 0 ≤ n) (n :: ns)) as Hpos.
  { eapply Forall_impl; [exact Hr|]. intros k [Hk _]. exact Hk. }
  unfold components, initialisers. rewrite E. change (drop 1 parts) with (tail parts).
  rewrite (further_components_holds _ (tail parts) _ _ H). eexists. split; [done|].
  unfold read_version, array. rewrite <-!app_assoc, drop_app_length, (app_assoc (DEC n)).
  change (chars "]" ++ [0]) with (93 :: [0]). rewrite until_end.
  - rewrite cut_dotted by done. rewrite <-list_fmap_compose. rewrite <-(list_fmap_id (n :: ns)) at 2.
    apply list_fmap_ext. intros i k Hk. apply DEC_value. exact (Forall_lookup_1 _ _ _ _ Hr Hk).
  - rewrite elem_of_app. inversion Hpos; subst.
    intros [Hin|Hin]; revert Hin; [apply not_in_digits; [lia|by apply DEC_digits]|by apply not_in_dotted; [lia|lia|]].
Qed.

Lemma branches_at bs c b bs' o m :
  forallb (λ cb, negb (cb.1 m)) bs = true → c m = true →
  branches (bs ++ (c, b) :: bs') o m = b m.
Proof.
  intros Hb Hc. induction bs as [|[c' b'] bs IH]; simpl; [by rewrite Hc|].
  simpl in Hb. destruct (c' m); [done|]. by apply IH.
Qed.

Lemma define_dec x y n m :
  m !! x = Some (Number n) → define y (dec x) m = <[y := Chars (DEC n)]> m.
Proof. intros E. unfold define, expand. by rewrite E. Qed.

Lemma when_dec x y n m :
  m !! x = Some (Number n) → when (defined x) (define y (dec x)) m = <[y := Chars (DEC n)]> m.
Proof. intros E. unfold when, defined. rewrite <-(define_dec x y n m E), E. done. Qed.

(** ** The interface of a program

    What a program's groups of directives promise to what follows. *)

Class Identification (p : program) : Prop := {
  compiler_writes : related (writes compiler_names) (compiler_part p);
  platform_writes : related (writes ["PLATFORM_ID"]) (platform_part p);
  architecture_writes : related (writes ["ARCHITECTURE_ID"]) (architecture_part p);
  standard_writes : related (writes ["C_VERSION"; "CXX_STD"]) (standard_part p);
  compiler_named : naming (λ _, True) "COMPILER_ID" (compiler_part p);
  platform_named : naming (λ _, True) "PLATFORM_ID" (platform_part p);
  architecture_named : naming numeric_ARM "ARCHITECTURE_ID" (architecture_part p);
  standard_named m : is_Some (standard_default p (standard_part p m));
  keeps_characters : related keeps_sized (identified p);
  GNU_first m : is_Some (m !! "__GNUC__") → fst (for_GNU p) m = true;
  GNU_numbers m a b c :
    m !! "__GNUC__" = Some (Number a) → m !! "__GNUC_MINOR__" = Some (Number b) →
    m !! "__GNUC_PATCHLEVEL__" = Some (Number c) →
    snd (for_GNU p) m = <["COMPILER_VERSION_PATCH" := Chars (DEC c)]> (<["COMPILER_VERSION_MINOR" := Chars (DEC b)]>
      (<["COMPILER_VERSION_MAJOR" := Chars (DEC a)]> (<["COMPILER_ID" := Text "GNU"]> m)))
}.

Section Program.
Context (p : program) `{!Identification p}.

(** The names after all directives: each is what its own group leaves. *)
Lemma identified_names m :
  let m1 := compiler_part p m in let m2 := platform_part p m1 in let m3 := architecture_part p m2 in
  writes compiler_names m m1 ∧
  (∀ x, x ∈ compiler_names → identified p m !! x = m1 !! x) ∧
  literal "PLATFORM_ID" (identified p m) = literal "PLATFORM_ID" m2 ∧
  literal "ARCHITECTURE_ID" (identified p m) = literal "ARCHITECTURE_ID" m3 ∧
  identified p m = standard_part p m3.
Proof.
  intros m1 m2 m3. pose proof (platform_writes m1 : writes _ m1 m2) as H2.
  pose proof (architecture_writes m2 : writes _ m2 m3) as H3. pose proof (standard_writes m3) as H4.
  change (identified p m) with (standard_part p m3). split; [apply compiler_writes|]. split; [|split; [|split; [|done]]].
  - intros x Hx.
    assert (Forall (λ y, y ∉ compiler_names) ["PLATFORM_ID"; "ARCHITECTURE_ID"; "C_VERSION"; "CXX_STD"]) as Hn by decided.
    rewrite !Forall_cons in Hn. destruct Hn as (Hp & Ha & Hv & Hs & _).
    rewrite (H4 x), (H3 x), (H2 x); [done|..]; [intros ->%list_elem_of_singleton; done..|].
    intros [->| ->%list_elem_of_singleton]%elem_of_cons; done.
  - rewrite (literal_writes _ _ _ "PLATFORM_ID" H4), (literal_writes _ _ _ "PLATFORM_ID" H3) by decided. done.
  - by rewrite (literal_writes _ _ _ "ARCHITECTURE_ID" H4) by decided.
Qed.

Lemma all_named m :
  numeric_ARM m →
  ∃ compiler platform architecture standard,
    info_compiler (identified p m) = Some (INFO "compiler" compiler) ∧
    info_platform (identified p m) = Some (INFO "platform" platform) ∧
    info_arch (identified p m) = Some (INFO "arch" architecture) ∧
    info_language_standard_default p (identified p m) = Some (INFO "standard_default" standard).
Proof.
  intros HA. destruct (identified_names m) as (Hw & Hc & Hp & Ha & Hs).
  destruct (compiler_named m I) as [c Ec]. destruct (platform_named (compiler_part p m) I) as [q Eq].
  destruct (standard_named (architecture_part p (platform_part p (compiler_part p m)))) as [v Ev].
  destruct (architecture_named (platform_part p (compiler_part p m))) as [a Ea].
  { unfold numeric_ARM, defined. rewrite (platform_writes _ "_M_ARM"), (Hw "_M_ARM") by decided. exact HA. }
  exists c, q, a, v. unfold info_compiler, info_platform, info_arch, info_language_standard_default.
  rewrite Hp, Eq, Ha, Ea. split_and!; [|done|done|by rewrite Hs, Ev].
  assert (literal "COMPILER_ID" (identified p m) = Some c) as ->; [|done].
  unfold literal. rewrite (Hc "COMPILER_ID") by decided. exact Ec.
Qed.

(** The length of the shortest string [main] reads. *)
Definition shortest : nat := if reads_arch p then 12 else 16.

Lemma required_readable m infos :
  sized m → mapM id (required p m) = Some infos → Forall (readable shortest) infos.
Proof.
  intros Hm H%mapM_Some.
  enough (Forall (λ o, ∀ info, o = Some info → readable shortest info) (required p m)) as HF.
  { apply Forall_forall. intros info [i Hi]%list_elem_of_lookup.
    destruct (Forall2_lookup_r _ _ _ _ _ H Hi) as (o & Ho & E). exact (Forall_lookup_1 _ _ _ _ HF Ho info E). }
  unfold required, shortest. clear H. destruct (reads_arch p); rewrite !Forall_app; split_and!; repeat case_match;
    repeat (apply Forall_nil_2 || apply Forall_cons_2); intros info;
    first [ intros E; eapply readable_le; [|by eapply info_version_readable]; lia
          | intros E; eapply readable_le; [|by eapply info_version_internal_readable]; lia
          | apply literal_readable; cbn; lia
          | apply components_readable; [done|cbn; lia]
          | intros [= <-]; apply INFO_readable; cbn; lia ].
Qed.

Lemma main_run m argc r :
  predefines m → void_main p m = false → main p m argc = Some r →
  ∃ infos, mapM id (required p (identified p m)) = Some infos ∧ Forall (readable shortest) infos ∧
    size_of infos ≤ 10 ∧ r = Some <$> require_all infos argc 0.
Proof.
  intros Hm Hv. unfold main. destruct (stops p m); [done|]. rewrite Hv.
  intros (u & _ & (infos & Hi & E)%bind_Some)%bind_Some. apply (inj Some) in E as <-. exists infos.
  split; [done|]. split; [|split; [|done]].
  - eapply required_readable; [|done]. by apply keeps_characters, predefines_sized.
  - apply length_mapM in Hi. unfold size_of. rewrite <-Hi. unfold required. repeat case_match; cbn; lia.
Qed.

Lemma main_bounds m argc r :
  predefines m → void_main p m = false → main p m argc = Some r →
  (0 ≤ argc < Z.of_nat shortest → ∃ v, r = Ok (Some v)) ∧
  (Z.of_nat shortest ≤ argc →
     literal (if reads_arch p then "ARCHITECTURE_ID" else "PLATFORM_ID") (identified p m) = Some "" →
     r = Fail OutOfRange).
Proof.
  intros Hm Hv Hr. destruct (main_run m argc r Hm Hv Hr) as (infos & Hi & Hrd & Hlen & ->).
  destruct (require_all_run infos argc 0) as [Hok Hout].
  { eapply Forall_impl; [exact Hrd|]. intros info [H _]. exact H. }
  { lia. }
  split.
  - intros Ha. destruct Hok as [v ->]; [|by exists v].
    eapply Forall_impl; [exact Hrd|]. intros info [_ H]. unfold size_of. lia.
  - intros Ha Harch. rewrite Hout; [done|]. apply Exists_exists.
    exists (INFO (if reads_arch p then "arch" else "platform") ""). revert Ha Harch. unfold shortest.
    destruct (reads_arch p) eqn:Er; intros Ha Harch; (split; [|vm_compute size_of; lia]).
    + apply (mapM_id_elem _ _ (info_arch (identified p m)) _ Hi); [|by unfold info_arch; rewrite Harch].
      unfold required. rewrite Er. do 2 apply list_elem_of_further. apply list_elem_of_here.
    + apply (mapM_id_elem _ _ (info_platform (identified p m)) _ Hi); [|by unfold info_platform; rewrite Harch].
      unfold required. rewrite Er. apply list_elem_of_further, list_elem_of_here.
Qed.

Lemma GNU_read_back m a b c :
  forallb (λ cb, negb (cb.1 m)) (before_GNU p) = true →
  m !! "__GNUC__" = Some (Number a) → m !! "__GNUC_MINOR__" = Some (Number b) →
  m !! "__GNUC_PATCHLEVEL__" = Some (Number c) →
  Forall (λ n, 0 ≤ n < 10 ^ 8) [a; b; c] → Forall (λ x, m !! x = None) compiler_names →
  info_compiler (identified p m) = Some (INFO "compiler" "GNU") ∧
  ∃ info, info_version (identified p m) = Some info ∧ read_version "compiler_version" info = [a; b; c].
Proof.
  intros Hbs Ea Eb Ec Hr Hn. destruct (identified_names m) as (_ & Hid & _).
  assert (compiler_part p m = snd (for_GNU p) m) as E.
  { unfold compiler_part. destruct (for_GNU p) as [cond block] eqn:Eg.
    apply branches_at; [exact Hbs|]. pose proof (GNU_first m) as H. rewrite Eg in H. apply H. by rewrite Ea. }
  rewrite E, (GNU_numbers m a b c Ea Eb Ec) in Hid. rewrite Forall_forall in Hn. split.
  { unfold info_compiler, literal. rewrite Hid by decided. by simplify_map_eq. }
  unfold info_version. assert (defined "COMPILER_VERSION" (identified p m) = false) as ->.
  { unfold defined. rewrite Hid by decided. rewrite !lookup_insert_ne by discriminate.
    by rewrite Hn by decided. }
  apply components_read; [|exact Hr]. repeat split.
  - change ("COMPILER" +:+ "_VERSION_MAJOR")%string with "COMPILER_VERSION_MAJOR".
    rewrite Hid by decided. by simplify_map_eq.
  - change ("COMPILER" +:+ "_VERSION_MINOR")%string with "COMPILER_VERSION_MINOR".
    rewrite Hid by decided. by simplify_map_eq.
  - change ("COMPILER" +:+ "_VERSION_PATCH")%string with "COMPILER_VERSION_PATCH".
    rewrite Hid by decided. by simplify_map_eq.
  - cbn [holds]. change ("COMPILER" +:+ "_VERSION_TWEAK")%string with "COMPILER_VERSION_TWEAK".
    rewrite Hid by decided. rewrite !lookup_insert_ne by discriminate. by rewrite Hn by decided.
Qed.
End Program.
