(* ===== verification/CompilerIds.v ===== *)
(** * The four programs that identify a compiler

    CMakeCCompilerId.c and CMakeCXXCompilerId.cpp of CMake 3.22.2 and 3.24.2, each
    a [program] out of the groups of directives of CompilerId.v and its own: what
    the later release adds (IBMClang, LCC, the new macros of the Analog Devices
    compilers) and what C++ has in the place of the language version.  Where a
    file repeats the text of the first but for names, its groups are those of
    CompilerId.v at the names of that file.  Each is an instance of
    [Identification], so that what follows holds of the four, and the two releases
    of a language agree on every compiler that neither has macros of its own for. *)

From stdpp Require Import pretty.
From S2P Require Import Prelude CompilerId.

Local Open Scope Z_scope.

(** ** What C++ and the later release have of their own *)

Definition Comeau : block :=
  blocks [ID "Comeau"; version "COMPILER" [dec_of "__COMO_VERSION__" (λ n, n ÷ 100);
                                           dec_of "__COMO_VERSION__" (λ n, Z.rem n 100)]].

(** A C++ compiler may define [__GNUG__] alone. *)
Definition GNU_CXX : block :=
  blocks [ID "GNU";
    branches [(defined "__GNUC__", define "COMPILER_VERSION_MAJOR" (dec "__GNUC__"))]
             (define "COMPILER_VERSION_MAJOR" (dec "__GNUG__"));
    when (defined "__GNUC_MINOR__") (define "COMPILER_VERSION_MINOR" (dec "__GNUC_MINOR__"));
    when (defined "__GNUC_PATCHLEVEL__") (PATCH (dec "__GNUC_PATCHLEVEL__"))].

Definition IBMClang : block :=
  blocks [ID "IBMClang";
    version "COMPILER" [dec "__open_xl_version__"; dec "__open_xl_release__";
                        dec "__open_xl_modification__"; dec "__open_xl_ptf_fix_level__"]].
Definition ibmclang : condition * block :=
  (both (defined "__open_xl__") (defined "__clang__"), IBMClang).

Definition LCC : block :=
  blocks [ID "LCC"; version "COMPILER" [λ _, Chars (DEC 1)];
    when (defined "__LCC__") (define "COMPILER_VERSION_MINOR" (dec_of "__LCC__" (λ n, n - 100)));
    when (defined "__LCC_MINOR__") (PATCH (dec "__LCC_MINOR__"));
    when (both (defined "__GNUC__") (defined "__GNUC_MINOR__"))
      (blocks [SIM "GNU"; version "SIMULATE" [dec "__GNUC__"; dec "__GNUC_MINOR__"];
               when (defined "__GNUC_PATCHLEVEL__")
                 (define "SIMULATE_VERSION_PATCH" (dec "__GNUC_PATCHLEVEL__"))])].
Definition lcc : condition * block :=
  (both (defined "__LCC__") (any_defined ["__GNUC__"; "__GNUG__"; "__MCST__"]), LCC).

Definition ADI : block :=
  blocks [ID "ADSP";
    when (defined "__VERSIONNUM__")
      (version "COMPILER" [dec_of "__VERSIONNUM__" (λ n, byte_of n 24);
                           dec_of "__VERSIONNUM__" (λ n, byte_of n 16);
                           dec_of "__VERSIONNUM__" (λ n, byte_of n 8);
                           dec_of "__VERSIONNUM__" (λ n, Z.land n 255)])].
Definition adi : condition * block := (defined "_ADI_COMPILER", ADI).

Definition adi_platform : condition * block := (defined "_ADI_COMPILER", PLATFORM "ADSP").
Definition adi_architectures : list (condition * block) :=
  [(defined "__ADSPSHARC__", ARCH "SHARC"); (defined "__ADSPBLACKFIN__", ARCH "Blackfin")].

(** The version of the language: a number that [#if] compares. *)
Definition CXX_STD : block :=
  branches
    [(both (both (defined "__INTEL_COMPILER") (defined "_MSVC_LANG")) (test "_MSVC_LANG" (λ n, n <? 201403)),
      branches
        [(defined "__INTEL_CXX11_MODE__",
          branches [(defined "__cpp_aggregate_nsdmi", define "CXX_STD" (λ _, Number 201402))]
                   (define "CXX_STD" (λ _, Number 201103)))]
        (define "CXX_STD" (λ _, Number 199711)));
     (both (defined "_MSC_VER") (defined "_MSVC_LANG"), define "CXX_STD" (copy_of "_MSVC_LANG"))]
    (define "CXX_STD" (copy_of "__cplusplus")).

Definition standard_name (n : Z) : string :=
  if 202002 <? n then "23"
  else if 201703 <? n then "20"
  else if 201703 <=? n then "17"
  else if 201402 <=? n then "14"
  else if 201103 <=? n then "11"
  else "98".

(** ** CMakeCCompilerId.c, CMake 3.22.2 *)

Definition ghs : condition * block := (defined "__ghs__", GHS).
Definition for_GNUC : condition * block := (defined "__GNUC__", GNU).

Definition CMakeCCompilerId_3_22_2 : program := {|
  before_GNU := intel_to_sun "__SUNPRO_C" ++
                hp_to_zos "__HP_cc" "__DECC" "__DECC_VER" "__IBMC__" ++ ibmxl_to_fujitsu "__IBMC__" ++
                [ghs] ++ tiny_and_bruce ++ sco_to_clang;
  for_GNU := for_GNUC;
  after_GNU := msvc_to_iar adsp ++ [sdcc; hpux];
  platform_part := PLATFORM_ID;
  architecture_part := ARCHITECTURE_ID;
  standard_part := C_VERSION;
  standard_default := literal "C_VERSION";
  extensions_default := extensions;
  stops := defined "__cplusplus";
  void_main := defined "__18CXX";
  reads_arch := true
|}.

(** ** CMakeCXXCompilerId.cpp, CMake 3.22.2 *)

Definition como_to_sun : list (condition * block) :=
  (defined "__COMO__", Comeau) :: intel_to_sun "__SUNPRO_CC".
Definition hp_to_fujitsu_CXX : list (condition * block) :=
  hp_to_zos "__HP_aCC" "__DECCXX" "__DECCXX_VER" "__IBMCPP__" ++ ibmxl_to_fujitsu "__IBMCPP__".
Definition ghs_to_clang_CXX : list (condition * block) := [ghs] ++ sco_to_clang.
Definition for_GNU_or_GNUG : condition * block := (any_defined ["__GNUC__"; "__GNUG__"], GNU_CXX).
Definition msvc_to_hpux_CXX : list (condition * block) := msvc_to_iar adsp ++ [hpux].
Definition PLATFORM_ID_CXX : block := PLATFORM_ID.
Definition ARCHITECTURE_ID_CXX : block := ARCHITECTURE_ID.

Definition standard_default_CXX (m : macros) : option string := Some (standard_name (number m "CXX_STD")).

Definition CMakeCXXCompilerId_3_22_2 : program := {|
  before_GNU := como_to_sun ++ hp_to_fujitsu_CXX ++ ghs_to_clang_CXX;
  for_GNU := for_GNU_or_GNUG;
  after_GNU := msvc_to_hpux_CXX;
  platform_part := PLATFORM_ID_CXX;
  architecture_part := ARCHITECTURE_ID_CXX;
  standard_part := CXX_STD;
  standard_default := standard_default_CXX;
  extensions_default := extensions;
  stops := without (defined "__cplusplus");
  void_main := λ _, false;
  reads_arch := false
|}.

(** ** CMakeCCompilerId.c, CMake 3.24.2 *)

Definition intel_to_sun_C24 : list (condition * block) := intel_to_sun "__SUNPRO_C".
Definition hp_to_fujitsu_C24 : list (condition * block) :=
  hp_to_zos "__HP_cc" "__DECC" "__DECC_VER" "__IBMC__" ++ [ibmclang] ++ ibmxl_to_fujitsu "__IBMC__".
Definition ghs_to_lcc_C24 : list (condition * block) := [ghs] ++ tiny_and_bruce ++ sco_to_clang ++ [lcc].
Definition msvc_to_hpux_C24 : list (condition * block) := msvc_to_iar adi ++ [sdcc; hpux].
Definition PLATFORM_ID_C24 : block :=
  branches (linux_to_tru64 ++ riscos_to_xenix ++ embedded ++ [adi_platform]) (PLATFORM "").
Definition ARCHITECTURE_ID_C24 : block := branches (architectures ++ adi_architectures) (ARCH "").
Definition C_VERSION_C24 : block := C_VERSION.
Definition extensions_C24 : condition :=
  both (any_defined ["__clang__"; "__GNUC__"; "__xlC__"; "__TI_COMPILER_VERSION__"])
       (without (defined "__STRICT_ANSI__")).

Definition CMakeCCompilerId_3_24_2 : program := {|
  before_GNU := intel_to_sun_C24 ++ hp_to_fujitsu_C24 ++ ghs_to_lcc_C24;
  for_GNU := for_GNUC;
  after_GNU := msvc_to_hpux_C24;
  platform_part := PLATFORM_ID_C24;
  architecture_part := ARCHITECTURE_ID_C24;
  standard_part := C_VERSION_C24;
  standard_default := literal "C_VERSION";
  extensions_default := extensions_C24;
  stops := defined "__cplusplus";
  void_main := defined "__18CXX";
  reads_arch := true
|}.

(** ** CMakeCXXCompilerId.cpp, CMake 3.24.2 *)

Definition como_to_sun_CXX24 : list (condition * block) :=
  (defined "__COMO__", Comeau) :: intel_to_sun "__SUNPRO_CC".
Definition hp_to_fujitsu_CXX24 : list (condition * block) :=
  hp_to_zos "__HP_aCC" "__DECCXX" "__DECCXX_VER" "__IBMCPP__" ++ [ibmclang] ++ ibmxl_to_fujitsu "__IBMCPP__".
Definition ghs_to_lcc_CXX24 : list (condition * block) := [ghs] ++ sco_to_clang ++ [lcc].
Definition for_GNU_CXX24 : condition * block := (any_defined ["__GNUC__"; "__GNUG__"], GNU_CXX).
Definition msvc_to_hpux_CXX24 : list (condition * block) := msvc_to_iar adi ++ [hpux].
Definition PLATFORM_ID_CXX24 : block :=
  branches (linux_to_tru64 ++ riscos_to_xenix ++ embedded ++ [adi_platform]) (PLATFORM "").
Definition ARCHITECTURE_ID_CXX24 : block := branches (architectures ++ adi_architectures) (ARCH "").
Definition standard_part_CXX24 : block := CXX_STD.
Definition standard_default_CXX24 (m : macros) : option string := Some (standard_name (number m "CXX_STD")).
Definition extensions_CXX24 : condition :=
  both (any_defined ["__clang__"; "__GNUC__"; "__xlC__"; "__TI_COMPILER_VERSION__"])
       (without (defined "__STRICT_ANSI__")).

Definition CMakeCXXCompilerId_3_24_2 : program := {|
  before_GNU := como_to_sun_CXX24 ++ hp_to_fujitsu_CXX24 ++ ghs_to_lcc_CXX24;
  for_GNU := for_GNU_CXX24;
  after_GNU := msvc_to_hpux_CXX24;
  platform_part := PLATFORM_ID_CXX24;
  architecture_part := ARCHITECTURE_ID_CXX24;
  standard_part := standard_part_CXX24;
  standard_default := standard_default_CXX24;
  extensions_default := extensions_CXX24;
  stops := without (defined "__cplusplus");
  void_main := λ _, false;
  reads_arch := false
|}.

(** Their [main]s. *)
Definition main_C_3_22_2 := main CMakeCCompilerId_3_22_2.
Definition main_CXX_3_22_2 := main CMakeCXXCompilerId_3_22_2.
Definition main_C_3_24_2 := main CMakeCCompilerId_3_24_2.
Definition main_CXX_3_24_2 := main CMakeCXXCompilerId_3_24_2.

Definition programs : list program :=
  [CMakeCCompilerId_3_22_2; CMakeCXXCompilerId_3_22_2; CMakeCCompilerId_3_24_2; CMakeCXXCompilerId_3_24_2].

(** ** What the directives promise *)


Ltac writing := directives; apply writes_define; decided.

(** What a name is given is made of characters: a literal, a number, or digits. *)
Ltac sizing :=
  directives; apply sized_define; intros m Hm; try exact I; auto with icee;
  first [ apply DEC_sized | by unfold STRINGIFY; destruct (m !! "_M_ARM") as [[]|] ].

Lemma GNU_defines m a b c :
  m !! "__GNUC__" = Some (Number a) → m !! "__GNUC_MINOR__" = Some (Number b) →
  m !! "__GNUC_PATCHLEVEL__" = Some (Number c) →
  GNU m = <["COMPILER_VERSION_PATCH" := Chars (DEC c)]> (<["COMPILER_VERSION_MINOR" := Chars (DEC b)]>
    (<["COMPILER_VERSION_MAJOR" := Chars (DEC a)]> (<["COMPILER_ID" := Text "GNU"]> m))).
Proof.
  intros Ea Eb Ec. unfold GNU, version. cbn [blocks zip_with parts id].
  change (ID "GNU" m) with (<["COMPILER_ID" := Text "GNU"]> m).
  rewrite (define_dec _ _ a) by (by rewrite lookup_insert_ne).
  rewrite (when_dec "__GNUC_MINOR__" _ b) by (by rewrite !lookup_insert_ne).
  by rewrite (when_dec "__GNUC_PATCHLEVEL__" _ c) by (by rewrite !lookup_insert_ne).
Qed.

(** Where [__GNUC__] is defined the two GNU branches do the same. *)
Lemma GNU_CXX_is_GNU m : is_Some (m !! "__GNUC__") → GNU_CXX m = GNU m.
Proof.
  intros H. unfold GNU_CXX, GNU, version. cbn [blocks branches zip_with parts id].
  assert (defined "__GNUC__" (ID "GNU" m) = true) as ->; [|done].
  unfold defined, define. rewrite lookup_insert_ne by discriminate. by apply bool_decide_true.
Qed.

(** The two releases differ in the platforms and architectures of Analog Devices. *)
Lemma PLATFORM_ID_names b :
  b = PLATFORM_ID ∨ b = PLATFORM_ID_C24 →
  related (writes ["PLATFORM_ID"]) b ∧ naming (λ _, True) "PLATFORM_ID" b ∧ related keeps_sized b.
Proof. intros [->| ->]; (split; [writing|split; [named|sizing]]). Qed.

Lemma ARCHITECTURE_ID_names b :
  b = ARCHITECTURE_ID ∨ b = ARCHITECTURE_ID_C24 →
  related (writes ["ARCHITECTURE_ID"]) b ∧ naming numeric_ARM "ARCHITECTURE_ID" b ∧ related keeps_sized b.
Proof.
  intros [->| ->]; (split; [writing|split; [|sizing]]); named; intros m H;
    (assert (numeric_ARM m ∧ defined "_M_ARM" m = true) as [Hn [n Hm]%Hn] by naive_solver);
    exists ("ARMV" +:+ pretty n); unfold literal, define, STRINGIFY; by rewrite Hm, lookup_insert_eq.
Qed.

(** One goal for each program. *)
Ltac each_program H :=
  unfold programs in H; rewrite !elem_of_cons, elem_of_nil in H; destruct H as [->|[->|[->|[->|[]]]]];
  cbv beta iota delta [platform_part architecture_part standard_part standard_default CMakeCCompilerId_3_22_2
    CMakeCXXCompilerId_3_22_2 CMakeCCompilerId_3_24_2 CMakeCXXCompilerId_3_24_2].

Lemma compiler_part_writes p : p ∈ programs → related (writes compiler_names) (compiler_part p).
Proof. intros Hp. each_program Hp; writing. Qed.

Lemma compiler_part_named p : p ∈ programs → naming (λ _, True) "COMPILER_ID" (compiler_part p).
Proof. intros Hp. each_program Hp; named. Qed.

Lemma compiler_part_sized p : p ∈ programs → related keeps_sized (compiler_part p).
Proof. intros Hp. each_program Hp; sizing. Qed.

Lemma standard_part_keeps p :
  p ∈ programs →
  related (writes ["C_VERSION"; "CXX_STD"]) (standard_part p) ∧ related keeps_sized (standard_part p) ∧
  ∀ m, is_Some (standard_default p (standard_part p m)).
Proof.
  intros Hp. split; [|split].
  - each_program Hp; writing.
  - each_program Hp; sizing.
  - assert (naming (λ _, True) "C_VERSION" C_VERSION) as Hv by named.
    intros m. destruct (Hv m I) as [v Ev]. each_program Hp; by eexists.
Qed.

Lemma platform_part_names p :
  p ∈ programs →
  related (writes ["PLATFORM_ID"]) (platform_part p) ∧
  naming (λ _, True) "PLATFORM_ID" (platform_part p) ∧ related keeps_sized (platform_part p).
Proof.
  intros Hp. apply PLATFORM_ID_names. each_program Hp; [by left|by left|by right|by right].
Qed.

Lemma architecture_part_names p :
  p ∈ programs →
  related (writes ["ARCHITECTURE_ID"]) (architecture_part p) ∧
  naming numeric_ARM "ARCHITECTURE_ID" (architecture_part p) ∧ related keeps_sized (architecture_part p).
Proof.
  intros Hp. apply ARCHITECTURE_ID_names. each_program Hp; [by left|by left|by right|by right].
Qed.

Lemma programs_identify p : p ∈ programs → Identification p.
Proof.
  intros Hp. destruct (platform_part_names p Hp) as (HPw & HPn & HPs).
  destruct (architecture_part_names p Hp) as (HAw & HAn & HAs).
  destruct (standard_part_keeps p Hp) as (HSw & HSs & HSn).
  constructor; try done.
  - by apply compiler_part_writes.
  - by apply compiler_part_named.
  - intros m Hm. apply HSs, HAs, HPs, (compiler_part_sized p Hp m Hm).
  - intros m Hm. each_program Hp; cbn; unfold defined; by rewrite bool_decide_true.
  - intros m a b c Ea Eb Ec. rewrite <-(GNU_defines m a b c Ea Eb Ec).
    each_program Hp; first [done|apply GNU_CXX_is_GNU; by rewrite Ea].
Qed.

(** ** What holds of the four programs *)

(** Whatever the compiler predefines, each program declares the four strings the
    build looks for: no chain of conditions leaves its name without a definition. *)
Theorem identification_total p m :
  p ∈ programs → numeric_ARM m →
  ∃ compiler platform architecture standard,
    info_compiler (identified p m) = Some (INFO "compiler" compiler) ∧
    info_platform (identified p m) = Some (INFO "platform" platform) ∧
    info_arch (identified p m) = Some (INFO "arch" architecture) ∧
    info_language_standard_default p (identified p m) = Some (INFO "standard_default" standard).
Proof. intros Hp%programs_identify. by apply all_named. Qed.

(** [main] indexes every string with [argc]: below the length of the shortest it
    returns, and where the name of the architecture (of the platform, in C++) is
    empty, as it is for every compiler the program has no name for, a larger [argc]
    reads past the terminator of the shortest. *)
Theorem main_index_bounds p m argc r :
  p ∈ programs → predefines m → void_main p m = false → main p m argc = Some r →
  (0 ≤ argc < Z.of_nat (shortest p) → ∃ v, r = Ok (Some v)) ∧
  (Z.of_nat (shortest p) ≤ argc →
     literal (if reads_arch p then "ARCHITECTURE_ID" else "PLATFORM_ID") (identified p m) = Some "" →
     r = Fail OutOfRange).
Proof. intros Hp%programs_identify. by apply main_bounds. Qed.

(** C36: A compiler that none of the earlier conditions takes, and that predefines the
    three version macros of GCC as numbers below [10 ^ 8], is identified as GNU by
    each of the four programs, and what the build reads out of the version string are
    the three numbers. *)
Theorem GNU_version_read_back p m a b c :
  p ∈ programs → forallb (λ cb, negb (cb.1 m)) (before_GNU p) = true →
  m !! "__GNUC__" = Some (Number a) → m !! "__GNUC_MINOR__" = Some (Number b) →
  m !! "__GNUC_PATCHLEVEL__" = Some (Number c) →
  Forall (λ n, 0 ≤ n < 10 ^ 8) [a; b; c] → Forall (λ x, m !! x = None) compiler_names →
  info_compiler (identified p m) = Some (INFO "compiler" "GNU") ∧
  ∃ info, info_version (identified p m) = Some info ∧ read_version "compiler_version" info = [a; b; c].
Proof. intros Hp%programs_identify. by apply GNU_read_back. Qed.

(** *** The releases agree *)

(** A chain of conditions does what it does with the branches that hold alone. *)
Abbreviation live m bs := (filter (λ cb : condition * block, fst cb m = true) bs).

Lemma branches_live bs o m : branches bs o m = branches (live m bs) o m.
Proof.
  induction bs as [|[c b] bs IH]; [done|]. destruct (c m) eqn:E.
  - rewrite filter_cons_True by done. simpl. by rewrite E.
  - rewrite filter_cons_False by (cbn; congruence). simpl. by rewrite E.
Qed.

Lemma live_app cb bs bs' m : live m (bs ++ cb :: bs') = live m bs ++ live m [cb] ++ live m bs'.
Proof. by rewrite (filter_app _ bs), (filter_app _ [cb] bs'). Qed.

Lemma live_skip cb bs m : fst cb m = false → live m (cb :: bs) = live m bs.
Proof. intros H. apply filter_cons_False. congruence. Qed.

(** Only the later release asks for the first four; the earlier one knows the
    compilers of Analog Devices by the others. *)
Definition newly_known : list string :=
  ["__open_xl__"; "__LCC__"; "_ADI_COMPILER"; "__ADSPSHARC__";
   "__VISUALDSPVERSION__"; "__ADSPBLACKFIN__"; "__ADSPTS__"; "__ADSP21000__"].

Definition same_language (p q : program) : Prop :=
  (p, q) ∈ [(CMakeCCompilerId_3_22_2, CMakeCCompilerId_3_24_2);
            (CMakeCXXCompilerId_3_22_2, CMakeCXXCompilerId_3_24_2)].

(** The two releases of each language. *)
Ltac each_language H :=
  unfold same_language in H; rewrite !elem_of_cons, elem_of_nil in H; destruct H as [[= -> ->]|[[= -> ->]|[]]];
  cbv beta iota delta [before_GNU for_GNU after_GNU platform_part architecture_part standard_part
    standard_default extensions_default stops void_main reads_arch CMakeCCompilerId_3_22_2
    CMakeCXXCompilerId_3_22_2 CMakeCCompilerId_3_24_2 CMakeCXXCompilerId_3_24_2].

Lemma language_programs p q : same_language p q → p ∈ programs.
Proof.
  intros H. unfold programs. rewrite !elem_of_cons, elem_of_nil.
  unfold same_language in H. rewrite !elem_of_cons, elem_of_nil in H.
  destruct H as [[= -> ->]|[[= -> ->]|[]]]; tauto.
Qed.

Section Unknown.
Context (m : macros) (Hm : Forall (λ x, m !! x = None) newly_known).

Lemma undefined x : x ∈ newly_known → defined x m = false.
Proof using Hm.
  intros Hx. rewrite Forall_forall in Hm. unfold defined. rewrite (Hm x Hx). done.
Qed.

Lemma adsp_skipped : fst adsp m = false.
Proof using Hm. cbn. rewrite !undefined by decided. done. Qed.

Lemma added_skipped : fst ibmclang m = false ∧ fst lcc m = false ∧ fst adi m = false ∧
  fst adi_platform m = false ∧ Forall (λ cb, fst cb m = false) adi_architectures.
Proof using Hm.
  split_and!; [| | | |repeat constructor]; cbn; unfold both; rewrite undefined by decided; done.
Qed.

Lemma msvc_to_iar_agrees : live m (msvc_to_iar adsp) = live m (msvc_to_iar adi).
Proof using Hm.
  destruct added_skipped as (_ & _ & Ha & _). pose proof adsp_skipped as Hd.
  assert (∀ cb, msvc_to_iar cb = [(defined "_MSC_VER", MSVC)] ++ cb ::
    [(any_defined ["__IAR_SYSTEMS_ICC__"; "__IAR_SYSTEMS_ICC"], IAR)]) as E by done.
  by rewrite !E, !filter_app, (live_skip adsp), (live_skip adi).
Qed.

Lemma compiler_part_agrees p q : same_language p q → compiler_part p m = compiler_part q m.
Proof using Hm.
  destruct added_skipped as (Hi & Hl & _). pose proof msvc_to_iar_agrees as Hv.
  intros Hs. unfold compiler_part.
  rewrite branches_live, (branches_live (_ ++ _ :: after_GNU q)), !live_app. f_equal. each_language Hs.
  all: unfold hp_to_fujitsu_C24, ghs_to_lcc_C24, msvc_to_hpux_C24, hp_to_fujitsu_CXX24, ghs_to_lcc_CXX24,
    msvc_to_hpux_CXX24, hp_to_fujitsu_CXX, ghs_to_clang_CXX, msvc_to_hpux_CXX, intel_to_sun_C24, como_to_sun_CXX24, como_to_sun, for_GNU_CXX24.
  all: rewrite !filter_app, Hv, (live_skip ibmclang), (live_skip lcc), filter_nil, app_nil_r, <-!app_assoc by done.
  all: reflexivity.
Qed.

Lemma PLATFORM_ID_agrees : PLATFORM_ID m = PLATFORM_ID_C24 m.
Proof using Hm.
  destruct added_skipped as (_ & _ & _ & Hp & _). unfold PLATFORM_ID, PLATFORM_ID_C24.
  rewrite branches_live, (branches_live (_ ++ _ ++ _ ++ [adi_platform])), !filter_app, (live_skip adi_platform) by done.
  by rewrite filter_nil, app_nil_r.
Qed.

Lemma ARCHITECTURE_ID_agrees : ARCHITECTURE_ID m = ARCHITECTURE_ID_C24 m.
Proof using Hm.
  destruct added_skipped as (_ & _ & _ & _ & Ha). unfold ARCHITECTURE_ID, ARCHITECTURE_ID_C24.
  rewrite branches_live, (branches_live (_ ++ adi_architectures)), filter_app.
  assert (live m adi_architectures = []) as ->; [|by rewrite app_nil_r].
  unfold adi_architectures in *. rewrite !Forall_cons in Ha. destruct Ha as (H1 & H2 & _).
  by rewrite (live_skip _ _ _ H1), (live_skip _ _ _ H2).
Qed.
End Unknown.

Lemma still_unknown xs m m' :
  writes xs m m' → forallb (λ x, bool_decide (x ∉ xs)) newly_known = true →
  Forall (λ x, m !! x = None) newly_known → Forall (λ x, m' !! x = None) newly_known.
Proof.
  intros Hw Hx. rewrite !Forall_forall. intros Hm x Hin. rewrite forallb_forall in Hx.
  rewrite Hw; [by apply Hm|]. apply list_elem_of_In, Hx, bool_decide_eq_true_1 in Hin. exact Hin.
Qed.

Lemma identified_agrees p q m :
  same_language p q → Forall (λ x, m !! x = None) newly_known → identified p m = identified q m.
Proof.
  intros Hs Hm. pose proof (compiler_part_agrees m Hm p q Hs) as Hc.
  pose proof (language_programs p q Hs) as Hp.
  pose proof (still_unknown _ _ _ (compiler_part_writes p Hp m) ltac:(decided) Hm) as Hm1.
  destruct (platform_part_names p Hp) as (Hw & _).
  pose proof (still_unknown _ _ _ (Hw (compiler_part p m)) ltac:(decided) Hm1) as Hm2.
  pose proof (PLATFORM_ID_agrees _ Hm1) as HP. pose proof (ARCHITECTURE_ID_agrees _ Hm2) as HA.
  change (identified p m) with (standard_part p (architecture_part p (platform_part p (compiler_part p m)))).
  change (identified q m) with (standard_part q (architecture_part q (platform_part q (compiler_part q m)))).
  rewrite <-Hc. revert HP HA. generalize (compiler_part p m). intros m1.
  each_language Hs; unfold PLATFORM_ID_CXX, ARCHITECTURE_ID_CXX; intros -> ->; reflexivity.
Qed.

Lemma identified_elsewhere p m x :
  p ∈ programs → x ∉ compiler_names ++ ["PLATFORM_ID"; "ARCHITECTURE_ID"; "C_VERSION"; "CXX_STD"] →
  identified p m !! x = m !! x.
Proof.
  intros Hp Hx. rewrite !not_elem_of_app, !not_elem_of_cons in Hx. destruct Hx as (Hc & H1 & H2 & H3 & H4 & _).
  change (identified p m) with (standard_part p (architecture_part p (platform_part p (compiler_part p m)))).
  destruct (platform_part_names p Hp) as (HP & _). destruct (architecture_part_names p Hp) as (HA & _).
  destruct (standard_part_keeps p Hp) as (HS & _).
  rewrite (HS _ x), (HA _ x), (HP _ x), (compiler_part_writes p Hp _ x); [done|exact Hc|..];
    rewrite !not_elem_of_cons; split_and?; (done || apply not_elem_of_nil).
Qed.

(** Two programs whose strings agree are one. *)
Lemma main_agrees p q m argc :
  stops p = stops q → void_main p = void_main q → reads_arch p = reads_arch q →
  standard_default p = standard_default q → identified p m = identified q m →
  extensions_default p (identified p m) = extensions_default q (identified p m) →
  main p m argc = main q m argc.
Proof.
  intros H1 H2 H3 H4 H5 H6. unfold main, declared, required, info_language_standard_default,
    info_language_extensions_default. by rewrite <-H1, <-H2, <-H3, <-H4, <-H5, H6.
Qed.


(** ** GCC on Linux *)

Definition gcc : macros := list_to_map
  [("__GNUC__", Number 11); ("__GNUC_MINOR__", Number 4); ("__GNUC_PATCHLEVEL__", Number 0);
   ("__linux__", Number 1); ("__x86_64__", Number 1); ("__STDC__", Number 1);
   ("__STDC_VERSION__", Number 201710)].
Definition gxx : macros := <["__cplusplus" := Number 201703]> (<["__GNUG__" := Number 11]> gcc).

Example gcc_on_linux :
  let p := CMakeCCompilerId_3_22_2 in let m := identified p gcc in
  (info_compiler m, info_version m, info_platform m, info_language_standard_default p m) =
  (Some (INFO "compiler" "GNU"), Some (INFO "compiler_version" "00000011.00000004.00000000"),
   Some (INFO "platform" "Linux"), Some (INFO "standard_default" "17")).
Proof. vm_compute. reflexivity. Qed.

Example gxx_on_linux :
  let p := CMakeCXXCompilerId_3_24_2 in let m := identified p gxx in
  (info_compiler m, info_version m, info_platform m, info_language_standard_default p m) =
  (Some (INFO "compiler" "GNU"), Some (INFO "compiler_version" "00000011.00000004.00000000"),
   Some (INFO "platform" "Linux"), Some (INFO "standard_default" "17")).
Proof. vm_compute. reflexivity. Qed.

Lemma identification_total_witness :
  ∃ compiler platform architecture standard, let p := CMakeCCompilerId_3_22_2 in
    info_compiler (identified p ∅) = Some (INFO "compiler" compiler) ∧
    info_platform (identified p ∅) = Some (INFO "platform" platform) ∧
    info_arch (identified p ∅) = Some (INFO "arch" architecture) ∧
    info_language_standard_default p (identified p ∅) = Some (INFO "standard_default" standard).
Proof. apply identification_total; [by left|]. intros H. discriminate H. Defined.

Lemma main_index_bounds_witness :
  main_C_3_22_2 gcc 12 = Some (Fail OutOfRange) ∧
  ∃ v, main_CXX_3_24_2 gxx 15 = Some (Ok (Some v)).
Proof.
  split.
  - destruct (main_C_3_22_2 gcc 12) as [r|] eqn:E; [|exfalso; revert E; vm_compute; discriminate].
    destruct (main_index_bounds CMakeCCompilerId_3_22_2 gcc 12 r) as [_ ->];
      [by left|apply predefines_forallb; vm_compute; reflexivity|done|exact E|done|cbn; lia|vm_compute; reflexivity].
  - destruct (main_CXX_3_24_2 gxx 15) as [r|] eqn:E; [|exfalso; revert E; vm_compute; discriminate].
    destruct (main_index_bounds CMakeCXXCompilerId_3_24_2 gxx 15 r) as [[v ->] _];
      [by do 3 right; left|apply predefines_forallb; vm_compute; reflexivity|done|exact E|cbn; lia|by exists v].
Defined.

Lemma GNU_version_read_back_witness :
  info_compiler (identified CMakeCXXCompilerId_3_24_2 gxx) = Some (INFO "compiler" "GNU") ∧
  ∃ info, info_version (identified CMakeCXXCompilerId_3_24_2 gxx) = Some info ∧
    read_version "compiler_version" info = [11; 4; 0].
Proof.
  refine (GNU_version_read_back CMakeCXXCompilerId_3_24_2 gxx 11 4 0 _ _ _ _ _ _ _);
    [by do 3 right; left|vm_compute; reflexivity..| |decided].
  repeat constructor; lia.
Defined.

